(* ===== verification/_CoqProject ===== *)
-Q . S2P
Prelude.v
RustText.v
Ids.v
Runs.v
Approvals.v
Effects.v
PrivilegedOperations.v
ConversationTurns.v
TurnEvents.v
Schedules.v
Scheduler.v
Workspace.v
Preferences.v
Capabilities.v
ExecutionStore.v
Commands.v
ExecutionServices.v
PrivilegedJournal.v
WorkspaceStore.v
WorkspaceServices.v
WorkspaceWorld.v
SchedulerStore.v
SchedulerServices.v
SchedulerWorld.v
SchedulerSafety.v
Settings.v
ConversationStore.v
ForkStore.v
ConversationWorld.v
ConversationReserve.v
ForkWorld.v
ForkCreate.v
ForkCommit.v
ConversationSafety.v
ConversationText.v
ForkSafety.v
