(* ===== verification/Prelude.v ===== *)
(** * Grok Desktop: the durable core of the daemon

    Grok Desktop is an Electron client with a trusted per-user daemon in Rust. The
    daemon keeps everything the assistant does as durable aggregates: runs with the
    approvals and side effects they need, conversation turns with their provider event
    stream, a journal of operations that cross a privileged boundary, the workspace of
    projects, threads, messages, artifacts and automations, and the journal of the
    automation scheduler. The rules of these aggregates are pure code in
    [crates/grok-domain]; the services of [crates/grok-application] compose them over
    storage ports; the daemon runs the services, and [crates/grok-memory] implements the
    ports in memory. This library models that core and proves it correct.

    ** How the code is represented

    - A fallible function returns [result E A]; a method on [&mut self] is a
      [method S E A], a function from the state to the new state and a result, so
      that an error may leave a partly written state, as in Rust.
    - Integers are [Z] and their width is written out: [checked_add u64_max],
      [u32_max] and so on. A [String] is a list of Unicode scalar values
      ([RustText.str]); [len] is its UTF-8 length and [bytes] its encoding.
    - A Rust struct or enum [X] is the type [X.t] of a Module [X], whose
      definitions carry the names of the methods. A [HashMap] is a [gmap].
    - A storage port is a class of operations; the services are written against the
      class and the in-memory store is its instance.
    - Clock readings and generated identifiers are arguments; the scheduler service,
      which reads them many times, gets them, the cancellation token and the isolated
      guest from [SchedulerServices.environment].
    - Code of other packages is a class parameter: [ConversationTurns.UrlParser] (url),
      [RustText.Sha256] (sha2), [Schedules.Chrono] (chrono and its time zones, with the
      laws used in [Schedules.ChronoLaws]), [Schedules.SerdeJson] (serde_json) and
      [WorkspaceStore.Unicode] (the Unicode tables of search). Theorems hold for every
      instance, and their witnesses use concrete ones.
    - Recursion is structural wherever the data allows it. The schedule calculator walks
      dates with the number of dates left as fuel, following cursors uses one more step
      than there are entities, a thread's recorded parents are walked for one step more
      than the greatest fork depth, the provenance of a copied answer for the 257 rounds
      of the source's own loop (65 are enough), chunks of a text are cut for as many
      steps as it has characters, and a printed integer has at most 20 digits; each bound
      is proved or evident to be enough for every input of the function.

    ** Files

    - [Prelude]: results, the method monad and its laws, record update, machine
      integers, the tactics and hint database of the library.
    - [RustText]: Rust strings, UTF-8 length, trimming, splitting, decimal printing.
    - [Ids]: [grok-domain/src/id.rs], the validated identifiers.
    - [Runs], [Approvals], [Effects]: [run.rs], [approval.rs], [effect.rs].
    - [PrivilegedOperations]: [privileged_operation.rs].
    - [ConversationTurns], [TurnEvents]: [conversation.rs], the turn aggregate with its
      lineage and metadata, and the event log of a turn.
    - [Schedules], [Scheduler]: [automation.rs], the schedule calculator, and the
      snapshot, cursor, lease and occurrence of the scheduler.
    - [Workspace]: [workspace.rs], the five workspace aggregates.
    - [Preferences]: [preferences.rs] and [host_execution.rs].
    - [Capabilities]: [capability.rs] and [grok-application/src/capabilities.rs].
    - [ExecutionStore]: the execution port of [grok-application/src/ports.rs], its
      in-memory implementation, and clients that interleave on it.
    - [Commands]: [error.rs] and [mutations.rs] of [grok-application].
    - [ExecutionServices]: [runs.rs], [approvals.rs] and [effects.rs] of
      [grok-application], against the port.
    - [PrivilegedJournal]: [grok-application/src/privileged_operations.rs] and the
      journal of [grok-memory/src/lib.rs].
    - [WorkspaceStore], [WorkspaceServices], [WorkspaceWorld]: the workspace port with
      its in-memory implementation and search, [grok-application/src/workspace.rs], and
      clients that interleave on one store.
    - [SchedulerStore], [SchedulerServices], [SchedulerWorld], [SchedulerSafety]: the
      scheduler journal of [grok-memory/src/lib.rs], the service of
      [grok-application/src/automation_scheduler.rs], the invariants of a journal that
      daemons, run services and workspace services share, and the properties of the
      service running on it.
    - [Settings]: the preference, chat model and host policy ports, their in-memory
      implementation, [preferences.rs], [chat_models.rs] and [models.rs].
    - [ConversationStore]: the conversation port of [grok-application/src/conversation.rs]
      with its in-memory implementation, and [usage_summary.rs].
    - [ForkStore]: the fork operations of the same port and their in-memory
      implementation: plans, copied messages and their provenance, fork commands,
      deliveries and the metadata of a family of threads.
    - [ConversationWorld], [ConversationReserve], [ConversationSafety],
      [ConversationText]: the invariant of the conversation tables and that every call
      keeps it, clients that interleave on them, and the theorems about turns, streamed
      text and usage totals.
    - [ForkWorld], [ForkCreate], [ForkCommit], [ForkSafety]: the invariant of the fork
      tables, what an accepted plan consists of, that its creation keeps both invariants,
      and the theorems about forks.

    ** What the theorems show

    - Aggregates: the restart check of a stored snapshot accepts exactly the reachable
      values ([turn_restore_exact], [privileged_restore_exact],
      [occurrence_survives_restart], [workspace_survives_restart]). Where it accepts
      more, that is a theorem too ([privileged_restore_accepts_unreachable]). Following
      the recorded parents of a thread ends at its root.
    - At most once: an effect, a provider call, a non-idempotent privileged operation and
      a scheduled run are dispatched at most once under every sequence of calls.
    - Schedules: canonical text round trips, and the calculator returns exactly the slots
      of its window.
    - Event log: replay accepts exactly the well-formed streams, and the log never refuses
      what the turn accepted.
    - Stores: under every interleaving of clients, commits linearize and none is lost, and
      every table stays consistent with the others ([concurrent_commits_linearize],
      [journal_consistent], [workspace_consistent], [scheduler_journal_consistent],
      [conversation_store_consistent]).
    - Conversations: a thread has at most one active turn, a turn starts the provider at
      most once and is never reopened ([provider_started_once]), a finished turn reads
      back with the whole text that was streamed ([finished_turn_is_durable]), replayed
      reservations, cancellations and text chunks return the first outcome and write
      nothing, and the usage summary is the exact saturated total.
    - Forks: a fork command has one outcome for ever ([fork_command_once]), a delivery is
      acknowledged once, commands, deliveries, families and children stay consistent and
      within their bounds ([fork_store_consistent]), and the metadata of a thread names,
      through all copies of copies, the turn that gave each answer
      ([fork_metadata_exact]). All theorems about conversations hold for interleavings
      with forks.
    - Services: the audit stream determines the state of every run, a replayed command
      returns its first outcome and changes nothing, the hashed command is unambiguous,
      pages tile a listing, search is exact, recovery after a crash always succeeds.
    - Scheduler: a lease that was taken over fences its former owner out, an evaluation
      accounts for every slot, and the guest is asked at most once per run, whatever other
      daemons do between two store calls.
    - Defects, each as an executable run of the services from the empty store: an
      automation is dispatched for its first sixteen occurrences only
      ([automation_stops_after_sixteen]), a long title ends every dispatch pass
      ([long_title_blocks_dispatch]), and in the in-memory journal renaming a thread or
      recovering a cancelled run stops the scheduler ([renaming_blocks_dispatch],
      [recovery_strands_overlap]).

    ** What is not modelled

    Asynchrony inside one store call (each holds a mutex for its whole body), SQL
    storage, network, file-system and process code, the wire protocol, the Electron
    client and the Go guest. Of the in-memory store, the artifact import and credential
    tables are not modelled.
    [String] conversion of errors to messages is kept abstract in [Commands.message]. *)
From stdpp Require Export base option list gmap.
From Stdlib Require Export ZArith Lia.
From stdpp Require Import numbers.

#[global] Open Scope Z_scope.
#[global] Set Default Goal Selector "!".
#[global] Set Warnings "-clear-no-such-hyp".

(** ** Fallible results: Rust's [Result<T, E>] *)

Inductive result (E A : Type) : Type :=
| Ok (a : A)
| Err (e : E).
Arguments Ok {E A} a.
Arguments Err {E A} e.

#[export] Instance result_eq_dec {E A} `{!EqDecision E, !EqDecision A} :
  EqDecision (result E A).
Proof. solve_decision. Defined.

#[export] Instance result_ret {E} : MRet (result E) := λ A a, Ok a.
#[export] Instance result_bind {E} : MBind (result E) := λ A B f r,
  match r with Ok a => f a | Err e => Err e end.

Definition is_ok {E A} (r : result E A) : bool :=
  match r with Ok _ => true | Err _ => false end.

(** [Option::ok_or]. *)
Definition ok_or {E A} (e : E) (o : option A) : result E A :=
  match o with Some a => Ok a | None => Err e end.

(** [Result::map_err]. *)
Definition map_err {E E' A} (f : E → E') (r : result E A) : result E' A :=
  match r with Ok a => Ok a | Err e => Err (f e) end.

Lemma map_err_Ok {E E' A} (f : E → E') (r : result E A) a : map_err f r = Ok a ↔ r = Ok a.
Proof. destruct r; cbn; naive_solver. Qed.

(** Splits a chain of [?] operators that succeeded. *)
Lemma result_bind_Ok {E A B} (r : result E A) (k : A → result E B) b :
  r ≫= k = Ok b ↔ ∃ a, r = Ok a ∧ k a = Ok b.
Proof. destruct r; cbn; naive_solver. Qed.
Ltac split_binds H :=
  repeat (let x := fresh "x" in let Hx := fresh "Hx" in
          apply result_bind_Ok in H as (x & Hx & H)).

(** [if b { return Err(e) }] in a function without a receiver. *)
Definition reject_if {E} (b : bool) (e : E) : result E unit :=
  if b then Err e else Ok tt.

Lemma reject_if_Ok {E} (b : bool) (e : E) u : reject_if b e = Ok u ↔ b = false.
Proof. destruct b, u; cbn; naive_solver. Qed.
Lemma reject_then_Ok {E A} (b : bool) (e : E) (a a' : A) :
  (_ ← reject_if b e; Ok a) = Ok a' ↔ a' = a ∧ b = false.
Proof. destruct b; cbn; naive_solver. Qed.

(** ** Methods with a [&mut self] receiver

    A method body is a function from the receiver to the receiver it leaves
    behind and the result it returns. The receiver is threaded through the
    error branch as well, so that whatever a body wrote before an early return
    stays visible. *)

Definition method (S E A : Type) : Type := S → S * result E A.

#[export] Instance method_ret {S E} : MRet (method S E) := λ A a s, (s, Ok a).
#[export] Instance method_bind {S E} : MBind (method S E) := λ A B k m s,
  match m s with
  | (s', Ok a) => k a s'
  | (s', Err e) => (s', Err e)
  end.

(** Reading the receiver. *)
Definition self {S E} : method S E S := λ s, (s, Ok s).
(** Assigning to the receiver. *)
Definition assign {S E} (f : S → S) : method S E unit := λ s, (f s, Ok tt).
(** [return Err(e)]. *)
Definition throw {S E A} (e : E) : method S E A := λ s, (s, Err e).
(** [if b { return Err(e) }]. *)
Definition throw_if {S E} (b : bool) (e : E) : method S E unit :=
  λ s, (s, if b then Err e else Ok tt).
(** The [?] operator on a result that does not touch the receiver. *)
Definition lift {S E A} (r : result E A) : method S E A := λ s, (s, r).

(** Failure atomicity: an error leaves the receiver as it was. *)
Definition atomic {S E A} (m : method S E A) : Prop :=
  ∀ s s' e, m s = (s', Err e) → s' = s.
Definition readonly {S E A} (m : method S E A) : Prop := ∀ s, (m s).1 = s.
Definition infallible {S E A} (m : method S E A) : Prop :=
  ∀ s s' e, m s ≠ (s', Err e).

Create HintDb methods.

Section method_lemmas.
Context {S E : Type}.

Lemma readonly_atomic {A} (m : method S E A) : readonly m → atomic m.
Proof. intros H s s' e Hm. specialize (H s). by rewrite Hm in H. Qed.

Lemma infallible_atomic {A} (m : method S E A) : infallible m → atomic m.
Proof. intros H s s' e Hm. by destruct (H s s' e). Qed.

Lemma atomic_bind {A B} (m : method S E A) (k : A → method S E B) :
  readonly m → (∀ a, atomic (k a)) → atomic (m ≫= k).
Proof.
  intros Hm Hk s s' e. unfold mbind, method_bind. specialize (Hm s).
  destruct (m s) as [s1 [a|e1]]; cbn in *; subst.
  - apply Hk.
  - intros [= -> _]. done.
Qed.

Lemma atomic_bind_tail {A B} (m : method S E A) (k : A → method S E B) :
  atomic m → (∀ a, infallible (k a)) → atomic (m ≫= k).
Proof.
  intros Hm Hk s s' e. unfold mbind, method_bind.
  destruct (m s) as [s1 [a|e1]] eqn:Hs.
  - intros H. by destruct (Hk a s1 s' e).
  - intros [= <- _]. by eapply Hm.
Qed.

Lemma infallible_bind {A B} (m : method S E A) (k : A → method S E B) :
  infallible m → (∀ a, infallible (k a)) → infallible (m ≫= k).
Proof.
  intros Hm Hk s s' e. unfold mbind, method_bind.
  destruct (m s) as [s1 [a|e1]] eqn:Hs.
  - apply Hk.
  - by destruct (Hm s s1 e1).
Qed.

Lemma readonly_bind {A B} (m : method S E A) (k : A → method S E B) :
  readonly m → (∀ a, readonly (k a)) → readonly (m ≫= k).
Proof.
  intros Hm Hk s. unfold mbind, method_bind. specialize (Hm s).
  destruct (m s) as [s1 [a|e1]]; cbn in *; subst; [apply Hk | done].
Qed.

Lemma method_bind_Ok {A B} (m : method S E A) (k : A → method S E B) s s' b :
  (m ≫= k) s = (s', Ok b) ↔ ∃ s1 a, m s = (s1, Ok a) ∧ k a s1 = (s', Ok b).
Proof.
  unfold mbind, method_bind. destruct (m s) as [s1 [a|e]]; naive_solver.
Qed.

Lemma lift_bind_Ok {A B} (r : result E A) (k : A → method S E B) s s' b :
  (lift r ≫= k) s = (s', Ok b) ↔ ∃ a, r = Ok a ∧ k a s = (s', Ok b).
Proof. unfold mbind, method_bind, lift. destruct r; naive_solver. Qed.

Lemma infallible_ret {A} (a : A) : infallible (mret a : method S E A).
Proof. intros s s' e [=]. Qed.
Lemma infallible_self : infallible (self : method S E S).
Proof. intros s s' e [=]. Qed.
Lemma infallible_assign (f : S → S) : infallible (assign f : method S E unit).
Proof. intros s s' e [=]. Qed.
Lemma readonly_ret {A} (a : A) : readonly (mret a : method S E A).
Proof. done. Qed.
Lemma readonly_self : readonly (self : method S E S).
Proof. done. Qed.
Lemma readonly_throw {A} (e : E) : readonly (throw e : method S E A).
Proof. done. Qed.
Lemma readonly_throw_if b (e : E) : readonly (throw_if b e : method S E unit).
Proof. done. Qed.
Lemma readonly_lift {A} (r : result E A) : readonly (lift r : method S E A).
Proof. done. Qed.
End method_lemmas.

#[export] Hint Resolve readonly_ret readonly_self readonly_throw
  readonly_throw_if readonly_lift infallible_ret infallible_self
  infallible_assign : methods.

(** Proves failure atomicity of a straight-line body: reads and guards first,
    then assignments that cannot fail. *)
Ltac solve_infallible :=
  lazymatch goal with
  | |- infallible (_ ≫= _) =>
      apply infallible_bind; [solve_infallible | intros ?; solve_infallible]
  | |- infallible (if ?b then _ else _) => destruct b; solve_infallible
  | |- _ => solve [auto with methods]
  end.
Ltac solve_readonly :=
  lazymatch goal with
  | |- readonly (_ ≫= _) =>
      apply readonly_bind; [solve_readonly | intros ?; solve_readonly]
  | |- readonly (if ?b then _ else _) => destruct b; solve_readonly
  | |- readonly (match ?x with _ => _ end) => destruct x; solve_readonly
  | |- _ => solve [auto with methods]
  end.
Ltac solve_atomic :=
  lazymatch goal with
  | |- atomic (_ ≫= _) =>
      first [ apply atomic_bind; [solve_readonly | intros ?; solve_atomic]
            | apply atomic_bind_tail; [solve_atomic | intros ?; solve_infallible] ]
  | |- atomic (if ?b then _ else _) => destruct b; solve_atomic
  | |- atomic (match ?x with _ => _ end) => destruct x; solve_atomic
  | |- _ => first [ solve [auto with methods]
                  | apply readonly_atomic; solve_readonly
                  | apply infallible_atomic; solve_infallible ]
  end.

(** ** Running a method for its effect

    [discard] forgets the value; the lemmas take a body apart at its first statement. *)
Definition discard {S E A} (m : method S E A) : method S E unit := _ ← m; mret tt.

Lemma discard_atomic {S E A} (m : method S E A) : atomic m → atomic (discard m).
Proof. intros H. apply atomic_bind_tail; [done|]. intros. apply infallible_ret. Qed.
Lemma lift_atomic {S E A} (r : result E A) : atomic (lift r : method S E A).
Proof. apply readonly_atomic, readonly_lift. Qed.

Lemma discard_Ok {S E A} (m : method S E A) s s' :
  discard m s = (s', Ok tt) → ∃ a, m s = (s', Ok a).
Proof. intros (s1 & a & H & H')%method_bind_Ok. injection H' as ->. by exists a. Qed.

Lemma discard_run {T E A} (m : method T E A) s s1 a :
  m s = (s1, Ok a) → discard m s = (s1, Ok tt).
Proof. intros H. unfold discard, mbind, method_bind. by rewrite H. Qed.
Lemma discard_err {T E A} (m : method T E A) s s1 e :
  m s = (s1, Err e) → discard m s = (s1, Err e).
Proof. intros H. unfold discard, mbind, method_bind. by rewrite H. Qed.
Lemma discard_state {T E A} (m : method T E A) s s' r :
  discard m s = (s', r) → ∃ r', m s = (s', r').
Proof.
  unfold discard, mbind, method_bind. destruct (m s) as [s1 [a|e]]; intros [= <- <-]; eauto.
Qed.

Lemma discard_unit {T E} (m : method T E unit) s : m s = discard m s.
Proof. unfold discard, mbind, method_bind. by destruct (m s) as [? [[]|]]. Qed.

Lemma readonly_bind_inv {T E A B} (m : method T E A) (k : A → method T E B) s s' r :
  readonly m → (m ≫= k) s = (s', r) → s' = s ∨ ∃ a, m s = (s, Ok a) ∧ k a s = (s', r).
Proof.
  intros Hm H. unfold mbind, method_bind in H. specialize (Hm s).
  destruct (m s) as [s1 [a|e]]; cbn in Hm; subst; [right; by exists a|left].
  by simplify_eq.
Qed.

Lemma readonly_bind_Ok {T E A B} (m : method T E A) (k : A → method T E B) s s' b :
  readonly m → (m ≫= k) s = (s', Ok b) → ∃ a, m s = (s, Ok a) ∧ k a s = (s', Ok b).
Proof.
  intros Hm (s1 & a & Ha & H)%method_bind_Ok. specialize (Hm s). rewrite Ha in Hm.
  cbn in Hm. subst. by exists a.
Qed.

Lemma ok_or_Ok {E A} (e : E) (o : option A) a : ok_or e o = Ok a ↔ o = Some a.
Proof. destruct o; cbn; naive_solver. Qed.

Lemma throw_if_Ok {T E} (b : bool) (e : E) (s : T) u :
  throw_if b e s = (s, Ok u) → b = false.
Proof. unfold throw_if. by destruct b. Qed.

(** Unfolds the method combinators, in the goal or in a hypothesis. *)
Ltac run_unfold :=
  cbv [mbind mret method_bind method_ret result_bind result_ret self assign
       throw throw_if lift reject_if ok_or map_err is_ok].
Tactic Notation "run_unfold" "in" hyp(H) :=
  cbv [mbind mret method_bind method_ret result_bind result_ret self assign
       throw throw_if lift reject_if ok_or map_err is_ok] in H.

(** Executes the body in hypothesis [H] symbolically: splits on every guard and
    keeps the branches that agree with the outcome [H] states. *)
Ltac run_in H := run_unfold in H; repeat (case_match; simplify_eq/=).
(** The same for a body in the goal. *)
Ltac run_goal := run_unfold; repeat (case_match; simplify_eq/=).

(** ** Record update

    [r <| f := v |>] is Rust's assignment [self.f = v] on a copy of the
    receiver. A record declares its eta expansion once and every field then has
    a setter that computes. *)

Class Eta (R : Type) := eta_expand : R → R.
Class Setter {R T : Type} (proj : R → T) := setter : T → R → R.
Arguments setter {R T} proj {_} / v r.

Ltac build_setter :=
  lazymatch goal with
  | |- @Setter ?R ?T ?proj =>
      let e := constr:(_ : Eta R) in
      let e := eval hnf in e in
      let g := constr:(fun (v : T) (r : R) =>
        ltac:(let t := eval cbv beta in (e r) in
              let t' := eval pattern (proj r) in t in
              lazymatch t' with
              | ?f _ => let u := eval cbv beta in (f v) in exact u
              end)) in
      exact g
  end.
#[export] Hint Extern 1 (Setter _) => build_setter : typeclass_instances.

Notation "r <| f := v |>" := (setter f v r)
  (at level 1, left associativity, f at next level, v at level 200).

(** ** Machine integers

    Unsigned integers are [Z] with their width written out. [usize] is 64 bits
    on every platform the program ships for. *)

Definition u8_max : Z := 255.
Definition u32_max : Z := 4294967295.
Definition u64_max : Z := 18446744073709551615.
Definition i64_max : Z := 9223372036854775807.
Definition usize_max : Z := u64_max.

Definition fits (max n : Z) : Prop := 0 ≤ n ≤ max.
Abbreviation is_u8 := (fits u8_max).
Abbreviation is_u32 := (fits u32_max).
Abbreviation is_u64 := (fits u64_max).

Definition checked_add (max a b : Z) : option Z :=
  if a + b <=? max then Some (a + b) else None.
Definition checked_mul (max a b : Z) : option Z :=
  if a * b <=? max then Some (a * b) else None.
Definition checked_sub (a b : Z) : option Z :=
  if b <=? a then Some (a - b) else None.
Definition saturating_add (max a b : Z) : Z := Z.min max (a + b).
Definition saturating_mul (max a b : Z) : Z := Z.min max (a * b).
Definition saturating_sub (a b : Z) : Z := Z.max 0 (a - b).
(** [(lo..=hi).contains(&n)]. *)
Definition in_range (lo hi n : Z) : bool := (lo <=? n) && (n <=? hi).

Lemma checked_add_Some max a b c :
  checked_add max a b = Some c ↔ c = a + b ∧ a + b ≤ max.
Proof. unfold checked_add. case_match; naive_solver lia. Qed.
Lemma checked_add_None max a b : checked_add max a b = None ↔ max < a + b.
Proof. unfold checked_add. case_match; naive_solver lia. Qed.
Lemma checked_mul_Some max a b c :
  checked_mul max a b = Some c ↔ c = a * b ∧ a * b ≤ max.
Proof. unfold checked_mul. case_match; naive_solver lia. Qed.
Lemma checked_sub_Some a b c : checked_sub a b = Some c ↔ c = a - b ∧ b ≤ a.
Proof. unfold checked_sub. case_match; naive_solver lia. Qed.
Lemma in_range_spec lo hi n : in_range lo hi n = true ↔ lo ≤ n ≤ hi.
Proof. unfold in_range. lia. Qed.

(** Turns the checked operations and range tests of the context into linear
    facts, then calls [lia]. *)
Ltac int_facts :=
  repeat match goal with
  | H : checked_add _ _ _ = Some _ |- _ => apply checked_add_Some in H as [-> H]
  | H : checked_add _ _ _ = Some _ |- _ => apply checked_add_Some in H as [? H]
  | H : checked_add _ _ _ = None |- _ => apply checked_add_None in H
  | H : checked_mul _ _ _ = Some _ |- _ => apply checked_mul_Some in H as [? H]
  | H : checked_sub _ _ = Some _ |- _ => apply checked_sub_Some in H as [? H]
  end.
Ltac ints :=
  int_facts;
  unfold fits, in_range, saturating_add, saturating_mul, saturating_sub,
    usize_max, u8_max, u32_max, u64_max, i64_max in *;
  lia.

(** [[u8; 32]]: a SHA-256 digest. *)
Abbreviation digest := (list Z).

(** ** Booleans, options and decisions *)

(** [Option::is_some] and [Option::is_none]. *)
Definition is_some {A} (o : option A) : bool :=
  match o with Some _ => true | None => false end.
Definition is_none {A} (o : option A) : bool := negb (is_some o).

(** Rust's [==] on a type with derived equality. *)
Declare Scope grok_scope.
Delimit Scope grok_scope with grok.
#[global] Open Scope grok_scope.
Notation "x == y" := (bool_decide (x = y))
  (at level 70, no associativity) : grok_scope.
Notation "x != y" := (negb (bool_decide (x = y)))
  (at level 70, no associativity) : grok_scope.

(** Splits boolean connectives and decided equalities in the context. *)
Ltac bool_facts :=
  repeat match goal with
  | H : _ || _ = true |- _ => apply orb_true_iff in H as [H|H]
  | H : _ && _ = false |- _ => apply andb_false_iff in H as [H|H]
  | H : _ && _ = true |- _ => apply andb_true_iff in H as [? ?]
  | H : _ || _ = false |- _ => apply orb_false_iff in H as [? ?]
  | H : negb _ = true |- _ => apply negb_true_iff in H
  | H : negb _ = false |- _ => apply negb_false_iff in H
  | H : bool_decide _ = true |- _ => apply bool_decide_eq_true in H
  | H : bool_decide _ = false |- _ => apply bool_decide_eq_false in H
  end; simplify_eq/=.

Lemma filter_all {A} (P : A → Prop) `{!∀ x, Decision (P x)} (l : list A) :
  (∀ x, x ∈ l → P x) → filter P l = l.
Proof.
  induction l as [|x l IH]; intros Hall; [done|].
  rewrite filter_cons_True by (apply Hall; constructor). f_equal. apply IH.
  intros y Hy. apply Hall. by constructor.
Qed.

(** ** Lifecycles

    The three closed state machines of the domain crate share one shape: a
    table of permitted edges and a set of terminal states. [LifecycleLaws] is
    what a component promises about its table; reachability facts are proved
    once against it. *)

Class Lifecycle (St : Type) := {
  permits : St → St → bool;
  is_terminal : St → bool;
}.

Class LifecycleLaws (St : Type) `{!Lifecycle St} : Prop := {
  terminal_no_edge : ∀ s s', is_terminal s = true → permits s s' = false;
  live_has_edge : ∀ s, is_terminal s = false → ∃ s', permits s s' = true;
  no_self_edge : ∀ s, permits s s = false;
}.

Section lifecycle.
Context {St : Type} `{!Lifecycle St, !LifecycleLaws St}.

Definition edge (s s' : St) : Prop := permits s s' = true.

Lemma terminal_stuck s s' : is_terminal s = true → rtc edge s s' → s' = s.
Proof.
  intros Ht Hr. inversion Hr as [|? s1 ? He]; subst; [done|].
  unfold edge in He. by rewrite terminal_no_edge in He.
Qed.

Lemma terminal_iff_no_edge s : is_terminal s = true ↔ ∀ s', permits s s' = false.
Proof.
  split; [intros; by apply terminal_no_edge|].
  intros H. destruct (is_terminal s) eqn:Ht; [done|].
  apply live_has_edge in Ht as [s' Hs']. by rewrite H in Hs'.
Qed.
End lifecycle.
