(* ===== verification/RustText.v ===== *)
(** * Rust text

    The parts of Rust's [str], [String] and [char] the program uses. A string is
    its sequence of Unicode scalar values; its length is the length of its UTF-8
    encoding, as [str::len] counts it. Integer parsing and printing follow
    [u8::from_str] and [Display]. *)
From S2P Require Import Prelude.
From Stdlib Require Ascii String.
Export String.StringSyntax.

(** A [char] is its code point and a string the list of its [char]s. *)
Abbreviation char := Z (only parsing).
Abbreviation str := (list Z).

(** An ASCII literal of the source. *)
Definition lit (s : String.string) : str :=
  map (λ a, Z.of_N (Ascii.N_of_ascii a)) (String.list_ascii_of_string s).
Arguments lit s%_string_scope.

(** Unicode scalar values: code points without the surrogates. *)
Definition is_scalar (c : char) : bool :=
  in_range 0 55295 c || in_range 57344 1114111 c.
Definition is_text (s : str) : Prop := Forall (λ c, is_scalar c = true) s.

(** [char::is_control]: the general category Cc. *)
Definition is_control (c : char) : bool := in_range 0 31 c || in_range 127 159 c.

(** [char::is_whitespace]: the White_Space property. *)
Definition is_whitespace (c : char) : bool :=
  in_range 9 13 c || (c =? 32) || (c =? 133) || (c =? 160) || (c =? 5760)
  || in_range 8192 8202 c || (c =? 8232) || (c =? 8233) || (c =? 8239)
  || (c =? 8287) || (c =? 12288).

(** [u8::is_ascii_digit], [u8::is_ascii_alphanumeric],
    [u8::is_ascii_whitespace]. *)
Definition is_ascii_digit (b : Z) : bool := in_range 48 57 b.
Definition is_ascii_alphanumeric (b : Z) : bool :=
  is_ascii_digit b || in_range 65 90 b || in_range 97 122 b.
Definition is_ascii_whitespace (b : Z) : bool :=
  (b =? 32) || (b =? 9) || (b =? 10) || (b =? 12) || (b =? 13).

(** ** UTF-8 *)

Definition len_utf8 (c : char) : Z :=
  if c <? 128 then 1 else if c <? 2048 then 2 else if c <? 65536 then 3 else 4.

Definition utf8_char (c : char) : list Z :=
  if c <? 128 then [c]
  else if c <? 2048 then [192 + c / 64; 128 + c mod 64]
  else if c <? 65536 then [224 + c / 4096; 128 + c / 64 mod 64; 128 + c mod 64]
  else [240 + c / 262144; 128 + c / 4096 mod 64; 128 + c / 64 mod 64;
        128 + c mod 64].

(** [str::as_bytes] and [str::len]. *)
Definition bytes (s : str) : list Z := flat_map utf8_char s.
Definition len (s : str) : Z := foldr (λ c n, len_utf8 c + n) 0 s.
Definition is_empty {A} (s : list A) : bool :=
  match s with [] => true | _ => false end.

#[global] Arguments len : simpl never.

Lemma len_nil : len [] = 0.
Proof. done. Qed.
Lemma len_cons c s : len (c :: s) = len_utf8 c + len s.
Proof. done. Qed.
Lemma len_utf8_bounds c : 1 ≤ len_utf8 c ≤ 4.
Proof. unfold len_utf8. repeat case_match; lia. Qed.
Lemma len_nonneg s : 0 ≤ len s.
Proof.
  induction s as [|c s IH]; [done|].
  rewrite len_cons. pose proof (len_utf8_bounds c). lia.
Qed.
Lemma len_app s1 s2 : len (s1 ++ s2) = len s1 + len s2.
Proof. induction s1 as [|c s IH]; [done|].
  rewrite <- app_comm_cons, !len_cons, IH. lia.
Qed.
Lemma len_zero s : len s = 0 ↔ s = [].
Proof.
  destruct s as [|c s]; [done|]. split; [|done]. intros H. exfalso.
  rewrite len_cons in H. pose proof (len_utf8_bounds c). pose proof (len_nonneg s). lia.
Qed.
Lemma is_empty_spec {A} (s : list A) : is_empty s = true ↔ s = [].
Proof. by destruct s. Qed.
Lemma len_bytes s : Z.of_nat (length (bytes s)) = len s.
Proof.
  induction s as [|c s IH]; [done|].
  unfold bytes in *. cbn [flat_map]. rewrite length_app, len_cons, Nat2Z.inj_add, IH.
  unfold utf8_char, len_utf8. repeat case_match; done.
Qed.

(** A predicate that only accepts ASCII bytes holds of every byte of a string
    exactly when it holds of every [char]. *)
Lemma forallb_bytes_ascii (p : Z → bool) s :
  (∀ b, p b = true → b < 128) → is_text s →
  forallb p (bytes s) = forallb p s.
Proof.
  intros Hp. induction 1 as [|c s Hc _ IH]; [done|].
  cbn [bytes flat_map]. rewrite forallb_app. fold (bytes s). rewrite IH. cbn.
  f_equal. unfold utf8_char. destruct (c <? 128) eqn:Hlt; cbn; [by rewrite andb_true_r|].
  assert (Hno : ∀ b, 128 ≤ b → p b = false).
  { intros b Hb. destruct (p b) eqn:E; [apply Hp in E; lia | done]. }
  unfold is_scalar in Hc. rewrite (Hno c) by lia.
  assert (0 ≤ c) by (unfold in_range in Hc; lia).
  pose proof (Z.div_pos c 64). pose proof (Z.div_pos c 4096).
  pose proof (Z.div_pos c 262144).
  repeat case_match; cbn; rewrite Hno by lia; done.
Qed.

(** ** Searching, trimming and splitting *)

Fixpoint drop_while (p : Z → bool) (s : str) : str :=
  match s with
  | [] => []
  | c :: s' => if p c then drop_while p s' else s
  end.

(** [str::trim_end_matches] with a set of characters, and [str::trim]. *)
Definition trim_end_matches (p : Z → bool) (s : str) : str :=
  rev (drop_while p (rev s)).
Definition trim (s : str) : str :=
  trim_end_matches is_whitespace (drop_while is_whitespace s).

(** [str::contains] with a [char], [str::starts_with], [str::ends_with] with a
    set of [char]s. *)
Definition contains (c : char) (s : str) : bool := existsb (Z.eqb c) s.
Fixpoint starts_with (p s : str) : bool :=
  match p, s with
  | [], _ => true
  | a :: p', b :: s' => (a =? b) && starts_with p' s'
  | _, _ => false
  end.
(** [str::strip_prefix]. *)
Fixpoint strip_prefix (p s : str) : option str :=
  match p, s with
  | [], _ => Some s
  | a :: p', b :: s' => if a =? b then strip_prefix p' s' else None
  | _, _ => None
  end.
Definition ends_with_any (p : Z → bool) (s : str) : bool :=
  match rev s with [] => false | c :: _ => p c end.

(** [str::split] on a set of [char]s: always at least one field. *)
Fixpoint split_by (p : Z → bool) (s : str) : list str :=
  match s with
  | [] => [[]]
  | c :: s' =>
      if p c then [] :: split_by p s'
      else match split_by p s' with
           | f :: fs => (c :: f) :: fs
           | [] => [[c]]
           end
  end.
(** [str::split_ascii_whitespace]: the nonempty fields. *)
Definition split_ascii_whitespace (s : str) : list str :=
  filter (λ f, is_empty f = false) (split_by is_ascii_whitespace s).

Definition to_ascii_uppercase (s : str) : str :=
  map (λ c, if in_range 97 122 c then c - 32 else c) s.
Definition to_ascii_lowercase (s : str) : str :=
  map (λ c, if in_range 65 90 c then c + 32 else c) s.

Lemma drop_while_length p s : (length (drop_while p s) ≤ length s)%nat.
Proof. induction s as [|c s IH]; cbn; [lia|]. destruct (p c); cbn; lia. Qed.
Lemma drop_while_idemp p s : drop_while p (drop_while p s) = drop_while p s.
Proof.
  induction s as [|c s IH]; [done|]. cbn.
  destruct (p c) eqn:E; [done|]. cbn. by rewrite E.
Qed.
Lemma drop_while_suffix p s : ∃ pre, s = pre ++ drop_while p s.
Proof.
  induction s as [|c s [pre IH]]; [by exists []|]. cbn.
  destruct (p c); [exists (c :: pre); cbn; by f_equal | by exists []].
Qed.
Lemma drop_while_len p s : len (drop_while p s) ≤ len s.
Proof.
  destruct (drop_while_suffix p s) as [pre H]. rewrite H at 2.
  rewrite len_app. pose proof (len_nonneg pre). lia.
Qed.
Lemma len_rev s : len (rev s) = len s.
Proof.
  induction s as [|c s IH]; [done|].
  cbn [rev]. rewrite len_app, IH, !len_cons, len_nil. lia.
Qed.
Lemma trim_len s : len (trim s) ≤ len s.
Proof.
  unfold trim, trim_end_matches. rewrite len_rev.
  etrans; [apply drop_while_len|]. rewrite len_rev. apply drop_while_len.
Qed.

Lemma starts_with_app p s : starts_with p (p ++ s) = true.
Proof. induction p as [|a p IH]; [done|]. cbn. by rewrite Z.eqb_refl. Qed.

Lemma split_by_nonempty p s : split_by p s ≠ [].
Proof. destruct s as [|c s]; [done|]. cbn. repeat case_match; done. Qed.

(** A field free of separators, followed by a separator, is the first field. *)
Lemma split_by_app p f sep s :
  forallb (λ c, negb (p c)) f = true → p sep = true →
  split_by p (f ++ sep :: s) = f :: split_by p s.
Proof.
  intros Hf Hsep. induction f as [|c f IH]; cbn in *; [by rewrite Hsep|].
  apply andb_true_iff in Hf as [Hc Hf]. apply negb_true_iff in Hc.
  by rewrite Hc, IH.
Qed.
Lemma split_by_last p f :
  forallb (λ c, negb (p c)) f = true → split_by p f = [f].
Proof.
  induction f as [|c f IH]; [done|]. cbn. intros Hf.
  apply andb_true_iff in Hf as [Hc Hf]. apply negb_true_iff in Hc.
  by rewrite Hc, IH.
Qed.

(** [Ord] on [str]: the order of the bytes, which for UTF-8 is the order of
    the code points. *)
Fixpoint str_leb (s1 s2 : str) : bool :=
  match s1, s2 with
  | [], _ => true
  | _ :: _, [] => false
  | a :: s1', b :: s2' => if a =? b then str_leb s1' s2' else a <? b
  end.

Lemma str_leb_total s1 s2 : str_leb s1 s2 = true ∨ str_leb s2 s1 = true.
Proof.
  revert s2. induction s1 as [|a s1 IH]; intros [|b s2]; cbn; auto.
  destruct (a =? b) eqn:E; rewrite Z.eqb_sym, E; [apply IH|lia].
Qed.
Lemma str_leb_trans s1 s2 s3 :
  str_leb s1 s2 = true → str_leb s2 s3 = true → str_leb s1 s3 = true.
Proof.
  revert s2 s3. induction s1 as [|a s1 IH]; intros [|b s2] [|c s3]; cbn; try done.
  destruct (a =? b) eqn:E1, (b =? c) eqn:E2, (a =? c) eqn:E3; try lia.
  apply IH.
Qed.
Lemma str_leb_antisymm s1 s2 : str_leb s1 s2 = true → str_leb s2 s1 = true → s1 = s2.
Proof.
  revert s2. induction s1 as [|a s1 IH]; intros [|b s2]; cbn; try done.
  destruct (a =? b) eqn:E; rewrite Z.eqb_sym, E; [|lia].
  intros H1 H2. apply Z.eqb_eq in E as ->. f_equal. by apply IH.
Qed.

(** ** Decimal numbers *)

Fixpoint dec_go (fuel : nat) (n : Z) (acc : str) : str :=
  match fuel with
  | O => acc
  | S fuel' =>
      let acc' := (48 + n mod 10) :: acc in
      if n <? 10 then acc' else dec_go fuel' (n / 10) acc'
  end.
(** [ToString] of an unsigned integer. Twenty digits hold [u64::MAX]. *)
Definition to_string (n : Z) : str := dec_go 20 n [].
(** [format!("{:02}", n)]. *)
Definition pad2 (n : Z) : str := if n <? 10 then 48 :: to_string n else to_string n.

Definition dec_value (s : str) : Z := foldl (λ acc c, acc * 10 + (c - 48)) 0 s.

(** [u8::from_str]: an optional plus sign, then decimal digits, then the range
    check. *)
Definition parse_u8 (s : str) : option Z :=
  let digits := match s with 43 :: rest => rest | _ => s end in
  if is_empty digits || negb (forallb is_ascii_digit digits) then None
  else if dec_value digits <=? u8_max then Some (dec_value digits) else None.

Lemma foldl_dec_acc s a b :
  foldl (λ acc c, acc * 10 + (c - 48)) (a + b) s =
  a * 10 ^ Z.of_nat (length s) + foldl (λ acc c, acc * 10 + (c - 48)) b s.
Proof.
  revert a b. induction s as [|c s IH]; intros a b.
  - cbn. lia.
  - cbn [foldl length].
    replace ((a + b) * 10 + (c - 48)) with (a * 10 + (b * 10 + (c - 48))) by lia.
    rewrite IH. rewrite Nat2Z.inj_succ, Z.pow_succ_r by lia. lia.
Qed.
Lemma dec_value_cons c s :
  dec_value (c :: s) = (c - 48) * 10 ^ Z.of_nat (length s) + dec_value s.
Proof.
  unfold dec_value. cbn [foldl].
  replace (0 * 10 + (c - 48)) with ((c - 48) + 0) by lia. apply foldl_dec_acc.
Qed.
Lemma dec_go_value fuel n acc :
  0 ≤ n < 10 ^ Z.of_nat fuel →
  dec_value (dec_go fuel n acc) = n * 10 ^ Z.of_nat (length acc) + dec_value acc.
Proof.
  revert n acc. induction fuel as [|fuel IH]; intros n acc Hn.
  { change (10 ^ Z.of_nat 0) with 1 in Hn. replace n with 0 by lia. done. }
  cbn [dec_go]. rewrite Nat2Z.inj_succ, Z.pow_succ_r in Hn by lia.
  destruct (n <? 10) eqn:Hlt.
  - rewrite dec_value_cons. rewrite Z.mod_small by lia. lia.
  - rewrite IH.
    + rewrite dec_value_cons. cbn [length].
      rewrite Nat2Z.inj_succ, Z.pow_succ_r by lia.
      rewrite (Z.div_mod n 10) at 3 by lia. lia.
    + split; [apply Z.div_pos; lia|]. apply Z.div_lt_upper_bound; lia.
Qed.
Lemma to_string_value n : is_u64 n → dec_value (to_string n) = n.
Proof.
  intros Hn. unfold to_string. rewrite dec_go_value; [cbn; lia|].
  unfold fits, u64_max in Hn. cbn. lia.
Qed.
(** Printing loses nothing. *)
Lemma to_string_inj n m : is_u64 n → is_u64 m → to_string n = to_string m → n = m.
Proof. intros Hn Hm H. rewrite <- (to_string_value n), <- (to_string_value m); congruence. Qed.

Definition upto (n : nat) : list Z := map Z.of_nat (seq 0 n).
Lemma elem_upto n x : 0 ≤ x < Z.of_nat n → In x (upto n).
Proof.
  intros Hx. unfold upto. apply in_map_iff. exists (Z.to_nat x).
  split; [lia|]. apply in_seq. lia.
Qed.
(** A decidable statement about a small range is checked by running it. *)
Lemma forall_upto (P : Z → Prop) `{!∀ x, Decision (P x)} n :
  forallb (λ x, bool_decide (P x)) (upto n) = true →
  ∀ x, 0 ≤ x < Z.of_nat n → P x.
Proof.
  intros Hall x Hx. rewrite forallb_forall in Hall.
  apply (bool_decide_eq_true_1 _). by apply Hall, elem_upto.
Qed.

Lemma parse_u8_to_string n : is_u8 n → parse_u8 (to_string n) = Some n.
Proof.
  intros Hn. apply (forall_upto (λ n, parse_u8 (to_string n) = Some n) 256).
  - by vm_compute.
  - unfold fits, u8_max in Hn. lia.
Qed.

(** ** Digests *)

(** [sha2::Sha256]: the digest of the concatenated updates. *)
Class Sha256 := sha256 : list Z → digest.

(** [u64::to_be_bytes]. *)
Definition to_be_bytes (n : Z) : list Z :=
  map (λ k, n / 2 ^ (8 * k) mod 256) [7; 6; 5; 4; 3; 2; 1; 0].

(** A stand-in hash for the witnesses. *)
Definition demo_sha : Sha256 := λ l, l.
