(* ===== verification/Ids.v ===== *)
(** * Entity identifiers

    [crates/grok-domain/src/id.rs]: the [entity_id!] macro. Every identifier
    type is the same validated string under a name of its own; the kind index
    keeps the twelve types apart. *)
From S2P Require Import Prelude RustText.

Inductive IdError : Type :=
| IdEmpty
| IdTooLong
| IdControlCharacter.

Inductive id_kind : Type :=
| KProject | KThread | KRun | KApproval | KEffect | KPrivilegedOperation
| KConversationTurn | KMessage | KArtifact | KAutomation
| KAutomationOccurrence | KAutomationSchedulerOwner.

Record entity_id (k : id_kind) : Type := mk_id { as_str : str }.
Arguments mk_id {k} as_str.
Arguments as_str {k} _.

Abbreviation ProjectId := (entity_id KProject).
Abbreviation ThreadId := (entity_id KThread).
Abbreviation RunId := (entity_id KRun).
Abbreviation ApprovalId := (entity_id KApproval).
Abbreviation EffectId := (entity_id KEffect).
Abbreviation PrivilegedOperationId := (entity_id KPrivilegedOperation).
Abbreviation ConversationTurnId := (entity_id KConversationTurn).
Abbreviation MessageId := (entity_id KMessage).
Abbreviation ArtifactId := (entity_id KArtifact).
Abbreviation AutomationId := (entity_id KAutomation).
Abbreviation AutomationOccurrenceId := (entity_id KAutomationOccurrence).
Abbreviation AutomationSchedulerOwnerId := (entity_id KAutomationSchedulerOwner).

#[global] Instance IdError_eq_dec : EqDecision IdError.
Proof. solve_decision. Defined.
#[global] Instance entity_id_eq_dec k : EqDecision (entity_id k).
Proof. solve_decision. Defined.
#[export] Program Instance entity_id_countable k : Countable (entity_id k) :=
  inj_countable' as_str mk_id _.
Next Obligation. by intros k []. Qed.

#[global] Instance as_str_inj k : Inj (=) (=) (@as_str k).
Proof. by intros [a] [b] [= ->]. Qed.

(** [$name::new]. *)
Definition new_id {k} (value : str) : result IdError (entity_id k) :=
  if is_empty value then Err IdEmpty
  else if 128 <? len value then Err IdTooLong
  else if existsb is_control value then Err IdControlCharacter
  else Ok (mk_id value).

(** What every constructed identifier guarantees to storage and transport. *)
Definition valid_id (value : str) : Prop :=
  1 ≤ len value ≤ 128 ∧ Forall (λ c, is_control c = false) value.

Lemma existsb_false_Forall {A} (p : A → bool) l :
  existsb p l = false ↔ Forall (λ x, p x = false) l.
Proof.
  induction l as [|x l IH]; cbn; [done|].
  rewrite orb_false_iff, IH, Forall_cons. done.
Qed.

Lemma new_id_Ok {k} value (i : entity_id k) :
  new_id value = Ok i ↔ i = mk_id value ∧ valid_id value.
Proof.
  unfold new_id, valid_id. rewrite <- existsb_false_Forall.
  destruct value as [|c s]; cbn [is_empty]; [split; [done|intros (_ & H & _); rewrite len_nil in H; lia]|].
  pose proof (len_nonneg s). pose proof (len_utf8_bounds c).
  rewrite (len_cons c s).
  destruct (128 <? _) eqn:Hlen; [split; [done|naive_solver lia]|].
  destruct (existsb _ _); naive_solver lia.
Qed.
