(* ===== verification/Runs.v ===== *)
(** * Runs

    [crates/grok-domain/src/run.rs]: the durable unit of agent work, its
    lifecycle table, its constructors and its one mutation. *)
From S2P Require Import Prelude RustText Ids.

Module RunKind.
Inductive t : Type := Unspecified | Chat | Work | Scheduled.
#[global] Instance eq_dec : EqDecision t.
Proof. solve_decision. Defined.
End RunKind.

Module WorkExecutionBackend.
Inductive t : Type := HostDirect | IsolatedGuest.
#[global] Instance eq_dec : EqDecision t.
Proof. solve_decision. Defined.
End WorkExecutionBackend.

Module RunState.
Inductive t : Type :=
| Queued | Planning | AwaitingApproval | Running | Paused | Completed | Failed
| Cancelled | InterruptedNeedsReview.
#[global] Instance eq_dec : EqDecision t.
Proof. solve_decision. Defined.

(** [RunState::is_terminal]. *)
Definition is_terminal (s : t) : bool :=
  match s with Completed | Failed | Cancelled => true | _ => false end.

(** [RunState::permits]. *)
Definition permits (s next : t) : bool :=
  match s, next with
  | Queued, (Planning | Cancelled | InterruptedNeedsReview) => true
  | Planning,
    (AwaitingApproval | Running | Failed | Cancelled | InterruptedNeedsReview) => true
  | AwaitingApproval,
    (Running | Paused | Failed | Cancelled | InterruptedNeedsReview) => true
  | Running,
    (AwaitingApproval | Paused | Completed | Failed | Cancelled
    | InterruptedNeedsReview) => true
  | Paused, (Running | Failed | Cancelled | InterruptedNeedsReview) => true
  | InterruptedNeedsReview, (Running | Failed | Cancelled) => true
  | _, _ => false
  end.
End RunState.

#[global] Instance run_lifecycle : Lifecycle RunState.t := {|
  permits := RunState.permits;
  is_terminal := RunState.is_terminal;
|}.
#[global] Instance run_lifecycle_laws : LifecycleLaws RunState.t.
Proof.
  split.
  - intros [] []; cbn; congruence.
  - intros []; cbn; try done; intros _;
      by exists RunState.Cancelled.
  - intros []; cbn; done.
Qed.

Inductive TransitionError : Type :=
| InvalidRunTransition (from to : RunState.t)
| RunClockRegression (current attempted : Z).
#[global] Instance TransitionError_eq_dec : EqDecision TransitionError.
Proof. solve_decision. Defined.

Module Run.
Record t : Type := mk {
  id : RunId;
  project_id : ProjectId;
  thread_id : ThreadId;
  kind : RunKind.t;
  work_backend : option WorkExecutionBackend.t;
  state : RunState.t;
  revision : Z;
  created_at : Z;
  updated_at : Z;
}.
#[global] Instance eta : Eta t := λ r,
  mk (id r) (project_id r) (thread_id r) (kind r) (work_backend r) (state r)
     (revision r) (created_at r) (updated_at r).
#[global] Instance eq_dec : EqDecision t.
Proof. solve_decision. Defined.

(** [Run::queued]. *)
Definition queued (id : RunId) (project_id : ProjectId) (thread_id : ThreadId)
    (now : Z) : t :=
  mk id project_id thread_id RunKind.Chat None RunState.Queued 0 now now.

(** [Run::queued_work]. *)
Definition queued_work (id : RunId) (project_id : ProjectId)
    (thread_id : ThreadId) (backend : WorkExecutionBackend.t) (now : Z) : t :=
  mk id project_id thread_id RunKind.Work (Some backend) RunState.Queued 0 now now.

(** [Run::queued_scheduled]. *)
Definition queued_scheduled (id : RunId) (project_id : ProjectId)
    (thread_id : ThreadId) (now : Z) : t :=
  mk id project_id thread_id RunKind.Scheduled None RunState.Queued 0 now now.

(** [Run::is_work_bound_to]. *)
Definition is_work_bound_to (backend : WorkExecutionBackend.t) (r : t) : bool :=
  (kind r == RunKind.Work) && (work_backend r == Some backend).

(** [Run::transition]. *)
Definition transition (next : RunState.t) (now : Z) : method t TransitionError unit :=
  r ← self;
  _ ← throw_if (negb (RunState.permits (state r) next))
        (InvalidRunTransition (state r) next);
  _ ← throw_if (now <? updated_at r) (RunClockRegression (updated_at r) now);
  _ ← assign (λ r, r <| state := next |>);
  _ ← assign (λ r, r <| revision := saturating_add u64_max (revision r) 1 |>);
  assign (λ r, r <| updated_at := now |>).
End Run.

(** [RunEventKind] and [RunEvent]: the append-only audit stream of a run. *)
Inductive RunEventKind : Type :=
| RunCreated
| RunStateChanged (from to : RunState.t)
| RunApprovalRequested (approval_id : ApprovalId)
| RunEffectPrepared (effect_id : EffectId)
| RunEffectNeedsReview (effect_id : EffectId).
#[global] Instance RunEventKind_eq_dec : EqDecision RunEventKind.
Proof. solve_decision. Defined.

Module RunEvent.
Record t : Type := mk {
  sequence : Z;
  run_id : RunId;
  occurred_at : Z;
  kind : RunEventKind;
}.
#[global] Instance eq_dec : EqDecision t.
Proof. solve_decision. Defined.
End RunEvent.

(** ** What one transition does *)

Lemma run_transition_Ok next now r r' :
  Run.transition next now r = (r', Ok tt) ↔
  RunState.permits (Run.state r) next = true ∧ Run.updated_at r ≤ now ∧
  r' = Run.mk (Run.id r) (Run.project_id r) (Run.thread_id r) (Run.kind r)
         (Run.work_backend r) next (saturating_add u64_max (Run.revision r) 1)
         (Run.created_at r) now.
Proof.
  unfold Run.transition. run_unfold. cbn.
  destruct (RunState.permits _ _) eqn:Hp; cbn; [|naive_solver].
  destruct (now <? Run.updated_at r) eqn:Hn; [naive_solver lia|].
  split; [intros; simplify_eq; naive_solver lia|].
  intros (_ & _ & ->). done.
Qed.

Lemma run_transition_atomic next now : atomic (Run.transition next now).
Proof. unfold Run.transition. solve_atomic. Qed.

(** ** Reachable runs *)

(** A run the daemon can hold: one of the three constructors followed by any
    number of accepted transitions. *)
Inductive run_created : Run.t → Prop :=
| created_chat i p t now : run_created (Run.queued i p t now)
| created_work i p t b now : run_created (Run.queued_work i p t b now)
| created_scheduled i p t now : run_created (Run.queued_scheduled i p t now).

Inductive run_step : Run.t → Run.t → Prop :=
| run_step_transition next now r r' :
    Run.transition next now r = (r', Ok tt) → run_step r r'.

Definition run_reachable (r : Run.t) : Prop :=
  ∃ r0, run_created r0 ∧ rtc run_step r0 r.

(** Everything but the lifecycle fields is fixed at creation. *)
Definition same_run (r r' : Run.t) : Prop :=
  Run.id r' = Run.id r ∧ Run.project_id r' = Run.project_id r ∧
  Run.thread_id r' = Run.thread_id r ∧ Run.kind r' = Run.kind r ∧
  Run.work_backend r' = Run.work_backend r ∧ Run.created_at r' = Run.created_at r.

Lemma run_step_same r r' : run_step r r' → same_run r r'.
Proof. intros [next now ?? (_ & _ & ->)%run_transition_Ok]. done. Qed.

Lemma run_steps_same r r' : rtc run_step r r' → same_run r r'.
Proof.
  induction 1 as [|r1 r2 r3 Hs _ IH]; [done|].
  apply run_step_same in Hs. unfold same_run in *. naive_solver congruence.
Qed.

Lemma run_steps_edges r r' :
  rtc run_step r r' → rtc edge (Run.state r) (Run.state r').
Proof.
  induction 1 as [|r1 r2 r3 Hs _ IH]; [done|].
  destruct Hs as [next now ?? (Hp & _ & ->)%run_transition_Ok].
  by eapply rtc_l.
Qed.

Lemma run_steps_time r r' : rtc run_step r r' → Run.updated_at r ≤ Run.updated_at r'.
Proof.
  induction 1 as [|r1 r2 r3 Hs _ IH]; [done|].
  destruct Hs as [next now ?? (_ & Hn & ->)%run_transition_Ok]. cbn in *. lia.
Qed.

Lemma run_steps_revision r n r' :
  Run.revision r ≤ u64_max →
  nsteps run_step n r r' →
  Run.revision r' = Z.min u64_max (Run.revision r + Z.of_nat n).
Proof.
  intros Hr Hs. revert Hr.
  induction Hs as [r|n r1 r2 r3 Hs _ IH]; intros Hr; [lia|].
  destruct Hs as [next now ?? (_ & _ & ->)%run_transition_Ok].
  rewrite IH; cbn; unfold saturating_add; lia.
Qed.

(** ** Properties *)

(** A tool backend is bound exactly to the runs created for Work, the
    binding survives every transition, and no Chat or Scheduled run is ever
    bound to a backend: host execution authority cannot be acquired by moving a
    run through its lifecycle. *)
Theorem run_backend_only_for_work (r : Run.t) :
  run_reachable r →
  (Run.kind r = RunKind.Work ↔ is_Some (Run.work_backend r)) ∧
  (∀ b, Run.is_work_bound_to b r = true → Run.kind r = RunKind.Work) ∧
  (∀ r' b, rtc run_step r r' →
     Run.is_work_bound_to b r' = Run.is_work_bound_to b r).
Proof.
  intros (r0 & Hc & Hs). apply run_steps_same in Hs as (_&_&_&Hk&Hb&_).
  split_and!.
  - rewrite Hk, Hb. destruct Hc; cbn; naive_solver.
  - unfold Run.is_work_bound_to. intros b H. by bool_facts.
  - intros r' b (_&_&_&Hk'&Hb'&_)%run_steps_same.
    unfold Run.is_work_bound_to. by rewrite Hk', Hb'.
Qed.

Definition demo_run : Run.t :=
  Run.queued_work (mk_id (lit "run-1")) (mk_id (lit "project-1"))
    (mk_id (lit "thread-1")) WorkExecutionBackend.HostDirect 10.

Lemma run_backend_only_for_work_witness :
  run_reachable demo_run ∧
  (Run.kind demo_run = RunKind.Work ↔ is_Some (Run.work_backend demo_run)).
Proof.
  assert (H : run_reachable demo_run) by (exists demo_run; split; constructor).
  split; [exact H|]. exact (proj1 (run_backend_only_for_work demo_run H)).
Defined.

(** A terminal run is final: from a run in a terminal state no
    sequence of transitions leads anywhere else, and a run that is not terminal
    can always be cancelled at any time not before its last update. *)
Theorem run_terminal_is_final (r : Run.t) :
  (RunState.is_terminal (Run.state r) = true →
     ∀ r', rtc run_step r r' → r' = r) ∧
  (RunState.is_terminal (Run.state r) = false →
     ∀ now, Run.updated_at r ≤ now →
       ∃ r', Run.transition RunState.Cancelled now r = (r', Ok tt) ∧
             RunState.is_terminal (Run.state r') = true).
Proof.
  split.
  - intros Ht r' Hs. inversion Hs as [|? r1 ? He]; subst; [done|].
    destruct He as [next now ?? (Hp & _)%run_transition_Ok].
    change (permits (Run.state r) next = true) in Hp.
    by rewrite terminal_no_edge in Hp.
  - intros Ht now Hn. eexists. split.
    + apply run_transition_Ok. split_and!; [|done|reflexivity].
      by destruct (Run.state r).
    + done.
Qed.

Lemma run_terminal_is_final_witness :
  ∃ r', Run.transition RunState.Cancelled 12 demo_run = (r', Ok tt) ∧
        RunState.is_terminal (Run.state r') = true.
Proof.
  apply (proj2 (run_terminal_is_final demo_run)); [reflexivity | cbn; lia].
Defined.

(** The audit metadata of a run is exact: the revision counts the accepted
    transitions (until it saturates), timestamps never go back, and a rejected
    transition changes nothing, naming the edge or the clock as the reason. *)
Theorem run_revision_counts_transitions (r0 r : Run.t) (n : nat) :
  run_created r0 → nsteps run_step n r0 r →
  Run.revision r = Z.min u64_max (Z.of_nat n) ∧
  Run.created_at r ≤ Run.updated_at r ∧
  (∀ next now r' e, Run.transition next now r = (r', Err e) →
     r' = r ∧
     ((e = InvalidRunTransition (Run.state r) next ∧
       RunState.permits (Run.state r) next = false) ∨
      (e = RunClockRegression (Run.updated_at r) now ∧ now < Run.updated_at r))).
Proof.
  intros Hc Hs. split_and!.
  - rewrite (run_steps_revision r0 n r); [by destruct Hc| |done]; destruct Hc; done.
  - apply rtc_nsteps_2 in Hs. pose proof (run_steps_time _ _ Hs).
    apply run_steps_same in Hs as (_&_&_&_&_&->). destruct Hc; cbn in *; lia.
  - intros next now r' e H. split; [by eapply run_transition_atomic|].
    unfold Run.transition in H. run_in H; bool_facts; naive_solver lia.
Qed.

Definition demo_run_planned : Run.t := (Run.transition RunState.Planning 11 demo_run).1.

Lemma run_revision_counts_transitions_witness :
  nsteps run_step 1 demo_run demo_run_planned ∧ Run.revision demo_run_planned = 1.
Proof.
  assert (Hs : nsteps run_step 1 demo_run demo_run_planned).
  { econstructor; [|constructor].
    apply (run_step_transition RunState.Planning 11). reflexivity. }
  split; [exact Hs|].
  refine (proj1 (run_revision_counts_transitions demo_run demo_run_planned 1 _ Hs)).
  constructor.
Defined.
