(* ===== verification/Approvals.v ===== *)
(** * Approvals

    [crates/grok-domain/src/approval.rs]: a scoped request for user
    authorization, decided at most once and never after its deadline. *)
From S2P Require Import Prelude RustText Ids.

Module ApprovalRisk.
Inductive t : Type := Low | Elevated | High | Critical.
#[global] Instance eq_dec : EqDecision t.
Proof. solve_decision. Defined.
End ApprovalRisk.

Module ApprovalScope.
Inductive t : Type := Once | Run | Resource (resource : str).
#[global] Instance eq_dec : EqDecision t.
Proof. solve_decision. Defined.
End ApprovalScope.

Module RequestedAction.
Record t : Type := mk {
  action : str;
  target : str;
  data_summary : str;
  risk : ApprovalRisk.t;
}.
#[global] Instance eq_dec : EqDecision t.
Proof. solve_decision. Defined.
End RequestedAction.

Module ApprovalStatus.
Inductive t : Type := Pending | Granted | Denied | Expired | Cancelled.
#[global] Instance eq_dec : EqDecision t.
Proof. solve_decision. Defined.
End ApprovalStatus.

Module ApprovalDecision.
Inductive t : Type := Grant | Deny.
#[global] Instance eq_dec : EqDecision t.
Proof. solve_decision. Defined.
End ApprovalDecision.

Inductive ApprovalError : Type :=
| AlreadyDecided (status : ApprovalStatus.t)
| ApprovalExpired (expires_at : Z).
#[global] Instance ApprovalError_eq_dec : EqDecision ApprovalError.
Proof. solve_decision. Defined.

Module Approval.
Record t : Type := mk {
  id : ApprovalId;
  run_id : RunId;
  request : RequestedAction.t;
  scope : ApprovalScope.t;
  status : ApprovalStatus.t;
  revision : Z;
  created_at : Z;
  expires_at : Z;
  decided_at : option Z;
}.
#[global] Instance eta : Eta t := λ a,
  mk (id a) (run_id a) (request a) (scope a) (status a) (revision a)
     (created_at a) (expires_at a) (decided_at a).
#[global] Instance eq_dec : EqDecision t.
Proof. solve_decision. Defined.

(** [Approval::pending]. *)
Definition pending (id : ApprovalId) (run_id : RunId)
    (request : RequestedAction.t) (scope : ApprovalScope.t)
    (now expires_at : Z) : t :=
  mk id run_id request scope ApprovalStatus.Pending 0 now expires_at None.

(** [Approval::decide]. The expiry branch writes the receiver before it
    returns its error. *)
Definition decide (decision : ApprovalDecision.t) (now : Z) :
    method t ApprovalError unit :=
  a ← self;
  _ ← throw_if (status a != ApprovalStatus.Pending) (AlreadyDecided (status a));
  if expires_at a <? now then
    _ ← assign (λ a, a <| status := ApprovalStatus.Expired |>);
    _ ← assign (λ a, a <| decided_at := Some now |>);
    _ ← assign (λ a, a <| revision := saturating_add u64_max (revision a) 1 |>);
    throw (ApprovalExpired (expires_at a))
  else
    _ ← assign (λ a, a <| status :=
          match decision with
          | ApprovalDecision.Grant => ApprovalStatus.Granted
          | ApprovalDecision.Deny => ApprovalStatus.Denied
          end |>);
    _ ← assign (λ a, a <| decided_at := Some now |>);
    assign (λ a, a <| revision := saturating_add u64_max (revision a) 1 |>).
End Approval.

(** ** The three outcomes of a decision *)

(** The approval a decision at [now] leaves behind. *)
Definition decided (a : Approval.t) (status : ApprovalStatus.t) (now : Z) : Approval.t :=
  Approval.mk (Approval.id a) (Approval.run_id a) (Approval.request a)
    (Approval.scope a) status (saturating_add u64_max (Approval.revision a) 1)
    (Approval.created_at a) (Approval.expires_at a) (Some now).

Definition verdict (d : ApprovalDecision.t) : ApprovalStatus.t :=
  match d with
  | ApprovalDecision.Grant => ApprovalStatus.Granted
  | ApprovalDecision.Deny => ApprovalStatus.Denied
  end.

Lemma approval_decide_spec d now a :
  Approval.decide d now a =
    if Approval.status a == ApprovalStatus.Pending then
      if Approval.expires_at a <? now
      then (decided a ApprovalStatus.Expired now,
            Err (ApprovalExpired (Approval.expires_at a)))
      else (decided a (verdict d) now, Ok tt)
    else (a, Err (AlreadyDecided (Approval.status a))).
Proof.
  unfold Approval.decide. run_unfold. cbn.
  destruct (bool_decide _); cbn; [|done]. by destruct (_ <? now).
Qed.

(** A sequence of decisions, in the order they arrive; the results in order. *)
Fixpoint decide_all (ds : list (ApprovalDecision.t * Z)) (a : Approval.t) :
    Approval.t * list (result ApprovalError unit) :=
  match ds with
  | [] => (a, [])
  | (d, now) :: ds' =>
      let '(a1, r) := Approval.decide d now a in
      let '(a2, rs) := decide_all ds' a1 in (a2, r :: rs)
  end.

Lemma decide_all_settled ds a :
  Approval.status a ≠ ApprovalStatus.Pending →
  decide_all ds a =
    (a, map (λ _, Err (AlreadyDecided (Approval.status a))) ds).
Proof.
  intros Ha. induction ds as [|[d now] ds IH]; [done|].
  cbn [decide_all map]. rewrite approval_decide_spec.
  rewrite bool_decide_eq_false_2 by done. by rewrite IH.
Qed.

(** ** Properties *)

(** An approval is decided once: whatever sequence of decisions reaches a
    pending request, the first one alone determines the final approval and
    every later one is refused with the settled status. A grant or a denial is
    recorded exactly when the first decision is not past the deadline; past it
    the request is expired, whatever was decided, and carries the time. *)
Theorem approval_first_decision_wins (a : Approval.t) d now ds :
  Approval.status a = ApprovalStatus.Pending →
  decide_all ((d, now) :: ds) a =
    if Approval.expires_at a <? now
    then (decided a ApprovalStatus.Expired now,
          Err (ApprovalExpired (Approval.expires_at a)) ::
          map (λ _, Err (AlreadyDecided ApprovalStatus.Expired)) ds)
    else (decided a (verdict d) now,
          Ok tt :: map (λ _, Err (AlreadyDecided (verdict d))) ds).
Proof.
  intros Ha. cbn [decide_all]. rewrite approval_decide_spec, bool_decide_eq_true_2 by done.
  destruct (_ <? now); rewrite decide_all_settled; try done; by destruct d.
Qed.

Definition demo_approval : Approval.t :=
  Approval.pending (mk_id (lit "approval-1")) (mk_id (lit "run-1"))
    (RequestedAction.mk (lit "filesystem.write") (lit "report.md")
       (lit "generated report") ApprovalRisk.Elevated)
    ApprovalScope.Once 10 20.

Lemma approval_first_decision_wins_witness :
  decide_all [(ApprovalDecision.Grant, 15); (ApprovalDecision.Deny, 16)] demo_approval =
    (decided demo_approval ApprovalStatus.Granted 15,
     [Ok tt; Err (AlreadyDecided ApprovalStatus.Granted)]).
Proof. exact (approval_first_decision_wins demo_approval _ 15 [_] eq_refl). Defined.

(** The stored fields of a request agree with its status after any number
    of decisions: a pending one has never been revised or decided, a settled one
    was revised once and carries its decision time, a grant is never dated past
    the deadline and an expiry always is. *)
Theorem approval_fields_follow_status i run_id act sc created expires ds :
  let a := (decide_all ds (Approval.pending i run_id act sc created expires)).1 in
  Approval.expires_at a = expires ∧ Approval.scope a = sc ∧
  match Approval.status a with
  | ApprovalStatus.Pending =>
      Approval.revision a = 0 ∧ Approval.decided_at a = None ∧ ds = []
  | ApprovalStatus.Granted | ApprovalStatus.Denied =>
      Approval.revision a = 1 ∧ ∃ t, Approval.decided_at a = Some t ∧ t ≤ expires
  | ApprovalStatus.Expired =>
      Approval.revision a = 1 ∧ ∃ t, Approval.decided_at a = Some t ∧ expires < t
  | ApprovalStatus.Cancelled => False
  end.
Proof.
  destruct ds as [|[d now] ds]; [done|].
  cbn [decide_all]. rewrite approval_decide_spec, bool_decide_eq_true_2 by done.
  cbn [Approval.expires_at Approval.pending].
  destruct (expires <? now) eqn:He; rewrite decide_all_settled by (by destruct d);
    cbn; [|destruct d; cbn]; naive_solver lia.
Qed.
