(* ===== verification/Effects.v ===== *)
(** * Side effects

    [crates/grok-domain/src/effect.rs]: the intent recorded around every
    externally visible mutation, from before its dispatch to its known or
    uncertain result. *)
From S2P Require Import Prelude RustText Ids.

Module EffectKind.
Inductive t : Type := FileWrite | ProcessExecution | ExternalMutation | ComputerInput.
#[global] Instance eq_dec : EqDecision t.
Proof. solve_decision. Defined.
End EffectKind.

Module Idempotency.
Inductive t : Type := Idempotent | NonIdempotent.
#[global] Instance eq_dec : EqDecision t.
Proof. solve_decision. Defined.
End Idempotency.

Module EffectState.
Inductive t : Type := Prepared | Executing | Succeeded | Failed | NeedsReview.
#[global] Instance eq_dec : EqDecision t.
Proof. solve_decision. Defined.
End EffectState.

Record EffectTransitionError : Type := mk_effect_error {
  effect_error_from : EffectState.t;
  effect_error_to : EffectState.t;
}.
#[global] Instance EffectTransitionError_eq_dec : EqDecision EffectTransitionError.
Proof. solve_decision. Defined.

Module SideEffect.
Record t : Type := mk {
  id : EffectId;
  run_id : RunId;
  kind : EffectKind.t;
  target : str;
  idempotency : Idempotency.t;
  state : EffectState.t;
  revision : Z;
  created_at : Z;
  updated_at : Z;
}.
#[global] Instance eta : Eta t := λ e,
  mk (id e) (run_id e) (kind e) (target e) (idempotency e) (state e)
     (revision e) (created_at e) (updated_at e).
#[global] Instance eq_dec : EqDecision t.
Proof. solve_decision. Defined.

(** [SideEffect::prepare]. *)
Definition prepare (id : EffectId) (run_id : RunId) (kind : EffectKind.t)
    (target : str) (idempotency : Idempotency.t) (now : Z) : t :=
  mk id run_id kind target idempotency EffectState.Prepared 0 now now.

(** The edge test inlined in [SideEffect::move_to]. *)
Definition valid_edge (from next : EffectState.t) : bool :=
  match from, next with
  | EffectState.Prepared, EffectState.Executing => true
  | EffectState.Executing,
    (EffectState.Succeeded | EffectState.Failed | EffectState.NeedsReview) => true
  | _, _ => false
  end.

(** [SideEffect::move_to]. *)
Definition move_to (next : EffectState.t) (now : Z) :
    method t EffectTransitionError unit :=
  e ← self;
  _ ← throw_if (negb (valid_edge (state e) next)) (mk_effect_error (state e) next);
  _ ← assign (λ e, e <| state := next |>);
  _ ← assign (λ e, e <| revision := saturating_add u64_max (revision e) 1 |>);
  assign (λ e, e <| updated_at := Z.max now (updated_at e) |>).

(** [SideEffect::start], [SideEffect::finish], [SideEffect::interrupt]. *)
Definition start (now : Z) := move_to EffectState.Executing now.
Definition finish (succeeded : bool) (now : Z) :=
  move_to (if succeeded then EffectState.Succeeded else EffectState.Failed) now.
Definition interrupt (now : Z) := move_to EffectState.NeedsReview now.
End SideEffect.

(** ** Traces of calls *)

Inductive effect_call : Type :=
| CallStart (now : Z)
| CallFinish (succeeded : bool) (now : Z)
| CallInterrupt (now : Z).

Definition effect_apply (c : effect_call) :
    method SideEffect.t EffectTransitionError unit :=
  match c with
  | CallStart now => SideEffect.start now
  | CallFinish ok now => SideEffect.finish ok now
  | CallInterrupt now => SideEffect.interrupt now
  end.

(** Runs the calls in order, ignoring refusals as the callers' retries would,
    and counts how often a dispatch was allowed to begin and how often a result
    was recorded. *)
Fixpoint effect_trace (cs : list effect_call) (e : SideEffect.t) :
    SideEffect.t * nat * nat :=
  match cs with
  | [] => (e, 0%nat, 0%nat)
  | c :: cs' =>
      let '(e1, r) := effect_apply c e in
      let '(e2, starts, results) := effect_trace cs' e1 in
      match c, r with
      | CallStart _, Ok _ => (e2, S starts, results)
      | _, Ok _ => (e2, starts, S results)
      | _, Err _ => (e2, starts, results)
      end
  end.

Lemma effect_move_to_spec next now e :
  SideEffect.move_to next now e =
    if SideEffect.valid_edge (SideEffect.state e) next
    then (SideEffect.mk (SideEffect.id e) (SideEffect.run_id e) (SideEffect.kind e)
            (SideEffect.target e) (SideEffect.idempotency e) next
            (saturating_add u64_max (SideEffect.revision e) 1)
            (SideEffect.created_at e) (Z.max now (SideEffect.updated_at e)), Ok tt)
    else (e, Err (mk_effect_error (SideEffect.state e) next)).
Proof.
  unfold SideEffect.move_to. run_unfold. cbn. by destruct (SideEffect.valid_edge _ _).
Qed.

(** How many dispatches and how many results a state still allows, and how
    many it already holds. *)
Definition starts_left (s : EffectState.t) : nat :=
  match s with EffectState.Prepared => 1 | _ => 0 end.
Definition results_left (s : EffectState.t) : nat :=
  match s with EffectState.Prepared | EffectState.Executing => 1 | _ => 0 end.

Lemma effect_trace_bounds cs e e' starts results :
  effect_trace cs e = (e', starts, results) →
  starts_left (SideEffect.state e) = (starts + starts_left (SideEffect.state e'))%nat ∧
  results_left (SideEffect.state e) = (results + results_left (SideEffect.state e'))%nat.
Proof.
  revert e e' starts results. induction cs as [|c cs IH]; intros e e' n m H.
  { cbn in H. simplify_eq. done. }
  cbn [effect_trace] in H.
  destruct (effect_apply c e) as [e1 r] eqn:Hc.
  destruct (effect_trace cs e1) as [[e2 n1] m1] eqn:Ht.
  specialize (IH _ _ _ _ Ht) as [IH1 IH2].
  destruct c; cbn [effect_apply] in Hc;
    unfold SideEffect.start, SideEffect.finish, SideEffect.interrupt in Hc;
    rewrite effect_move_to_spec in Hc;
    destruct (SideEffect.state e) eqn:Hs; try destruct succeeded; cbn in Hc;
    simplify_eq/=; rewrite ?Hs in *; cbn in *; lia.
Qed.

(** ** Properties *)

(** An effect crosses the external boundary at most once: from a freshly
    recorded intent, any sequence of start, finish and interrupt calls begins at
    most one dispatch and records at most one result, a result only after a
    dispatch, and the final state tells which happened. In particular an
    interrupted dispatch, whose outcome is unknown, is never started again. *)
Theorem effect_dispatched_at_most_once i run_id k tgt idem now cs e starts results :
  effect_trace cs (SideEffect.prepare i run_id k tgt idem now) = (e, starts, results) →
  (starts ≤ 1)%nat ∧ (results ≤ starts)%nat ∧
  match SideEffect.state e with
  | EffectState.Prepared => starts = 0%nat ∧ results = 0%nat
  | EffectState.Executing => starts = 1%nat ∧ results = 0%nat
  | EffectState.Succeeded | EffectState.Failed | EffectState.NeedsReview =>
      starts = 1%nat ∧ results = 1%nat
  end.
Proof.
  intros H. apply effect_trace_bounds in H as [H1 H2]. cbn in H1, H2.
  destruct (SideEffect.state e); cbn in *; lia.
Qed.

Definition demo_effect : SideEffect.t :=
  SideEffect.prepare (mk_id (lit "effect-1")) (mk_id (lit "run-1"))
    EffectKind.ExternalMutation (lit "publish") Idempotency.NonIdempotent 1.

Lemma effect_dispatched_at_most_once_witness :
  let '(e, starts, results) :=
    effect_trace [CallStart 2; CallInterrupt 3; CallStart 4; CallFinish true 5]
      demo_effect in
  SideEffect.state e = EffectState.NeedsReview ∧ (starts ≤ 1)%nat ∧ (results ≤ starts)%nat.
Proof.
  destruct (effect_trace _ demo_effect) as [[e starts] results] eqn:H.
  pose proof (effect_dispatched_at_most_once _ _ _ _ _ _ _ _ _ _ H) as (H1 & H2 & _).
  split_and!; [|exact H1|exact H2].
  vm_compute in H. injection H as <- _ _. reflexivity.
Defined.
