(* ===== verification/PrivilegedOperations.v ===== *)
(** * Privileged operations

    [crates/grok-domain/src/privileged_operation.rs]: the journal aggregate of
    one bounded operation behind the privileged boundary, from the durable
    intent through its dispatch attempts to a known result or a human review. *)
From S2P Require Import Prelude RustText Ids.

(** ** Bounded identifiers *)

Inductive PrivilegedOperationValueError : Type :=
| ValueTooShort (field : str) (minimum : Z)
| ValueTooLong (field : str) (maximum : Z)
| ValueInvalidCharacter (field : str).
#[global] Instance PrivilegedOperationValueError_eq_dec :
  EqDecision PrivilegedOperationValueError.
Proof. solve_decision. Defined.

Definition MIN_KEY_BYTES : Z := 16.
Definition MAX_KEY_BYTES : Z := 128.

(** [byte.is_ascii_alphanumeric() || matches!(byte, b'.' | b'_' | b':' | b'-')]. *)
Definition safe_key_byte (b : Z) : bool :=
  is_ascii_alphanumeric b || (b =? 46) || (b =? 95) || (b =? 58) || (b =? 45).

(** [validate_safe_ascii]. *)
Definition validate_safe_ascii (value field : str) (minimum : Z) :
    result PrivilegedOperationValueError unit :=
  _ ← reject_if (len value <? minimum) (ValueTooShort field minimum);
  _ ← reject_if (MAX_KEY_BYTES <? len value) (ValueTooLong field MAX_KEY_BYTES);
  reject_if (negb (forallb safe_key_byte (bytes value))) (ValueInvalidCharacter field).

(** The three newtypes over a validated key. *)
Inductive key_kind : Type := KGrant | KIdempotencyKey | KResource.
Record safe_key (k : key_kind) : Type := mk_key { key_str : str }.
Arguments mk_key {k} key_str.
Arguments key_str {k} _.
Abbreviation AuthorityGrantId := (safe_key KGrant).
Abbreviation PrivilegedIdempotencyKey := (safe_key KIdempotencyKey).
Abbreviation PrivilegedResourceId := (safe_key KResource).
#[global] Instance safe_key_eq_dec k : EqDecision (safe_key k).
Proof. solve_decision. Defined.

(** [AuthorityGrantId::new], [PrivilegedIdempotencyKey::new],
    [PrivilegedResourceId::new]. *)
Definition new_grant_id (value : str) :
    result PrivilegedOperationValueError AuthorityGrantId :=
  _ ← validate_safe_ascii value (lit "authority_grant_id") MIN_KEY_BYTES;
  Ok (mk_key value).
Definition new_idempotency_key (value : str) :
    result PrivilegedOperationValueError PrivilegedIdempotencyKey :=
  _ ← validate_safe_ascii value (lit "idempotency_key") MIN_KEY_BYTES;
  Ok (mk_key value).
Definition new_resource_id (value : str) :
    result PrivilegedOperationValueError PrivilegedResourceId :=
  _ ← validate_safe_ascii value (lit "resource_id") 1;
  Ok (mk_key value).

(** ** Kinds and targets *)

Module PrivilegedRetryClass.
Inductive t : Type := RetrySafe | NonIdempotent.
#[global] Instance eq_dec : EqDecision t.
Proof. solve_decision. Defined.
End PrivilegedRetryClass.

Module PrivilegedOperationKind.
Inductive t : Type :=
| RunnerHealth | CatalogApply | IntegrationStart | IntegrationStop
| ComputerObserve | ComputerAct.
#[global] Instance eq_dec : EqDecision t.
Proof. solve_decision. Defined.

(** [PrivilegedOperationKind::retry_class]. *)
Definition retry_class (k : t) : PrivilegedRetryClass.t :=
  match k with
  | RunnerHealth | ComputerObserve => PrivilegedRetryClass.RetrySafe
  | CatalogApply | IntegrationStart | IntegrationStop | ComputerAct =>
      PrivilegedRetryClass.NonIdempotent
  end.
End PrivilegedOperationKind.

Module PrivilegedOperationTarget.
Inductive t : Type :=
| Runner (vm_id : PrivilegedResourceId)
| Catalog (vm_id : PrivilegedResourceId)
| IntegrationStart (vm_id integration_id : PrivilegedResourceId)
| IntegrationStop (vm_id integration_id instance_id : PrivilegedResourceId)
| ComputerObserve (vm_id integration_id : PrivilegedResourceId)
| ComputerAct (vm_id integration_id instance_id application_id : PrivilegedResourceId)
    (observation_revision : Z).
#[global] Instance eq_dec : EqDecision t.
Proof. solve_decision. Defined.

(** [PrivilegedOperationTarget::operation_kind]. *)
Definition operation_kind (x : t) : PrivilegedOperationKind.t :=
  match x with
  | Runner _ => PrivilegedOperationKind.RunnerHealth
  | Catalog _ => PrivilegedOperationKind.CatalogApply
  | IntegrationStart _ _ => PrivilegedOperationKind.IntegrationStart
  | IntegrationStop _ _ _ => PrivilegedOperationKind.IntegrationStop
  | ComputerObserve _ _ => PrivilegedOperationKind.ComputerObserve
  | ComputerAct _ _ _ _ _ => PrivilegedOperationKind.ComputerAct
  end.

(** [PrivilegedOperationTarget::is_valid]. *)
Definition is_valid (x : t) : bool :=
  match x with ComputerAct _ _ _ _ rev => negb (rev =? 0) | _ => true end.
End PrivilegedOperationTarget.

(** ** Intent *)

Module PrivilegedAuthority.
Record t : Type := mk { grant_id : AuthorityGrantId; expires_at : Z }.
#[global] Instance eq_dec : EqDecision t.
Proof. solve_decision. Defined.
End PrivilegedAuthority.

Module PrivilegedIdempotency.
Record t : Type := mk { key : PrivilegedIdempotencyKey; request_digest : digest }.
#[global] Instance eq_dec : EqDecision t.
Proof. solve_decision. Defined.
End PrivilegedIdempotency.

Module PrivilegedOperationLinks.
Record t : Type := mk {
  run_id : option RunId;
  effect_id : option EffectId;
  approval_id : option ApprovalId;
  supersedes_id : option PrivilegedOperationId;
}.
#[global] Instance eq_dec : EqDecision t.
Proof. solve_decision. Defined.
End PrivilegedOperationLinks.

Module PrivilegedOperationIntent.
Record t : Type := mk {
  kind : PrivilegedOperationKind.t;
  target : PrivilegedOperationTarget.t;
  payload_digest : digest;
  authority : PrivilegedAuthority.t;
  idempotency : PrivilegedIdempotency.t;
  links : PrivilegedOperationLinks.t;
}.
#[global] Instance eq_dec : EqDecision t.
Proof. solve_decision. Defined.
End PrivilegedOperationIntent.

(** ** Lifecycle *)

Module PrivilegedOperationState.
Inductive t : Type :=
| Prepared | Dispatching | RetryPending | Succeeded | Failed
| InterruptedNeedsReview | Reviewed | Cancelled.
#[global] Instance eq_dec : EqDecision t.
Proof. solve_decision. Defined.

(** [PrivilegedOperationState::is_terminal]. *)
Definition is_terminal (s : t) : bool :=
  match s with Succeeded | Failed | Reviewed | Cancelled => true | _ => false end.

(** [PrivilegedOperationState::permits]. *)
Definition permits (s next : t) : bool :=
  match s, next with
  | Prepared, (Dispatching | Cancelled) => true
  | Dispatching, (RetryPending | Succeeded | Failed | InterruptedNeedsReview) => true
  | RetryPending, Dispatching => true
  | InterruptedNeedsReview, Reviewed => true
  | _, _ => false
  end.
End PrivilegedOperationState.

#[global] Instance privileged_lifecycle : Lifecycle PrivilegedOperationState.t := {|
  permits := PrivilegedOperationState.permits;
  is_terminal := PrivilegedOperationState.is_terminal;
|}.
#[global] Instance privileged_lifecycle_laws : LifecycleLaws PrivilegedOperationState.t.
Proof.
  split.
  - intros [] []; cbn; congruence.
  - intros []; cbn; try done; intros _.
    + by exists PrivilegedOperationState.Cancelled.
    + by exists PrivilegedOperationState.Succeeded.
    + by exists PrivilegedOperationState.Dispatching.
    + by exists PrivilegedOperationState.Reviewed.
  - intros []; done.
Qed.

Module PrivilegedOperationReview.
Inductive t : Type := ConfirmedSucceeded | ConfirmedFailed | Abandoned.
#[global] Instance eq_dec : EqDecision t.
Proof. solve_decision. Defined.
End PrivilegedOperationReview.

Module PrivilegedOperationError.
Inductive t : Type :=
| InvalidTransition (from to : PrivilegedOperationState.t)
| RetryPolicyViolation (kind : PrivilegedOperationKind.t)
| ClockRegression (current attempted : Z)
| AuthorityExpired (expires_at : Z)
| SelfSupersession
| InvalidLinks
| TargetKindMismatch (operation_kind target_kind : PrivilegedOperationKind.t)
| InvalidTarget
| RevisionExhausted
| AttemptCountExhausted
| InvalidPersistedState.
#[global] Instance eq_dec : EqDecision t.
Proof. solve_decision. Defined.
End PrivilegedOperationError.

Module PrivilegedOperation.
Import PrivilegedOperationState.
Record t : Type := mk {
  id : PrivilegedOperationId;
  kind : PrivilegedOperationKind.t;
  target : PrivilegedOperationTarget.t;
  payload_digest : digest;
  authority : PrivilegedAuthority.t;
  idempotency : PrivilegedIdempotency.t;
  links : PrivilegedOperationLinks.t;
  state : PrivilegedOperationState.t;
  review_disposition : option PrivilegedOperationReview.t;
  attempt_count : Z;
  revision : Z;
  created_at : Z;
  updated_at : Z;
}.
#[global] Instance eta : Eta t := λ o,
  mk (id o) (kind o) (target o) (payload_digest o) (authority o) (idempotency o)
     (links o) (state o) (review_disposition o) (attempt_count o) (revision o)
     (created_at o) (updated_at o).
#[global] Instance eq_dec : EqDecision t.
Proof. solve_decision. Defined.

(** The link rule shared by preparation and rehydration. *)
Definition links_invalid (l : PrivilegedOperationLinks.t) : bool :=
  is_none (PrivilegedOperationLinks.run_id l) &&
  (is_some (PrivilegedOperationLinks.effect_id l)
   || is_some (PrivilegedOperationLinks.approval_id l)).

(** [PrivilegedOperation::prepare]. *)
Definition prepare (id : PrivilegedOperationId) (intent : PrivilegedOperationIntent.t)
    (now : Z) : result PrivilegedOperationError.t t :=
  let 'PrivilegedOperationIntent.mk kind target payload_digest authority
        idempotency links := intent in
  let target_kind := PrivilegedOperationTarget.operation_kind target in
  _ ← reject_if (PrivilegedAuthority.expires_at authority <? now)
        (PrivilegedOperationError.AuthorityExpired
           (PrivilegedAuthority.expires_at authority));
  _ ← reject_if (target_kind != kind)
        (PrivilegedOperationError.TargetKindMismatch kind target_kind);
  _ ← reject_if (negb (PrivilegedOperationTarget.is_valid target))
        PrivilegedOperationError.InvalidTarget;
  _ ← reject_if (PrivilegedOperationLinks.supersedes_id links == Some id)
        PrivilegedOperationError.SelfSupersession;
  _ ← reject_if (links_invalid links) PrivilegedOperationError.InvalidLinks;
  Ok (mk id kind target payload_digest authority idempotency links
        Prepared None 0 0 now now).

(** [PrivilegedOperation::retry_class]. *)
Definition retry_class (o : t) : PrivilegedRetryClass.t :=
  PrivilegedOperationKind.retry_class (kind o).

(** [PrivilegedOperation::validate_edge]. *)
Definition validate_edge (next : PrivilegedOperationState.t) (now : Z) :
    method t PrivilegedOperationError.t unit :=
  o ← self;
  _ ← throw_if (negb (permits (state o) next))
        (PrivilegedOperationError.InvalidTransition (state o) next);
  _ ← throw_if (now <? updated_at o)
        (PrivilegedOperationError.ClockRegression (updated_at o) now);
  throw_if (revision o =? u64_max) PrivilegedOperationError.RevisionExhausted.

(** [PrivilegedOperation::apply_transition]. *)
Definition apply_transition (next : PrivilegedOperationState.t) (now : Z) :
    method t PrivilegedOperationError.t unit :=
  o ← self;
  revision' ← lift (ok_or PrivilegedOperationError.RevisionExhausted
                      (checked_add u64_max (revision o) 1));
  _ ← assign (λ o, o <| revision := revision' |>);
  _ ← assign (λ o, o <| state := next |>);
  assign (λ o, o <| updated_at := now |>).

(** [PrivilegedOperation::move_to]. *)
Definition move_to (next : PrivilegedOperationState.t) (now : Z) :
    method t PrivilegedOperationError.t unit :=
  _ ← validate_edge next now;
  apply_transition next now.

(** [PrivilegedOperation::dispatch]. *)
Definition dispatch (now : Z) : method t PrivilegedOperationError.t unit :=
  _ ← validate_edge Dispatching now;
  o ← self;
  _ ← throw_if (PrivilegedAuthority.expires_at (authority o) <? now)
        (PrivilegedOperationError.AuthorityExpired
           (PrivilegedAuthority.expires_at (authority o)));
  next_attempt ← lift (ok_or PrivilegedOperationError.AttemptCountExhausted
                         (checked_add u32_max (attempt_count o) 1));
  _ ← apply_transition Dispatching now;
  assign (λ o, o <| attempt_count := next_attempt |>).

(** [PrivilegedOperation::succeed] and [PrivilegedOperation::fail]. *)
Definition succeed (now : Z) : method t PrivilegedOperationError.t unit :=
  move_to Succeeded now.
Definition fail (now : Z) : method t PrivilegedOperationError.t unit :=
  move_to Failed now.

(** [PrivilegedOperation::schedule_retry]. *)
Definition schedule_retry (now : Z) : method t PrivilegedOperationError.t unit :=
  _ ← validate_edge RetryPending now;
  o ← self;
  _ ← throw_if (retry_class o != PrivilegedRetryClass.RetrySafe)
        (PrivilegedOperationError.RetryPolicyViolation (kind o));
  apply_transition RetryPending now.

(** [PrivilegedOperation::interrupt]. *)
Definition interrupt (now : Z) : method t PrivilegedOperationError.t unit :=
  o ← self;
  match retry_class o with
  | PrivilegedRetryClass.RetrySafe => schedule_retry now
  | PrivilegedRetryClass.NonIdempotent => move_to InterruptedNeedsReview now
  end.

(** [PrivilegedOperation::review]. *)
Definition review (disposition : PrivilegedOperationReview.t) (now : Z) :
    method t PrivilegedOperationError.t unit :=
  _ ← move_to Reviewed now;
  assign (λ o, o <| review_disposition := Some disposition |>).

(** [PrivilegedOperation::cancel]. *)
Definition cancel (now : Z) : method t PrivilegedOperationError.t unit :=
  move_to Cancelled now.

(** The [expected_revision] of [PrivilegedOperation::validate_snapshot]. An arm
    that returns [false] early is [None], which no stored revision equals. *)
Definition expected_revision (o : t) : option Z :=
  match state o with
  | Prepared =>
      if (attempt_count o != 0) || (updated_at o != created_at o) then None else Some 0
  | Cancelled => if attempt_count o =? 0 then Some 1 else None
  | Dispatching =>
      doubled ← checked_mul u32_max (attempt_count o) 2; checked_sub doubled 1
  | RetryPending =>
      if (retry_class o != PrivilegedRetryClass.RetrySafe) || (attempt_count o =? 0)
      then None else checked_mul u32_max (attempt_count o) 2
  | Succeeded | Failed =>
      if attempt_count o =? 0 then None else checked_mul u32_max (attempt_count o) 2
  | InterruptedNeedsReview =>
      if (retry_class o == PrivilegedRetryClass.NonIdempotent) && (attempt_count o =? 1)
      then Some 2 else None
  | Reviewed =>
      if (retry_class o == PrivilegedRetryClass.NonIdempotent) && (attempt_count o =? 1)
      then Some 3 else None
  end.

Definition review_is_valid (o : t) : bool :=
  match state o, review_disposition o with
  | Reviewed, Some _ => true
  | (Prepared | Dispatching | RetryPending | Succeeded | Failed
    | InterruptedNeedsReview | Cancelled), None => true
  | _, _ => false
  end.

(** [PrivilegedOperation::validate_snapshot]. *)
Definition validate_snapshot (o : t) : bool :=
  if (PrivilegedOperationTarget.operation_kind (target o) != kind o)
     || negb (PrivilegedOperationTarget.is_valid (target o))
     || (PrivilegedOperationLinks.supersedes_id (links o) == Some (id o))
     || links_invalid (links o)
     || (PrivilegedAuthority.expires_at (authority o) <? created_at o)
     || (updated_at o <? created_at o)
     || ((state o == Dispatching)
         && (PrivilegedAuthority.expires_at (authority o) <? updated_at o))
  then false
  else (expected_revision o == Some (revision o)) && review_is_valid o.

(** [PrivilegedOperation::restore]. *)
Definition restore (snapshot : t) : result PrivilegedOperationError.t t :=
  if validate_snapshot snapshot then Ok snapshot
  else Err PrivilegedOperationError.InvalidPersistedState.
End PrivilegedOperation.

(** ** Calls on one operation *)

Import PrivilegedOperationState.
Abbreviation op := PrivilegedOperation.t (only parsing).

Inductive privileged_call : Type :=
| PDispatch | PSucceed | PFail | PScheduleRetry | PInterrupt
| PReview (disposition : PrivilegedOperationReview.t) | PCancel.

Definition privileged_apply (c : privileged_call) (now : Z) :
    method op PrivilegedOperationError.t unit :=
  match c with
  | PDispatch => PrivilegedOperation.dispatch now
  | PSucceed => PrivilegedOperation.succeed now
  | PFail => PrivilegedOperation.fail now
  | PScheduleRetry => PrivilegedOperation.schedule_retry now
  | PInterrupt => PrivilegedOperation.interrupt now
  | PReview d => PrivilegedOperation.review d now
  | PCancel => PrivilegedOperation.cancel now
  end.

Definition retry_safe (o : op) : Prop :=
  PrivilegedOperation.retry_class o = PrivilegedRetryClass.RetrySafe.
#[global] Instance retry_safe_dec o : Decision (retry_safe o).
Proof. apply _. Defined.

(** Where a call moves the operation, what it requires beyond the lifecycle
    edge, and what it leaves behind. *)
Definition call_target (c : privileged_call) (o : op) : PrivilegedOperationState.t :=
  match c with
  | PDispatch => Dispatching
  | PSucceed => Succeeded
  | PFail => Failed
  | PScheduleRetry => RetryPending
  | PInterrupt => if decide (retry_safe o) then RetryPending else InterruptedNeedsReview
  | PReview _ => Reviewed
  | PCancel => Cancelled
  end.

Definition call_guard (c : privileged_call) (now : Z) (o : op) : Prop :=
  match c with
  | PDispatch =>
      now ≤ PrivilegedAuthority.expires_at (PrivilegedOperation.authority o) ∧
      PrivilegedOperation.attempt_count o < u32_max
  | PScheduleRetry => retry_safe o
  | _ => True
  end.

Definition moved (c : privileged_call) (now : Z) (o : op) : op :=
  PrivilegedOperation.mk (PrivilegedOperation.id o) (PrivilegedOperation.kind o)
    (PrivilegedOperation.target o) (PrivilegedOperation.payload_digest o)
    (PrivilegedOperation.authority o) (PrivilegedOperation.idempotency o)
    (PrivilegedOperation.links o) (call_target c o)
    (match c with
     | PReview d => Some d
     | _ => PrivilegedOperation.review_disposition o
     end)
    (match c with
     | PDispatch => PrivilegedOperation.attempt_count o + 1
     | _ => PrivilegedOperation.attempt_count o
     end)
    (PrivilegedOperation.revision o + 1) (PrivilegedOperation.created_at o) now.

Definition ready (next : PrivilegedOperationState.t) (now : Z) (o : op) : Prop :=
  permits (PrivilegedOperation.state o) next = true ∧
  PrivilegedOperation.updated_at o ≤ now ∧ PrivilegedOperation.revision o < u64_max.

Ltac privileged_run :=
  run_unfold; cbn; repeat (case_match; cbn); bool_facts;
  (split; [intros; simplify_eq | intros; destruct_and?; simplify_eq]);
  split_and?; try (done || lia || congruence).

Lemma op_move_to_Ok next now o o' :
  PrivilegedOperation.move_to next now o = (o', Ok tt) ↔
  ready next now o ∧
  o' = PrivilegedOperation.mk (PrivilegedOperation.id o) (PrivilegedOperation.kind o)
    (PrivilegedOperation.target o) (PrivilegedOperation.payload_digest o)
    (PrivilegedOperation.authority o) (PrivilegedOperation.idempotency o)
    (PrivilegedOperation.links o) next (PrivilegedOperation.review_disposition o)
    (PrivilegedOperation.attempt_count o) (PrivilegedOperation.revision o + 1)
    (PrivilegedOperation.created_at o) now.
Proof.
  unfold ready, PrivilegedOperation.move_to, PrivilegedOperation.validate_edge,
    PrivilegedOperation.apply_transition, checked_add. privileged_run.
Qed.

Lemma op_validate_edge_Ok next now o o' :
  PrivilegedOperation.validate_edge next now o = (o', Ok tt) ↔
  permits (PrivilegedOperation.state o) next = true ∧
  PrivilegedOperation.updated_at o ≤ now ∧
  PrivilegedOperation.revision o ≠ u64_max ∧ o' = o.
Proof. unfold PrivilegedOperation.validate_edge. privileged_run. Qed.

Lemma op_dispatch_Ok now o o' :
  PrivilegedOperation.dispatch now o = (o', Ok tt) ↔
  ready Dispatching now o ∧ call_guard PDispatch now o ∧ o' = moved PDispatch now o.
Proof.
  unfold PrivilegedOperation.dispatch. rewrite method_bind_Ok.
  unfold ready, moved, PrivilegedOperation.apply_transition, checked_add. split.
  - intros (o1 & [] & (Hp & Ht & Hr & ->)%op_validate_edge_Ok & H).
    run_in H; naive_solver lia.
  - intros ((Hp & Ht & Hr) & [Hg Ha] & ->). exists o, tt.
    split; [apply op_validate_edge_Ok; naive_solver lia|].
    run_goal; done || lia.
Qed.

Lemma op_schedule_retry_Ok now o o' :
  PrivilegedOperation.schedule_retry now o = (o', Ok tt) ↔
  ready RetryPending now o ∧ retry_safe o ∧ o' = moved PScheduleRetry now o.
Proof.
  unfold ready, moved, retry_safe, PrivilegedOperation.schedule_retry,
    PrivilegedOperation.validate_edge, PrivilegedOperation.apply_transition,
    checked_add. privileged_run.
Qed.

Lemma op_interrupt_eq now o :
  PrivilegedOperation.interrupt now o =
    if decide (retry_safe o) then PrivilegedOperation.schedule_retry now o
    else PrivilegedOperation.move_to InterruptedNeedsReview now o.
Proof.
  unfold PrivilegedOperation.interrupt, retry_safe, mbind, method_bind, self.
  destruct (decide _) as [->|Hn]; [done|].
  by destruct (PrivilegedOperation.retry_class o).
Qed.

Lemma op_review_Ok d now o o' :
  PrivilegedOperation.review d now o = (o', Ok tt) ↔
  ready Reviewed now o ∧ o' = moved (PReview d) now o.
Proof.
  unfold ready, moved, PrivilegedOperation.review, PrivilegedOperation.move_to,
    PrivilegedOperation.validate_edge, PrivilegedOperation.apply_transition,
    checked_add. privileged_run.
Qed.

Lemma privileged_apply_Ok c now o o' :
  privileged_apply c now o = (o', Ok tt) ↔
  ready (call_target c o) now o ∧ call_guard c now o ∧ o' = moved c now o.
Proof.
  unfold moved.
  destruct c; cbn [privileged_apply call_target call_guard];
    unfold PrivilegedOperation.succeed, PrivilegedOperation.fail,
      PrivilegedOperation.cancel;
    rewrite ?op_interrupt_eq, ?op_move_to_Ok, ?op_dispatch_Ok,
      ?op_schedule_retry_Ok, ?op_review_Ok; try (unfold moved; cbn; tauto).
  destruct (decide (retry_safe o));
    rewrite ?op_schedule_retry_Ok, ?op_move_to_Ok; unfold moved; cbn; tauto.
Qed.

Lemma privileged_apply_atomic c now : atomic (privileged_apply c now).
Proof.
  destruct c; cbn [privileged_apply];
    unfold PrivilegedOperation.dispatch, PrivilegedOperation.succeed,
      PrivilegedOperation.fail, PrivilegedOperation.schedule_retry,
      PrivilegedOperation.interrupt, PrivilegedOperation.schedule_retry,
      PrivilegedOperation.review, PrivilegedOperation.cancel,
      PrivilegedOperation.move_to, PrivilegedOperation.validate_edge,
      PrivilegedOperation.apply_transition; solve_atomic.
Qed.

(** ** Reachable operations *)

Definition privileged_step (o o' : op) : Prop :=
  ∃ c now, privileged_apply c now o = (o', Ok tt).

(** What the journal can ever hold: a prepared intent followed by accepted
    calls. *)
Inductive privileged_reachable : op → Prop :=
| reachable_prepare i intent now o :
    PrivilegedOperation.prepare i intent now = Ok o → privileged_reachable o
| reachable_step o o' :
    privileged_reachable o → privileged_step o o' → privileged_reachable o'.

Section shape.
Import PrivilegedOperation.

(** The immutable part of an operation is what [prepare] accepts. *)
Definition intent_ok (o : op) : Prop :=
  PrivilegedOperationTarget.operation_kind (target o) = kind o ∧
  PrivilegedOperationTarget.is_valid (target o) = true ∧
  PrivilegedOperationLinks.supersedes_id (links o) ≠ Some (id o) ∧
  links_invalid (links o) = false ∧
  created_at o ≤ PrivilegedAuthority.expires_at (authority o).

(** How state, attempts, revision, times and review relate. *)
Definition shape_ok (o : op) : Prop :=
  (match state o with Reviewed => is_Some (review_disposition o)
                    | _ => review_disposition o = None end) ∧
  match state o with
  | Prepared => attempt_count o = 0 ∧ revision o = 0 ∧ updated_at o = created_at o
  | Cancelled => attempt_count o = 0 ∧ revision o = 1
  | Dispatching =>
      1 ≤ attempt_count o ∧ revision o = 2 * attempt_count o - 1 ∧
      updated_at o ≤ PrivilegedAuthority.expires_at (authority o)
  | RetryPending => retry_safe o ∧ 1 ≤ attempt_count o ∧ revision o = 2 * attempt_count o
  | Succeeded | Failed => 1 ≤ attempt_count o ∧ revision o = 2 * attempt_count o
  | InterruptedNeedsReview => ¬ retry_safe o ∧ attempt_count o = 1 ∧ revision o = 2
  | Reviewed => ¬ retry_safe o ∧ attempt_count o = 1 ∧ revision o = 3
  end.

Definition journal_inv (o : op) : Prop :=
  intent_ok o ∧ created_at o ≤ updated_at o ∧ shape_ok o ∧
  (¬ retry_safe o → attempt_count o ≤ 1) ∧ attempt_count o ≤ u32_max.

Lemma prepare_Ok i intent now o :
  prepare i intent now = Ok o ↔
  o = mk i (PrivilegedOperationIntent.kind intent)
        (PrivilegedOperationIntent.target intent)
        (PrivilegedOperationIntent.payload_digest intent)
        (PrivilegedOperationIntent.authority intent)
        (PrivilegedOperationIntent.idempotency intent)
        (PrivilegedOperationIntent.links intent) Prepared None 0 0 now now ∧
  intent_ok o.
Proof.
  unfold prepare, intent_ok. destruct intent; run_unfold; cbn.
  split; [intros H; repeat case_match; bool_facts; split_and!; done || lia|].
  intros [-> (?&?&?&?&?)]; cbn in *.
  repeat (case_match; bool_facts); try (done || lia || congruence).
Qed.

Lemma journal_inv_step c now o o' :
  journal_inv o → privileged_apply c now o = (o', Ok tt) → journal_inv o'.
Proof.
  intros (Hi & Ht & [Hr Hs] & Hn & Hu) ((Hp & Hnow & Hrev) & Hg & ->)%privileged_apply_Ok.
  unfold journal_inv, intent_ok, shape_ok, retry_safe, retry_class in *.
  unfold moved; cbn.
  destruct c, (state o) eqn:Es; cbn in Hp, Hg, Hr, Hs |- *; try done;
    try (case_decide; try done); cbn in *; split_and!; try tauto; try lia;
    try naive_solver lia.
  by exists disposition.
Qed.

Lemma reachable_inv o : privileged_reachable o → journal_inv o.
Proof.
  induction 1 as [i intent now o H|o o' _ IH (c & now & H)].
  - apply prepare_Ok in H as [Ho Hi]. unfold journal_inv, shape_ok.
    subst o; cbn in *. unfold u32_max. split_and!; try done || lia.
  - by eapply journal_inv_step.
Qed.

Lemma retry_class_cases o :
  retry_class o = PrivilegedRetryClass.NonIdempotent ↔ ¬ retry_safe o.
Proof. unfold retry_safe. destruct (retry_class o); naive_solver. Qed.

(** The dispatch and review part of the snapshot test, per state. *)
Lemma snapshot_shape_spec o :
  is_u32 (attempt_count o) →
  (state o = Dispatching → updated_at o ≤ PrivilegedAuthority.expires_at (authority o)) →
  (expected_revision o = Some (revision o) ∧ review_is_valid o = true ∧
   (¬ retry_safe o → attempt_count o ≤ 1)) ↔
  (shape_ok o ∧ 2 * attempt_count o ≤ u32_max ∧ (¬ retry_safe o → attempt_count o ≤ 1)).
Proof.
  intros Ha Hd. pose proof (retry_class_cases o) as Hcl.
  unfold shape_ok, expected_revision, review_is_valid, checked_mul, checked_sub,
    fits, u32_max, is_Some in *.
  destruct (state o), (review_disposition o); unfold mbind, option_bind;
    split; intros H; destruct_and?; repeat case_match; bool_facts; destruct_and?;
    simplify_eq/=; split_and?; intros; eauto; try done; try tauto; try lia;
    try (f_equal; lia).
  naive_solver.
Qed.

(** The snapshot test is the decidable form of the invariant, but for attempt
    counts of non-idempotent operations. *)
Lemma validate_snapshot_spec o :
  is_u32 (attempt_count o) →
  validate_snapshot o = true ∧ (¬ retry_safe o → attempt_count o ≤ 1) ↔
  journal_inv o ∧ 2 * attempt_count o ≤ u32_max.
Proof.
  intros Ha. pose proof (snapshot_shape_spec o Ha) as Hs.
  unfold validate_snapshot, journal_inv, intent_ok. unfold fits in Ha. split.
  - intros [H Hn]. case_match; [done|]. bool_facts.
    all: destruct Hs as [(?&?&?) _]; [intros; lia || congruence|done|].
    all: split_and!; done || lia.
  - intros [((H1&H2&H3&H4&H5)&Ht&Hsh&Hn&Hu) H2a]. split; [|done].
    assert (Hd : state o = Dispatching →
      updated_at o ≤ PrivilegedAuthority.expires_at (authority o)).
    { intros Es. destruct Hsh as [_ Hsh]. rewrite Es in Hsh. lia. }
    destruct Hs as [_ (He & Hv & _)]; [done|done|].
    case_match eqn:Eg; [|by rewrite He, Hv, bool_decide_eq_true_2].
    exfalso. bool_facts; try (done || lia || congruence).
    apply Hd in H. lia.
Qed.

(** [o] moved to another point of its life. *)
Definition at_point (o : op) (s : PrivilegedOperationState.t)
    (d : option PrivilegedOperationReview.t) (attempts rev time : Z) : op :=
  mk (id o) (kind o) (target o) (payload_digest o) (authority o) (idempotency o)
    (links o) s d attempts rev (created_at o) time.

Lemma reach_prepared o :
  intent_ok o → privileged_reachable (at_point o Prepared None 0 0 (created_at o)).
Proof.
  intros Hi. eapply (reachable_prepare (id o) (PrivilegedOperationIntent.mk (kind o)
    (target o) (payload_digest o) (authority o) (idempotency o) (links o)) (created_at o)).
  by apply prepare_Ok.
Qed.

Lemma reach_call c now o :
  privileged_reachable o → ready (call_target c o) now o → call_guard c now o →
  privileged_reachable (moved c now o).
Proof.
  intros Hr H1 H2. eapply reachable_step; [done|]. exists c, now.
  by apply privileged_apply_Ok.
Qed.

Lemma reach_dispatching o (n : nat) time :
  intent_ok o → Z.of_nat n < u32_max → (n = 0%nat ∨ retry_safe o) →
  created_at o ≤ time ≤ PrivilegedAuthority.expires_at (authority o) →
  privileged_reachable
    (at_point o Dispatching None (Z.of_nat n + 1) (2 * Z.of_nat n + 1) time).
Proof.
  intros Hi. revert time. induction n as [|n IH]; intros time Hn Hc Ht.
  - apply (reach_call PDispatch time _ (reach_prepared o Hi)); split_and!; cbn;
      done || unfold u32_max, u64_max; lia.
  - destruct Hc as [|Hc]; [done|].
    specialize (IH (created_at o) ltac:(lia) ltac:(by right) ltac:(unfold intent_ok in Hi; lia)).
    apply (reach_call PScheduleRetry (created_at o)) in IH; [|split_and!; cbn; [done|lia|]|done].
    2:{ unfold u32_max, u64_max in *. lia. }
    apply (reach_call PDispatch time) in IH; [|split_and!; cbn; [done|lia|]|split; cbn; lia].
    2:{ unfold u32_max, u64_max in *. lia. }
    unfold moved in IH; cbn in IH. unfold at_point.
    by replace (Z.of_nat (S n) + 1) with (Z.of_nat n + 1 + 1) by lia;
      replace (2 * Z.of_nat (S n) + 1) with (2 * Z.of_nat n + 1 + 1 + 1) by lia.
Qed.

Lemma reach_dispatch o time :
  intent_ok o → 1 ≤ attempt_count o ≤ u32_max → (¬ retry_safe o → attempt_count o ≤ 1) →
  created_at o ≤ time ≤ PrivilegedAuthority.expires_at (authority o) →
  privileged_reachable
    (at_point o Dispatching None (attempt_count o) (2 * attempt_count o - 1) time).
Proof.
  intros Hi Ha Hc Ht.
  pose proof (reach_dispatching o (Z.to_nat (attempt_count o - 1)) time Hi) as H.
  rewrite Z2Nat.id in H by lia.
  replace (attempt_count o - 1 + 1) with (attempt_count o) in H by lia.
  replace (2 * (attempt_count o - 1) + 1) with (2 * attempt_count o - 1) in H by lia.
  apply H; [lia| |lia]. destruct (decide (retry_safe o)) as [|n]; [by right|].
  specialize (Hc n). left. lia.
Qed.

(** An attempt that ended: what one more call makes of the last dispatch. *)
Lemma reach_after_dispatch c o time s rev d :
  intent_ok o → created_at o ≤ time → 1 ≤ attempt_count o ≤ u32_max →
  (¬ retry_safe o → attempt_count o ≤ 1) →
  permits Dispatching s = true → call_target c o = s → call_guard c time o →
  rev = 2 * attempt_count o → d = None →
  privileged_reachable (at_point o s d (attempt_count o) rev time).
Proof.
  intros Hi Ht Ha Hc Hp Htg Hg -> ->.
  pose proof (reach_dispatch o (created_at o) Hi Ha Hc
    ltac:(unfold intent_ok in Hi; lia)) as Hr.
  apply (reach_call c time) in Hr; [| |by destruct c; subst].
  - unfold moved in Hr; cbn in Hr. unfold at_point.
    replace (2 * attempt_count o - 1 + 1) with (2 * attempt_count o) in Hr by lia.
    by destruct c; cbn in Htg; subst s.
  - split_and!; [by subst s; destruct c|done|].
    cbn; unfold u32_max, u64_max in *; lia.
Qed.

Lemma inv_reachable o : journal_inv o → privileged_reachable o.
Proof.
  intros (Hi & Ht & [Hr Hs] & Hn & Hu).
  assert (Heta : o = at_point o (state o) (review_disposition o) (attempt_count o)
    (revision o) (updated_at o)) by (by destruct o).
  rewrite Heta. destruct (state o) eqn:Es; cbn in Hr, Hs.
  - destruct Hs as (-> & -> & ->). rewrite Hr. by apply reach_prepared.
  - destruct Hs as (Ha & -> & He). rewrite Hr. by apply reach_dispatch.
  - apply (reach_after_dispatch PScheduleRetry); cbn; tauto || lia.
  - apply (reach_after_dispatch PSucceed); cbn; tauto || lia.
  - apply (reach_after_dispatch PFail); cbn; tauto || lia.
  - destruct Hs as (Hns & Ha & Hrev). apply (reach_after_dispatch PInterrupt);
      try done || lia. cbn. by rewrite decide_False.
  - destruct Hr as [d Hd], Hs as (Hns & Ha & Hrev). rewrite Hd, Hrev.
    replace 3 with (2 * attempt_count o + 1) by lia.
    refine (reach_call (PReview d) (updated_at o)
      (at_point o InterruptedNeedsReview None _ _ (created_at o)) _ _ I).
    + apply (reach_after_dispatch PInterrupt); try done || lia.
      cbn. by rewrite decide_False.
    + split_and!; [done..|]. cbn. unfold u64_max. lia.
  - destruct Hs as [-> ->]. rewrite Hr.
    refine (reach_call PCancel (updated_at o) _ (reach_prepared o Hi) _ I).
    by split_and!.
Qed.
End shape.

(** ** Traces

    Calls arrive in any order and at any time; a refused call is dropped. The
    trace counts how often an attempt was allowed across the boundary. *)
Fixpoint privileged_trace (cs : list (privileged_call * Z)) (o : op) : op * nat :=
  match cs with
  | [] => (o, 0%nat)
  | (c, now) :: cs' =>
      match privileged_apply c now o with
      | (o1, Ok _) =>
          let '(o2, n) := privileged_trace cs' o1 in
          (o2, match c with PDispatch => S n | _ => n end)
      | (o1, Err _) => privileged_trace cs' o1
      end
  end.

Lemma privileged_trace_count cs o o' n :
  privileged_trace cs o = (o', n) →
  PrivilegedOperation.attempt_count o' =
    PrivilegedOperation.attempt_count o + Z.of_nat n ∧
  PrivilegedOperation.kind o' = PrivilegedOperation.kind o ∧
  (privileged_reachable o → privileged_reachable o').
Proof.
  revert o o' n. induction cs as [|[c now] cs IH]; intros o o' n H; cbn in H.
  { simplify_eq. cbn. split_and!; [lia|done..]. }
  destruct (privileged_apply c now o) as [o1 [[]|e]] eqn:Ha.
  - destruct (privileged_trace cs o1) as [o2 n2] eqn:Ht. simplify_eq.
    apply IH in Ht as (IH1 & IH2 & IH3). rewrite IH1, IH2.
    assert (Hr : privileged_reachable o → privileged_reachable o1)
      by (intros; eapply reachable_step; [done|by exists c, now]).
    apply privileged_apply_Ok in Ha as (_ & _ & ->).
    destruct c; cbn in *; split_and!; auto; lia.
  - apply privileged_apply_atomic in Ha as ->. by apply IH in H.
Qed.

(** ** Properties *)

(** C12. The restart check is exact: for an operation within the counter range a
    snapshot is accepted by [restore], with no more than one attempt when its
    kind is non-idempotent, if and only if it is a state the journal can reach
    from a prepared intent by accepted calls. *)
Theorem privileged_restore_exact o :
  is_u32 (PrivilegedOperation.attempt_count o) →
  PrivilegedOperation.restore o = Ok o ∧
    (PrivilegedOperation.retry_class o = PrivilegedRetryClass.NonIdempotent →
     PrivilegedOperation.attempt_count o ≤ 1) ↔
  privileged_reachable o ∧ 2 * PrivilegedOperation.attempt_count o ≤ u32_max.
Proof.
  intros Ha. rewrite retry_class_cases.
  assert (Hi : privileged_reachable o ↔ journal_inv o)
    by (split; [apply reachable_inv|apply inv_reachable]).
  rewrite Hi, <- validate_snapshot_spec by done.
  unfold PrivilegedOperation.restore. destruct (PrivilegedOperation.validate_snapshot o); naive_solver.
Qed.

Definition demo_links : PrivilegedOperationLinks.t :=
  PrivilegedOperationLinks.mk None None None None.
Definition demo_key {k} : safe_key k := mk_key (lit "grant-0000000001").
Definition demo_operation (k : PrivilegedOperationKind.t)
    (x : PrivilegedOperationTarget.t) (s : PrivilegedOperationState.t)
    (attempts rev : Z) : op :=
  PrivilegedOperation.mk (mk_id (lit "operation-1")) k x (repeat 0 32)
    (PrivilegedAuthority.mk demo_key 100) (PrivilegedIdempotency.mk demo_key (repeat 1 32))
    demo_links s None attempts rev 10 (if bool_decide (s = Prepared) then 10 else 20).
Definition demo_health : op :=
  demo_operation PrivilegedOperationKind.RunnerHealth
    (PrivilegedOperationTarget.Runner demo_key) Succeeded 3 6.
Definition demo_catalog (s : PrivilegedOperationState.t) (attempts rev : Z) : op :=
  demo_operation PrivilegedOperationKind.CatalogApply
    (PrivilegedOperationTarget.Catalog demo_key) s attempts rev.

(** A health check that needed three attempts is restored, hence reachable. *)
Lemma privileged_restore_exact_witness :
  PrivilegedOperation.restore demo_health = Ok demo_health ∧
  privileged_reachable demo_health.
Proof.
  split; [vm_compute; reflexivity|].
  apply (privileged_restore_exact demo_health).
  - unfold fits, u32_max; cbn; lia.
  - split; [vm_compute; reflexivity|]. intros H; discriminate H.
Defined.

(** C30. The restart check accepts one kind of snapshot the state machine cannot
    produce: a non-idempotent operation that claims several attempts. *)
Theorem privileged_restore_accepts_unreachable :
  let o := demo_catalog Succeeded 5 10 in
  PrivilegedOperation.restore o = Ok o ∧ ¬ privileged_reachable o.
Proof.
  split; [vm_compute; reflexivity|]. intros (_ & _ & _ & H & _)%reachable_inv.
  cbn in H. specialize (H ltac:(done)). lia.
Qed.

(** C25. A non-idempotent operation crosses the privileged boundary at most once.
    From a prepared intent, whatever calls follow and however often dispatch is
    tried again after an interruption, at most one dispatch is accepted and the
    stored attempt count is the number of accepted dispatches. *)
Theorem privileged_non_idempotent_dispatched_once i intent now cs o o' n :
  PrivilegedOperation.prepare i intent now = Ok o →
  privileged_trace cs o = (o', n) →
  PrivilegedOperation.attempt_count o' = Z.of_nat n ∧
  (PrivilegedOperationKind.retry_class (PrivilegedOperationIntent.kind intent)
     = PrivilegedRetryClass.NonIdempotent → (n ≤ 1)%nat).
Proof.
  intros Hp Ht. apply privileged_trace_count in Ht as (Hc & Hk & Hr).
  specialize (Hr (reachable_prepare _ _ _ _ Hp)).
  apply reachable_inv in Hr as (_ & _ & _ & Hn & _).
  apply prepare_Ok in Hp as [-> _]. cbn in *. split; [lia|]. intros Hcl.
  specialize (Hn ltac:(apply retry_class_cases; unfold PrivilegedOperation.retry_class;
    by rewrite Hk)). lia.
Qed.

Lemma privileged_non_idempotent_dispatched_once_witness :
  let '(o', n) :=
    privileged_trace [(PDispatch, 11); (PInterrupt, 12); (PDispatch, 13); (PScheduleRetry, 14);
                      (PReview PrivilegedOperationReview.Abandoned, 15); (PDispatch, 16)]
      (demo_catalog Prepared 0 0) in
  PrivilegedOperation.state o' = Reviewed ∧ (n ≤ 1)%nat.
Proof.
  destruct (privileged_trace _ _) as [o' n] eqn:H. split.
  - vm_compute in H. injection H as <- _. reflexivity.
  - refine (proj2 (privileged_non_idempotent_dispatched_once (mk_id (lit "operation-1"))
      (PrivilegedOperationIntent.mk PrivilegedOperationKind.CatalogApply
         (PrivilegedOperationTarget.Catalog demo_key) (repeat 0 32)
         (PrivilegedAuthority.mk demo_key 100)
         (PrivilegedIdempotency.mk demo_key (repeat 1 32)) demo_links) 10 _ _ _ _ _ H) _);
    vm_compute; reflexivity.
Defined.

(** Every call is all or nothing and is accepted exactly when its lifecycle
    edge exists, time does not run backwards, no counter is exhausted and its
    own condition holds: a dispatch additionally needs unexpired authority, a
    retry a retry-safe kind. An accepted call changes the operation as [moved]
    says; a refused one leaves it as it was. *)
Theorem privileged_call_outcome c now o :
  (ready (call_target c o) now o ∧ call_guard c now o ∧
     privileged_apply c now o = (moved c now o, Ok tt)) ∨
  (¬ (ready (call_target c o) now o ∧ call_guard c now o) ∧
     ∃ e, privileged_apply c now o = (o, Err e)).
Proof.
  destruct (privileged_apply c now o) as [o' [[]|e]] eqn:Ha.
  - apply privileged_apply_Ok in Ha as (H1 & H2 & ->). by left.
  - right. pose proof Ha as ->%privileged_apply_atomic. split; [|by exists e].
    intros [H1 H2]. pose proof (proj2 (privileged_apply_Ok c now o _) (conj H1 (conj H2 eq_refl))).
    congruence.
Qed.
