(* ===== verification/ConversationTurns.v ===== *)
(** * Conversation turns

    [crates/grok-domain/src/conversation.rs], first part: the lineage of one
    direct conversation attempt, the bounded metadata of a response and the
    durable turn aggregate around one billable provider request. The URL parser
    is the [url] crate's and is a class here. *)
From S2P Require Import Prelude RustText Ids.

Definition MAX_IDEMPOTENCY_KEY_BYTES : Z := 128.
Definition MAX_CREDENTIAL_BINDING_ID_BYTES : Z := 128.
Definition MAX_MODEL_ID_BYTES : Z := 512.
Definition MAX_PROVIDER_RESPONSE_ID_BYTES : Z := 512.
Definition MAX_FAILURE_MESSAGE_BYTES : Z := 512.
Definition MAX_CITATIONS : Z := 256.
Definition MAX_CITATION_TITLE_BYTES : Z := 500.
Definition MAX_CITATION_URL_BYTES : Z := 8192.
Definition MAX_CONVERSATION_CITATION_TOTAL_BYTES : Z := 1000000.
Definition MAX_CONVERSATION_USAGE_VALUE : Z := 9007199254740991.

(** ** States and errors *)

Module ConversationTurnState.
Inductive t : Type :=
| Reserved | ProviderStarted | Completed | Failed | Cancelled
| InterruptedNeedsReview.
#[global] Instance eq_dec : EqDecision t.
Proof. solve_decision. Defined.

(** [ConversationTurnState::is_terminal]. *)
Definition is_terminal (s : t) : bool :=
  match s with
  | Completed | Failed | Cancelled | InterruptedNeedsReview => true
  | _ => false
  end.

(** [ConversationTurnState::permits]. *)
Definition permits (s next : t) : bool :=
  match s, next with
  | Reserved, (ProviderStarted | Cancelled) => true
  | ProviderStarted, (Completed | Failed | InterruptedNeedsReview) => true
  | _, _ => false
  end.
End ConversationTurnState.

#[global] Instance turn_lifecycle : Lifecycle ConversationTurnState.t := {|
  permits := ConversationTurnState.permits;
  is_terminal := ConversationTurnState.is_terminal;
|}.
#[global] Instance turn_lifecycle_laws : LifecycleLaws ConversationTurnState.t.
Proof.
  split.
  - intros [] []; cbn; congruence.
  - intros []; cbn; try done; intros _.
    + by exists ConversationTurnState.Cancelled.
    + by exists ConversationTurnState.Failed.
  - intros []; done.
Qed.

Module ConversationTurnError.
Inductive t : Type :=
| InvalidField (field : str)
| InvalidTransition (from to : ConversationTurnState.t)
| ClockRegression
| RevisionExhausted.
#[global] Instance eq_dec : EqDecision t.
Proof. solve_decision. Defined.
End ConversationTurnError.

(** ** Bounded metadata *)

Module ConversationFailureKind.
Inductive t : Type :=
| Authentication | Forbidden | InvalidRequest | RateLimited | Unavailable | Protocol.
#[global] Instance eq_dec : EqDecision t.
Proof. solve_decision. Defined.
End ConversationFailureKind.

Module ConversationFailure.
Record t : Type := mk {
  kind : ConversationFailureKind.t; message : str; retryable : bool }.
#[global] Instance eq_dec : EqDecision t.
Proof. solve_decision. Defined.
End ConversationFailure.

Module ConversationCitation.
Record t : Type := mk { title : option str; url : str }.
#[global] Instance eq_dec : EqDecision t.
Proof. solve_decision. Defined.
End ConversationCitation.

Module ConversationUsage.
Record t : Type := mk {
  input_tokens : Z; output_tokens : Z; cost_in_usd_ticks : Z }.
#[global] Instance eq_dec : EqDecision t.
Proof. solve_decision. Defined.
(** [ConversationUsage::default]. *)
Definition default : t := mk 0 0 0.
End ConversationUsage.

(** [url::Url]: what the program observes of a parsed URL. *)
Class UrlParser := {
  Url : Type;
  url_parse : str → option Url;
  url_scheme : Url → str;
  url_host_str : Url → option str;
  url_username : Url → str;
  url_password : Url → option str;
}.

Module ConversationValidation.
(** [validate_text]. *)
Definition validate_text (value : str) (maximum : Z) (field : str) :
    result ConversationTurnError.t unit :=
  reject_if (is_empty value || (maximum <? len value) || (trim value != value)
             || existsb is_control value)
    (ConversationTurnError.InvalidField field).

(** [validate_failure]. *)
Definition validate_failure (failure : ConversationFailure.t) :
    result ConversationTurnError.t unit :=
  validate_text (ConversationFailure.message failure) MAX_FAILURE_MESSAGE_BYTES
    (lit "failure.message").

(** [byte.is_ascii_alphanumeric() || matches!(byte, b'-' | b'_' | b'.' | b':')]. *)
Definition binding_byte (b : Z) : bool :=
  is_ascii_alphanumeric b || (b =? 45) || (b =? 95) || (b =? 46) || (b =? 58).

(** [validate_credential_binding_id]. *)
Definition validate_credential_binding_id (value : str) :
    result ConversationTurnError.t unit :=
  reject_if (is_empty value || (MAX_CREDENTIAL_BINDING_ID_BYTES <? len value)
             || negb (forallb binding_byte (bytes value)))
    (ConversationTurnError.InvalidField (lit "credential_binding_id")).

(** [validate_response_id]. *)
Definition validate_response_id (value : option str) :
    result ConversationTurnError.t unit :=
  match value with
  | Some value =>
      validate_text value MAX_PROVIDER_RESPONSE_ID_BYTES (lit "provider_response_id")
  | None => Ok tt
  end.

Section urls.
Context `{UrlParser}.

(** [is_credential_free_https_url]. *)
Definition is_credential_free_https_url (value : str) : bool :=
  if (MAX_CITATION_URL_BYTES <? len value)
     || negb (starts_with (lit "https://") value)
     || contains 64 value
     || existsb (λ c, is_control c || is_whitespace c) value
  then false
  else match url_parse value with
       | Some url =>
           (url_scheme url == lit "https")
           && match url_host_str url with
              | Some host => negb (is_empty host) | None => false end
           && is_empty (url_username url)
           && is_none (url_password url)
       | None => false
       end.

Definition title_invalid (title : option str) : bool :=
  match title with
  | Some title =>
      is_empty title || (MAX_CITATION_TITLE_BYTES <? len title)
      || existsb is_control title
  | None => false
  end.

(** The loop of [validate_citations], carrying [total_bytes]. *)
Fixpoint validate_citations_from (total_bytes : Z)
    (values : list ConversationCitation.t) : result ConversationTurnError.t unit :=
  match values with
  | [] => Ok tt
  | citation :: values' =>
      _ ← reject_if (negb (is_credential_free_https_url (ConversationCitation.url citation)))
            (ConversationTurnError.InvalidField (lit "citation.url"));
      _ ← reject_if (title_invalid (ConversationCitation.title citation))
            (ConversationTurnError.InvalidField (lit "citation.title"));
      total_bytes' ← ok_or (ConversationTurnError.InvalidField (lit "citations"))
        (total ← checked_add usize_max total_bytes (len (ConversationCitation.url citation));
         match ConversationCitation.title citation with
         | None => Some total
         | Some title => checked_add usize_max total (len title)
         end);
      _ ← reject_if (MAX_CONVERSATION_CITATION_TOTAL_BYTES <? total_bytes')
            (ConversationTurnError.InvalidField (lit "citations"));
      validate_citations_from total_bytes' values'
  end.

(** [validate_citations]. *)
Definition validate_citations (values : list ConversationCitation.t) :
    result ConversationTurnError.t unit :=
  _ ← reject_if (MAX_CITATIONS <? Z.of_nat (length values))
        (ConversationTurnError.InvalidField (lit "citations"));
  validate_citations_from 0 values.
End urls.

(** [validate_usage]. *)
Definition validate_usage (usage : ConversationUsage.t) :
    result ConversationTurnError.t unit :=
  reject_if ((MAX_CONVERSATION_USAGE_VALUE <? ConversationUsage.input_tokens usage)
             || (MAX_CONVERSATION_USAGE_VALUE <? ConversationUsage.output_tokens usage)
             || (MAX_CONVERSATION_USAGE_VALUE <? ConversationUsage.cost_in_usd_ticks usage))
    (ConversationTurnError.InvalidField (lit "usage")).
End ConversationValidation.

(** ** Lineage *)

Module ConversationTurnOrigin.
Inductive t : Type :=
| Original
| Retry (source_turn_id : ConversationTurnId)
| EditAndBranch (source_turn_id : ConversationTurnId)
| Regenerate (source_turn_id : ConversationTurnId).
#[global] Instance eq_dec : EqDecision t.
Proof. solve_decision. Defined.
End ConversationTurnOrigin.

Module ChatRail.
Inductive t : Type := XaiApiKey | SuperGrokApi.
#[global] Instance eq_dec : EqDecision t.
Proof. solve_decision. Defined.
End ChatRail.

Module ConversationTurnLineage.
Import ConversationValidation.
Record t : Type := mk {
  origin : ConversationTurnOrigin.t;
  credential_binding_id : option str;
  rail : ChatRail.t;
  retry_depth : Z;
}.
#[global] Instance eq_dec : EqDecision t.
Proof. solve_decision. Defined.

(** [ConversationTurnLineage::original_on] and [original]. *)
Definition original_on (rail : ChatRail.t) (credential_binding_id : str) :
    result ConversationTurnError.t t :=
  _ ← validate_credential_binding_id credential_binding_id;
  Ok (mk ConversationTurnOrigin.Original (Some credential_binding_id) rail 0).
Definition original := original_on ChatRail.XaiApiKey.

(** [ConversationTurnLineage::retry_on] and [retry]. *)
Definition retry_on (source_turn_id : ConversationTurnId) (rail : ChatRail.t)
    (credential_binding_id : str) (source_retry_depth : Z) :
    result ConversationTurnError.t t :=
  _ ← validate_credential_binding_id credential_binding_id;
  retry_depth ← ok_or (ConversationTurnError.InvalidField (lit "retry_depth"))
    (depth ← checked_add u8_max source_retry_depth 1;
     if depth <=? 64 then Some depth else None);
  Ok (mk (ConversationTurnOrigin.Retry source_turn_id) (Some credential_binding_id)
        rail retry_depth).
Definition retry (source_turn_id : ConversationTurnId) :=
  retry_on source_turn_id ChatRail.XaiApiKey.

(** [ConversationTurnLineage::edit_and_branch_on] and [edit_and_branch]. *)
Definition edit_and_branch_on (source_turn_id : ConversationTurnId)
    (rail : ChatRail.t) (credential_binding_id : str) :
    result ConversationTurnError.t t :=
  _ ← validate_credential_binding_id credential_binding_id;
  Ok (mk (ConversationTurnOrigin.EditAndBranch source_turn_id)
        (Some credential_binding_id) rail 0).
Definition edit_and_branch (source_turn_id : ConversationTurnId) :=
  edit_and_branch_on source_turn_id ChatRail.XaiApiKey.

(** [ConversationTurnLineage::regenerate_on] and [regenerate]. *)
Definition regenerate_on (source_turn_id : ConversationTurnId)
    (rail : ChatRail.t) (credential_binding_id : str) :
    result ConversationTurnError.t t :=
  _ ← validate_credential_binding_id credential_binding_id;
  Ok (mk (ConversationTurnOrigin.Regenerate source_turn_id)
        (Some credential_binding_id) rail 0).
Definition regenerate (source_turn_id : ConversationTurnId) :=
  regenerate_on source_turn_id ChatRail.XaiApiKey.

(** [ConversationTurnLineage::restore]. *)
Definition restore (lineage : t) (owner_turn_id : ConversationTurnId) :
    result ConversationTurnError.t t :=
  _ ← match credential_binding_id lineage with
      | Some binding => validate_credential_binding_id binding
      | None => Ok tt
      end;
  let legal :=
    match origin lineage with
    | ConversationTurnOrigin.Original => retry_depth lineage =? 0
    | ConversationTurnOrigin.Retry source_turn_id =>
        (source_turn_id != owner_turn_id) && is_some (credential_binding_id lineage)
        && in_range 1 64 (retry_depth lineage)
    | ConversationTurnOrigin.EditAndBranch source_turn_id
    | ConversationTurnOrigin.Regenerate source_turn_id =>
        (source_turn_id != owner_turn_id) && is_some (credential_binding_id lineage)
        && (retry_depth lineage =? 0)
    end in
  if legal then Ok lineage
  else Err (ConversationTurnError.InvalidField (lit "lineage")).
End ConversationTurnLineage.

(** ** The turn aggregate *)

Module ConversationTurn.
Import ConversationTurnState ConversationValidation.
Record t : Type := mk {
  id : ConversationTurnId;
  idempotency_key : str;
  request_fingerprint : digest;
  provider_request_fingerprint : option digest;
  project_id : ProjectId;
  thread_id : ThreadId;
  user_message_id : MessageId;
  run_id : RunId;
  model_id : str;
  search_enabled : bool;
  state : ConversationTurnState.t;
  effect_id : option EffectId;
  assistant_message_id : option MessageId;
  failure : option ConversationFailure.t;
  provider_response_id : option str;
  citations : list ConversationCitation.t;
  usage : ConversationUsage.t;
  zero_data_retention : option bool;
  revision : Z;
  created_at : Z;
  updated_at : Z;
}.
#[global] Instance eta : Eta t := λ x,
  mk (id x) (idempotency_key x) (request_fingerprint x)
     (provider_request_fingerprint x) (project_id x) (thread_id x)
     (user_message_id x) (run_id x) (model_id x) (search_enabled x) (state x)
     (effect_id x) (assistant_message_id x) (failure x) (provider_response_id x)
     (citations x) (usage x) (zero_data_retention x) (revision x)
     (created_at x) (updated_at x).
#[global] Instance eq_dec : EqDecision t.
Proof. solve_decision. Defined.

(** [ConversationTurn::reserve]. *)
Definition reserve (id : ConversationTurnId) (idempotency_key : str)
    (request_fingerprint : digest) (project_id : ProjectId) (thread_id : ThreadId)
    (user_message_id : MessageId) (run_id : RunId) (model_id : str)
    (search_enabled : bool) (now : Z) : result ConversationTurnError.t t :=
  _ ← validate_text idempotency_key MAX_IDEMPOTENCY_KEY_BYTES (lit "idempotency_key");
  _ ← validate_text model_id MAX_MODEL_ID_BYTES (lit "model_id");
  Ok (mk id idempotency_key request_fingerprint None project_id thread_id
        user_message_id run_id model_id search_enabled Reserved None None None None
        [] ConversationUsage.default None 0 now now).

(** [ConversationTurn::move_to]. *)
Definition move_to (next : ConversationTurnState.t) (now : Z) :
    method t ConversationTurnError.t unit :=
  turn ← self;
  _ ← throw_if (negb (permits (state turn) next))
        (ConversationTurnError.InvalidTransition (state turn) next);
  _ ← throw_if (now <? updated_at turn) ConversationTurnError.ClockRegression;
  revision' ← lift (ok_or ConversationTurnError.RevisionExhausted
                      (checked_add u64_max (revision turn) 1));
  _ ← assign (λ x, x <| revision := revision' |>);
  _ ← assign (λ x, x <| state := next |>);
  assign (λ x, x <| updated_at := now |>).

(** [ConversationTurn::start_provider]. *)
Definition start_provider (effect_id' : EffectId) (fingerprint : digest) (now : Z) :
    method t ConversationTurnError.t unit :=
  _ ← move_to ProviderStarted now;
  _ ← assign (λ x, x <| effect_id := Some effect_id' |>);
  assign (λ x, x <| provider_request_fingerprint := Some fingerprint |>).

(** [ConversationTurn::fail]. *)
Definition fail (failure' : ConversationFailure.t) (now : Z) :
    method t ConversationTurnError.t unit :=
  _ ← lift (validate_failure failure');
  _ ← move_to Failed now;
  assign (λ x, x <| failure := Some failure' |>).

(** [ConversationTurn::cancel] and [ConversationTurn::interrupt]. *)
Definition cancel (now : Z) : method t ConversationTurnError.t unit :=
  move_to Cancelled now.
Definition interrupt (now : Z) : method t ConversationTurnError.t unit :=
  move_to InterruptedNeedsReview now.

(** [ConversationTurn::is_reachable]. *)
Definition dispatch_absent (x : t) : bool :=
  is_none (provider_request_fingerprint x) && is_none (effect_id x).
Definition dispatch_present (x : t) : bool :=
  is_some (provider_request_fingerprint x) && is_some (effect_id x).
Definition response_absent (x : t) : bool :=
  is_none (provider_response_id x) && is_empty (citations x)
  && (usage x == ConversationUsage.default) && is_none (zero_data_retention x).
Definition outcome_absent (x : t) : bool :=
  is_none (assistant_message_id x) && is_none (failure x) && response_absent x.

Definition is_reachable (x : t) : bool :=
  if updated_at x <? created_at x then false
  else match state x with
  | Reserved =>
      (revision x =? 0) && (updated_at x =? created_at x)
      && dispatch_absent x && outcome_absent x
  | ProviderStarted => (revision x =? 1) && dispatch_present x && outcome_absent x
  | Completed =>
      (revision x =? 2) && dispatch_present x
      && is_some (assistant_message_id x) && is_none (failure x)
  | Failed =>
      (revision x =? 2) && dispatch_present x
      && is_none (assistant_message_id x) && is_some (failure x) && response_absent x
  | Cancelled => (revision x =? 1) && dispatch_absent x && outcome_absent x
  | InterruptedNeedsReview =>
      (revision x =? 2) && dispatch_present x && outcome_absent x
  end.

Section urls.
Context `{UrlParser}.

(** [ConversationTurn::complete]. *)
Definition complete (assistant_message_id' : MessageId)
    (provider_response_id' : option str) (citations' : list ConversationCitation.t)
    (usage' : ConversationUsage.t) (zero_data_retention' : option bool) (now : Z) :
    method t ConversationTurnError.t unit :=
  _ ← lift (validate_response_id provider_response_id');
  _ ← lift (validate_citations citations');
  _ ← lift (validate_usage usage');
  _ ← move_to Completed now;
  _ ← assign (λ x, x <| assistant_message_id := Some assistant_message_id' |>);
  _ ← assign (λ x, x <| provider_response_id := provider_response_id' |>);
  _ ← assign (λ x, x <| citations := citations' |>);
  _ ← assign (λ x, x <| usage := usage' |>);
  assign (λ x, x <| zero_data_retention := zero_data_retention' |>).

(** [ConversationTurn::restore]. *)
Definition restore (snapshot : t) : result ConversationTurnError.t t :=
  _ ← validate_text (idempotency_key snapshot) MAX_IDEMPOTENCY_KEY_BYTES
        (lit "idempotency_key");
  _ ← validate_text (model_id snapshot) MAX_MODEL_ID_BYTES (lit "model_id");
  _ ← validate_response_id (provider_response_id snapshot);
  _ ← validate_citations (citations snapshot);
  _ ← validate_usage (usage snapshot);
  _ ← match failure snapshot with
      | Some failure => validate_failure failure | None => Ok tt end;
  _ ← reject_if (negb (is_reachable snapshot))
        (ConversationTurnError.InvalidField (lit "persisted_state"));
  Ok snapshot.
End urls.
End ConversationTurn.

(** ** Calls on one turn *)

Import ConversationTurnState.
Abbreviation turn := ConversationTurn.t (only parsing).

Inductive turn_call : Type :=
| TStart (effect_id : EffectId) (fingerprint : digest)
| TComplete (message : MessageId) (response_id : option str)
    (citations : list ConversationCitation.t) (usage : ConversationUsage.t)
    (zero_data_retention : option bool)
| TFail (failure : ConversationFailure.t)
| TCancel
| TInterrupt.

Definition turn_target (c : turn_call) : ConversationTurnState.t :=
  match c with
  | TStart _ _ => ProviderStarted
  | TComplete _ _ _ _ _ => Completed
  | TFail _ => Failed
  | TCancel => Cancelled
  | TInterrupt => InterruptedNeedsReview
  end.

Lemma turn_move_to_Ok next now x x' :
  ConversationTurn.move_to next now x = (x', Ok tt) ↔
  (permits (ConversationTurn.state x) next = true ∧
   ConversationTurn.updated_at x ≤ now ∧ ConversationTurn.revision x < u64_max) ∧
  x' = x <| ConversationTurn.revision := ConversationTurn.revision x + 1 |>
         <| ConversationTurn.state := next |>
         <| ConversationTurn.updated_at := now |>.
Proof.
  unfold ConversationTurn.move_to, checked_add. run_unfold. cbn.
  repeat (case_match; cbn); bool_facts;
    (split; [intros; simplify_eq | intros; destruct_and?; simplify_eq]);
    split_and?; try (done || lia || congruence).
Qed.

(** A transition followed by assignments that cannot fail. *)
Lemma turn_set_Ok next now (k : method turn ConversationTurnError.t unit) x x' :
  (∀ y, (k y).2 = Ok tt) →
  (ConversationTurn.move_to next now ≫= λ _, k) x = (x', Ok tt) ↔
  (permits (ConversationTurn.state x) next = true ∧
   ConversationTurn.updated_at x ≤ now ∧ ConversationTurn.revision x < u64_max) ∧
  x' = (k (x <| ConversationTurn.revision := ConversationTurn.revision x + 1 |>
         <| ConversationTurn.state := next |>
         <| ConversationTurn.updated_at := now |>)).1.
Proof.
  intros Hk. rewrite method_bind_Ok. split.
  - intros (x1 & [] & [H ->]%turn_move_to_Ok & Hx). by rewrite Hx.
  - intros [H ->]. eexists _, tt. split; [by apply turn_move_to_Ok|].
    rewrite <- (Hk (x <| ConversationTurn.revision := ConversationTurn.revision x + 1 |>
      <| ConversationTurn.state := next |> <| ConversationTurn.updated_at := now |>)).
    apply surjective_pairing.
Qed.

Section turns.
Context `{UP : UrlParser}.
Import ConversationTurn ConversationValidation.

Definition turn_apply (c : turn_call) (now : Z) : method turn ConversationTurnError.t unit :=
  match c with
  | TStart effect_id fingerprint => start_provider effect_id fingerprint now
  | TComplete message response_id citations usage zdr =>
      complete message response_id citations usage zdr now
  | TFail failure => fail failure now
  | TCancel => cancel now
  | TInterrupt => interrupt now
  end.

(** What the call's arguments must satisfy, and the fields it sets. *)
Definition turn_args_ok (c : turn_call) : Prop :=
  match c with
  | TComplete _ response_id citations usage _ =>
      validate_response_id response_id = Ok tt ∧ validate_citations citations = Ok tt ∧
      validate_usage usage = Ok tt
  | TFail failure => validate_failure failure = Ok tt
  | _ => True
  end.

Definition turn_moved (c : turn_call) (now : Z) (x : turn) : turn :=
  let x := x <| revision := revision x + 1 |> <| state := turn_target c |>
             <| updated_at := now |> in
  match c with
  | TStart effect fingerprint =>
      x <| effect_id := Some effect |> <| provider_request_fingerprint := Some fingerprint |>
  | TComplete message response_id cs us zdr =>
      x <| assistant_message_id := Some message |> <| provider_response_id := response_id |>
        <| citations := cs |> <| usage := us |> <| zero_data_retention := zdr |>
  | TFail f => x <| failure := Some f |>
  | TCancel | TInterrupt => x
  end.

Definition turn_ready (c : turn_call) (now : Z) (x : turn) : Prop :=
  turn_args_ok c ∧ permits (state x) (turn_target c) = true ∧
  updated_at x ≤ now ∧ revision x < u64_max.

Lemma turn_apply_Ok c now x x' :
  turn_apply c now x = (x', Ok tt) ↔ turn_ready c now x ∧ x' = turn_moved c now x.
Proof.
  unfold turn_ready, turn_moved, turn_apply.
  destruct c; cbn [turn_target turn_args_ok];
    unfold start_provider, complete, fail, cancel, interrupt;
    [| | |rewrite turn_move_to_Ok; tauto..].
  - rewrite turn_set_Ok by done. cbn. tauto.
  - rewrite lift_bind_Ok. setoid_rewrite lift_bind_Ok. setoid_rewrite lift_bind_Ok.
    setoid_rewrite turn_set_Ok; [|done..]. cbn. split.
    + intros ([] & H1 & [] & H2 & [] & H3 & H). tauto.
    + intros (((H1 & H2 & H3) & H) & ->). by repeat (exists tt; split; [done|]).
  - rewrite lift_bind_Ok. setoid_rewrite turn_set_Ok; [|done]. cbn. split.
    + intros ([] & H1 & H). tauto.
    + intros ((H1 & H) & ->). by exists tt.
Qed.

Lemma turn_apply_atomic c now : atomic (turn_apply c now).
Proof.
  destruct c; cbn [turn_apply];
    unfold start_provider, complete, fail, cancel, interrupt, move_to; solve_atomic.
Qed.

(** ** Reachable turns *)

Inductive turn_reachable : turn → Prop :=
| turn_reserved i key fp pid tid mid rid model search now x :
    reserve i key fp pid tid mid rid model search now = Ok x → turn_reachable x
| turn_step x x' c now :
    turn_reachable x → turn_apply c now x = (x', Ok tt) → turn_reachable x'.

Definition turn_fields_ok (x : turn) : Prop :=
  validate_text (idempotency_key x) MAX_IDEMPOTENCY_KEY_BYTES (lit "idempotency_key") = Ok tt ∧
  validate_text (model_id x) MAX_MODEL_ID_BYTES (lit "model_id") = Ok tt ∧
  validate_response_id (provider_response_id x) = Ok tt ∧
  validate_citations (citations x) = Ok tt ∧
  validate_usage (usage x) = Ok tt ∧
  match failure x with Some f => validate_failure f = Ok tt | None => True end.

Lemma result_unit_Ok {E A} (r : result E unit) (k : unit → result E A) a :
  r ≫= k = Ok a ↔ r = Ok tt ∧ k tt = Ok a.
Proof. destruct r as [[]|]; cbn; naive_solver. Qed.

Lemma turn_restore_Ok x :
  restore x = Ok x ↔ turn_fields_ok x ∧ is_reachable x = true.
Proof.
  unfold restore, turn_fields_ok. rewrite !result_unit_Ok.
  destruct (is_reachable x), (failure x); cbn; naive_solver.
Qed.

Lemma turn_reserve_Ok i key fp pid tid mid rid model search now x :
  reserve i key fp pid tid mid rid model search now = Ok x ↔
  validate_text key MAX_IDEMPOTENCY_KEY_BYTES (lit "idempotency_key") = Ok tt ∧
  validate_text model MAX_MODEL_ID_BYTES (lit "model_id") = Ok tt ∧
  x = mk i key fp None pid tid mid rid model search Reserved None None None None
        [] ConversationUsage.default None 0 now now.
Proof. unfold reserve. rewrite !result_unit_Ok. naive_solver. Qed.

Lemma turn_step_inv c now x x' :
  turn_fields_ok x → is_reachable x = true → turn_apply c now x = (x', Ok tt) →
  turn_fields_ok x' ∧ is_reachable x' = true.
Proof.
  intros Hf Hr ((Ha & Hp & Ht & _) & ->)%turn_apply_Ok.
  unfold is_reachable, turn_fields_ok, outcome_absent, response_absent, dispatch_present,
    dispatch_absent in *.
  destruct (updated_at x <? created_at x) eqn:E; [done|].
  destruct c, (state x) eqn:Es; try done; cbn in Ha |- *; bool_facts;
    rewrite (proj2 (Z.ltb_ge now (created_at x))) by lia;
    (split; [naive_solver|]);
    repeat match goal with H : _ = true |- _ => rewrite H; clear H end; try done;
    rewrite ?andb_true_r, ?andb_true_iff, ?bool_decide_eq_true; split_and?; done || lia.
Qed.

Lemma turn_reach_call c now x :
  turn_reachable x → turn_ready c now x → turn_reachable (turn_moved c now x).
Proof. intros Hx Hr. eapply turn_step; [done|]. by apply (turn_apply_Ok c now). Qed.

Lemma turn_inv_reachable x :
  turn_fields_ok x → is_reachable x = true → turn_reachable x.
Proof.
  destruct x as [i key fp pfp pid tid mid rid model search st eff amid fl prid cits us
    zdr rev created updated].
  intros (Hk & Hm & Hr & Hc & Hu & Hf). cbn in *.
  unfold is_reachable, outcome_absent, response_absent, dispatch_present,
    dispatch_absent; cbn.
  destruct (updated <? created) eqn:E; [done|]. apply Z.ltb_ge in E.
  pose proof (turn_reserved i key fp pid tid mid rid model search created _
    (proj2 (turn_reserve_Ok _ _ _ _ _ _ _ _ _ _ _) (conj Hk (conj Hm eq_refl)))) as Hx.
  assert (Hs : ∀ ef pf now, created ≤ now → turn_reachable (turn_moved (TStart ef pf) now
    (mk i key fp None pid tid mid rid model search Reserved None None None None
        [] ConversationUsage.default None 0 created created))).
  { intros. by apply turn_reach_call. }
  intros H. destruct st, pfp as [pf|], eff as [ef|], amid as [am|], fl as [f|]; bool_facts;
    try done;
    repeat match goal with
    | H : is_none ?o = true |- _ => destruct o; [done|clear H]
    | H : is_empty ?l = true |- _ => destruct l; [clear H|done]
    | H : (_ =? _) = true |- _ => apply Z.eqb_eq in H
    end; simplify_eq/=; [done|by apply (Hs ef pf)|..];
    try (specialize (Hs ef pf created (Z.le_refl _))).
  - apply (turn_reach_call (TComplete am prid cits us zdr) updated) in Hs; done.
  - apply (turn_reach_call (TFail f) updated) in Hs; done.
  - apply (turn_reach_call TCancel updated) in Hx; done.
  - apply (turn_reach_call TInterrupt updated) in Hs; done.
Qed.

Lemma turn_reachable_inv x :
  turn_reachable x → turn_fields_ok x ∧ is_reachable x = true.
Proof.
  induction 1 as [i key fp pid tid mid rid model search now x H|x x' c now _ [IH1 IH2] H].
  - apply turn_reserve_Ok in H as (H1 & H2 & ->). split; [by split_and!|].
    unfold is_reachable; cbn. by rewrite Z.ltb_irrefl, Z.eqb_refl.
  - by eapply turn_step_inv.
Qed.
End turns.

(** ** Accepted histories *)

Section histories.
Context `{UP : UrlParser}.

(** Makes the calls in order, at the given times, and keeps the accepted ones. *)
Fixpoint turn_history (cs : list (turn_call * Z)) (x : turn) : turn * list turn_call :=
  match cs with
  | [] => (x, [])
  | (c, now) :: cs' =>
      match turn_apply c now x with
      | (x1, Ok _) => let '(x2, acc) := turn_history cs' x1 in (x2, c :: acc)
      | (x1, Err _) => turn_history cs' x1
      end
  end.

(** The calls a state still accepts, in order. *)
Definition history_from (s : ConversationTurnState.t) (acc : list turn_call) : Prop :=
  match s, acc with
  | _, [] => True
  | Reserved, [TCancel] => True
  | Reserved, [TStart _ _] => True
  | Reserved, [TStart _ _; (TComplete _ _ _ _ _ | TFail _ | TInterrupt)] => True
  | ProviderStarted, [(TComplete _ _ _ _ _ | TFail _ | TInterrupt)] => True
  | _, _ => False
  end.

Lemma turn_history_spec cs x x' acc :
  turn_history cs x = (x', acc) →
  history_from (ConversationTurn.state x) acc ∧
  ConversationTurn.state x' =
    foldl (λ _ c, turn_target c) (ConversationTurn.state x) acc.
Proof.
  revert x x' acc. induction cs as [|[c now] cs IH]; intros x x' acc H; cbn in H.
  { simplify_eq. by destruct (ConversationTurn.state x'). }
  destruct (turn_apply c now x) as [x1 [[]|e]] eqn:Ha.
  - destruct (turn_history cs x1) as [x2 acc'] eqn:Hh. simplify_eq.
    apply IH in Hh as [IH1 IH2].
    apply turn_apply_Ok in Ha as [(_ & Hp & _) ->].
    assert (Ht : ConversationTurn.state (turn_moved c now x) = turn_target c)
      by (by destruct c).
    rewrite Ht in IH1, IH2. split; [|done].
    destruct (ConversationTurn.state x), c; cbn in Hp; try done; cbn in IH1 |- *;
      by repeat case_match.
  - pose proof Ha as ->%turn_apply_atomic. by apply IH in H.
Qed.

(** The bytes a response's citations occupy. *)
Definition citation_bytes (c : ConversationCitation.t) : Z :=
  len (ConversationCitation.url c) + from_option len 0 (ConversationCitation.title c).
Definition citation_total (cs : list ConversationCitation.t) : Z :=
  foldr (λ c n, citation_bytes c + n) 0 cs.
Definition citation_ok (c : ConversationCitation.t) : Prop :=
  ConversationValidation.is_credential_free_https_url (ConversationCitation.url c) = true ∧
  ConversationValidation.title_invalid (ConversationCitation.title c) = false.

Lemma citation_bytes_nonneg c : 0 ≤ citation_bytes c.
Proof.
  destruct c as [[t|] u]; unfold citation_bytes; cbn;
    pose proof (len_nonneg u); [pose proof (len_nonneg t)|]; lia.
Qed.
Lemma citation_total_cons c cs :
  citation_total (c :: cs) = citation_bytes c + citation_total cs.
Proof. done. Qed.
Lemma citation_total_nonneg cs : 0 ≤ citation_total cs.
Proof.
  induction cs as [|c cs IH]; [done|]. rewrite citation_total_cons.
  pose proof (citation_bytes_nonneg c). lia.
Qed.

(** The overflow checks of one iteration. *)
Lemma citation_add total c :
  (total' ← checked_add usize_max total (len (ConversationCitation.url c));
   match ConversationCitation.title c with
   | None => Some total'
   | Some title => checked_add usize_max total' (len title)
   end) = checked_add usize_max total (citation_bytes c).
Proof.
  destruct c as [[t|] u]; unfold citation_bytes, checked_add; cbn; rewrite ?Z.add_0_r.
  - pose proof (len_nonneg t). rewrite Z.add_assoc.
    destruct (total + len u <=? usize_max) eqn:E; cbn; [done|].
    by rewrite (proj2 (Z.leb_gt _ _)) by lia.
  - by case_match.
Qed.

Lemma validate_citations_from_Ok total cs :
  0 ≤ total ≤ MAX_CONVERSATION_CITATION_TOTAL_BYTES →
  ConversationValidation.validate_citations_from total cs = Ok tt ↔
  Forall citation_ok cs ∧
  total + citation_total cs ≤ MAX_CONVERSATION_CITATION_TOTAL_BYTES.
Proof.
  revert total. induction cs as [|c cs IH]; intros total Ht.
  { cbn. split; [intros _; split; [constructor|lia]|done]. }
  cbn [ConversationValidation.validate_citations_from].
  rewrite !result_unit_Ok, Forall_cons, citation_add, citation_total_cons.
  pose proof (citation_total_nonneg cs). pose proof (citation_bytes_nonneg c).
  unfold citation_ok at 1.
  destruct (ConversationValidation.is_credential_free_https_url _); cbn [negb reject_if];
    [|naive_solver].
  destruct (ConversationValidation.title_invalid _); cbn [reject_if]; [naive_solver|].
  unfold checked_add. destruct (_ <=? usize_max) eqn:E1.
  - cbn [ok_or mbind result_bind]. rewrite result_unit_Ok. unfold reject_if.
    destruct (_ <? total + citation_bytes c) eqn:E2; [split; [naive_solver|lia]|].
    rewrite IH by lia. rewrite Z.add_assoc. tauto.
  - cbn. unfold usize_max, u64_max, MAX_CONVERSATION_CITATION_TOTAL_BYTES in *.
    split; [naive_solver|lia].
Qed.
End histories.

Import ConversationTurnLineage ConversationValidation.

Lemma lineage_original_Ok r b l :
  original_on r b = Ok l ↔
  validate_credential_binding_id b = Ok tt ∧
  l = mk ConversationTurnOrigin.Original (Some b) r 0.
Proof. unfold original_on. rewrite result_unit_Ok. naive_solver. Qed.
Lemma lineage_edit_Ok src r b l :
  edit_and_branch_on src r b = Ok l ↔
  validate_credential_binding_id b = Ok tt ∧
  l = mk (ConversationTurnOrigin.EditAndBranch src) (Some b) r 0.
Proof. unfold edit_and_branch_on. rewrite result_unit_Ok. naive_solver. Qed.
Lemma lineage_regenerate_Ok src r b l :
  regenerate_on src r b = Ok l ↔
  validate_credential_binding_id b = Ok tt ∧
  l = mk (ConversationTurnOrigin.Regenerate src) (Some b) r 0.
Proof. unfold regenerate_on. rewrite result_unit_Ok. naive_solver. Qed.
Lemma lineage_retry_Ok src r b d l :
  retry_on src r b d = Ok l ↔
  validate_credential_binding_id b = Ok tt ∧ d < 64 ∧
  l = mk (ConversationTurnOrigin.Retry src) (Some b) r (d + 1).
Proof.
  unfold retry_on. rewrite result_unit_Ok. unfold checked_add, u8_max.
  destruct (d + 1 <=? 255) eqn:E1; cbn; [destruct (d + 1 <=? 64) eqn:E2; cbn|];
    naive_solver lia.
Qed.

(** ** Properties *)

(** C26. Rehydration accepts exactly the turns the aggregate can produce: a
    snapshot passes [restore] if and only if it is reached from a reservation by
    accepted calls, whatever the URL parser does. *)
Theorem turn_restore_exact `{UP : UrlParser} (x : turn) :
  ConversationTurn.restore x = Ok x ↔ turn_reachable x.
Proof.
  rewrite turn_restore_Ok. split.
  - intros [H1 H2]. by apply turn_inv_reachable.
  - apply turn_reachable_inv.
Qed.

(** A turn reaches the provider at most once and ends once. Whatever calls
    are made on a reserved turn, in any order and at any times, the accepted ones
    are nothing, a cancellation, a start, or a start followed by exactly one of
    completion, failure and interruption, and the final state is the one the last
    accepted call names. *)
Theorem turn_accepted_history `{UP : UrlParser} cs (x x' : turn) acc :
  ConversationTurn.state x = Reserved → turn_history cs x = (x', acc) →
  match acc with
  | [] => ConversationTurn.state x' = Reserved
  | [TCancel] => ConversationTurn.state x' = Cancelled
  | [TStart _ _] => ConversationTurn.state x' = ProviderStarted
  | [TStart _ _; TComplete _ _ _ _ _] => ConversationTurn.state x' = Completed
  | [TStart _ _; TFail _] => ConversationTurn.state x' = Failed
  | [TStart _ _; TInterrupt] => ConversationTurn.state x' = InterruptedNeedsReview
  | _ => False
  end.
Proof.
  intros Hs Hh. apply turn_history_spec in Hh as [H1 H2]. rewrite Hs in H1, H2.
  cbn in H1. by repeat case_match.
Qed.

(** A parser for the witnesses: it accepts what follows the scheme as a host. *)
Definition demo_urls : UrlParser := {|
  Url := str;
  url_parse s := if starts_with (lit "https://") s then Some (drop 8 s) else None;
  url_scheme _ := lit "https";
  url_host_str u := Some u;
  url_username _ := [];
  url_password _ := None;
|}.

Definition demo_turn : turn :=
  ConversationTurn.mk (mk_id (lit "turn-1")) (lit "key-1") (repeat 0 32) None
    (mk_id (lit "project-1")) (mk_id (lit "thread-1")) (mk_id (lit "message-1"))
    (mk_id (lit "run-1")) (lit "grok-4") false Reserved None None None None []
    ConversationUsage.default None 0 10 10.
Definition demo_citation : ConversationCitation.t :=
  ConversationCitation.mk (Some (lit "Source")) (lit "https://x.ai/news").

Lemma turn_accepted_history_witness :
  let '(x', acc) := turn_history (UP := demo_urls)
    [(TInterrupt, 11); (TStart (mk_id (lit "effect-1")) (repeat 2 32), 12);
     (TStart (mk_id (lit "effect-2")) (repeat 3 32), 13);
     (TComplete (mk_id (lit "message-2")) None [demo_citation]
        (ConversationUsage.mk 5 7 9) None, 14); (TInterrupt, 15)] demo_turn in
  ConversationTurn.state x' = Completed ∧ length acc = 2%nat.
Proof.
  destruct (turn_history _ demo_turn) as [x' acc] eqn:H.
  pose proof (turn_accepted_history (UP := demo_urls) _ demo_turn _ _ eq_refl H) as Hm.
  vm_compute in H. injection H as <- <-. split; [exact Hm|reflexivity].
Defined.

(** The citation check is its declarative bound: at most 256 citations, each
    with a credential-free HTTPS URL and a bounded title, and together at most
    one million bytes. The running total never overflows before it is refused. *)
Theorem citations_valid_iff `{UP : UrlParser} cs :
  ConversationValidation.validate_citations cs = Ok tt ↔
  Z.of_nat (length cs) ≤ MAX_CITATIONS ∧ Forall citation_ok cs ∧
  citation_total cs ≤ MAX_CONVERSATION_CITATION_TOTAL_BYTES.
Proof.
  unfold ConversationValidation.validate_citations. rewrite result_unit_Ok.
  rewrite validate_citations_from_Ok by (unfold MAX_CONVERSATION_CITATION_TOTAL_BYTES; lia).
  rewrite Z.add_0_l. unfold reject_if. case_match; split; try naive_solver lia.
Qed.

(** Restored lineage is constructed lineage: besides the unbound legacy
    original, [restore] accepts for a turn exactly what the four constructors
    build from another turn as source, so a retry chain never exceeds 64. *)
Theorem lineage_restore_exact (l : ConversationTurnLineage.t) owner :
  ConversationTurnLineage.restore l owner = Ok l ↔
  l = ConversationTurnLineage.mk ConversationTurnOrigin.Original None
        (ConversationTurnLineage.rail l) 0 ∨
  ∃ binding,
    ConversationTurnLineage.original_on (ConversationTurnLineage.rail l) binding = Ok l ∨
    ∃ source, source ≠ owner ∧
      ((∃ depth, 0 ≤ depth ∧
          ConversationTurnLineage.retry_on source (ConversationTurnLineage.rail l)
            binding depth = Ok l) ∨
       ConversationTurnLineage.edit_and_branch_on source (ConversationTurnLineage.rail l)
         binding = Ok l ∨
       ConversationTurnLineage.regenerate_on source (ConversationTurnLineage.rail l)
         binding = Ok l).
Proof.
  destruct l as [o b r d]. cbn [ConversationTurnLineage.rail].
  setoid_rewrite lineage_original_Ok. setoid_rewrite lineage_retry_Ok.
  setoid_rewrite lineage_edit_Ok. setoid_rewrite lineage_regenerate_Ok.
  unfold ConversationTurnLineage.restore; cbn. rewrite result_unit_Ok.
  split.
  - intros [Hb Hl]. case_match eqn:E; [|done].
    destruct o, b as [b|]; bool_facts; try done; [right|left|right..].
    + exists b. left. rewrite (proj1 (Z.eqb_eq _ _) E). tauto.
    + by rewrite (proj1 (Z.eqb_eq _ _) E).
    + exists b. right. eexists. split; [done|]. left. exists (d - 1).
      unfold in_range in *. split_and!; try done || lia. do 2 f_equal; lia.
    + exists b. right. eexists. split; [done|]. right; left.
      split; [done|]. f_equal; lia.
    + exists b. right. eexists. split; [done|]. right; right.
      split; [done|]. f_equal; lia.
  - intros [[= -> -> ->]|(b' & [[H [= -> -> ->]]|(src & Hs & [(k & Hk & H & Hd & [= -> -> ->])
      |[[H [= -> -> ->]]|[H [= -> -> ->]]]])])]; cbn; try done; (split; [done|]);
      rewrite ?bool_decide_eq_false_2 by done; try done.
    unfold in_range. by rewrite !(proj2 (Z.leb_le _ _)) by lia.
Qed.
