(* ===== verification/TurnEvents.v ===== *)
(** * Turn event streams

    [crates/grok-domain/src/conversation.rs], second part: the append-only,
    turn-local event stream a client replays after reconnecting and its
    validated projection. *)
From S2P Require Import Prelude RustText Ids ConversationTurns.
Import ConversationTurnState.

Definition MAX_MESSAGE_BYTES : Z := 1024 * 1024.
Definition MAX_CONVERSATION_TEXT_CHUNK_BYTES : Z := 16 * 1024.
Definition MAX_CONVERSATION_TEXT_EVENTS : Z := 4097.

Module ConversationTurnEventKind.
Inductive t : Type :=
| Created
| StateChanged (from to : ConversationTurnState.t)
| TextAppended (start_utf8_offset : Z) (text : str).
#[global] Instance eq_dec : EqDecision t.
Proof. solve_decision. Defined.
End ConversationTurnEventKind.

Module ConversationTurnEventError.
Inductive t : Type :=
| InvalidSequence
| WrongTurn
| InvalidOrder
| InvalidTransition (from to : ConversationTurnState.t)
| InvalidText
| InvalidTextOffset
| TextLimitExceeded
| EventLimitExceeded
| SnapshotMismatch.
#[global] Instance eq_dec : EqDecision t.
Proof. solve_decision. Defined.
End ConversationTurnEventError.
Import ConversationTurnEventKind ConversationTurnEventError.

(** A character a stored chunk must not contain. *)
Definition chunk_char_invalid (c : char) : bool :=
  (c =? 0) || (is_control c && negb ((c =? 10) || (c =? 13) || (c =? 9))).

(** [validate_turn_event_kind]. A length always converts to [u64], so the two
    [try_from] branches of the source cannot be taken. *)
Definition validate_turn_event_kind (kind : ConversationTurnEventKind.t) :
    result ConversationTurnEventError.t unit :=
  match kind with
  | Created => Ok tt
  | StateChanged from to =>
      if permits from to then Ok tt else Err (InvalidTransition from to)
  | TextAppended start_utf8_offset text =>
      _ ← reject_if (is_empty text || (MAX_CONVERSATION_TEXT_CHUNK_BYTES <? len text)
                     || existsb chunk_char_invalid text) InvalidText;
      reject_if (match checked_add u64_max start_utf8_offset (len text) with
                 | None => true | Some end_ => MAX_MESSAGE_BYTES <? end_ end)
        TextLimitExceeded
  end.

Module ConversationTurnEvent.
Record t : Type := mk {
  sequence : Z;
  turn_id : ConversationTurnId;
  kind : ConversationTurnEventKind.t;
}.
#[global] Instance eq_dec : EqDecision t.
Proof. solve_decision. Defined.

(** [ConversationTurnEvent::restore]. *)
Definition restore (event : t) : result ConversationTurnEventError.t t :=
  _ ← reject_if (sequence event =? 0) InvalidSequence;
  _ ← validate_turn_event_kind (kind event);
  Ok event.
End ConversationTurnEvent.

Module ConversationTurnEventLog.
Record t : Type := mk {
  turn_id : ConversationTurnId;
  state : option ConversationTurnState.t;
  text : str;
  text_events : Z;
  last_sequence : Z;
}.
#[global] Instance eta : Eta t := λ x,
  mk (turn_id x) (state x) (text x) (text_events x) (last_sequence x).
#[global] Instance eq_dec : EqDecision t.
Proof. solve_decision. Defined.

(** [ConversationTurnEventLog::new]. *)
Definition new (turn_id : ConversationTurnId) : t := mk turn_id None [] 0 0.

(** The match on the event kind in [append_event]. *)
Definition apply_kind (event : ConversationTurnEvent.t) :
    method t ConversationTurnEventError.t unit :=
  log ← self;
  match ConversationTurnEvent.kind event with
  | Created =>
      _ ← throw_if (is_some (state log) || (ConversationTurnEvent.sequence event != 1))
            InvalidOrder;
      assign (λ x, x <| state := Some Reserved |>)
  | StateChanged from to =>
      _ ← throw_if (state log != Some from) InvalidOrder;
      _ ← throw_if (negb (permits from to)) (InvalidTransition from to);
      assign (λ x, x <| state := Some to |>)
  | TextAppended start_utf8_offset chunk =>
      _ ← throw_if (state log != Some ProviderStarted) InvalidOrder;
      _ ← throw_if (MAX_CONVERSATION_TEXT_EVENTS <=? text_events log) EventLimitExceeded;
      _ ← throw_if (start_utf8_offset != len (text log)) InvalidTextOffset;
      new_length ← lift (ok_or TextLimitExceeded
                           (checked_add usize_max (len (text log)) (len chunk)));
      _ ← throw_if (MAX_MESSAGE_BYTES <? new_length) TextLimitExceeded;
      _ ← assign (λ x, x <| text := text x ++ chunk |>);
      assign (λ x, x <| text_events := text_events x + 1 |>)
  end.

(** [ConversationTurnEventLog::append_event]. *)
Definition append_event (event : ConversationTurnEvent.t) :
    method t ConversationTurnEventError.t unit :=
  event ← lift (ConversationTurnEvent.restore event);
  log ← self;
  _ ← throw_if (ConversationTurnEvent.turn_id event != turn_id log) WrongTurn;
  expected_sequence ← lift (ok_or InvalidSequence
                              (checked_add u64_max (last_sequence log) 1));
  _ ← throw_if (ConversationTurnEvent.sequence event != expected_sequence)
        InvalidSequence;
  _ ← throw_if (match state log with Some s => is_terminal s | None => false end)
        InvalidOrder;
  _ ← apply_kind event;
  assign (λ x, x <| last_sequence := ConversationTurnEvent.sequence event |>).

(** [ConversationTurnEventLog::append_kind]. *)
Definition append_kind (kind : ConversationTurnEventKind.t) :
    method t ConversationTurnEventError.t ConversationTurnEvent.t :=
  log ← self;
  sequence ← lift (ok_or InvalidSequence (checked_add u64_max (last_sequence log) 1));
  let event := ConversationTurnEvent.mk sequence (turn_id log) kind in
  _ ← append_event event;
  mret event.

(** The loop of [ConversationTurnEventLog::restore]. *)
Fixpoint append_events (events : list ConversationTurnEvent.t) :
    method t ConversationTurnEventError.t unit :=
  match events with
  | [] => mret tt
  | event :: events' => _ ← append_event event; append_events events'
  end.

(** [ConversationTurnEventLog::restore]. *)
Definition restore (turn_id : ConversationTurnId)
    (events : list ConversationTurnEvent.t) : result ConversationTurnEventError.t t :=
  let '(log, r) := append_events events (new turn_id) in
  _ ← r;
  _ ← reject_if (is_none (state log)) InvalidOrder;
  Ok log.

(** [ConversationTurnEventLog::validate_snapshot]. *)
Definition validate_snapshot (log : t) (turn : ConversationTurn.t)
    (assistant_text : option str) : result ConversationTurnEventError.t unit :=
  _ ← reject_if ((turn_id log != ConversationTurn.id turn)
                 || (state log != Some (ConversationTurn.state turn))) SnapshotMismatch;
  match ConversationTurn.state turn with
  | Completed =>
      reject_if (is_empty (text log) || (assistant_text != Some (text log)))
        SnapshotMismatch
  | _ => reject_if (is_some assistant_text) SnapshotMismatch
  end.

(** [ConversationTurnEventLog::next_utf8_offset]; a length is at most
    [u64::MAX]. *)
Definition next_utf8_offset (log : t) : Z := len (text log).
End ConversationTurnEventLog.

(** ** The stream language

    Every accepted stream is one of four shapes over the text chunks of the
    response. A shape determines its events, offsets included, and its
    projection. *)

Inductive shape : Type :=
| SEmpty
| SReserved
| SCancelled
| SStarted (chunks : list str)
| SEnded (chunks : list str) (final : ConversationTurnState.t).

Definition shape_chunks (p : shape) : list str :=
  match p with SStarted cs | SEnded cs _ => cs | _ => [] end.
Definition shape_text (p : shape) : str := mjoin (shape_chunks p).
Definition shape_state (p : shape) : option ConversationTurnState.t :=
  match p with
  | SEmpty => None
  | SReserved => Some Reserved
  | SCancelled => Some Cancelled
  | SStarted _ => Some ProviderStarted
  | SEnded _ final => Some final
  end.

(** Each chunk starts where the text before it ends. *)
Fixpoint text_kinds (offset : Z) (chunks : list str) : list ConversationTurnEventKind.t :=
  match chunks with
  | [] => []
  | c :: cs => TextAppended offset c :: text_kinds (offset + len c) cs
  end.
Definition started_kinds (chunks : list str) : list ConversationTurnEventKind.t :=
  Created :: StateChanged Reserved ProviderStarted :: text_kinds 0 chunks.
Definition shape_kinds (p : shape) : list ConversationTurnEventKind.t :=
  match p with
  | SEmpty => []
  | SReserved => [Created]
  | SCancelled => [Created; StateChanged Reserved Cancelled]
  | SStarted cs => started_kinds cs
  | SEnded cs final => started_kinds cs ++ [StateChanged ProviderStarted final]
  end.

Fixpoint number_from (tid : ConversationTurnId) (n : Z)
    (kinds : list ConversationTurnEventKind.t) : list ConversationTurnEvent.t :=
  match kinds with
  | [] => []
  | k :: ks => ConversationTurnEvent.mk n tid k :: number_from tid (n + 1) ks
  end.
Definition shape_events (tid : ConversationTurnId) (p : shape) :
    list ConversationTurnEvent.t := number_from tid 1 (shape_kinds p).
Definition shape_log (tid : ConversationTurnId) (p : shape) : ConversationTurnEventLog.t :=
  ConversationTurnEventLog.mk tid (shape_state p) (shape_text p)
    (Z.of_nat (length (shape_chunks p))) (Z.of_nat (length (shape_kinds p))).

Definition chunk_ok (c : str) : Prop :=
  c ≠ [] ∧ len c ≤ MAX_CONVERSATION_TEXT_CHUNK_BYTES ∧
  existsb chunk_char_invalid c = false.
Definition shape_valid (p : shape) : Prop :=
  Forall chunk_ok (shape_chunks p) ∧ len (shape_text p) ≤ MAX_MESSAGE_BYTES ∧
  Z.of_nat (length (shape_chunks p)) ≤ MAX_CONVERSATION_TEXT_EVENTS ∧
  match p with SEnded _ final => permits ProviderStarted final = true | _ => True end.

(** The shape after one more event. *)
Definition shape_next (p : shape) (k : ConversationTurnEventKind.t) : option shape :=
  match p, k with
  | SEmpty, Created => Some SReserved
  | SReserved, StateChanged Reserved Cancelled => Some SCancelled
  | SReserved, StateChanged Reserved ProviderStarted => Some (SStarted [])
  | SStarted cs, StateChanged ProviderStarted final => Some (SEnded cs final)
  | SStarted cs, TextAppended offset c =>
      if decide (offset = len (mjoin cs)) then Some (SStarted (cs ++ [c])) else None
  | _, _ => None
  end.

Lemma text_kinds_snoc offset cs c :
  text_kinds offset (cs ++ [c]) =
  text_kinds offset cs ++ [TextAppended (offset + len (mjoin cs)) c].
Proof.
  revert offset. induction cs as [|c' cs IH]; intros offset; cbn.
  - by rewrite len_nil, Z.add_0_r.
  - rewrite IH, len_app. by rewrite Z.add_assoc.
Qed.
Lemma text_kinds_length offset cs : length (text_kinds offset cs) = length cs.
Proof. revert offset. induction cs as [|c cs IH]; intros; cbn; [done|]. by rewrite IH. Qed.
Lemma number_from_app tid n ks1 ks2 :
  number_from tid n (ks1 ++ ks2) =
  number_from tid n ks1 ++ number_from tid (n + Z.of_nat (length ks1)) ks2.
Proof.
  revert n. induction ks1 as [|k ks IH]; intros n; cbn.
  - by rewrite Z.add_0_r.
  - rewrite IH. do 3 f_equal. lia.
Qed.

Lemma shape_next_kinds p k p' :
  shape_next p k = Some p' → shape_kinds p' = shape_kinds p ++ [k].
Proof.
  destruct p, k as [|[] []|]; cbn; intros; simplify_eq; try done.
  case_decide; simplify_eq. cbn. unfold started_kinds. by rewrite text_kinds_snoc.
Qed.
Lemma shape_kinds_snoc p ks k :
  shape_kinds p = ks ++ [k] → ∃ p0, shape_kinds p0 = ks ∧ shape_next p0 k = Some p.
Proof.
  destruct p as [| | |cs|cs final]; cbn; intros H.
  - by destruct ks.
  - apply (app_inj_tail [] ks) in H as [<- <-]. by exists SEmpty.
  - apply (app_inj_tail [_] ks) in H as [<- <-]. by exists SReserved.
  - destruct cs as [|c cs _] using rev_ind.
    + apply (app_inj_tail [_] ks) in H as [<- <-]. by exists SReserved.
    + unfold started_kinds in H. rewrite text_kinds_snoc in H.
      apply (app_inj_tail (_ :: _ :: _) ks) in H as [<- <-]. exists (SStarted cs).
      split; [done|]. cbn. by rewrite decide_True.
  - apply (app_inj_tail (_ :: _ :: _) ks) in H as [<- <-]. by exists (SStarted cs).
Qed.

Lemma shape_kinds_bound p :
  shape_valid p → Z.of_nat (length (shape_kinds p)) ≤ MAX_CONVERSATION_TEXT_EVENTS + 3.
Proof.
  intros (_ & _ & H & _). unfold MAX_CONVERSATION_TEXT_EVENTS in *.
  destruct p; cbn in *; rewrite ?length_app, ?text_kinds_length; cbn; lia.
Qed.

(** One more event, without the symbolic run of the body. *)
Lemma append_event_Ok e (log log' : ConversationTurnEventLog.t) :
  ConversationTurnEventLog.append_event e log = (log', Ok tt) ↔
  ConversationTurnEvent.restore e = Ok e ∧
  ConversationTurnEvent.turn_id e = ConversationTurnEventLog.turn_id log ∧
  ConversationTurnEvent.sequence e = ConversationTurnEventLog.last_sequence log + 1 ∧
  ConversationTurnEventLog.last_sequence log + 1 ≤ u64_max ∧
  match ConversationTurnEventLog.state log with
  | Some s => is_terminal s = false | None => True end ∧
  ∃ log1, ConversationTurnEventLog.apply_kind e log = (log1, Ok tt) ∧
    log' = log1 <| ConversationTurnEventLog.last_sequence :=
                     ConversationTurnEvent.sequence e |>.
Proof.
  unfold ConversationTurnEventLog.append_event. rewrite lift_bind_Ok.
  assert (Hr : ∀ e', ConversationTurnEvent.restore e = Ok e' → e' = e).
  { unfold ConversationTurnEvent.restore. intros e'. rewrite !result_unit_Ok. naive_solver. }
  unfold checked_add. split.
  - intros (e' & He & H). pose proof (Hr _ He) as ->. split; [done|].
    run_unfold in H. destruct (ConversationTurnEventLog.apply_kind e log) as [l1 [[]|]];
      repeat case_match; simplify_eq/=; bool_facts; split_and!; try (done || lia);
      eexists; done.
  - intros (He & H1 & H2 & H3 & H4 & log1 & H5 & ->). exists e. split; [done|].
    run_unfold. rewrite H1, H2, H5, (proj2 (Z.leb_le _ _) H3).
    rewrite !bool_decide_eq_true_2 by done. cbn.
    destruct (ConversationTurnEventLog.state log); [by rewrite H4|done].
Qed.

Lemma event_restore_Ok e :
  ConversationTurnEvent.restore e = Ok e ↔
  ConversationTurnEvent.sequence e ≠ 0 ∧
  validate_turn_event_kind (ConversationTurnEvent.kind e) = Ok tt.
Proof.
  unfold ConversationTurnEvent.restore, reject_if. rewrite !result_unit_Ok.
  case_match; naive_solver lia.
Qed.

Lemma chunk_valid_iff offset c :
  is_u64 offset →
  validate_turn_event_kind (TextAppended offset c) = Ok tt ↔
  chunk_ok c ∧ offset + len c ≤ MAX_MESSAGE_BYTES.
Proof.
  intros Ho. cbn [validate_turn_event_kind]. rewrite result_unit_Ok. unfold chunk_ok.
  unfold reject_if, checked_add, fits, u64_max, MAX_MESSAGE_BYTES in *.
  destruct c as [|a c]; [cbn; naive_solver|]. cbn [is_empty orb].
  destruct (_ <? len (a :: c)) eqn:E1; [cbn; naive_solver lia|].
  destruct (existsb _ _); [cbn; naive_solver|].
  cbn; repeat case_match; naive_solver lia.
Qed.

(** What the match on the event kind does to the projection of a shape. *)
Lemma apply_kind_accepts tid p p' e :
  shape_valid p' → shape_next p (ConversationTurnEvent.kind e) = Some p' →
  ConversationTurnEvent.sequence e = Z.of_nat (length (shape_kinds p)) + 1 →
  ConversationTurnEventLog.apply_kind e (shape_log tid p) =
    ((shape_log tid p') <| ConversationTurnEventLog.last_sequence :=
                           Z.of_nat (length (shape_kinds p)) |>, Ok tt).
Proof.
  intros (Hc & Hl & Hn & Hf) Hp Hs. unfold ConversationTurnEventLog.apply_kind.
  destruct e as [n i k]; cbn [ConversationTurnEvent.kind ConversationTurnEvent.sequence] in *.
  subst n. destruct p, k as [|[] []|offset c]; try discriminate Hp;
    cbn in Hp; try (simplify_eq; cbn in Hf; try done; run_unfold; reflexivity).
  case_decide; simplify_eq. cbn in Hl, Hn. unfold shape_text in Hl. cbn in Hl.
  rewrite length_app in Hn. rewrite join_app, len_app in Hl. cbn in Hn, Hl.
  rewrite app_nil_r in Hl. unfold shape_log, shape_text. cbn [shape_chunks shape_state].
  run_unfold. cbn [ConversationTurnEventLog.state ConversationTurnEventLog.text_events
    ConversationTurnEventLog.text]. unfold checked_add.
  unfold usize_max, u64_max, MAX_MESSAGE_BYTES, MAX_CONVERSATION_TEXT_EVENTS in *.
  rewrite (bool_decide_eq_true_2 (Some _ = _)), (proj2 (Z.leb_gt _ _)) by (done || lia).
  rewrite bool_decide_eq_true_2, (proj2 (Z.leb_le _ _)) by (done || lia). cbn.
  rewrite (proj2 (Z.ltb_ge _ _)) by lia. cbn.
  rewrite join_app, length_app. cbn. rewrite app_nil_r. do 3 f_equal. lia.
Qed.

Lemma apply_kind_rejects tid p e log1 :
  shape_valid p → validate_turn_event_kind (ConversationTurnEvent.kind e) = Ok tt →
  ConversationTurnEventLog.apply_kind e (shape_log tid p) = (log1, Ok tt) →
  match shape_state p with Some s => is_terminal s = false | None => True end →
  ∃ p', shape_next p (ConversationTurnEvent.kind e) = Some p' ∧ shape_valid p'.
Proof.
  intros (Hc & Hl & Hn & Hf) Hk H Ht. unfold ConversationTurnEventLog.apply_kind in H.
  destruct e as [n i k]; cbn [ConversationTurnEvent.kind] in *.
  destruct p as [| | |cs|cs final], k as [|from to|offset c]; cbn in Hf, Ht;
    try discriminate Ht; try (by destruct final); unfold shape_log in H; cbn in Hk;
    run_unfold in H; cbn in H; try (repeat case_match; bool_facts; done).
  - by exists SReserved.
  - destruct from, to; try done; by eexists.
  - destruct from, to; try done; eexists; (split; [done|by split_and!]).
  - rewrite (bool_decide_eq_true_2 (Some _ = Some _)) in H by done. cbn [negb] in H.
    destruct (_ <=? _) eqn:E1 in H; [done|]. destruct (bool_decide _) eqn:E2 in H; [|done].
    apply bool_decide_eq_true in E2. cbn in H. subst offset.
    apply (chunk_valid_iff (len (mjoin cs)) c) in Hk as [Hk1 Hk2].
    + eexists. cbn. rewrite decide_True by done. split; [done|].
      unfold shape_valid, shape_text; cbn. rewrite join_app, len_app, length_app; cbn.
      rewrite app_nil_r. split_and!; [|done|lia|done]. apply Forall_app; split; [done|by constructor].
    + pose proof (len_nonneg (mjoin cs)). unfold shape_text in Hl. cbn in Hl.
      unfold fits, u64_max, MAX_MESSAGE_BYTES in *. lia.
Qed.

Lemma shape_terminal_no_next p k p' :
  shape_next p k = Some p' →
  match shape_state p with Some s => is_terminal s = false | None => True end.
Proof. by destruct p, k as [|[] []|]. Qed.

Lemma shape_next_kind_valid p k p' :
  shape_valid p' → shape_next p k = Some p' → validate_turn_event_kind k = Ok tt.
Proof.
  intros (Hc & Hl & _ & Hf) Hn.
  destruct p, k as [|[] []|offset c]; cbn in Hn; simplify_eq; try done.
  case_decide; simplify_eq. unfold shape_text in Hl; cbn in Hc, Hl.
  rewrite join_app, len_app in Hl. cbn in Hl. rewrite app_nil_r in Hl.
  pose proof (len_nonneg (mjoin chunks)). pose proof (len_nonneg c).
  apply chunk_valid_iff; [unfold fits, u64_max, MAX_MESSAGE_BYTES in *; lia|].
  apply Forall_app in Hc as [_ Hc]. inversion Hc; subst. split; [done|lia].
Qed.

Lemma shape_valid_prefix p k p' :
  shape_next p k = Some p' → shape_valid p' → shape_valid p.
Proof.
  unfold shape_valid, shape_text. intros Hn (Hc & Hl & Hcnt & Hf).
  destruct p, k as [|[] []|offset c]; cbn in Hn; simplify_eq; try (by split_and!).
  case_decide; simplify_eq. cbn in *. apply Forall_app in Hc as [Hc _].
  rewrite join_app, len_app in Hl. rewrite length_app in Hcnt.
  pose proof (len_nonneg (mjoin [c])). split_and!; [done|lia..|done].
Qed.

(** Appending to a well-formed stream is moving to the next shape. *)
Lemma append_event_shape tid p e log' :
  shape_valid p →
  ConversationTurnEventLog.append_event e (shape_log tid p) = (log', Ok tt) ↔
  ∃ p', shape_next p (ConversationTurnEvent.kind e) = Some p' ∧ shape_valid p' ∧
    log' = shape_log tid p' ∧
    e = ConversationTurnEvent.mk (Z.of_nat (length (shape_kinds p)) + 1) tid
          (ConversationTurnEvent.kind e).
Proof.
  intros Hv. rewrite append_event_Ok, event_restore_Ok.
  cbn [shape_log ConversationTurnEventLog.turn_id ConversationTurnEventLog.state
    ConversationTurnEventLog.last_sequence]. split.
  - intros ([_ Hk] & Ht & Hs & _ & Hterm & log1 & Ha & ->).
    destruct (apply_kind_rejects _ _ _ _ Hv Hk Ha Hterm) as (p' & Hn & Hv').
    exists p'. split_and!; [done..| |destruct e; cbn in *; by subst].
    rewrite (apply_kind_accepts _ _ _ _ Hv' Hn Hs) in Ha. simplify_eq. rewrite Hs.
    unfold shape_log; cbn. f_equal. apply shape_next_kinds in Hn as ->.
    rewrite length_app. cbn. lia.
  - intros (p' & Hn & Hv' & -> & He). rewrite He; cbn.
    pose proof (shape_kinds_bound _ Hv) as Hb.
    pose proof (shape_terminal_no_next _ _ _ Hn) as Hterm.
    split_and!; [lia|by eapply shape_next_kind_valid|done..| |done|].
    { unfold MAX_CONVERSATION_TEXT_EVENTS, u64_max in *. lia. }
    eexists. split; [by apply apply_kind_accepts|]. unfold shape_log; cbn. f_equal.
    apply shape_next_kinds in Hn as ->. rewrite length_app. cbn. lia.
Qed.

Lemma append_events_app evs evs' log log' :
  ConversationTurnEventLog.append_events (evs ++ evs') log = (log', Ok tt) ↔
  ∃ log1, ConversationTurnEventLog.append_events evs log = (log1, Ok tt) ∧
    ConversationTurnEventLog.append_events evs' log1 = (log', Ok tt).
Proof.
  revert log. induction evs as [|e evs IH]; intros log; cbn.
  - run_unfold. split; [eauto|by intros (? & [= ->] & ?)].
  - rewrite method_bind_Ok. split.
    + intros (l1 & [] & H1 & (l2 & H2 & H3)%IH). exists l2. split; [|done].
      apply method_bind_Ok. by exists l1, tt.
    + intros (l2 & (l1 & [] & H1 & H2)%method_bind_Ok & H3). exists l1, tt.
      split; [done|]. apply IH. by exists l2.
Qed.

Lemma append_events_shape tid evs log :
  ConversationTurnEventLog.append_events evs (ConversationTurnEventLog.new tid) = (log, Ok tt) ↔
  ∃ p, shape_valid p ∧ evs = shape_events tid p ∧ log = shape_log tid p.
Proof.
  revert log. induction evs as [|e evs IH] using rev_ind; intros log.
  { cbn. split; [intros [= <-]; by exists SEmpty|]. intros (p & _ & He & ->). by destruct p. }
  rewrite append_events_app. setoid_rewrite IH. unfold shape_events. split.
  - intros (log1 & (p & Hv & -> & ->) & H). cbn in H. apply method_bind_Ok in H.
    destruct H as (l & [] & Ha & H). apply append_event_shape in Ha; [|done].
    destruct Ha as (p' & Hn & Hv' & -> & He). injection H as <-. exists p'. split_and!; [done| |done].
    apply shape_next_kinds in Hn as ->. rewrite number_from_app. cbn.
    rewrite Z.add_comm. by rewrite <- He.
  - intros (p & Hv & He & ->).
    destruct (shape_kinds p) as [|k ks _] eqn:Hk using rev_ind; [by destruct evs|].
    apply shape_kinds_snoc in Hk as (p0 & <- & Hn). rewrite number_from_app in He.
    cbn in He. apply app_inj_tail in He as [-> ->].
    pose proof (shape_valid_prefix _ _ _ Hn Hv) as Hv0.
    exists (shape_log tid p0). split; [by exists p0|]. cbn. apply method_bind_Ok.
    exists (shape_log tid p), tt. split; [|done]. apply append_event_shape; [done|].
    exists p. split_and!; try done. f_equal. lia.
Qed.

Lemma log_restore_shape tid evs log :
  ConversationTurnEventLog.restore tid evs = Ok log ↔
  ∃ p, p ≠ SEmpty ∧ shape_valid p ∧ evs = shape_events tid p ∧ log = shape_log tid p.
Proof.
  unfold ConversationTurnEventLog.restore. pose proof (append_events_shape tid evs) as Hs.
  destruct (ConversationTurnEventLog.append_events evs _) as [l r].
  rewrite result_unit_Ok. split.
  - intros [-> H]. destruct (proj1 (Hs l) eq_refl) as (p & Hv & He & ->). exists p.
    destruct p; cbn in H; naive_solver.
  - intros (p & Hn & Hv & He & ->).
    specialize (Hs (shape_log tid p)) as [_ Hs].
    assert (H : (l, r) = (shape_log tid p, Ok tt)) by (apply Hs; by exists p).
    simplify_eq. split; [done|]. by destruct p.
Qed.

Lemma append_kind_shape tid p k log' e :
  shape_valid p →
  ConversationTurnEventLog.append_kind k (shape_log tid p) = (log', Ok e) ↔
  ∃ p', shape_next p k = Some p' ∧ shape_valid p' ∧ log' = shape_log tid p' ∧
    e = ConversationTurnEvent.mk (Z.of_nat (length (shape_kinds p)) + 1) tid k.
Proof.
  intros Hv. unfold ConversationTurnEventLog.append_kind.
  pose proof (shape_kinds_bound _ Hv) as Hb.
  set (e0 := ConversationTurnEvent.mk (Z.of_nat (length (shape_kinds p)) + 1) tid k).
  pose proof (append_event_shape tid p e0) as Hs.
  unfold mbind, method_bind, self, lift. cbn [shape_log ConversationTurnEventLog.last_sequence
    ConversationTurnEventLog.turn_id]. unfold checked_add.
  rewrite (proj2 (Z.leb_le _ _))
    by (unfold MAX_CONVERSATION_TEXT_EVENTS, u64_max in *; lia).
  cbn [ok_or]. fold e0. fold (shape_log tid p).
  destruct (ConversationTurnEventLog.append_event e0 _) as [l [[]|err]].
  - unfold mret, method_ret. destruct (proj1 (Hs l Hv) eq_refl) as (p' & H1 & H2 & H3 & _).
    cbn in H1. split; [intros [= <- <-]; by exists p'|].
    intros (p'' & H4 & _ & -> & ->). congruence.
  - split; [done|]. intros (p' & H1 & H2 & H3 & H4).
    specialize (Hs (shape_log tid p') Hv) as [_ Hs].
    discriminate Hs. by exists p'.
Qed.

Lemma append_event_atomic e : atomic (ConversationTurnEventLog.append_event e).
Proof.
  unfold ConversationTurnEventLog.append_event, ConversationTurnEventLog.apply_kind.
  solve_atomic.
Qed.
Lemma append_kind_atomic k : atomic (ConversationTurnEventLog.append_kind k).
Proof.
  unfold ConversationTurnEventLog.append_kind. apply atomic_bind; [solve_readonly|intros log].
  apply atomic_bind; [solve_readonly|intros n].
  apply atomic_bind_tail; [apply append_event_atomic|intros; solve_infallible].
Qed.

(** ** Properties *)

(** C27. Replay accepts exactly the well-formed streams. A stream is restored if
    and only if it is the event list of a shape: numbered from one without gaps,
    owned by the turn, a creation, then a cancellation or a start followed by text
    chunks, each at the byte offset where the text before it ends, and at most one
    final state; chunks and text are within their bounds. The projection is then
    the shape's state and the concatenation of its chunks. *)
Theorem event_log_restore_exact tid evs log :
  ConversationTurnEventLog.restore tid evs = Ok log ↔
  ∃ p, p ≠ SEmpty ∧ shape_valid p ∧ evs = shape_events tid p ∧ log = shape_log tid p.
Proof. apply log_restore_shape. Qed.

(** The incremental projection and the replayed one agree: after a restored
    stream, an accepted append yields the event that, stored after the stream,
    restores to the new projection, and a refused append changes nothing. *)
Theorem event_log_append_is_replay tid evs log k log' r :
  ConversationTurnEventLog.restore tid evs = Ok log →
  ConversationTurnEventLog.append_kind k log = (log', r) →
  match r with
  | Ok e => ConversationTurnEventLog.restore tid (evs ++ [e]) = Ok log'
  | Err _ => log' = log
  end.
Proof.
  intros (p & Hp & Hv & -> & ->)%log_restore_shape Ha. destruct r as [e|err].
  - apply append_kind_shape in Ha; [|done]. destruct Ha as (p' & Hn & Hv' & -> & ->).
    apply log_restore_shape. exists p'. split_and!; try done.
    + intros ->. destruct p, k as [|[] []|]; cbn in Hn; try case_decide; done.
    + unfold shape_events. apply shape_next_kinds in Hn as ->.
      rewrite number_from_app. cbn. do 3 f_equal. lia.
  - by apply append_kind_atomic in Ha.
Qed.

Definition demo_shape : shape := SStarted [lit "Hello, "; lit "world"].

Lemma event_log_append_is_replay_witness :
  let log := shape_log (mk_id (lit "turn-1")) demo_shape in
  let '(log', r) :=
    ConversationTurnEventLog.append_kind (TextAppended 12 (lit "!")) log in
  match r with
  | Ok e => ConversationTurnEventLog.restore (mk_id (lit "turn-1"))
      (shape_events (mk_id (lit "turn-1")) demo_shape ++ [e]) = Ok log'
  | Err _ => False
  end.
Proof.
  cbv zeta. destruct (ConversationTurnEventLog.append_kind _ _) as [log' r] eqn:H.
  assert (Hr : ConversationTurnEventLog.restore (mk_id (lit "turn-1"))
    (shape_events (mk_id (lit "turn-1")) demo_shape)
    = Ok (shape_log (mk_id (lit "turn-1")) demo_shape)) by (vm_compute; reflexivity).
  pose proof (event_log_append_is_replay _ _ _ _ _ _ Hr H) as Hm.
  destruct r as [e|err]; [exact Hm|]. vm_compute in H. discriminate H.
Defined.

(** The event stream follows the turn: whenever the aggregate accepts a call,
    the projection in step with it accepts the matching state change, keeps its
    text, and then vouches for exactly one assistant text, the nonempty
    concatenated text of a completed turn and none in any other state. *)
Theorem event_log_follows_turn `{UP : UrlParser} tid evs log c now (x x' : ConversationTurn.t) :
  ConversationTurnEventLog.restore tid evs = Ok log →
  ConversationTurnEventLog.state log = Some (ConversationTurn.state x) →
  ConversationTurn.id x = tid → turn_apply c now x = (x', Ok tt) →
  ∃ log' e,
    ConversationTurnEventLog.append_kind
      (StateChanged (ConversationTurn.state x) (ConversationTurn.state x')) log = (log', Ok e) ∧
    ConversationTurnEventLog.text log' = ConversationTurnEventLog.text log ∧
    ∀ assistant,
      ConversationTurnEventLog.validate_snapshot log' x' assistant = Ok tt ↔
      assistant = (if bool_decide (ConversationTurn.state x' = Completed)
                   then Some (ConversationTurnEventLog.text log) else None) ∧
      (ConversationTurn.state x' = Completed → ConversationTurnEventLog.text log ≠ []).
Proof.
  intros (p & Hp & Hv & -> & ->)%log_restore_shape Hs Hid Ha.
  apply turn_apply_Ok in Ha as [(_ & Hperm & _) ->].
  set (x' := turn_moved c now x).
  assert (Hx : ConversationTurn.state x' = turn_target c ∧ ConversationTurn.id x' = tid)
    by (unfold x'; by destruct c). destruct Hx as [Hst Hid']. clearbody x'.
  assert (Hn : ∃ p', shape_next p (StateChanged (ConversationTurn.state x) (turn_target c))
    = Some p' ∧ shape_valid p' ∧ shape_text p' = shape_text p ∧
    shape_state p' = Some (turn_target c)).
  { cbn in Hs. destruct Hv as (Hc & Hl & Hcnt & Hf).
    destruct p as [| | |cs|cs []]; try done; cbn in Hs; injection Hs as Hs; rewrite <- Hs in *;
      destruct c; try done; eexists; by split_and!. }
  destruct Hn as (p' & Hn & Hv' & Htext & Hstate).
  exists (shape_log tid p'), (ConversationTurnEvent.mk
    (Z.of_nat (length (shape_kinds p)) + 1) tid
    (StateChanged (ConversationTurn.state x) (ConversationTurn.state x'))).
  rewrite Hst. split; [apply append_kind_shape; [done|by exists p']|].
  cbn [shape_log ConversationTurnEventLog.text]. split; [done|]. intros assistant.
  unfold ConversationTurnEventLog.validate_snapshot; cbn. rewrite Htext, Hstate, Hst, Hid'.
  rewrite (bool_decide_eq_true_2 (tid = tid)),
    (bool_decide_eq_true_2 (Some (turn_target c) = _)) by done. cbn.
  destruct c; cbn; destruct assistant as [a|]; cbn; unfold reject_if; try naive_solver.
  - rewrite (bool_decide_eq_true_2 (Completed = _)) by done.
    destruct (shape_text p); cbn; [naive_solver|]. case_bool_decide; cbn; naive_solver.
  - rewrite (bool_decide_eq_true_2 (Completed = _)) by done.
    destruct (shape_text p); cbn; naive_solver.
Qed.

Lemma event_log_follows_turn_witness :
  ∃ log' e,
    ConversationTurnEventLog.append_kind (StateChanged ProviderStarted InterruptedNeedsReview)
      (shape_log (mk_id (lit "turn-1")) demo_shape) = (log', Ok e) ∧
    ConversationTurnEventLog.text log' = lit "Hello, world".
Proof.
  pose (x := demo_turn <| ConversationTurn.state := ProviderStarted |>).
  assert (H : ∃ x', turn_apply (UP := demo_urls) TInterrupt 20 x = (x', Ok tt) ∧
    ConversationTurn.state x' = InterruptedNeedsReview)
    by (eexists; split; vm_compute; reflexivity).
  destruct H as (x' & H & Hx').
  destruct (event_log_follows_turn (UP := demo_urls) (mk_id (lit "turn-1"))
    (shape_events (mk_id (lit "turn-1")) demo_shape) _ TInterrupt 20 x x'
    ltac:(vm_compute; reflexivity) eq_refl eq_refl H) as (log' & e & H1 & H2 & _).
  rewrite Hx' in H1. exists log', e. split; [exact H1|].
  rewrite H2. vm_compute. reflexivity.
Defined.
