(* ===== verification/Schedules.v ===== *)
(** * Automation schedules

    [crates/grok-domain/src/automation.rs], first part: the recurring schedule of
    an automation, its canonical text, the two legacy formats it is normalized
    from and the calculator that turns it into dated decisions. Calendar and time
    zones are those of the [chrono] and [chrono-tz] crates and JSON is
    [serde_json]'s; they are classes here, with what their documentation promises
    as separate law classes. *)
From stdpp Require Import sorting.
From S2P Require Import Prelude RustText Ids.

Definition AUTOMATION_SCHEDULE_CALCULATOR_VERSION : Z := 1.
Definition MAX_AUTOMATION_SCHEDULE_BYTES : Z := 256.
Definition MAX_AUTOMATION_SCHEDULE_WINDOW_DAYS : Z := 370.
Definition MAX_AUTOMATION_SCHEDULE_DECISIONS : Z := 370.
Definition MILLIS_PER_DAY : Z := 86400000.

(** ** External code *)

(** [chrono::LocalResult]. *)
Inductive LocalResult (A : Type) : Type :=
| LocalNone
| LocalSingle (value : A)
| LocalAmbiguous (first second : A).
Arguments LocalNone {A}.
Arguments LocalSingle {A} value.
Arguments LocalAmbiguous {A} first second.

(** What the program observes of [chrono] and [chrono_tz]. [UtcInstant] is
    [DateTime<Utc>] and [TzInstant] is [DateTime<Tz>]. *)
Class Chrono := {
  NaiveDate : Type;
  NaiveDateTime : Type;
  Tz : Type;
  UtcInstant : Type;
  TzInstant : Type;
  from_ymd_opt : Z → Z → Z → option NaiveDate;
  date_year : NaiveDate → Z;
  date_month : NaiveDate → Z;
  date_day : NaiveDate → Z;
  num_days_from_sunday : NaiveDate → Z;
  num_days_from_ce : NaiveDate → Z;
  date_leb : NaiveDate → NaiveDate → bool;
  succ_opt : NaiveDate → option NaiveDate;
  and_hms_opt : NaiveDate → Z → Z → Z → option NaiveDateTime;
  datetime_date : NaiveDateTime → NaiveDate;
  datetime_ltb : NaiveDateTime → NaiveDateTime → bool;
  tz_from_str : str → option Tz;
  tz_name : Tz → str;
  from_timestamp_millis : Z → option UtcInstant;
  naive_local : Tz → UtcInstant → NaiveDateTime;
  from_local_datetime : Tz → NaiveDateTime → LocalResult TzInstant;
  timestamp_millis : TzInstant → Z;
}.

(** The documented behaviour of the calendar the theorems use: dates are ordered
    by their day number, [succ_opt] is the next day and fails only on the last
    date, a date is determined by its year, month and day, and a wall-clock time
    exists for hours below 24 and minutes and seconds below 60. *)
Class ChronoLaws `{!Chrono} : Prop := {
  date_leb_days d1 d2 :
    date_leb d1 d2 = (num_days_from_ce d1 <=? num_days_from_ce d2);
  succ_opt_days d d' :
    succ_opt d = Some d' → num_days_from_ce d' = num_days_from_ce d + 1;
  ymd_of_date d : from_ymd_opt (date_year d) (date_month d) (date_day d) = Some d;
  date_of_ymd y m d x :
    from_ymd_opt y m d = Some x → date_year x = y ∧ date_month x = m ∧ date_day x = d;
  hms_exists d h m :
    0 ≤ h < 24 → 0 ≤ m < 60 → is_Some (and_hms_opt d h m 0);
  hms_date d h m s x : and_hms_opt d h m s = Some x → datetime_date x = d;
  tz_name_parses z : tz_from_str (tz_name z) = Some z;
}.

(** What the program observes of [serde_json]. *)
Class SerdeJson := {
  Value : Type;
  json_from_str : str → option Value;
  as_object : Value → option (gmap str Value);
  as_string : Value → option str;
  as_u64 : Value → option N;
}.

(** ** Data *)

Module AutomationCadence.
Inductive t : Type :=
| Daily
| Weekdays
| Weekly (weekday : Z)
| Monthly (day_of_month : Z).
#[global] Instance eq_dec : EqDecision t.
Proof. solve_decision. Defined.
End AutomationCadence.

Module AutomationLocalDateTime.
Record t : Type := mk { year : Z; month : Z; day : Z; hour : Z; minute : Z }.
#[global] Instance eq_dec : EqDecision t.
Proof. solve_decision. Defined.
End AutomationLocalDateTime.

Module AutomationScheduleDecision.
Inductive t : Type :=
| Due (nominal_local : AutomationLocalDateTime.t) (scheduled_for : Z)
| SkippedNonexistentLocalTime (nominal_local : AutomationLocalDateTime.t).
#[global] Instance eq_dec : EqDecision t.
Proof. solve_decision. Defined.
(** [AutomationScheduleDecision::nominal_local]. *)
Definition nominal_local (d : t) : AutomationLocalDateTime.t :=
  match d with Due n _ => n | SkippedNonexistentLocalTime n => n end.
(** [AutomationScheduleDecision::scheduled_for]. *)
Definition scheduled_for (d : t) : option Z :=
  match d with Due _ s => Some s | SkippedNonexistentLocalTime _ => None end.
End AutomationScheduleDecision.

Module AutomationScheduleEvaluation.
Record t : Type := mk {
  decisions : list AutomationScheduleDecision.t; truncated : bool }.
End AutomationScheduleEvaluation.

Module AutomationScheduleError.
Inductive t : Type :=
| TooLong | InvalidCanonical | InvalidNormalization | InvalidTimezone
| InvalidLocalDateTime | TimestampOutOfRange | InvalidWindow | InvalidLimit.
#[global] Instance eq_dec : EqDecision t.
Proof. solve_decision. Defined.
End AutomationScheduleError.
Import AutomationScheduleError.

(** ** Parsing helpers *)

(** [validate_schedule_length]. *)
Definition validate_schedule_length (value : str) : result AutomationScheduleError.t unit :=
  if is_empty value then Err InvalidCanonical
  else if MAX_AUTOMATION_SCHEDULE_BYTES <? len value then Err TooLong
  else Ok tt.

(** [parse_time]. After the byte test the five bytes are ASCII, so the slices of
    the text are the slices of its bytes. *)
Definition parse_time (value : str) : result AutomationScheduleError.t (Z * Z) :=
  match bytes value with
  | [h1; h2; c; m1; m2] =>
      _ ← reject_if (negb (c =? 58) || negb (forallb is_ascii_digit [h1; h2])
                     || negb (forallb is_ascii_digit [m1; m2])) InvalidCanonical;
      hour ← ok_or InvalidCanonical (parse_u8 [h1; h2]);
      minute ← ok_or InvalidCanonical (parse_u8 [m1; m2]);
      Ok (hour, minute)
  | _ => Err InvalidCanonical
  end.

(** [parse_canonical_u8]. *)
Definition parse_canonical_u8 (value : str) : result AutomationScheduleError.t Z :=
  parsed ← ok_or InvalidCanonical (parse_u8 value);
  _ ← reject_if (to_string parsed != value) InvalidCanonical;
  Ok parsed.

(** [parse_cron_number]. *)
Definition parse_cron_number (value : str) (minimum maximum : Z) :
    result AutomationScheduleError.t Z :=
  parsed ← ok_or InvalidNormalization (parse_u8 value);
  _ ← reject_if (negb (in_range minimum maximum parsed) || (to_string parsed != value))
        InvalidNormalization;
  Ok parsed.

(** [parse_timezone]. *)
Definition parse_timezone `{Chrono} (value : str) : result AutomationScheduleError.t Tz :=
  ok_or InvalidTimezone (tz_from_str value).

(** [utc_from_millis]. *)
Definition utc_from_millis `{Chrono} (value : Z) : result AutomationScheduleError.t UtcInstant :=
  _ ← reject_if (i64_max <? value) TimestampOutOfRange;
  ok_or TimestampOutOfRange (from_timestamp_millis value).

(** [positive_timestamp]. *)
Definition positive_timestamp `{Chrono} (value : TzInstant) : result AutomationScheduleError.t Z :=
  if timestamp_millis value <? 0 then Err TimestampOutOfRange
  else Ok (timestamp_millis value).

Module LocalSlot.
Import AutomationLocalDateTime.
(** [AutomationLocalDateTime::to_naive]. *)
Definition to_naive `{Chrono} (x : t) : result AutomationScheduleError.t NaiveDateTime :=
  ok_or InvalidLocalDateTime
    (date ← from_ymd_opt (year x) (month x) (day x);
     and_hms_opt date (hour x) (minute x) 0).
(** [AutomationLocalDateTime::new]. *)
Definition new `{Chrono} (year month day hour minute : Z) : result AutomationScheduleError.t t :=
  let value := mk year month day hour minute in
  _ ← to_naive value; Ok value.
(** [AutomationLocalDateTime::from_date]. *)
Definition from_date `{Chrono} (date : NaiveDate) (hour minute : Z) : t :=
  mk (date_year date) (date_month date) (date_day date) hour minute.
End LocalSlot.

(** ** The schedule *)

Module AutomationSchedule.
Record t : Type := mk { cadence : AutomationCadence.t; hour : Z; minute : Z }.
#[global] Instance eq_dec : EqDecision t.
Proof. solve_decision. Defined.

(** The cadence tests of [AutomationSchedule::new]. *)
Definition cadence_invalid (c : AutomationCadence.t) : bool :=
  match c with
  | AutomationCadence.Weekly weekday => 6 <? weekday
  | AutomationCadence.Monthly day_of_month => negb (in_range 1 31 day_of_month)
  | _ => false
  end.

(** [AutomationSchedule::new]. *)
Definition new (c : AutomationCadence.t) (h m : Z) : result AutomationScheduleError.t t :=
  if (23 <? h) || (59 <? m) || cadence_invalid c then Err InvalidCanonical
  else Ok (mk c h m).

(** [AutomationSchedule::to_canonical_string]. *)
Definition to_canonical_string (s : t) : str :=
  let time := pad2 (hour s) ++ lit ":" ++ pad2 (minute s) in
  match cadence s with
  | AutomationCadence.Daily => lit "v1;daily;" ++ time
  | AutomationCadence.Weekdays => lit "v1;weekdays;" ++ time
  | AutomationCadence.Weekly weekday =>
      lit "v1;weekly;" ++ to_string weekday ++ lit ";" ++ time
  | AutomationCadence.Monthly day_of_month =>
      lit "v1;monthly;" ++ to_string day_of_month ++ lit ";" ++ time
  end.

(** The match of [AutomationSchedule::parse_canonical] on the fields. *)
Definition parse_fields (fields : list str) : result AutomationScheduleError.t t :=
  match fields with
  | [v1; kind; time] =>
      if (v1 == lit "v1") && (kind == lit "daily") then
        '(h, m) ← parse_time time; new AutomationCadence.Daily h m
      else if (v1 == lit "v1") && (kind == lit "weekdays") then
        '(h, m) ← parse_time time; new AutomationCadence.Weekdays h m
      else Err InvalidCanonical
  | [v1; kind; number; time] =>
      if (v1 == lit "v1") && (kind == lit "weekly") then
        '(h, m) ← parse_time time;
        weekday ← parse_canonical_u8 number;
        new (AutomationCadence.Weekly weekday) h m
      else if (v1 == lit "v1") && (kind == lit "monthly") then
        '(h, m) ← parse_time time;
        day_of_month ← parse_canonical_u8 number;
        new (AutomationCadence.Monthly day_of_month) h m
      else Err InvalidCanonical
  | _ => Err InvalidCanonical
  end.

(** [AutomationSchedule::parse_canonical]. *)
Definition parse_canonical (value : str) : result AutomationScheduleError.t t :=
  _ ← validate_schedule_length value;
  schedule ← parse_fields (split_by (Z.eqb 59) value);
  _ ← reject_if (to_canonical_string schedule != value) InvalidCanonical;
  Ok schedule.

(** [parse_limited_cron]. *)
Definition parse_limited_cron (value : str) : result AutomationScheduleError.t t :=
  match split_ascii_whitespace value with
  | [minute; hour; day_of_month; month; weekday] =>
      minute ← parse_cron_number minute 0 59;
      hour ← parse_cron_number hour 0 23;
      _ ← reject_if (month != lit "*") InvalidNormalization;
      cadence ←
        (if (day_of_month == lit "*") && (weekday == lit "*") then Ok AutomationCadence.Daily
         else if (day_of_month == lit "*") && (weekday == lit "1-5")
         then Ok AutomationCadence.Weekdays
         else if day_of_month == lit "*" then
           weekday ← parse_cron_number weekday 0 6; Ok (AutomationCadence.Weekly weekday)
         else if weekday == lit "*" then
           day ← parse_cron_number day_of_month 1 31; Ok (AutomationCadence.Monthly day)
         else Err InvalidNormalization);
      map_err (λ _, InvalidNormalization) (new cadence hour minute)
  | _ => Err InvalidNormalization
  end.

Section json.
Context `{!Chrono, !SerdeJson}.

(** [RENDERER_JSON_FIELDS]. *)
Definition RENDERER_JSON_FIELDS : list str :=
  [lit "frequency"; lit "localTime"; lit "weekday"; lit "dayOfMonth";
   lit "timeZoneIana"; lit "timeZoneWindows"].

(** [required_string]. *)
Definition required_string (object : gmap str Value) (key : str) :
    result AutomationScheduleError.t str :=
  ok_or InvalidNormalization (value ← object !! key; as_string value).

(** [optional_json_u8]. *)
Definition optional_json_u8 (object : gmap str Value) (key : str) :
    result AutomationScheduleError.t (option Z) :=
  match object !! key with
  | None => Ok None
  | Some value =>
      n ← ok_or InvalidNormalization
            (n ← as_u64 value; if Z.of_N n <=? u8_max then Some (Z.of_N n) else None);
      Ok (Some n)
  end.

(** The test of [parse_renderer_json] on the Windows zone name. *)
Definition windows_zone_invalid (value : str) : bool :=
  is_empty (trim value) || (128 <? len value) || existsb is_control value.

(** The cadence of [parse_renderer_json]. *)
Definition json_cadence (frequency : str) (weekday day_of_month : option Z) :
    result AutomationScheduleError.t AutomationCadence.t :=
  match weekday, day_of_month with
  | None, None =>
      if frequency == lit "daily" then Ok AutomationCadence.Daily
      else if frequency == lit "weekdays" then Ok AutomationCadence.Weekdays
      else Err InvalidNormalization
  | Some weekday, None =>
      if frequency == lit "weekly" then Ok (AutomationCadence.Weekly weekday)
      else Err InvalidNormalization
  | None, Some day_of_month =>
      if frequency == lit "monthly" then Ok (AutomationCadence.Monthly day_of_month)
      else Err InvalidNormalization
  | _, _ => Err InvalidNormalization
  end.

(** [parse_renderer_json]. *)
Definition parse_renderer_json (value timezone : str) : result AutomationScheduleError.t t :=
  value ← ok_or InvalidNormalization (json_from_str value);
  object ← ok_or InvalidNormalization (as_object value);
  _ ← reject_if (existsb (λ '(key, _), bool_decide (key ∉ RENDERER_JSON_FIELDS))
                   (map_to_list object)) InvalidNormalization;
  json_timezone ← required_string object (lit "timeZoneIana");
  json_tz ← parse_timezone json_timezone;
  tz ← parse_timezone timezone;
  _ ← reject_if (tz_name json_tz != tz_name tz) InvalidNormalization;
  _ ← match object !! lit "timeZoneWindows" with
      | None => Ok tt
      | Some value =>
          value ← ok_or InvalidNormalization (as_string value);
          reject_if (windows_zone_invalid value) InvalidNormalization
      end;
  time ← required_string object (lit "localTime");
  '(hour, minute) ← map_err (λ _, InvalidNormalization) (parse_time time);
  weekday ← optional_json_u8 object (lit "weekday");
  day_of_month ← optional_json_u8 object (lit "dayOfMonth");
  frequency ← required_string object (lit "frequency");
  cadence ← json_cadence frequency weekday day_of_month;
  map_err (λ _, InvalidNormalization) (new cadence hour minute).

(** [AutomationSchedule::parse_for_normalization]. *)
Definition parse_for_normalization (value timezone : str) :
    result AutomationScheduleError.t t :=
  _ ← validate_schedule_length value;
  _ ← reject_if (existsb is_control value) InvalidNormalization;
  _ ← parse_timezone timezone;
  if starts_with (lit "v1;") value then parse_canonical value
  else if starts_with (lit "{") value then parse_renderer_json value timezone
  else parse_limited_cron value.
End json.

(** ** The calculator *)

Section calculator.
Context {CH : Chrono}.

(** [AutomationSchedule::matches]; Sunday is zero and Saturday six. *)
Definition matches (s : t) (date : NaiveDate) : bool :=
  match cadence s with
  | AutomationCadence.Daily => true
  | AutomationCadence.Weekdays =>
      negb ((num_days_from_sunday date =? 6) || (num_days_from_sunday date =? 0))
  | AutomationCadence.Weekly weekday => num_days_from_sunday date =? weekday
  | AutomationCadence.Monthly day_of_month => date_day date =? day_of_month
  end.

(** The earlier instant of a fold. *)
Definition earlier (first second : TzInstant) : TzInstant :=
  if timestamp_millis first <=? timestamp_millis second then first else second.

(** [push_resolved_decision]. *)
Definition push_resolved_decision (decisions : list AutomationScheduleDecision.t)
    (nominal_local : AutomationLocalDateTime.t) (value : TzInstant)
    (after_exclusive through_inclusive : Z) :
    result AutomationScheduleError.t (list AutomationScheduleDecision.t) :=
  scheduled_for ← positive_timestamp value;
  Ok (if (after_exclusive <? scheduled_for) && (scheduled_for <=? through_inclusive)
      then decisions ++ [AutomationScheduleDecision.Due nominal_local scheduled_for]
      else decisions).

(** The fixed inputs of the loop of [decisions_between]. *)
Record window : Type := mk_window {
  timezone : Tz;
  after_exclusive : Z;
  through_inclusive : Z;
  after_local : NaiveDateTime;
  through_local : NaiveDateTime;
  limit : Z;
}.

(** The body of the loop for a date that matches. *)
Definition push_date (s : t) (w : window) (date : NaiveDate)
    (decisions : list AutomationScheduleDecision.t) :
    result AutomationScheduleError.t (list AutomationScheduleDecision.t) :=
  let nominal := LocalSlot.from_date date (hour s) (minute s) in
  local ← LocalSlot.to_naive nominal;
  match from_local_datetime (timezone w) local with
  | LocalSingle value =>
      push_resolved_decision decisions nominal value (after_exclusive w) (through_inclusive w)
  | LocalAmbiguous first second =>
      push_resolved_decision decisions nominal (earlier first second)
        (after_exclusive w) (through_inclusive w)
  | LocalNone =>
      Ok (if datetime_ltb (after_local w) local && negb (datetime_ltb (through_local w) local)
          then decisions ++ [AutomationScheduleDecision.SkippedNonexistentLocalTime nominal]
          else decisions)
  end.

(** The loop of [decisions_between]. The fuel counts the dates left. *)
Fixpoint decide_dates (fuel : nat) (s : t) (w : window) (date end_date : NaiveDate)
    (decisions : list AutomationScheduleDecision.t) :
    result AutomationScheduleError.t AutomationScheduleEvaluation.t :=
  match fuel with
  | O => Ok (AutomationScheduleEvaluation.mk decisions false)
  | S fuel' =>
      if date_leb date end_date then
        decisions ← (if matches s date then push_date s w date decisions else Ok decisions);
        if matches s date && (limit w <? Z.of_nat (length decisions)) then
          Ok (AutomationScheduleEvaluation.mk (take (Z.to_nat (limit w)) decisions) true)
        else
          date ← ok_or TimestampOutOfRange (succ_opt date);
          decide_dates fuel' s w date end_date decisions
      else Ok (AutomationScheduleEvaluation.mk decisions false)
  end.

(** The dates from one to another, both included. *)
Definition dates_left (date end_date : NaiveDate) : nat :=
  Z.to_nat (num_days_from_ce end_date - num_days_from_ce date + 1).

(** [AutomationSchedule::decisions_between]. *)
Definition decisions_between (s : t) (timezone : str)
    (after_exclusive through_inclusive limit : Z) :
    result AutomationScheduleError.t AutomationScheduleEvaluation.t :=
  _ ← reject_if (negb (in_range 1 MAX_AUTOMATION_SCHEDULE_DECISIONS limit)) InvalidLimit;
  span ← ok_or InvalidWindow (checked_sub through_inclusive after_exclusive);
  _ ← reject_if (MAX_AUTOMATION_SCHEDULE_WINDOW_DAYS * MILLIS_PER_DAY <? span) InvalidWindow;
  timezone ← parse_timezone timezone;
  after ← utc_from_millis after_exclusive;
  through ← utc_from_millis through_inclusive;
  let after_local := naive_local timezone after in
  let through_local := naive_local timezone through in
  let date := datetime_date after_local in
  let end_date := datetime_date through_local in
  decide_dates (dates_left date end_date) s
    (mk_window timezone after_exclusive through_inclusive after_local through_local limit)
    date end_date [].

(** [AutomationSchedule::next_decision_after]. *)
Definition next_decision_after (s : t) (timezone : str) (after : Z) :
    result AutomationScheduleError.t AutomationScheduleDecision.t :=
  through ← ok_or TimestampOutOfRange
    (checked_add u64_max after (MAX_AUTOMATION_SCHEDULE_WINDOW_DAYS * MILLIS_PER_DAY));
  evaluation ← decisions_between s timezone after through 1;
  ok_or TimestampOutOfRange (head (AutomationScheduleEvaluation.decisions evaluation)).

(** [AutomationSchedule::decision_for_nominal]. *)
Definition decision_for_nominal (s : t) (timezone : str)
    (nominal_local : AutomationLocalDateTime.t) :
    result AutomationScheduleError.t AutomationScheduleDecision.t :=
  local ← LocalSlot.to_naive nominal_local;
  _ ← reject_if ((AutomationLocalDateTime.hour nominal_local != hour s)
                 || (AutomationLocalDateTime.minute nominal_local != minute s)
                 || negb (matches s (datetime_date local))) InvalidLocalDateTime;
  timezone ← parse_timezone timezone;
  match from_local_datetime timezone local with
  | LocalSingle value =>
      scheduled_for ← positive_timestamp value;
      Ok (AutomationScheduleDecision.Due nominal_local scheduled_for)
  | LocalAmbiguous first second =>
      scheduled_for ← positive_timestamp (earlier first second);
      Ok (AutomationScheduleDecision.Due nominal_local scheduled_for)
  | LocalNone => Ok (AutomationScheduleDecision.SkippedNonexistentLocalTime nominal_local)
  end.

(** [AutomationSchedule::fingerprint]; the version is a big-endian [u32]. *)
Definition fingerprint `{!Sha256} (s : t) (timezone : str) :
    result AutomationScheduleError.t digest :=
  timezone ← parse_timezone timezone;
  Ok (sha256 (bytes (lit "grok-desktop/automation-schedule") ++ [0]
              ++ [0; 0; 0; AUTOMATION_SCHEDULE_CALCULATOR_VERSION] ++ [0]
              ++ bytes (to_canonical_string s) ++ [0] ++ bytes (tz_name timezone))).
End calculator.
End AutomationSchedule.
Import AutomationSchedule.

(** ** Canonical text *)

(** The schedules [AutomationSchedule::new] accepts. *)
Definition valid_schedule (s : AutomationSchedule.t) : Prop :=
  0 ≤ hour s ≤ 23 ∧ 0 ≤ minute s ≤ 59 ∧
  match cadence s with
  | AutomationCadence.Weekly w => 0 ≤ w ≤ 6
  | AutomationCadence.Monthly d => 1 ≤ d ≤ 31
  | _ => True
  end.

Definition time_text (h m : Z) : str := pad2 h ++ lit ":" ++ pad2 m.

(** The facts about small printed numbers, checked by running them. *)
Definition time_ok (h m : Z) : Prop :=
  parse_time (time_text h m) = Ok (h, m) ∧ len (time_text h m) = 5 ∧
  split_by (Z.eqb 59) (time_text h m) = [time_text h m] ∧
  existsb is_control (time_text h m) = false.
Definition number_ok (n : Z) : Prop :=
  len (to_string n) ≤ 3 ∧ forallb (λ c, negb (59 =? c)) (to_string n) = true ∧
  existsb is_control (to_string n) = false ∧
  to_string n ≠ lit "*" ∧ to_string n ≠ lit "1-5".
#[local] Instance time_ok_dec h m : Decision (time_ok h m).
Proof. apply _. Defined.
#[local] Instance number_ok_dec n : Decision (number_ok n).
Proof. apply _. Defined.

Lemma time_text_ok h m : 0 ≤ h ≤ 23 → 0 ≤ m ≤ 59 → time_ok h m.
Proof.
  intros Hh Hm.
  assert (H : time_ok ((h * 60 + m) / 60) ((h * 60 + m) mod 60)).
  { apply (forall_upto (λ x, time_ok (x / 60) (x mod 60)) 1440); [by vm_compute|lia]. }
  rewrite Z.div_add_l, (Z.div_small m), Z.add_0_r in H by lia.
  by rewrite Z.add_comm, Z.mod_add, Z.mod_small in H by lia.
Qed.
Lemma number_text_ok n : 0 ≤ n < 256 → number_ok n.
Proof. apply (forall_upto number_ok 256). by vm_compute. Qed.

Lemma dec_value_nonneg s : forallb is_ascii_digit s = true → 0 ≤ dec_value s.
Proof.
  induction s as [|c s IH]; cbn [forallb]; [done|]. intros [Hc Hs]%andb_true_iff.
  rewrite dec_value_cons. unfold is_ascii_digit, in_range in Hc.
  pose proof (Z.pow_nonneg 10 (Z.of_nat (length s)) ltac:(lia)). specialize (IH Hs). nia.
Qed.
Lemma parse_u8_range s n : parse_u8 s = Some n → 0 ≤ n ≤ 255.
Proof.
  unfold parse_u8.
  generalize (match s with 43 :: rest => rest | _ => s end). intros digits H.
  destruct (is_empty digits || _) eqn:E; [done|]. bool_facts.
  pose proof (dec_value_nonneg digits ltac:(done)).
  destruct (_ <=? _) eqn:E; [|done]. simplify_eq. unfold u8_max in *. lia.
Qed.
Lemma parse_time_range v h m : parse_time v = Ok (h, m) → 0 ≤ h ∧ 0 ≤ m.
Proof.
  unfold parse_time. intros H. run_in H.
  all: repeat match goal with H : parse_u8 _ = Some _ |- _ => apply parse_u8_range in H end; lia.
Qed.
Lemma new_Ok c h m s :
  new c h m = Ok s ↔ s = mk c h m ∧ h ≤ 23 ∧ m ≤ 59 ∧ cadence_invalid c = false.
Proof.
  unfold new. destruct ((23 <? h) || (59 <? m) || cadence_invalid c) eqn:E.
  - split; [done|]. intros (_ & ? & ? & Hc). rewrite Hc in E. lia.
  - apply orb_false_iff in E as [E Hc]. split; [intros [= <-]; split_and!; (done || lia)|by intros (-> & _)].
Qed.
Lemma parse_canonical_u8_Ok v n :
  parse_canonical_u8 v = Ok n ↔ 0 ≤ n ≤ 255 ∧ v = to_string n.
Proof.
  unfold parse_canonical_u8. split.
  - intros H. run_in H. bool_facts. split; [by eapply parse_u8_range|done].
  - intros [Hn ->]. rewrite parse_u8_to_string by (unfold fits, u8_max; lia).
    run_unfold. by rewrite bool_decide_eq_true_2.
Qed.
Lemma parse_cron_number_Ok v lo hi n :
  0 ≤ lo → hi ≤ 255 →
  parse_cron_number v lo hi = Ok n ↔ lo ≤ n ≤ hi ∧ v = to_string n.
Proof.
  intros Hlo Hhi. unfold parse_cron_number. split.
  - intros H. run_in H. bool_facts. by rewrite in_range_spec in *.
  - intros [Hn ->]. rewrite parse_u8_to_string by (unfold fits, u8_max; lia).
    run_unfold. rewrite bool_decide_eq_true_2 by done.
    by rewrite (proj2 (in_range_spec lo hi n)).
Qed.

Lemma new_valid c h m s :
  new c h m = Ok s → 0 ≤ h → 0 ≤ m →
  (∀ n, c = AutomationCadence.Weekly n → 0 ≤ n) → valid_schedule s.
Proof.
  intros (-> & Hh & Hm & Hc)%new_Ok ? ? Hw. unfold valid_schedule; cbn.
  split_and!; try lia. destruct c; cbn in Hc; try done.
  - split; [by apply Hw|lia].
  - apply negb_false_iff, in_range_spec in Hc. lia.
Qed.
Lemma valid_new s : valid_schedule s → new (cadence s) (hour s) (minute s) = Ok s.
Proof.
  intros (Hh & Hm & Hc). apply new_Ok. destruct s as [c h m]; cbn in *. split_and!; try lia; [done|].
  destruct c; cbn; try done; [lia|]. apply negb_false_iff, in_range_spec. lia.
Qed.

Lemma parse_fields_valid fs s : parse_fields fs = Ok s → valid_schedule s.
Proof.
  unfold parse_fields. intros H. run_in H.
  all: match goal with
  | Ht : parse_time _ = Ok _, Hn : new _ _ _ = Ok _ |- _ =>
      apply parse_time_range in Ht as [? ?]; apply (new_valid _ _ _ _ Hn); try done
  end.
  all: intros ? [= ->];
    match goal with H : parse_canonical_u8 _ = Ok _ |- _ =>
      apply parse_canonical_u8_Ok in H; lia end.
Qed.

(** The fields of the canonical text. *)
Definition canonical_fields (s : AutomationSchedule.t) : list str :=
  let time := time_text (hour s) (minute s) in
  match cadence s with
  | AutomationCadence.Daily => [lit "v1"; lit "daily"; time]
  | AutomationCadence.Weekdays => [lit "v1"; lit "weekdays"; time]
  | AutomationCadence.Weekly w => [lit "v1"; lit "weekly"; to_string w; time]
  | AutomationCadence.Monthly d => [lit "v1"; lit "monthly"; to_string d; time]
  end.

Lemma split_field f s :
  forallb (λ c, negb (59 =? c)) f = true →
  split_by (Z.eqb 59) (f ++ 59 :: s) = f :: split_by (Z.eqb 59) s.
Proof. intros H. by apply split_by_app. Qed.

Lemma valid_number s n :
  valid_schedule s →
  cadence s = AutomationCadence.Weekly n ∨ cadence s = AutomationCadence.Monthly n →
  0 ≤ n < 256.
Proof. intros (_ & _ & Hc) [E|E]; rewrite E in Hc; lia. Qed.

Lemma split_canonical s :
  valid_schedule s → split_by (Z.eqb 59) (to_canonical_string s) = canonical_fields s.
Proof.
  intros Hv. destruct (time_text_ok (hour s) (minute s)) as (_ & _ & Hs & _); [apply Hv..|].
  unfold to_canonical_string, canonical_fields. fold (time_text (hour s) (minute s)).
  destruct (cadence s) eqn:E.
  - change (lit "v1;daily;" ++ ?x) with (lit "v1" ++ 59 :: lit "daily" ++ 59 :: x).
    by rewrite !split_field, Hs by done.
  - change (lit "v1;weekdays;" ++ ?x) with (lit "v1" ++ 59 :: lit "weekdays" ++ 59 :: x).
    by rewrite !split_field, Hs by done.
  - destruct (number_text_ok weekday) as (_ & Hn & _); [by eapply valid_number; eauto|].
    change (lit "v1;weekly;" ++ ?x ++ lit ";" ++ ?y) with
      (lit "v1" ++ 59 :: lit "weekly" ++ 59 :: x ++ 59 :: y).
    by rewrite !split_field, Hs by done.
  - destruct (number_text_ok day_of_month) as (_ & Hn & _); [by eapply valid_number; eauto|].
    change (lit "v1;monthly;" ++ ?x ++ lit ";" ++ ?y) with
      (lit "v1" ++ 59 :: lit "monthly" ++ 59 :: x ++ 59 :: y).
    by rewrite !split_field, Hs by done.
Qed.

Lemma canonical_length s :
  valid_schedule s → validate_schedule_length (to_canonical_string s) = Ok tt.
Proof.
  intros Hv. destruct (time_text_ok (hour s) (minute s)) as (_ & Hl & _); [apply Hv..|].
  unfold validate_schedule_length, to_canonical_string, MAX_AUTOMATION_SCHEDULE_BYTES.
  fold (time_text (hour s) (minute s)).
  destruct (cadence s) eqn:E.
  3: destruct (number_text_ok weekday) as (Hn & _); [by eapply valid_number; eauto|].
  4: destruct (number_text_ok day_of_month) as (Hn & _); [by eapply valid_number; eauto|].
  all: rewrite !len_app, ?Hl;
    repeat match goal with |- context [len (lit ?x)] =>
      let v := eval vm_compute in (len (lit x)) in change (len (lit x)) with v end.
  all: rewrite (proj2 (Z.ltb_ge _ _)) by lia; done.
Qed.

Lemma parse_canonical_fields s : valid_schedule s → parse_fields (canonical_fields s) = Ok s.
Proof.
  intros Hv. pose proof (valid_new s Hv) as Hn.
  destruct (time_text_ok (hour s) (minute s)) as (Ht & _); [apply Hv..|].
  assert (Hu : ∀ n, 0 ≤ n < 256 → parse_canonical_u8 (to_string n) = Ok n)
    by (intros n Hu; apply parse_canonical_u8_Ok; split; [lia|done]).
  unfold canonical_fields.
  destruct (cadence s) eqn:E; cbn -[to_string time_text parse_canonical_u8]; rewrite Ht;
    cbn -[to_string parse_canonical_u8]; [done..| |];
    rewrite Hu by (eapply (valid_number s); eauto); done.
Qed.

Lemma parse_canonical_Ok value s :
  parse_canonical value = Ok s ↔ valid_schedule s ∧ value = to_canonical_string s.
Proof.
  unfold parse_canonical. split.
  - intros H. run_in H. bool_facts. split; [by eapply parse_fields_valid|done].
  - intros [Hv ->]. rewrite canonical_length, split_canonical by done. cbn.
    rewrite parse_canonical_fields by done. run_unfold. by rewrite bool_decide_eq_true_2.
Qed.

(** ** Legacy formats *)

(** The five cron fields that denote a schedule. *)
Definition cron_fields (s : AutomationSchedule.t) : list str :=
  to_string (minute s) :: to_string (hour s) ::
  match cadence s with
  | AutomationCadence.Daily => [lit "*"; lit "*"; lit "*"]
  | AutomationCadence.Weekdays => [lit "*"; lit "*"; lit "1-5"]
  | AutomationCadence.Weekly w => [lit "*"; lit "*"; to_string w]
  | AutomationCadence.Monthly d => [to_string d; lit "*"; lit "*"]
  end.

Lemma star_not_number n : 0 ≤ n < 256 → to_string n ≠ lit "*" ∧ to_string n ≠ lit "1-5".
Proof. intros (_ & _ & _ & ? & ?)%number_text_ok. done. Qed.

Lemma parse_limited_cron_valid value s :
  parse_limited_cron value = Ok s →
  valid_schedule s ∧ split_ascii_whitespace value = cron_fields s.
Proof.
  unfold parse_limited_cron. intros H. run_in H; bool_facts.
  all: repeat match goal with
  | H : parse_cron_number _ _ _ = Ok _ |- _ =>
      apply parse_cron_number_Ok in H as [? ->]; [|lia..]
  | H : new _ _ _ = Ok _ |- _ => pose proof H as (-> & _)%new_Ok; apply new_valid in H; [|lia..|]
  end; try (intros; simplify_eq; lia).
  all: split; done.
Qed.

Lemma cron_fields_parse value s :
  valid_schedule s → split_ascii_whitespace value = cron_fields s →
  parse_limited_cron value = Ok s.
Proof.
  intros Hv Hf. pose proof (valid_new s Hv) as Hn. unfold parse_limited_cron. rewrite Hf.
  assert (Hc : ∀ n lo hi, 0 ≤ lo → hi ≤ 255 → lo ≤ n ≤ hi →
            parse_cron_number (to_string n) lo hi = Ok n)
    by (intros; by apply parse_cron_number_Ok).
  pose proof Hv as (Hh & Hm & Hcad). unfold cron_fields.
  destruct (cadence s) eqn:E; run_unfold; rewrite !Hc by lia;
    rewrite ?(bool_decide_eq_true_2 (lit "*" = lit "*")) by done; cbn -[to_string lit];
    try (by rewrite Hn).
  - change (match new AutomationCadence.Weekdays (hour s) (minute s) with
            | Ok a => Ok a | Err _ => Err InvalidNormalization end = Ok s). by rewrite Hn.
  - destruct (star_not_number weekday) as [? ?]; [by eapply valid_number; eauto|].
    rewrite !bool_decide_eq_false_2 by done. by rewrite Hn.
  - destruct (star_not_number day_of_month) as [? ?]; [by eapply valid_number; eauto|].
    rewrite !bool_decide_eq_false_2 by done. cbn -[to_string lit]. by rewrite Hn.
Qed.

Section normalization.
Context {CH : Chrono} {SJ : SerdeJson}.

Lemma optional_json_u8_nonneg object key n :
  optional_json_u8 object key = Ok (Some n) → 0 ≤ n.
Proof.
  unfold optional_json_u8. intros H. case_match; [|done]. split_binds H.
  run_in H. run_in Hx. destruct (as_u64 v); cbn in *; [case_match; simplify_eq; lia|done].
Qed.

Lemma parse_renderer_json_valid value timezone s :
  parse_renderer_json value timezone = Ok s → valid_schedule s.
Proof.
  unfold parse_renderer_json. intros H. split_binds H.
  repeat match goal with x : Z * Z |- _ => destruct x end. split_binds H.
  apply map_err_Ok in H, Hx8. apply parse_time_range in Hx8 as [? ?].
  apply (new_valid _ _ _ _ H); [done..|].
  intros n ->. unfold json_cadence in *. repeat case_match; simplify_eq.
  all: by eapply optional_json_u8_nonneg.
Qed.

Lemma parse_for_normalization_valid value timezone s :
  parse_for_normalization value timezone = Ok s →
  valid_schedule s ∧ is_Some (tz_from_str timezone).
Proof.
  unfold parse_for_normalization. intros H. split_binds H. split.
  - destruct (starts_with (lit "v1;") value); [|destruct (starts_with (lit "{") value)].
    + by apply parse_canonical_Ok in H as [? ?].
    + by eapply parse_renderer_json_valid.
    + by apply parse_limited_cron_valid in H as [? ?].
  - unfold parse_timezone, ok_or in *. destruct (tz_from_str timezone); [by eexists|done].
Qed.

Lemma canonical_printable s :
  valid_schedule s → existsb is_control (to_canonical_string s) = false.
Proof.
  intros Hv. destruct (time_text_ok (hour s) (minute s)) as (_ & _ & _ & Ht); [apply Hv..|].
  unfold to_canonical_string. fold (time_text (hour s) (minute s)).
  destruct (cadence s) eqn:E.
  3: destruct (number_text_ok weekday) as (_ & _ & Hn & _); [by eapply valid_number; eauto|].
  4: destruct (number_text_ok day_of_month) as (_ & _ & Hn & _); [by eapply valid_number; eauto|].
  all: rewrite !existsb_app, ?Ht, ?Hn; done.
Qed.

Lemma canonical_starts s : starts_with (lit "v1;") (to_canonical_string s) = true.
Proof. unfold to_canonical_string. destruct (cadence s); done. Qed.

Lemma normalization_stable timezone s :
  valid_schedule s → is_Some (tz_from_str timezone) →
  parse_for_normalization (to_canonical_string s) timezone = Ok s.
Proof.
  intros Hv [z Hz]. unfold parse_for_normalization, parse_timezone.
  rewrite canonical_length, canonical_printable, Hz, canonical_starts by done. cbn.
  by apply parse_canonical_Ok.
Qed.
End normalization.

(** ** The calculator against a per-slot reference *)

Section reference.
Context {CH : Chrono} {CL : ChronoLaws}.
Implicit Types (s : AutomationSchedule.t) (w : window) (date : NaiveDate).

(** The reference: the dates of the window one after the other, the decision of
    each slot on its own, and a filter by the bounds. *)
Fixpoint date_range (n : nat) (date : NaiveDate) : list NaiveDate :=
  match n with
  | O => []
  | S n' => date :: match succ_opt date with Some d => date_range n' d | None => [] end
  end.
Definition slot s date : AutomationLocalDateTime.t :=
  LocalSlot.from_date date (hour s) (minute s).
Definition slot_decision s (tz : str) date : option AutomationScheduleDecision.t :=
  match decision_for_nominal s tz (slot s date) with Ok d => Some d | Err _ => None end.
Definition in_window w (d : AutomationScheduleDecision.t) : bool :=
  match d with
  | AutomationScheduleDecision.Due _ t =>
      (after_exclusive w <? t) && (t <=? through_inclusive w)
  | AutomationScheduleDecision.SkippedNonexistentLocalTime n =>
      match LocalSlot.to_naive n with
      | Ok local => datetime_ltb (after_local w) local && negb (datetime_ltb (through_local w) local)
      | Err _ => false
      end
  end.
Definition reference s tz w (dates : list NaiveDate) : list AutomationScheduleDecision.t :=
  filter (λ d, in_window w d = true) (omap (slot_decision s tz) dates).

Lemma slot_to_naive s date :
  valid_schedule s →
  ∃ local, LocalSlot.to_naive (slot s date) = Ok local ∧ datetime_date local = date.
Proof.
  intros (Hh & Hm & _). unfold LocalSlot.to_naive, slot; cbn. rewrite ymd_of_date. cbn.
  destruct (hms_exists date (hour s) (minute s)) as [x Hx]; [lia..|].
  rewrite Hx. exists x. split; [done|]. by eapply hms_date.
Qed.

(** A date that does not match has no decision; one that matches is decided by
    the body of the loop as by the single-slot resolution. *)
Lemma slot_no_match s tz date :
  valid_schedule s → matches s date = false → slot_decision s tz date = None.
Proof.
  intros Hv Hm. destruct (slot_to_naive s date Hv) as (local & Hl & <-).
  unfold slot_decision, decision_for_nominal. rewrite Hl. cbn.
  rewrite !bool_decide_eq_true_2, Hm by done. done.
Qed.

Lemma push_date_slot s tz w date ds :
  valid_schedule s → tz_from_str tz = Some (timezone w) → matches s date = true →
  push_date s w date ds =
    (d ← decision_for_nominal s tz (slot s date);
     Ok (if in_window w d then ds ++ [d] else ds)).
Proof.
  intros Hv Hz Hm. destruct (slot_to_naive s date Hv) as (local & Hl & Hd).
  unfold push_date, decision_for_nominal, parse_timezone. fold (slot s date).
  rewrite Hl, Hz. cbn. rewrite !bool_decide_eq_true_2, Hd, Hm by done. cbn.
  destruct (from_local_datetime (timezone w) local) as [|v|v1 v2]; cbn.
  - by rewrite Hl.
  - unfold push_resolved_decision. by destruct (positive_timestamp v).
  - unfold push_resolved_decision. by destruct (positive_timestamp (earlier v1 v2)).
Qed.

(** One turn of the loop adds exactly the reference decision of its date. *)
Lemma push_date_reference s tz w date ds ds' :
  valid_schedule s → tz_from_str tz = Some (timezone w) →
  (if matches s date then push_date s w date ds else Ok ds) = Ok ds' →
  ds' = ds ++ reference s tz w [date] ∧ (length ds' ≤ S (length ds))%nat ∧
  (matches s date = false → ds' = ds).
Proof.
  intros Hv Hz H. unfold reference. cbn [omap list_omap]. destruct (matches s date) eqn:Hm.
  - rewrite (push_date_slot _ tz) in H by done. unfold slot_decision.
    destruct (decision_for_nominal s tz (slot s date)) as [d|]; [|done].
    cbn in H. injection H as <-. rewrite filter_cons. cbn.
    destruct (in_window w d) eqn:E;
      [rewrite decide_True by done|rewrite decide_False by congruence];
      rewrite ?filter_nil, ?app_nil_r, ?length_app; cbn; split_and!; (done || lia).
  - injection H as <-. rewrite slot_no_match by done. rewrite filter_nil, app_nil_r.
    split_and!; (done || lia).
Qed.

Lemma reference_cons s tz w date dates :
  reference s tz w (date :: dates) = reference s tz w [date] ++ reference s tz w dates.
Proof.
  unfold reference. cbn [omap list_omap]. destruct (slot_decision s tz date) as [d|]; [|done].
  rewrite !filter_cons, filter_nil. by destruct (decide _).
Qed.

Lemma decide_dates_reference fuel s tz w date end_date ds ev :
  valid_schedule s → tz_from_str tz = Some (timezone w) →
  fuel = dates_left date end_date → Z.of_nat (length ds) ≤ limit w →
  decide_dates fuel s w date end_date ds = Ok ev →
  let all := ds ++ reference s tz w (date_range fuel date) in
  ev = AutomationScheduleEvaluation.mk (take (Z.to_nat (limit w)) all)
         (limit w <? Z.of_nat (length all)).
Proof.
  intros Hv Hz. revert date ds. induction fuel as [|fuel IH]; intros date ds Hf Hlen H all.
  { cbn in H. injection H as <-. subst all. cbn. unfold reference; cbn.
    rewrite app_nil_r, take_ge by lia. f_equal. lia. }
  cbn [decide_dates] in H. rewrite date_leb_days in H. unfold dates_left in Hf.
  rewrite (proj2 (Z.leb_le _ _)) in H by lia.
  apply result_bind_Ok in H as (ds' & Hp & H).
  destruct (push_date_reference _ tz _ _ _ _ Hv Hz Hp) as (-> & Hl & Hno).
  subst all. cbn [date_range]. rewrite reference_cons, app_assoc.
  destruct (matches s date && _) eqn:E.
  - injection H as <-. apply andb_true_iff in E as [_ E%Z.ltb_lt].
    f_equal; [symmetry; apply take_app_le; lia|]. symmetry. apply Z.ltb_lt.
    rewrite (length_app (ds ++ _)). lia.
  - apply result_bind_Ok in H as (date' & Hs & H). destruct (succ_opt date) as [x|] eqn:Hd; [|done].
    injection Hs as ->. apply (IH date'); [| |done].
    + unfold dates_left. apply succ_opt_days in Hd. lia.
    + destruct (matches s date) eqn:Hm; [rewrite andb_true_l in E; lia|]. by rewrite Hno.
Qed.

(** The loop succeeds when no slot resolves before the epoch and the calendar
    does not end. *)
Lemma decide_dates_total fuel s tz w date end_date ds :
  valid_schedule s → tz_from_str tz = Some (timezone w) →
  (∀ d, d ∈ date_range fuel date → is_Some (succ_opt d) ∧
     (matches s d = true → is_Some (slot_decision s tz d))) →
  is_ok (decide_dates fuel s w date end_date ds) = true.
Proof.
  intros Hv Hz. revert date ds. induction fuel as [|fuel IH]; intros date ds Hr; [done|].
  cbn. destruct (date_leb date end_date); [|done].
  destruct (Hr date) as [[d' Hd] Hm]; [cbn; constructor|].
  assert (∃ ds', (if matches s date then push_date s w date ds else Ok ds) = Ok ds') as [ds' ->].
  { destruct (matches s date) eqn:E; [|by eexists]. rewrite (push_date_slot _ tz) by done.
    destruct (Hm eq_refl) as [x Hx]. unfold slot_decision in Hx.
    destruct (decision_for_nominal _ _ _); [by eexists|done]. }
  cbn. destruct (matches s date && _); [done|]. rewrite Hd. cbn. apply IH.
  intros d Hin. apply Hr. cbn. rewrite Hd. by constructor.
Qed.
End reference.

Section evaluation.
Context {CH : Chrono} {CL : ChronoLaws}.
Implicit Types (s : AutomationSchedule.t) (w : window).

(** The local dates of a window, first to last. *)
Definition window_dates w : list NaiveDate :=
  date_range (dates_left (datetime_date (after_local w)) (datetime_date (through_local w)))
    (datetime_date (after_local w)).

(** The inputs [decisions_between] accepts and the window they denote. *)
Definition window_of (tz : str) (after through lim : Z) w : Prop :=
  1 ≤ lim ≤ MAX_AUTOMATION_SCHEDULE_DECISIONS ∧ after ≤ through ∧
  through - after ≤ MAX_AUTOMATION_SCHEDULE_WINDOW_DAYS * MILLIS_PER_DAY ∧
  tz_from_str tz = Some (timezone w) ∧ after_exclusive w = after ∧
  through_inclusive w = through ∧ limit w = lim ∧ through ≤ i64_max ∧
  ∃ a t, from_timestamp_millis after = Some a ∧ from_timestamp_millis through = Some t ∧
    after_local w = naive_local (timezone w) a ∧ through_local w = naive_local (timezone w) t.

Lemma decisions_between_window s tz after through lim w :
  window_of tz after through lim w →
  decisions_between s tz after through lim =
    decide_dates (dates_left (datetime_date (after_local w)) (datetime_date (through_local w)))
      s w (datetime_date (after_local w)) (datetime_date (through_local w)) [].
Proof.
  intros (Hl & Hw & Hs & Hz & Ea & Et & El & Hi & a & t & Ha & Ht & La & Lt).
  unfold decisions_between, parse_timezone, utc_from_millis, checked_sub.
  rewrite (proj2 (in_range_spec _ _ _) Hl), (proj2 (Z.leb_le _ _) Hw). cbn -[Z.mul].
  rewrite (proj2 (Z.ltb_ge _ _) Hs), Hz. cbn.
  rewrite !(proj2 (Z.ltb_ge i64_max _)) by lia. cbn. rewrite Ha, Ht. cbn.
  destruct w; cbn in *. by subst.
Qed.

Lemma decisions_between_accepts s tz after through lim ev :
  decisions_between s tz after through lim = Ok ev →
  ∃ w, window_of tz after through lim w.
Proof.
  unfold decisions_between, parse_timezone, utc_from_millis. intros H.
  apply result_bind_Ok in H as (? & Hl & H). apply result_bind_Ok in H as (span & Hs & H).
  apply result_bind_Ok in H as (? & Hw & H). apply result_bind_Ok in H as (z & Hz & H).
  apply result_bind_Ok in H as (a & Ha & H). apply result_bind_Ok in H as (t & Ht & _).
  apply result_bind_Ok in Ha as (? & Ha' & Ha). apply result_bind_Ok in Ht as (? & Ht' & Ht).
  exists (mk_window z after through (naive_local z a) (naive_local z t) lim).
  run_in Hl. run_in Hs. run_in Hw. run_in Hz. run_in Ha. run_in Ht. run_in Ha'. run_in Ht'.
  bool_facts. int_facts. unfold window_of; cbn -[Z.mul]. rewrite in_range_spec in *.
  split_and!; try (done || lia). eauto 10.
Qed.

Lemma decisions_between_reference s tz after through lim w ev :
  valid_schedule s → window_of tz after through lim w →
  decisions_between s tz after through lim = Ok ev →
  let all := reference s tz w (window_dates w) in
  ev = AutomationScheduleEvaluation.mk (take (Z.to_nat lim) all)
         (lim <? Z.of_nat (length all)).
Proof.
  intros Hv Hw H. rewrite (decisions_between_window _ _ _ _ _ w) in H by done.
  destruct Hw as (Hl & _ & _ & Hz & _ & _ & El & _).
  apply (decide_dates_reference _ _ tz) in H; [|done|done|done|cbn; lia].
  by rewrite El in H.
Qed.

(** Consecutive dates are in order. *)
Definition before (d1 d2 : NaiveDate) : Prop := num_days_from_ce d1 < num_days_from_ce d2.

Lemma date_range_after n date d :
  d ∈ date_range n date → num_days_from_ce date ≤ num_days_from_ce d.
Proof.
  revert date. induction n as [|n IH]; intros date H; [by apply elem_of_nil in H|].
  cbn in H. apply elem_of_cons in H as [->|H]; [done|].
  destruct (succ_opt date) as [x|] eqn:E; [|by apply elem_of_nil in H].
  apply IH in H. apply succ_opt_days in E. lia.
Qed.
Lemma date_range_sorted n date : StronglySorted before (date_range n date).
Proof.
  revert date. induction n as [|n IH]; intros date; [constructor|]. cbn.
  destruct (succ_opt date) as [x|] eqn:E; [|by repeat constructor].
  constructor; [apply IH|]. apply Forall_forall. intros d Hd%date_range_after.
  apply succ_opt_days in E. unfold before. lia.
Qed.

Lemma decision_for_nominal_slot s tz n d :
  decision_for_nominal s tz n = Ok d → AutomationScheduleDecision.nominal_local d = n.
Proof. unfold decision_for_nominal. intros H. split_binds H. by run_in H. Qed.

(** The decisions of the reference: in order, one per date, each the decision of
    its own slot and inside the bounds. *)
Lemma reference_shape s tz w dates :
  StronglySorted before dates →
  ∃ dates', StronglySorted before dates' ∧ (∀ d, d ∈ dates' → d ∈ dates) ∧
    AutomationScheduleDecision.nominal_local <$> reference s tz w dates = slot s <$> dates'.
Proof.
  induction 1 as [|date dates Hs (ds & Hd & Hin & Heq) Hall]; [exists []; split_and!; [constructor|done|done]|].
  rewrite reference_cons, fmap_app, Heq. unfold reference at 1. cbn [omap list_omap].
  assert (∃ ds', StronglySorted before ds' ∧ (∀ d, d ∈ ds' → d ∈ date :: dates) ∧
            slot s <$> ds = slot s <$> ds') as (ds' & H1 & H2 & H3).
  { exists ds. split_and!; [done| |done]. intros d ?. right. by apply Hin. }
  destruct (slot_decision s tz date) as [d|] eqn:E; [|by exists ds'].
  rewrite filter_cons, filter_nil. destruct (decide (in_window w d = true)); [|by exists ds'].
  unfold slot_decision in E. destruct (decision_for_nominal s tz (slot s date)) as [x|] eqn:En; [|done].
  injection E as ->. apply decision_for_nominal_slot in En as Hn. exists (date :: ds). cbn.
  rewrite Hn. split_and!; [|set_solver|done]. constructor; [done|].
  apply Forall_forall. intros y Hy. rewrite Forall_forall in Hall. by apply Hall, Hin.
Qed.

Lemma reference_decisions s tz w dates d :
  d ∈ reference s tz w dates →
  decision_for_nominal s tz (AutomationScheduleDecision.nominal_local d) = Ok d ∧
  in_window w d = true.
Proof.
  unfold reference. intros [Hw H]%list_elem_of_filter. split; [|done].
  apply list_elem_of_omap in H as (date & _ & H). unfold slot_decision in H.
  destruct (decision_for_nominal s tz (slot s date)) as [x|] eqn:E; [|done].
  injection H as ->. by rewrite (decision_for_nominal_slot _ _ _ _ E).
Qed.

Lemma decisions_between_slots s tz after through lim ev d :
  valid_schedule s → decisions_between s tz after through lim = Ok ev →
  d ∈ AutomationScheduleEvaluation.decisions ev →
  decision_for_nominal s tz (AutomationScheduleDecision.nominal_local d) = Ok d ∧
  ∀ t, AutomationScheduleDecision.scheduled_for d = Some t → after < t ≤ through.
Proof.
  intros Hv H Hd. destruct (decisions_between_accepts _ _ _ _ _ _ H) as [w Hw].
  pose proof (decisions_between_reference _ _ _ _ _ w _ Hv Hw H) as ->. cbn in Hd.
  apply elem_of_take in Hd as (k & Hk & _).
  apply list_elem_of_lookup_2, reference_decisions in Hk as [Hk Hin].
  split; [done|]. intros t Ht. destruct d as [n t'|n]; [|done]. cbn in *. simplify_eq.
  destruct Hw as (_ & _ & _ & _ & <- & <- & _). lia.
Qed.

Lemma next_decision_between s tz after d :
  next_decision_after s tz after = Ok d →
  ∃ ev, decisions_between s tz after
          (after + MAX_AUTOMATION_SCHEDULE_WINDOW_DAYS * MILLIS_PER_DAY) 1 = Ok ev ∧
        head (AutomationScheduleEvaluation.decisions ev) = Some d.
Proof.
  unfold next_decision_after. intros H.
  apply result_bind_Ok in H as (through & Hc & H). run_in Hc. int_facts.
  apply result_bind_Ok in H as (ev & Hev & H). exists ev. split; [done|].
  destruct (head (AutomationScheduleEvaluation.decisions ev)); [|done]. by injection H as ->.
Qed.
End evaluation.

(** ** Properties *)

(** The canonical text of a schedule round-trips and is unique: parsing accepts
    exactly the texts printed from schedules with valid fields, and returns the
    schedule that was printed. *)
Theorem schedule_canonical_roundtrip value s :
  parse_canonical value = Ok s ↔ valid_schedule s ∧ value = to_canonical_string s.
Proof.
  split; [by intros H; apply parse_canonical_Ok|]. intros [Hv ->].
  by apply parse_canonical_Ok.
Qed.

(** Normalization only yields schedules that can be stored: whatever legacy or
    canonical text it accepts, the result has valid fields, its canonical text
    parses back to it, and normalizing that text again changes nothing. The cron
    subset it accepts is exactly the five fields of a valid schedule, separated by
    white space. *)
Theorem schedule_normalization_stable {CH : Chrono} {SJ : SerdeJson} value timezone s :
  (parse_for_normalization value timezone = Ok s →
     valid_schedule s ∧ parse_canonical (to_canonical_string s) = Ok s ∧
     parse_for_normalization (to_canonical_string s) timezone = Ok s) ∧
  (parse_limited_cron value = Ok s ↔
     valid_schedule s ∧ split_ascii_whitespace value = cron_fields s).
Proof.
  split.
  - intros [Hv Hz]%parse_for_normalization_valid. split_and!; [done| |].
    + by apply parse_canonical_Ok.
    + by apply normalization_stable.
  - split; [apply parse_limited_cron_valid|]. intros [? ?]. by apply cron_fields_parse.
Qed.

(** C28. The calculator computes its specification. For a valid schedule and an
    acceptable window in which no slot resolves before the epoch and the calendar
    does not end, the evaluation succeeds and returns the first decisions, up to the
    limit, among the decisions of the slots of each date of the window that fall
    inside the bounds, and reports truncation exactly when there are more. *)
Theorem decisions_between_exact {CH : Chrono} {CL : ChronoLaws} s tz after through lim w :
  valid_schedule s → window_of tz after through lim w →
  (∀ d, d ∈ window_dates w → is_Some (succ_opt d) ∧
     (matches s d = true → is_Some (slot_decision s tz d))) →
  let all := reference s tz w (window_dates w) in
  decisions_between s tz after through lim =
    Ok (AutomationScheduleEvaluation.mk (take (Z.to_nat lim) all)
          (lim <? Z.of_nat (length all))).
Proof.
  intros Hv Hw Hd all. destruct (decisions_between s tz after through lim) as [ev|e] eqn:E.
  - f_equal. by eapply decisions_between_reference.
  - rewrite (decisions_between_window _ _ _ _ _ w) in E by done.
    destruct Hw as (_ & _ & _ & Hz & _).
    pose proof (decide_dates_total _ s tz w _ (datetime_date (through_local w)) [] Hv Hz Hd) as Ht.
    by rewrite E in Ht.
Qed.

(** Whatever an evaluation returns is consistent with the single-slot
    resolution that restored occurrences are checked against: at most [limit]
    decisions, for distinct dates in calendar order, each the decision of its own
    slot, and each due instant inside the window. *)
Theorem decisions_are_ordered_slots {CH : Chrono} {CL : ChronoLaws} s tz after through lim ev :
  valid_schedule s → decisions_between s tz after through lim = Ok ev →
  let ds := AutomationScheduleEvaluation.decisions ev in
  Z.of_nat (length ds) ≤ lim ∧
  (∃ dates, StronglySorted before dates ∧
     AutomationScheduleDecision.nominal_local <$> ds = slot s <$> dates) ∧
  (∀ d, d ∈ ds →
     decision_for_nominal s tz (AutomationScheduleDecision.nominal_local d) = Ok d ∧
     ∀ t, AutomationScheduleDecision.scheduled_for d = Some t → after < t ≤ through).
Proof.
  intros Hv H ds. destruct (decisions_between_accepts _ _ _ _ _ _ H) as [w Hw].
  pose proof (decisions_between_reference _ _ _ _ _ w _ Hv Hw H) as Hev. cbn in Hev.
  destruct Hw as (Hl & _ & _ & _ & Ea & Et & _). subst ds ev. cbn.
  split_and!.
  - rewrite length_take. lia.
  - destruct (reference_shape s tz w (window_dates w)) as (dates & Hs & _ & Hn);
      [apply date_range_sorted|].
    exists (take (Z.to_nat lim) dates). rewrite !fmap_take, Hn. split; [|done].
    rewrite <- (take_drop (Z.to_nat lim) dates) in Hs. by apply StronglySorted_app_1_l in Hs.
  - intros d Hd. by apply (decisions_between_slots _ _ _ _ _ _ _ Hv H).
Qed.

(** The next decision is the first one: it belongs to a date of the window that
    follows the given instant, no earlier date of that window has a decision inside
    it, and a due instant lies strictly after the given one. *)
Theorem next_decision_is_first {CH : Chrono} {CL : ChronoLaws} s tz after d :
  valid_schedule s → next_decision_after s tz after = Ok d →
  (∀ t, AutomationScheduleDecision.scheduled_for d = Some t → after < t) ∧
  ∃ w earlier_dates date later_dates,
    window_of tz after (after + MAX_AUTOMATION_SCHEDULE_WINDOW_DAYS * MILLIS_PER_DAY) 1 w ∧
    window_dates w = earlier_dates ++ date :: later_dates ∧
    reference s tz w earlier_dates = [] ∧
    decision_for_nominal s tz (slot s date) = Ok d.
Proof.
  intros Hv (ev & Hev & H)%next_decision_between.
  destruct (decisions_between_accepts _ _ _ _ _ _ Hev) as [w Hw].
  pose proof (decisions_between_reference _ _ _ _ _ w _ Hv Hw Hev) as ->. cbn [AutomationScheduleEvaluation.decisions] in H.
  set (dates := window_dates w) in *.
  assert (Hd : head (reference s tz w dates) = Some d)
    by (destruct (reference s tz w dates); done). clear H.
  assert (Hin : in_window w d = true).
  { apply (reference_decisions s tz w dates). destruct (reference s tz w dates); cbn in Hd; [done|].
    injection Hd as ->. constructor. }
  split.
  { intros t Ht. destruct d; cbn in *; [|done]. simplify_eq.
    destruct Hw as (_ & _ & _ & _ & <- & _). lia. }
  assert (∃ pre date post, dates = pre ++ date :: post ∧ reference s tz w pre = [] ∧
    decision_for_nominal s tz (slot s date) = Ok d) as (pre & date & post & ? & ? & ?);
    [|by exists w, pre, date, post].
  clearbody dates. clear Hev Hw. induction dates as [|date dates IH]; [done|].
  rewrite reference_cons in Hd. destruct (reference s tz w [date]) as [|x l] eqn:E.
  - destruct (IH Hd) as (pre & y & post & -> & Hp & Hy).
    exists (date :: pre), y, post. rewrite reference_cons, E. done.
  - cbn in Hd. injection Hd as ->. exists [], date, dates. split_and!; [done..|].
    unfold reference in E. cbn [omap list_omap] in E. unfold slot_decision in E.
    destruct (decision_for_nominal s tz (slot s date)) as [y|]; [|done].
    rewrite filter_cons, filter_nil in E. destruct (decide _); [by simplify_eq|done].
Qed.

(** ** A concrete calendar: the Gregorian dates in UTC *)

Module UtcCalendar.
Definition leap (y : Z) : bool :=
  (y mod 4 =? 0) && (negb (y mod 100 =? 0) || (y mod 400 =? 0)).
Definition month_days (y m : Z) : Z :=
  if m =? 2 then (if leap y then 29 else 28)
  else if (m =? 4) || (m =? 6) || (m =? 9) || (m =? 11) then 30 else 31.
Definition valid_ymd (x : Z * Z * Z) : bool :=
  let '(y, m, d) := x in in_range 1 12 m && in_range 1 (month_days y m) d.
Definition date : Type := { x : Z * Z * Z | valid_ymd x = true }.

Definition of_ymd (y m d : Z) : option date :=
  match decide (valid_ymd (y, m, d) = true) with
  | left H => Some (exist _ (y, m, d) H)
  | right _ => None
  end.
Definition year_of (x : date) : Z := (`x).1.1.
Definition month_of (x : date) : Z := (`x).1.2.
Definition day_of (x : date) : Z := (`x).2.

(** Days before a month of a common year. *)
Definition month_start (m : Z) : Z :=
  if m <=? 1 then 0 else if m =? 2 then 31 else if m =? 3 then 59 else if m =? 4 then 90
  else if m =? 5 then 120 else if m =? 6 then 151 else if m =? 7 then 181
  else if m =? 8 then 212 else if m =? 9 then 243 else if m =? 10 then 273
  else if m =? 11 then 304 else 334.
Definition days (x : date) : Z :=
  let y := year_of x - 1 in
  365 * y + y / 4 - y / 100 + y / 400 + month_start (month_of x)
  + (if (2 <? month_of x) && leap (year_of x) then 1 else 0) + day_of x.

Definition succ (x : date) : option date :=
  let '(y, m, d) := `x in
  if d <? month_days y m then of_ymd y m (d + 1)
  else if m <? 12 then of_ymd y (m + 1) 1
  else of_ymd (y + 1) 1 1.

Definition epoch : date := exist _ (1970, 1, 1) eq_refl.

(** A day count of Unix time, stepping from the epoch. *)
Definition day_after_epoch (n : nat) : date :=
  Nat.iter n (λ d, default d (succ d)) epoch.

Definition naive : Type := date * Z.
Definition local_time (_ : unit) (ms : Z) : naive :=
  (day_after_epoch (Z.to_nat (ms / MILLIS_PER_DAY)), ms mod MILLIS_PER_DAY).
Definition instant (x : naive) : Z := (days x.1 - days epoch) * MILLIS_PER_DAY + x.2.
Definition hms (d : date) (h m s : Z) : option naive :=
  if in_range 0 23 h && in_range 0 59 m && in_range 0 59 s
  then Some (d, ((h * 60 + m) * 60 + s) * 1000) else None.

#[global] Instance chrono : Chrono := {|
  NaiveDate := date; NaiveDateTime := naive; Tz := unit; UtcInstant := Z; TzInstant := Z;
  from_ymd_opt := of_ymd; date_year := year_of; date_month := month_of; date_day := day_of;
  num_days_from_sunday d := days d mod 7; num_days_from_ce := days;
  date_leb d1 d2 := days d1 <=? days d2; succ_opt := succ; and_hms_opt := hms;
  datetime_date := fst; datetime_ltb x y := instant x <? instant y;
  tz_from_str s := if s == lit "UTC" then Some tt else None; tz_name _ := lit "UTC";
  from_timestamp_millis ms := if 0 <=? ms then Some ms else None;
  naive_local := local_time; from_local_datetime _ x := LocalSingle (instant x);
  timestamp_millis := id |}.

Lemma of_ymd_Some y m d x : of_ymd y m d = Some x ↔ `x = (y, m, d).
Proof.
  unfold of_ymd. destruct (decide _) as [H|H].
  - split; [by intros [= <-]|]. intros E. f_equal. destruct x as [x Hx]; cbn in E. subst x.
    f_equal. apply proof_irrel.
  - split; [done|]. intros E. destruct x as [x Hx]; cbn in E. by subst x.
Qed.

(** The year that ends has as many days as its calendar says. *)
Lemma year_days y :
  365 * y + y / 4 - y / 100 + y / 400 =
  365 * (y - 1) + (y - 1) / 4 - (y - 1) / 100 + (y - 1) / 400 + 365 + (if leap y then 1 else 0).
Proof.
  unfold leap. destruct (y mod 4 =? 0) eqn:E4, (y mod 100 =? 0) eqn:E100,
    (y mod 400 =? 0) eqn:E400; cbn;
    rewrite ?Z.eqb_eq, ?Z.eqb_neq in *; Z.div_mod_to_equations; lia.
Qed.

Lemma month_step y m :
  1 ≤ m < 12 →
  month_start (m + 1) + (if (2 <? m + 1) && leap y then 1 else 0) =
  month_start m + (if (2 <? m) && leap y then 1 else 0) + month_days y m.
Proof.
  intros Hm. unfold month_days. generalize (leap y); intros b.
  pose (P m := month_start (m + 1) + (if (2 <? m + 1) && b then 1 else 0) =
    month_start m + (if (2 <? m) && b then 1 else 0)
    + (if m =? 2 then (if b then 29 else 28)
       else if (m =? 4) || (m =? 6) || (m =? 9) || (m =? 11) then 30 else 31)).
  assert (H : P (m - 1 + 1)); [|by replace (m - 1 + 1) with m in H by lia].
  apply (forall_upto (λ m, P (m + 1)) 11); [by destruct b; vm_compute|lia].
Qed.

Lemma succ_days x x' : succ x = Some x' → days x' = days x + 1.
Proof.
  destruct x as [[[y m] d] Hx]. unfold succ; cbn [proj1_sig].
  assert (Hm : 1 ≤ m ≤ 12 ∧ 1 ≤ d ≤ month_days y m).
  { cbn in Hx. apply andb_true_iff in Hx as [H1 H2]. rewrite in_range_spec in *. lia. }
  intros H. pose proof (year_days y) as Hy.
  assert (Hc : ∃ y' m' d', `x' = (y', m', d') ∧
    ((d < month_days y m ∧ y' = y ∧ m' = m ∧ d' = d + 1) ∨
     (month_days y m ≤ d ∧ m < 12 ∧ y' = y ∧ m' = m + 1 ∧ d' = 1) ∨
     (month_days y m ≤ d ∧ m = 12 ∧ y' = y + 1 ∧ m' = 1 ∧ d' = 1))).
  { destruct (d <? month_days y m) eqn:Ed; [|destruct (m <? 12) eqn:Em];
      apply of_ymd_Some in H; eexists _, _, _; (split; [exact H|lia]). }
  destruct Hc as (y' & m' & d' & Hx' & Hc). unfold days, year_of, month_of, day_of.
  rewrite Hx'. cbn [proj1_sig fst snd].
  destruct Hc as [(? & -> & -> & ->)|[(? & ? & -> & -> & ->)|(? & -> & -> & -> & ->)]].
  - lia.
  - pose proof (month_step y m ltac:(lia)). lia.
  - replace (y + 1 - 1) with y by lia. cbn in *. destruct (leap y); cbn; lia.
Qed.

#[global] Instance laws : ChronoLaws.
Proof.
  split; cbn.
  - done.
  - apply succ_days.
  - intros d. apply of_ymd_Some. by destruct d as [[[? ?] ?] ?].
  - intros y m d x H%of_ymd_Some. unfold year_of, month_of, day_of. by rewrite H.
  - intros d h m Hh Hm. unfold hms.
    rewrite !(proj2 (in_range_spec _ _ _)) by lia. by eexists.
  - intros d h m s x H. unfold hms in H. case_match; by simplify_eq.
  - by intros [].
Qed.
End UtcCalendar.

(** ** Witnesses *)

#[local] Existing Instance UtcCalendar.chrono.
#[local] Existing Instance UtcCalendar.laws.

(** Monday to Friday at 09:30, in the first ten days of 1970, three at most. *)
Definition demo_schedule : AutomationSchedule.t := mk AutomationCadence.Weekdays 9 30.
Definition demo_through : Z := 10 * MILLIS_PER_DAY.
Definition demo_window : window :=
  mk_window (tt : Tz) 0 demo_through
    (naive_local (tt : Tz) (0 : UtcInstant)) (naive_local (tt : Tz) (demo_through : UtcInstant)) 3.

Lemma demo_schedule_valid : valid_schedule demo_schedule.
Proof. unfold valid_schedule; cbn; lia. Qed.
Lemma demo_window_ok : window_of (lit "UTC") 0 demo_through 3 demo_window.
Proof.
  unfold window_of, demo_through, MAX_AUTOMATION_SCHEDULE_DECISIONS,
    MAX_AUTOMATION_SCHEDULE_WINDOW_DAYS, MILLIS_PER_DAY, i64_max.
  split_and!; try lia; try reflexivity. eexists _, _. split_and!; reflexivity.
Qed.

(** The fourth working day of the window makes the evaluation truncated. *)
Lemma decisions_between_exact_witness :
  ∃ ds, decisions_between demo_schedule (lit "UTC") 0 demo_through 3 =
          Ok (AutomationScheduleEvaluation.mk ds true) ∧ length ds = 3%nat.
Proof.
  assert (H := decisions_between_exact demo_schedule (lit "UTC") 0 demo_through 3 demo_window
    demo_schedule_valid demo_window_ok).
  eexists. split.
  - refine (eq_trans (H _) _); [|vm_compute; reflexivity].
    apply Forall_forall, (bool_decide_unpack _). vm_compute. exact I.
  - reflexivity.
Defined.

Lemma decisions_are_ordered_slots_witness :
  ∃ ev, decisions_between demo_schedule (lit "UTC") 0 demo_through 3 = Ok ev ∧
    ∃ dates, StronglySorted before dates ∧
      AutomationScheduleDecision.nominal_local <$> AutomationScheduleEvaluation.decisions ev =
      slot demo_schedule <$> dates.
Proof.
  destruct (decisions_between demo_schedule (lit "UTC") 0 demo_through 3) as [ev|e] eqn:E.
  - exists ev. split; [reflexivity|].
    exact (proj1 (proj2 (decisions_are_ordered_slots _ _ _ _ _ _ demo_schedule_valid E))).
  - vm_compute in E. discriminate E.
Defined.

Lemma next_decision_is_first_witness :
  ∃ d, next_decision_after demo_schedule (lit "UTC") (4 * MILLIS_PER_DAY) = Ok d ∧
    ∀ t, AutomationScheduleDecision.scheduled_for d = Some t → 4 * MILLIS_PER_DAY < t.
Proof.
  destruct (next_decision_after demo_schedule (lit "UTC") (4 * MILLIS_PER_DAY)) as [d|e] eqn:E.
  - exists d. split; [reflexivity|].
    exact (proj1 (next_decision_is_first _ _ _ _ demo_schedule_valid E)).
  - vm_compute in E. discriminate E.
Defined.
