(* ===== verification/Scheduler.v ===== *)
(** * Automation scheduler aggregates

    [crates/grok-domain/src/automation.rs], second part: the immutable execution
    snapshot of an automation, the cursor that remembers how far its schedule was
    evaluated, the journal entry of one scheduled slot with its fenced claim, and
    the singleton scheduler lease. The policies are those of
    [crates/grok-domain/src/workspace.rs]. *)
From stdpp Require Import sorting.
From S2P Require Import Prelude RustText Ids Schedules.

Definition MAX_AUTOMATION_SCHEDULER_LEASE_MS : Z := 60000.
Definition MAX_AUTOMATION_OCCURRENCE_CLAIM_ATTEMPTS : Z := 16.
Definition MAX_AUTOMATION_TITLE_BYTES : Z := 200.
Definition MAX_AUTOMATION_PROMPT_BYTES : Z := 64 * 1024.

Module MissedRunPolicy.
Inductive t : Type := RunOnce | Skip.
#[global] Instance eq_dec : EqDecision t.
Proof. solve_decision. Defined.
End MissedRunPolicy.

Module OverlapPolicy.
Inductive t : Type := QueueOne | Skip.
#[global] Instance eq_dec : EqDecision t.
Proof. solve_decision. Defined.
End OverlapPolicy.

Module AutomationOccurrenceState.
Inductive t : Type :=
| Pending | QueuedOverlap | Claimed | RunLinked | Succeeded | Failed | SkippedMissed
| SkippedOverlap | SkippedInvalidLocalTime | InterruptedNeedsReview | Cancelled.
#[global] Instance eq_dec : EqDecision t.
Proof. solve_decision. Defined.
(** [AutomationOccurrenceState::is_terminal]. *)
Definition is_terminal (s : t) : bool :=
  match s with
  | Succeeded | Failed | SkippedMissed | SkippedOverlap | SkippedInvalidLocalTime
  | InterruptedNeedsReview | Cancelled => true
  | _ => false
  end.
End AutomationOccurrenceState.

Module AutomationSchedulerError.
Inductive t : Type :=
| Schedule (e : AutomationScheduleError.t)
| InvalidExecutionText
| InvalidDecision
| ClockRegression
| InvalidOccurrenceTransition (from to : AutomationOccurrenceState.t)
| RevisionExhausted
| InvalidLease
| StaleFence
| LeaseExpired
| LeaseStillHeld
| ClaimAttemptsExhausted
| InvalidPersistedState.
#[global] Instance eq_dec : EqDecision t.
Proof. solve_decision. Defined.
End AutomationSchedulerError.
Import AutomationSchedulerError.

(** [From<AutomationScheduleError>], the [?] on a schedule result. *)
Definition from_schedule {A} (r : result AutomationScheduleError.t A) :
    result AutomationSchedulerError.t A := map_err Schedule r.

(** ** Shared checks *)

(** The characters a prompt may not contain. *)
Definition prompt_char_invalid (c : char) : bool :=
  (c =? 0) || (is_control c && negb ((c =? 10) || (c =? 13) || (c =? 9))).

(** [validate_execution_text]. *)
Definition validate_execution_text (title prompt : str) : result AutomationSchedulerError.t unit :=
  let title_valid :=
    negb (is_empty (trim title)) && (len title <=? MAX_AUTOMATION_TITLE_BYTES)
    && negb (existsb is_control title) in
  let prompt_valid :=
    negb (is_empty (trim prompt)) && (len prompt <=? MAX_AUTOMATION_PROMPT_BYTES)
    && negb (existsb prompt_char_invalid prompt) in
  reject_if (negb title_valid || negb prompt_valid) InvalidExecutionText.

(** [validate_lease_ttl]. *)
Definition validate_lease_ttl (ttl_ms : Z) : result AutomationSchedulerError.t unit :=
  reject_if ((ttl_ms =? 0) || (MAX_AUTOMATION_SCHEDULER_LEASE_MS <? ttl_ms)) InvalidLease.

(** [validate_next_decision]. *)
Definition validate_next_decision `{Chrono} (next : option AutomationScheduleDecision.t)
    (evaluated_through : Z) : result AutomationSchedulerError.t unit :=
  match next with
  | None => Ok tt
  | Some decision =>
      _ ← from_schedule (LocalSlot.to_naive (AutomationScheduleDecision.nominal_local decision));
      reject_if (match AutomationScheduleDecision.scheduled_for decision with
                 | Some scheduled_for => scheduled_for <=? evaluated_through
                 | None => false
                 end) InvalidDecision
  end.

(** [canonicalize_timezone]. *)
Definition canonicalize_timezone `{Chrono} (value : str) : result AutomationScheduleError.t str :=
  tz ← parse_timezone value;
  Ok (if tz_name tz == value then value else tz_name tz).

(** ** The execution snapshot *)

Module AutomationExecutionSnapshot.
Record t : Type := mk {
  definition_revision : Z;
  project_id : ProjectId;
  title : str;
  prompt : str;
  schedule : AutomationSchedule.t;
  canonical_schedule : str;
  timezone : str;
  missed_run_policy : MissedRunPolicy.t;
  overlap_policy : OverlapPolicy.t;
  schedule_fingerprint : digest;
  calculator_version : Z;
}.
#[global] Instance eq_dec : EqDecision t.
Proof. solve_decision. Defined.

Section snapshot.
Context {CH : Chrono} {SHA : Sha256}.

(** [AutomationExecutionSnapshot::new]. *)
Definition new (definition_revision : Z) (project_id : ProjectId)
    (title prompt canonical_schedule timezone : str)
    (missed_run_policy : MissedRunPolicy.t) (overlap_policy : OverlapPolicy.t) :
    result AutomationSchedulerError.t t :=
  _ ← validate_execution_text title prompt;
  schedule ← from_schedule (AutomationSchedule.parse_canonical canonical_schedule);
  timezone ← from_schedule (canonicalize_timezone timezone);
  schedule_fingerprint ← from_schedule (AutomationSchedule.fingerprint schedule timezone);
  Ok (mk definition_revision project_id title prompt schedule canonical_schedule timezone
        missed_run_policy overlap_policy schedule_fingerprint
        AUTOMATION_SCHEDULE_CALCULATOR_VERSION).

(** [Result::is_ok_and]. *)
Definition is_ok_and {E A} (r : result E A) (p : A → bool) : bool :=
  match r with Ok a => p a | Err _ => false end.

(** [AutomationExecutionSnapshot::restore]. *)
Definition restore (snapshot : t) : result AutomationSchedulerError.t t :=
  let valid :=
    is_ok (validate_execution_text (title snapshot) (prompt snapshot))
    && is_ok_and (AutomationSchedule.parse_canonical (canonical_schedule snapshot))
         (λ s, s == schedule snapshot)
    && is_ok_and (parse_timezone (timezone snapshot)) (λ z, tz_name z == timezone snapshot)
    && (calculator_version snapshot =? AUTOMATION_SCHEDULE_CALCULATOR_VERSION)
    && is_ok_and (AutomationSchedule.fingerprint (schedule snapshot) (timezone snapshot))
         (λ f, f == schedule_fingerprint snapshot) in
  _ ← reject_if (negb valid) InvalidPersistedState;
  Ok snapshot.
End snapshot.
End AutomationExecutionSnapshot.

(** ** The cursor *)

Module AutomationScheduleCursor.
Record t : Type := mk {
  automation_id : AutomationId;
  definition_revision : Z;
  schedule_fingerprint : digest;
  calculator_version : Z;
  evaluated_through : Z;
  next_decision : option AutomationScheduleDecision.t;
  revision : Z;
  created_at : Z;
  updated_at : Z;
}.
#[global] Instance eq_dec : EqDecision t.
Proof. solve_decision. Defined.
#[global] Instance eta : Eta t := λ x,
  mk (automation_id x) (definition_revision x) (schedule_fingerprint x) (calculator_version x)
     (evaluated_through x) (next_decision x) (revision x) (created_at x) (updated_at x).

Section cursor.
Context {CH : Chrono} {SHA : Sha256}.

(** [AutomationScheduleCursor::new]. *)
Definition new (automation_id : AutomationId) (snapshot : AutomationExecutionSnapshot.t)
    (evaluated_through : Z) (next_decision : option AutomationScheduleDecision.t) (now : Z) :
    result AutomationSchedulerError.t t :=
  _ ← AutomationExecutionSnapshot.restore snapshot;
  _ ← reject_if (now <? evaluated_through) ClockRegression;
  _ ← validate_next_decision next_decision evaluated_through;
  Ok (mk automation_id (AutomationExecutionSnapshot.definition_revision snapshot)
        (AutomationExecutionSnapshot.schedule_fingerprint snapshot)
        (AutomationExecutionSnapshot.calculator_version snapshot)
        evaluated_through next_decision 0 now now).

(** [AutomationScheduleCursor::restore]. *)
Definition restore (cursor : t) : result AutomationSchedulerError.t t :=
  _ ← reject_if
        ((calculator_version cursor =? 0)
         || (schedule_fingerprint cursor == repeat 0 32)
         || (updated_at cursor <? created_at cursor)
         || (updated_at cursor <? evaluated_through cursor)
         || ((revision cursor =? 0) && (updated_at cursor != created_at cursor))
         || negb (is_ok (validate_next_decision (next_decision cursor) (evaluated_through cursor))))
        InvalidPersistedState;
  Ok cursor.

(** [advance_revision] on the cursor. *)
Definition advance_revision : method t AutomationSchedulerError.t unit :=
  x ← self;
  next ← lift (ok_or RevisionExhausted (checked_add u64_max (revision x) 1));
  assign (λ x, x <| revision := next |>).

(** [AutomationScheduleCursor::advance]. *)
Definition advance (evaluated_through' : Z) (next_decision' : option AutomationScheduleDecision.t)
    (now : Z) : method t AutomationSchedulerError.t unit :=
  x ← self;
  _ ← throw_if ((evaluated_through' <? evaluated_through x) || (now <? updated_at x)
                || (now <? evaluated_through')) ClockRegression;
  _ ← lift (validate_next_decision next_decision' evaluated_through');
  _ ← advance_revision;
  _ ← assign (λ x, x <| evaluated_through := evaluated_through' |>);
  _ ← assign (λ x, x <| next_decision := next_decision' |>);
  assign (λ x, x <| updated_at := now |>).
End cursor.
End AutomationScheduleCursor.

(** ** The scheduler lease *)

Module AutomationSchedulerLeaseToken.
Record t : Type := mk { owner_id : AutomationSchedulerOwnerId; fence : Z }.
#[global] Instance eq_dec : EqDecision t.
Proof. solve_decision. Defined.
End AutomationSchedulerLeaseToken.

Module AutomationSchedulerLease.
Record t : Type := mk {
  owner_id : AutomationSchedulerOwnerId;
  fence : Z;
  acquired_at : Z;
  renewed_at : Z;
  expires_at : Z;
}.
#[global] Instance eq_dec : EqDecision t.
Proof. solve_decision. Defined.
#[global] Instance eta : Eta t := λ x,
  mk (owner_id x) (fence x) (acquired_at x) (renewed_at x) (expires_at x).

(** [AutomationSchedulerLease::acquire]. *)
Definition acquire (owner_id : AutomationSchedulerOwnerId) (fence now ttl_ms : Z) :
    result AutomationSchedulerError.t t :=
  _ ← validate_lease_ttl ttl_ms;
  _ ← reject_if (fence =? 0) InvalidLease;
  expires_at ← ok_or InvalidLease (checked_add u64_max now ttl_ms);
  Ok (mk owner_id fence now now expires_at).

(** [AutomationSchedulerLease::restore]. *)
Definition restore (lease : t) : result AutomationSchedulerError.t t :=
  _ ← reject_if
        ((fence lease =? 0) || (renewed_at lease <? acquired_at lease)
         || (expires_at lease <=? renewed_at lease)
         || (MAX_AUTOMATION_SCHEDULER_LEASE_MS <? expires_at lease - renewed_at lease))
        InvalidPersistedState;
  Ok lease.

(** [AutomationSchedulerLease::token]. *)
Definition token (lease : t) : AutomationSchedulerLeaseToken.t :=
  AutomationSchedulerLeaseToken.mk (owner_id lease) (fence lease).

(** [AutomationSchedulerLease::is_valid_at]. *)
Definition is_valid_at (lease : t) (now : Z) : bool :=
  (acquired_at lease <=? now) && (now <? expires_at lease).

(** [AutomationSchedulerLease::renew]. *)
Definition renew (token : AutomationSchedulerLeaseToken.t) (now ttl_ms : Z) :
    method t AutomationSchedulerError.t unit :=
  _ ← lift (validate_lease_ttl ttl_ms);
  x ← self;
  _ ← throw_if ((AutomationSchedulerLeaseToken.owner_id token != owner_id x)
                || (AutomationSchedulerLeaseToken.fence token != fence x)) StaleFence;
  _ ← throw_if (now <? renewed_at x) ClockRegression;
  _ ← throw_if (expires_at x <=? now) LeaseExpired;
  expiry ← lift (ok_or InvalidLease (checked_add u64_max now ttl_ms));
  _ ← assign (λ x, x <| expires_at := expiry |>);
  assign (λ x, x <| renewed_at := now |>).

(** [AutomationSchedulerLease::take_over]. *)
Definition take_over (owner_id' : AutomationSchedulerOwnerId) (fence' now ttl_ms : Z) :
    method t AutomationSchedulerError.t unit :=
  x ← self;
  _ ← throw_if (now <? expires_at x) LeaseStillHeld;
  _ ← throw_if (fence' <=? fence x) StaleFence;
  lease ← lift (acquire owner_id' fence' now ttl_ms);
  assign (λ _, lease).
End AutomationSchedulerLease.

(** ** The occurrence journal entry *)

Module AutomationOccurrenceSlot.
Record t : Type := mk {
  definition_revision : Z; nominal_local : AutomationLocalDateTime.t }.
#[global] Instance eq_dec : EqDecision t.
Proof. solve_decision. Defined.
End AutomationOccurrenceSlot.

Module AutomationOccurrenceClaim.
Record t : Type := mk {
  owner_id : AutomationSchedulerOwnerId; fence : Z; claimed_at : Z; expires_at : Z }.
#[global] Instance eq_dec : EqDecision t.
Proof. solve_decision. Defined.
End AutomationOccurrenceClaim.

Module AutomationOccurrence.
Import AutomationOccurrenceState.
Record t : Type := mk {
  id : AutomationOccurrenceId;
  automation_id : AutomationId;
  snapshot : AutomationExecutionSnapshot.t;
  nominal_local : AutomationLocalDateTime.t;
  scheduled_for : option Z;
  occurrence_count : Z;
  state : AutomationOccurrenceState.t;
  claim_of : option AutomationOccurrenceClaim.t;
  run_id : option RunId;
  claim_attempt_count : Z;
  revision : Z;
  created_at : Z;
  updated_at : Z;
}.
#[global] Instance eq_dec : EqDecision t.
Proof. solve_decision. Defined.
#[global] Instance eta : Eta t := λ x,
  mk (id x) (automation_id x) (snapshot x) (nominal_local x) (scheduled_for x)
     (occurrence_count x) (state x) (claim_of x) (run_id x) (claim_attempt_count x)
     (revision x) (created_at x) (updated_at x).

(** [AutomationOccurrence::slot]. *)
Definition slot (x : t) : AutomationOccurrenceSlot.t :=
  AutomationOccurrenceSlot.mk
    (AutomationExecutionSnapshot.definition_revision (snapshot x)) (nominal_local x).

(** [AutomationOccurrence::invalid_transition]. *)
Definition invalid_transition (x : t) (to : AutomationOccurrenceState.t) :
    AutomationSchedulerError.t := InvalidOccurrenceTransition (state x) to.

(** [AutomationOccurrence::ensure_time]. *)
Definition ensure_time (now : Z) : method t AutomationSchedulerError.t unit :=
  x ← self; throw_if (now <? updated_at x) ClockRegression.

(** [advance_revision] on the occurrence. *)
Definition advance_revision : method t AutomationSchedulerError.t unit :=
  x ← self;
  next ← lift (ok_or RevisionExhausted (checked_add u64_max (revision x) 1));
  assign (λ x, x <| revision := next |>).

(** [AutomationOccurrence::move_from]. *)
Definition move_from (from next : AutomationOccurrenceState.t) (now : Z) :
    method t AutomationSchedulerError.t unit :=
  x ← self;
  _ ← throw_if ((state x != from) || is_some (claim_of x) || is_some (run_id x))
        (invalid_transition x next);
  _ ← ensure_time now;
  _ ← advance_revision;
  _ ← assign (λ x, x <| state := next |>);
  assign (λ x, x <| updated_at := now |>).

(** [AutomationOccurrence::move_unclaimed_to]. *)
Definition move_unclaimed_to (next : AutomationOccurrenceState.t) (now : Z) :
    method t AutomationSchedulerError.t unit :=
  x ← self;
  _ ← throw_if (negb ((state x == Pending) || (state x == QueuedOverlap))
                || is_some (claim_of x) || is_some (run_id x)) (invalid_transition x next);
  _ ← ensure_time now;
  _ ← advance_revision;
  _ ← assign (λ x, x <| state := next |>);
  assign (λ x, x <| updated_at := now |>).

(** [AutomationOccurrence::finish_linked]. *)
Definition finish_linked (run : RunId) (next : AutomationOccurrenceState.t) (now : Z) :
    method t AutomationSchedulerError.t unit :=
  x ← self;
  _ ← throw_if ((state x != RunLinked) || (run_id x != Some run)) (invalid_transition x next);
  _ ← ensure_time now;
  _ ← advance_revision;
  _ ← assign (λ x, x <| claim_of := None |>);
  _ ← assign (λ x, x <| state := next |>);
  assign (λ x, x <| updated_at := now |>).

(** [AutomationOccurrence::queue_overlap]. *)
Definition queue_overlap (now : Z) : method t AutomationSchedulerError.t unit :=
  x ← self;
  _ ← throw_if (AutomationExecutionSnapshot.overlap_policy (snapshot x) != OverlapPolicy.QueueOne)
        (invalid_transition x QueuedOverlap);
  move_from Pending QueuedOverlap now.

(** [AutomationOccurrence::promote_queued]. *)
Definition promote_queued (now : Z) : method t AutomationSchedulerError.t unit :=
  move_from QueuedOverlap Pending now.

(** [AutomationOccurrence::skip_missed]. *)
Definition skip_missed (now : Z) : method t AutomationSchedulerError.t unit :=
  x ← self;
  _ ← throw_if (AutomationExecutionSnapshot.missed_run_policy (snapshot x) != MissedRunPolicy.Skip)
        (invalid_transition x SkippedMissed);
  move_unclaimed_to SkippedMissed now.

(** [AutomationOccurrence::skip_overlap]. *)
Definition skip_overlap (now : Z) : method t AutomationSchedulerError.t unit :=
  move_unclaimed_to SkippedOverlap now.

(** [AutomationOccurrence::claim]. *)
Definition claim (token : AutomationSchedulerLeaseToken.t) (claimed_at expires_at : Z) :
    method t AutomationSchedulerError.t unit :=
  x ← self;
  _ ← throw_if (state x != Pending) (invalid_transition x Claimed);
  _ ← throw_if (match scheduled_for x with
                | Some scheduled_for => claimed_at <? scheduled_for | None => false end)
        InvalidDecision;
  _ ← throw_if ((AutomationSchedulerLeaseToken.fence token =? 0) || (expires_at <=? claimed_at)
                || (MAX_AUTOMATION_SCHEDULER_LEASE_MS <? expires_at - claimed_at)) InvalidLease;
  _ ← throw_if (MAX_AUTOMATION_OCCURRENCE_CLAIM_ATTEMPTS <=? claim_attempt_count x)
        ClaimAttemptsExhausted;
  _ ← ensure_time claimed_at;
  next_attempt ← lift (ok_or ClaimAttemptsExhausted
                         (checked_add u32_max (claim_attempt_count x) 1));
  _ ← advance_revision;
  _ ← assign (λ x, x <| claim_attempt_count := next_attempt |>);
  _ ← assign (λ x, x <| claim_of := Some (AutomationOccurrenceClaim.mk
        (AutomationSchedulerLeaseToken.owner_id token)
        (AutomationSchedulerLeaseToken.fence token) claimed_at expires_at) |>);
  _ ← assign (λ x, x <| state := Claimed |>);
  assign (λ x, x <| updated_at := claimed_at |>).

(** [AutomationOccurrence::release_expired_claim]. *)
Definition release_expired_claim (now : Z) : method t AutomationSchedulerError.t unit :=
  x ← self;
  claim ← lift (ok_or InvalidPersistedState (claim_of x));
  _ ← throw_if ((state x != Claimed) || is_some (run_id x)
                || (now <? AutomationOccurrenceClaim.expires_at claim))
        (invalid_transition x Pending);
  _ ← ensure_time now;
  _ ← advance_revision;
  _ ← assign (λ x, x <| claim_of := None |>);
  _ ← assign (λ x, x <| state := Pending |>);
  assign (λ x, x <| updated_at := now |>).

(** [AutomationOccurrence::link_run]. *)
Definition link_run (token : AutomationSchedulerLeaseToken.t) (run : RunId) (now : Z) :
    method t AutomationSchedulerError.t unit :=
  x ← self;
  claim ← lift (ok_or InvalidPersistedState (claim_of x));
  _ ← throw_if ((state x != Claimed)
                || (AutomationOccurrenceClaim.owner_id claim
                    != AutomationSchedulerLeaseToken.owner_id token)
                || (AutomationOccurrenceClaim.fence claim
                    != AutomationSchedulerLeaseToken.fence token)
                || (AutomationOccurrenceClaim.expires_at claim <=? now)) StaleFence;
  _ ← ensure_time now;
  _ ← advance_revision;
  _ ← assign (λ x, x <| run_id := Some run |>);
  _ ← assign (λ x, x <| state := RunLinked |>);
  assign (λ x, x <| updated_at := now |>).

(** [AutomationOccurrence::succeed], [fail] and [interrupt]. *)
Definition succeed (run : RunId) := finish_linked run Succeeded.
Definition fail (run : RunId) := finish_linked run Failed.
Definition interrupt (run : RunId) := finish_linked run InterruptedNeedsReview.

(** [AutomationOccurrence::mark_claims_exhausted]. *)
Definition mark_claims_exhausted (now : Z) : method t AutomationSchedulerError.t unit :=
  x ← self;
  _ ← throw_if ((state x != Pending) || is_some (claim_of x) || is_some (run_id x)
                || (claim_attempt_count x <? MAX_AUTOMATION_OCCURRENCE_CLAIM_ATTEMPTS))
        (invalid_transition x InterruptedNeedsReview);
  _ ← ensure_time now;
  _ ← advance_revision;
  _ ← assign (λ x, x <| state := InterruptedNeedsReview |>);
  assign (λ x, x <| updated_at := now |>).

(** [AutomationOccurrence::cancel]. *)
Definition cancel (now : Z) : method t AutomationSchedulerError.t unit :=
  x ← self;
  _ ← throw_if (is_terminal (state x)) (invalid_transition x Cancelled);
  _ ← ensure_time now;
  _ ← advance_revision;
  _ ← assign (λ x, x <| claim_of := None |>);
  _ ← assign (λ x, x <| state := Cancelled |>);
  assign (λ x, x <| updated_at := now |>).

(** The parts of [AutomationOccurrence::reachable_shape]. *)
Definition scheduled_shape (x : t) : bool :=
  match state x with
  | SkippedInvalidLocalTime => is_none (scheduled_for x)
  | _ => is_some (scheduled_for x)
  end.
Definition lifecycle_shape (x : t) : bool :=
  match state x with
  | Pending | QueuedOverlap | SkippedMissed | SkippedOverlap | SkippedInvalidLocalTime =>
      is_none (claim_of x) && is_none (run_id x)
  | Claimed => is_some (claim_of x) && is_none (run_id x) && (0 <? claim_attempt_count x)
  | RunLinked => is_some (claim_of x) && is_some (run_id x) && (0 <? claim_attempt_count x)
  | Succeeded | Failed =>
      is_none (claim_of x) && is_some (run_id x) && (0 <? claim_attempt_count x)
  | InterruptedNeedsReview =>
      is_none (claim_of x)
      && ((is_some (run_id x) && (0 <? claim_attempt_count x))
          || (is_none (run_id x)
              && (claim_attempt_count x =? MAX_AUTOMATION_OCCURRENCE_CLAIM_ATTEMPTS)))
  | Cancelled => is_none (claim_of x)
  end.
Definition revision_shape (x : t) : bool :=
  let attempts := claim_attempt_count x in
  let doubled := saturating_mul u64_max attempts 2 in
  let next := saturating_add u64_max doubled 1 in
  match state x with
  | Pending => (doubled <=? revision x) && Z.even (revision x)
  | QueuedOverlap | SkippedMissed | SkippedOverlap => next <=? revision x
  | Claimed =>
      (0 <? attempts) && (saturating_sub doubled 1 <=? revision x) && negb (Z.even (revision x))
  | RunLinked => (0 <? attempts) && (doubled <=? revision x) && Z.even (revision x)
  | Succeeded | Failed =>
      (0 <? attempts) && (next <=? revision x) && negb (Z.even (revision x))
  | Cancelled =>
      if is_some (run_id x) then (0 <? attempts) && (next <=? revision x)
      else if 0 <? attempts then doubled <=? revision x
      else 1 <=? revision x
  | SkippedInvalidLocalTime => (attempts =? 0) && (revision x =? 0)
  | InterruptedNeedsReview =>
      if is_some (run_id x)
      then (0 <? attempts) && (next <=? revision x) && negb (Z.even (revision x))
      else (claim_attempt_count x =? MAX_AUTOMATION_OCCURRENCE_CLAIM_ATTEMPTS)
           && (next <=? revision x) && negb (Z.even (revision x))
  end.
Definition claim_shape (x : t) : bool :=
  match claim_of x with
  | None => true
  | Some claim =>
      (0 <? AutomationOccurrenceClaim.fence claim)
      && (AutomationOccurrenceClaim.claimed_at claim <? AutomationOccurrenceClaim.expires_at claim)
      && (AutomationOccurrenceClaim.expires_at claim - AutomationOccurrenceClaim.claimed_at claim
          <=? MAX_AUTOMATION_SCHEDULER_LEASE_MS)
      && (created_at x <=? AutomationOccurrenceClaim.claimed_at claim)
      && (AutomationOccurrenceClaim.claimed_at claim <=? updated_at x)
  end.

Section occurrence.
Context {CH : Chrono} {SHA : Sha256}.

Definition exact_decision (x : t) : bool :=
  AutomationExecutionSnapshot.is_ok_and
    (AutomationSchedule.decision_for_nominal (AutomationExecutionSnapshot.schedule (snapshot x))
       (AutomationExecutionSnapshot.timezone (snapshot x)) (nominal_local x))
    (λ decision, AutomationScheduleDecision.scheduled_for decision == scheduled_for x).

(** [AutomationOccurrence::reachable_shape]. *)
Definition reachable_shape (x : t) : bool :=
  exact_decision x && scheduled_shape x && lifecycle_shape x && revision_shape x
  && claim_shape x.

(** [AutomationOccurrence::restore]. *)
Definition restore (x : t) : result AutomationSchedulerError.t t :=
  _ ← reject_if
        (negb (is_ok (AutomationExecutionSnapshot.restore (snapshot x)))
         || negb (is_ok (LocalSlot.to_naive (nominal_local x)))
         || (occurrence_count x =? 0)
         || (MAX_AUTOMATION_OCCURRENCE_CLAIM_ATTEMPTS <? claim_attempt_count x)
         || (updated_at x <? created_at x)
         || negb (reachable_shape x)) InvalidPersistedState;
  Ok x.

(** [AutomationOccurrence::materialize]. *)
Definition materialize (id : AutomationOccurrenceId) (automation_id : AutomationId)
    (snapshot : AutomationExecutionSnapshot.t) (nominal_local : AutomationLocalDateTime.t)
    (scheduled_for : option Z) (occurrence_count : Z) (state : AutomationOccurrenceState.t)
    (now : Z) : result AutomationSchedulerError.t t :=
  _ ← AutomationExecutionSnapshot.restore snapshot;
  _ ← from_schedule (LocalSlot.to_naive nominal_local);
  _ ← reject_if (occurrence_count =? 0) InvalidDecision;
  restore (mk id automation_id snapshot nominal_local scheduled_for occurrence_count state
             None None 0 0 now now).

(** [AutomationOccurrence::pending]. *)
Definition pending (id : AutomationOccurrenceId) (automation_id : AutomationId)
    (snapshot : AutomationExecutionSnapshot.t) (decision : AutomationScheduleDecision.t)
    (occurrence_count now : Z) : result AutomationSchedulerError.t t :=
  match decision with
  | AutomationScheduleDecision.Due nominal_local scheduled_for =>
      materialize id automation_id snapshot nominal_local (Some scheduled_for)
        occurrence_count Pending now
  | _ => Err InvalidDecision
  end.

(** [AutomationOccurrence::skipped_invalid_local_time]. *)
Definition skipped_invalid_local_time (id : AutomationOccurrenceId)
    (automation_id : AutomationId) (snapshot : AutomationExecutionSnapshot.t)
    (decision : AutomationScheduleDecision.t) (now : Z) : result AutomationSchedulerError.t t :=
  match decision with
  | AutomationScheduleDecision.SkippedNonexistentLocalTime nominal_local =>
      materialize id automation_id snapshot nominal_local None 1 SkippedInvalidLocalTime now
  | _ => Err InvalidDecision
  end.
End occurrence.
End AutomationOccurrence.
Import AutomationOccurrenceState.

(** ** Histories of an occurrence *)

(** The calls on an occurrence. *)
Inductive occurrence_call : Type :=
| OQueueOverlap | OPromoteQueued | OSkipMissed | OSkipOverlap
| OClaim (token : AutomationSchedulerLeaseToken.t) (expires_at : Z)
| OReleaseExpired
| OLinkRun (token : AutomationSchedulerLeaseToken.t) (run : RunId)
| OSucceed (run : RunId) | OFail (run : RunId) | OInterrupt (run : RunId)
| OClaimsExhausted | OCancel.

Definition occurrence_apply (c : occurrence_call) (now : Z) :
    method AutomationOccurrence.t AutomationSchedulerError.t unit :=
  match c with
  | OQueueOverlap => AutomationOccurrence.queue_overlap now
  | OPromoteQueued => AutomationOccurrence.promote_queued now
  | OSkipMissed => AutomationOccurrence.skip_missed now
  | OSkipOverlap => AutomationOccurrence.skip_overlap now
  | OClaim token expires_at => AutomationOccurrence.claim token now expires_at
  | OReleaseExpired => AutomationOccurrence.release_expired_claim now
  | OLinkRun token run => AutomationOccurrence.link_run token run now
  | OSucceed run => AutomationOccurrence.succeed run now
  | OFail run => AutomationOccurrence.fail run now
  | OInterrupt run => AutomationOccurrence.interrupt run now
  | OClaimsExhausted => AutomationOccurrence.mark_claims_exhausted now
  | OCancel => AutomationOccurrence.cancel now
  end.

(** Every call is all or nothing. *)
Lemma ensure_time_readonly now : readonly (AutomationOccurrence.ensure_time now).
Proof. unfold AutomationOccurrence.ensure_time. solve_readonly. Qed.
Lemma occurrence_advance_atomic : atomic AutomationOccurrence.advance_revision.
Proof. unfold AutomationOccurrence.advance_revision. solve_atomic. Qed.
#[local] Hint Resolve ensure_time_readonly occurrence_advance_atomic : methods.

Lemma occurrence_apply_atomic c now : atomic (occurrence_apply c now).
Proof.
  destruct c; cbn;
    unfold AutomationOccurrence.queue_overlap, AutomationOccurrence.promote_queued,
      AutomationOccurrence.skip_missed, AutomationOccurrence.skip_overlap,
      AutomationOccurrence.claim, AutomationOccurrence.release_expired_claim,
      AutomationOccurrence.link_run, AutomationOccurrence.succeed, AutomationOccurrence.fail,
      AutomationOccurrence.interrupt, AutomationOccurrence.mark_claims_exhausted,
      AutomationOccurrence.cancel, AutomationOccurrence.move_from,
      AutomationOccurrence.move_unclaimed_to, AutomationOccurrence.finish_linked.
  all: solve_atomic.
Qed.

Section occurrence_calls.
Import AutomationOccurrence.
Implicit Types x : AutomationOccurrence.t.

(** When a call is accepted, and what it then does. *)
Definition unclaimed x : Prop := claim_of x = None ∧ run_id x = None.
Definition call_allowed (c : occurrence_call) (now : Z) x : Prop :=
  match c with
  | OQueueOverlap => state x = Pending ∧ unclaimed x ∧
      AutomationExecutionSnapshot.overlap_policy (snapshot x) = OverlapPolicy.QueueOne
  | OPromoteQueued => state x = QueuedOverlap ∧ unclaimed x
  | OSkipMissed => (state x = Pending ∨ state x = QueuedOverlap) ∧ unclaimed x ∧
      AutomationExecutionSnapshot.missed_run_policy (snapshot x) = MissedRunPolicy.Skip
  | OSkipOverlap => (state x = Pending ∨ state x = QueuedOverlap) ∧ unclaimed x
  | OClaim token expires => state x = Pending ∧
      (∀ s, scheduled_for x = Some s → s ≤ now) ∧
      AutomationSchedulerLeaseToken.fence token ≠ 0 ∧
      now < expires ≤ now + MAX_AUTOMATION_SCHEDULER_LEASE_MS ∧
      claim_attempt_count x < MAX_AUTOMATION_OCCURRENCE_CLAIM_ATTEMPTS
  | OReleaseExpired => ∃ claim, claim_of x = Some claim ∧ state x = Claimed ∧ run_id x = None ∧
      AutomationOccurrenceClaim.expires_at claim ≤ now
  | OLinkRun token _ => ∃ claim, claim_of x = Some claim ∧ state x = Claimed ∧
      AutomationOccurrenceClaim.owner_id claim = AutomationSchedulerLeaseToken.owner_id token ∧
      AutomationOccurrenceClaim.fence claim = AutomationSchedulerLeaseToken.fence token ∧
      now < AutomationOccurrenceClaim.expires_at claim
  | OSucceed run | OFail run | OInterrupt run => state x = RunLinked ∧ run_id x = Some run
  | OClaimsExhausted => state x = Pending ∧ unclaimed x ∧
      MAX_AUTOMATION_OCCURRENCE_CLAIM_ATTEMPTS ≤ claim_attempt_count x
  | OCancel => is_terminal (state x) = false
  end.
Definition accepts (c : occurrence_call) (now : Z) x : Prop :=
  call_allowed c now x ∧ updated_at x ≤ now ∧ revision x + 1 ≤ u64_max.

Definition next_state (c : occurrence_call) : AutomationOccurrenceState.t :=
  match c with
  | OQueueOverlap => QueuedOverlap
  | OPromoteQueued | OReleaseExpired => Pending
  | OSkipMissed => SkippedMissed
  | OSkipOverlap => SkippedOverlap
  | OClaim _ _ => Claimed
  | OLinkRun _ _ => RunLinked
  | OSucceed _ => Succeeded
  | OFail _ => Failed
  | OInterrupt _ | OClaimsExhausted => InterruptedNeedsReview
  | OCancel => Cancelled
  end.
Definition next_claim (c : occurrence_call) (now : Z) x : option AutomationOccurrenceClaim.t :=
  match c with
  | OClaim token expires => Some (AutomationOccurrenceClaim.mk
      (AutomationSchedulerLeaseToken.owner_id token)
      (AutomationSchedulerLeaseToken.fence token) now expires)
  | OReleaseExpired | OSucceed _ | OFail _ | OInterrupt _ | OCancel => None
  | _ => claim_of x
  end.
Definition occurrence_moved (c : occurrence_call) (now : Z) x : AutomationOccurrence.t :=
  mk (id x) (automation_id x) (snapshot x) (nominal_local x) (scheduled_for x)
    (occurrence_count x) (next_state c) (next_claim c now x)
    (match c with OLinkRun _ run => Some run | _ => run_id x end)
    (match c with OClaim _ _ => claim_attempt_count x + 1 | _ => claim_attempt_count x end)
    (revision x + 1) (created_at x) now.

Ltac unfold_calls H :=
  unfold occurrence_apply, queue_overlap, promote_queued, skip_missed, skip_overlap, claim,
    release_expired_claim, link_run, succeed, fail, interrupt, mark_claims_exhausted, cancel,
    move_from, move_unclaimed_to, finish_linked, ensure_time, advance_revision,
    invalid_transition in H.

Lemma is_some_false {A} (o : option A) : is_some o = false ↔ o = None.
Proof. by destruct o. Qed.

Lemma occurrence_apply_accepted c now x x' :
  occurrence_apply c now x = (x', Ok tt) → accepts c now x ∧ x' = occurrence_moved c now x.
Proof.
  intros H. unfold accepts. destruct x; destruct c; unfold_calls H; run_in H; bool_facts.
  all: int_facts; rewrite ?is_some_false in *; simplify_eq/=.
  all: unfold occurrence_moved, call_allowed, unclaimed; cbn.
  all: split; [|done].
  all: split_and!; try done; try lia; eauto.
  all: try (intros; simplify_eq; lia).
  all: eexists; split_and!; (done || lia).
Qed.

Lemma occurrence_apply_accepts c now x :
  accepts c now x → occurrence_apply c now x = (occurrence_moved c now x, Ok tt).
Proof.
  intros Ha. destruct (occurrence_apply c now x) as [x' [[]|e]] eqn:H.
  { by apply occurrence_apply_accepted in H as [_ ->]. }
  exfalso. destruct Ha as (Ha & Ht & Hr).
  destruct x; destruct c; unfold_calls H; unfold call_allowed, unclaimed in Ha; cbn in *;
    run_in H; bool_facts; destruct_and?; destruct_or?; simplify_eq/=; int_facts; try lia; try done.
  all: repeat match goal with H : ∀ s, Some _ = Some s → _ |- _ => specialize (H _ eq_refl) end.
  all: unfold u32_max, MAX_AUTOMATION_OCCURRENCE_CLAIM_ATTEMPTS in *; try lia.
  all: destruct Ha as (? & ? & ?); destruct_and?; simplify_eq/=; (done || lia).
Qed.
End occurrence_calls.

(** ** What the restart check guarantees *)

Section occurrence_history.
Context {CH : Chrono} {SHA : Sha256}.
Import AutomationOccurrence.
Implicit Types x : AutomationOccurrence.t.

(** The part of the check no call changes. *)
Definition identity_ok x : Prop :=
  is_ok (AutomationExecutionSnapshot.restore (snapshot x)) = true ∧
  is_ok (LocalSlot.to_naive (nominal_local x)) = true ∧
  occurrence_count x ≠ 0 ∧ exact_decision x = true.
Definition shape_ok x : Prop :=
  claim_attempt_count x ≤ MAX_AUTOMATION_OCCURRENCE_CLAIM_ATTEMPTS ∧
  created_at x ≤ updated_at x ∧
  scheduled_shape x = true ∧ lifecycle_shape x = true ∧ revision_shape x = true ∧
  claim_shape x = true.

Lemma occurrence_restore_Ok x x' :
  restore x = Ok x' ↔ x' = x ∧ identity_ok x ∧ shape_ok x.
Proof.
  unfold restore, identity_ok, shape_ok, reachable_shape.
  rewrite reject_then_Ok, !orb_false_iff, !negb_false_iff, !andb_true_iff, Z.eqb_neq, !Z.ltb_ge.
  split; intros; destruct_and?; split_and!; done.
Qed.

(** The invariant: the check passes, counters are not negative, and a retained
    overlap has an odd revision. *)
Record occurrence_inv x : Prop := {
  inv_identity : identity_ok x;
  inv_shape : shape_ok x;
  inv_attempts : 0 ≤ claim_attempt_count x;
  inv_revision : 0 ≤ revision x;
  inv_queued : state x = QueuedOverlap → Z.even (revision x) = false;
}.

(** A token carries an unsigned fence. *)
Definition call_typed (c : occurrence_call) : Prop :=
  match c with OClaim token _ => 0 ≤ AutomationSchedulerLeaseToken.fence token | _ => True end.

Lemma even_succ r : Z.even (r + 1) = negb (Z.even r).
Proof. rewrite Z.even_add. cbn. by destruct (Z.even r). Qed.

Lemma doubled_small a :
  0 ≤ a ≤ MAX_AUTOMATION_OCCURRENCE_CLAIM_ATTEMPTS →
  saturating_mul u64_max a 2 = 2 * a ∧
  saturating_add u64_max (2 * a) 1 = 2 * a + 1 ∧
  saturating_sub (2 * a) 1 = Z.max 0 (2 * a - 1).
Proof. unfold MAX_AUTOMATION_OCCURRENCE_CLAIM_ATTEMPTS. ints. Qed.

(** Splits on the call and reads off the state it starts from. *)
Ltac start_state x c Hall :=
  unfold call_allowed, unclaimed in Hall; destruct x; destruct c; cbn in *; destruct_and?;
  repeat match goal with
  | H : ∃ _, _ |- _ => destruct H; destruct_and?
  | H : _ ∨ _ |- _ => destruct H
  | H : is_terminal ?s = false |- _ => destruct s; try discriminate H; clear H
  end; simplify_eq/=.

Lemma call_shapes c now x :
  occurrence_inv x → accepts c now x →
  scheduled_shape (occurrence_moved c now x) = true ∧
  lifecycle_shape (occurrence_moved c now x) = true.
Proof.
  intros [Hid (Ha & Ht & Hs & Hl & Hr & Hc) Hn Hv Hq] (Hall & Hnow & _). clear Hr Hc Hid Hq.
  unfold scheduled_shape, lifecycle_shape in *.
  start_state x c Hall; rewrite ?andb_true_iff in *; destruct_and?; split_and!; try done.
  all: try destruct run_id0; cbn in *;
    unfold MAX_AUTOMATION_OCCURRENCE_CLAIM_ATTEMPTS in *; (done || lia).
Qed.

Lemma call_claim_shape c now x :
  occurrence_inv x → call_typed c → accepts c now x →
  claim_shape (occurrence_moved c now x) = true.
Proof.
  intros [Hid (Ha & Ht & Hs & Hl & Hr & Hc) Hn Hv Hq] Htyped (Hall & Hnow & _).
  clear Hs Hr Hid Hq. unfold claim_shape, lifecycle_shape in *.
  start_state x c Hall; try done; clear Hl; [clear Hc|];
    rewrite !andb_true_iff, !Z.ltb_lt, !Z.leb_le in *; split_and!; lia.
Qed.

Lemma call_revision_shape c now x :
  occurrence_inv x → accepts c now x →
  revision_shape (occurrence_moved c now x) = true.
Proof.
  intros [Hid (Ha & Ht & Hs & Hl & Hr & Hc) Hn Hv Hq] (Hall & Hnow & _).
  clear Hs Hid Hc. destruct (doubled_small (claim_attempt_count x)) as (D1 & D2 & D3); [lia|].
  destruct (doubled_small (claim_attempt_count (occurrence_moved c now x))) as (E1 & E2 & E3).
  { destruct c; cbn; try lia. destruct Hall as (_ & _ & _ & _ & ?). lia. }
  unfold revision_shape, lifecycle_shape in *. rewrite D1, ?D2, ?D3 in Hr. rewrite E1, ?E2, ?E3.
  clear D1 D2 D3 E1 E2 E3.
  start_state x c Hall; rewrite ?even_succ; try destruct run_id0; cbn in *;
    unfold MAX_AUTOMATION_OCCURRENCE_CLAIM_ATTEMPTS in *; try lia; try done.
  all: try specialize (Hq eq_refl); destruct (Z.even revision0); cbn in *;
    rewrite ?andb_true_r, ?andb_false_r in *; try done; try case_match; lia.
Qed.

Lemma occurrence_step_inv c now x :
  occurrence_inv x → call_typed c → accepts c now x →
  occurrence_inv (occurrence_moved c now x).
Proof.
  intros Hi Htyped Ha. pose proof Hi as [Hid (Hm & Ht & _) Hn Hv Hq].
  pose proof (call_shapes _ _ _ Hi Ha) as [Hs Hl].
  pose proof (call_claim_shape _ _ _ Hi Htyped Ha) as Hc.
  pose proof (call_revision_shape _ _ _ Hi Ha) as Hr.
  destruct Ha as (Hall & Hnow & _). split; [done| | | |].
  - split_and!; try done; [|cbn; lia].
    destruct c; cbn in *; try done. destruct Hall as (_ & _ & _ & _ & ?). lia.
  - destruct c; cbn; lia.
  - cbn; lia.
  - destruct c; cbn; try done. intros _. rewrite even_succ. apply negb_false_iff.
    destruct Hi as [_ (_ & _ & _ & _ & Hr' & _) _ _ _]. destruct Hall as (Hst & _).
    unfold revision_shape in Hr'. rewrite Hst in Hr'. by apply andb_true_iff in Hr' as [_ ?].
Qed.

(** The occurrences the program can produce. *)
Inductive occurrence_reachable : AutomationOccurrence.t → Prop :=
| reach_pending id a snap d n now x :
    0 ≤ n → pending id a snap d n now = Ok x → occurrence_reachable x
| reach_skipped id a snap d now x :
    skipped_invalid_local_time id a snap d now = Ok x → occurrence_reachable x
| reach_occurrence_call x c now x' :
    occurrence_reachable x → call_typed c → occurrence_apply c now x = (x', Ok tt) →
    occurrence_reachable x'.

Lemma materialize_inv id a snap n s k st now x :
  materialize id a snap n s k st now = Ok x → st ≠ QueuedOverlap → occurrence_inv x.
Proof.
  unfold materialize. intros H Hst. do 3 apply result_bind_Ok in H as (? & _ & H).
  apply occurrence_restore_Ok in H as (-> & ? & ?). split; try done; cbn; lia.
Qed.

Lemma reachable_occurrence_inv x : occurrence_reachable x → occurrence_inv x.
Proof.
  induction 1 as [id a snap d n now x Hn H|id a snap d now x H|x c now x' _ IH Ht H].
  - destruct d; [|done]. by eapply materialize_inv.
  - destruct d; [done|]. by eapply materialize_inv.
  - apply occurrence_apply_accepted in H as [Ha ->]. by apply occurrence_step_inv.
Qed.

(** Runs a list of attempted calls and collects the runs that were linked. *)
Fixpoint occurrence_trace (cs : list (occurrence_call * Z)) x :
    AutomationOccurrence.t * list RunId :=
  match cs with
  | [] => (x, [])
  | (c, now) :: cs' =>
      let '(x1, r) := occurrence_apply c now x in
      let '(x2, runs) := occurrence_trace cs' x1 in
      (x2, match c, r with OLinkRun _ run, Ok _ => run :: runs | _, _ => runs end)
  end.

Lemma linked_not_claimed x r : occurrence_inv x → run_id x = Some r → state x ≠ Claimed.
Proof.
  intros [_ (_ & _ & _ & Hl & _) _ _ _] Hr Hs. unfold lifecycle_shape in Hl.
  by rewrite Hs, Hr, andb_false_r in Hl.
Qed.

Lemma occurrence_trace_linked cs x x' runs r :
  occurrence_inv x → Forall (λ p, call_typed p.1) cs → run_id x = Some r →
  occurrence_trace cs x = (x', runs) →
  runs = [] ∧ run_id x' = Some r ∧ occurrence_inv x'.
Proof.
  intros Hi Hc. revert x Hi runs. induction Hc as [|[c now] cs Hc _ IH]; intros x Hi runs Hr H.
  { by simplify_eq/=. }
  cbn in H. destruct (occurrence_apply c now x) as [x1 [[]|e]] eqn:E.
  - apply occurrence_apply_accepted in E as [Ha ->].
    pose proof (occurrence_step_inv _ _ _ Hi Hc Ha) as Hi1.
    destruct (occurrence_trace cs _) as [x2 rs] eqn:Ht. injection H as <- <-.
    destruct c; try (by eapply IH). destruct Ha as ((? & _ & Hs & _) & _).
    by destruct (linked_not_claimed _ _ Hi Hr).
  - apply occurrence_apply_atomic in E as ->.
    destruct (occurrence_trace cs x) as [x2 rs] eqn:Ht. injection H as <- <-.
    destruct (IH _ Hi _ Hr Ht) as (-> & ? & ?). by destruct c.
Qed.

Lemma occurrence_trace_unlinked cs x x' runs :
  occurrence_inv x → Forall (λ p, call_typed p.1) cs → run_id x = None →
  occurrence_trace cs x = (x', runs) →
  occurrence_inv x' ∧
  ((runs = [] ∧ run_id x' = None) ∨ ∃ r, runs = [r] ∧ run_id x' = Some r).
Proof.
  intros Hi Hc. revert x Hi runs. induction Hc as [|[c now] cs Hc Hcs IH]; intros x Hi runs Hr H.
  { simplify_eq/=. split; [done|by left]. }
  cbn in H. destruct (occurrence_apply c now x) as [x1 [[]|e]] eqn:E.
  - apply occurrence_apply_accepted in E as [Ha ->].
    pose proof (occurrence_step_inv _ _ _ Hi Hc Ha) as Hi1.
    destruct (occurrence_trace cs _) as [x2 rs] eqn:Ht. injection H as <- <-.
    destruct c; try (by eapply IH).
    destruct (occurrence_trace_linked _ _ _ _ run Hi1 Hcs eq_refl Ht) as (-> & ? & ?).
    split; [done|]. right. by exists run.
  - apply occurrence_apply_atomic in E as ->.
    destruct (occurrence_trace cs x) as [x2 rs] eqn:Ht. injection H as <- <-.
    destruct (IH _ Hi _ Hr Ht) as [? Ho]. split; [done|]. by destruct c.
Qed.
End occurrence_history.

(** ** Leases *)

Section leases.
Import AutomationSchedulerLease.
Implicit Types l : AutomationSchedulerLease.t.

(** An accepted renewal or takeover. *)
Inductive lease_step : AutomationSchedulerLease.t → AutomationSchedulerLease.t → Prop :=
| lease_renew l tok now ttl l' :
    0 ≤ ttl → renew tok now ttl l = (l', Ok tt) → lease_step l l'
| lease_take_over l owner f now ttl l' :
    0 ≤ ttl → take_over owner f now ttl l = (l', Ok tt) → lease_step l l'.

Definition lease_ok l : Prop :=
  0 < fence l ∧ acquired_at l ≤ renewed_at l < expires_at l ∧
  expires_at l - renewed_at l ≤ MAX_AUTOMATION_SCHEDULER_LEASE_MS.

Lemma lease_restore_Ok l l' :
  0 ≤ fence l → restore l = Ok l' ↔ l' = l ∧ lease_ok l.
Proof.
  intros Hf. unfold restore, lease_ok.
  rewrite reject_then_Ok, !orb_false_iff, Z.eqb_neq, !Z.ltb_ge, Z.leb_gt. naive_solver lia.
Qed.

Lemma acquire_Ok owner f now ttl l :
  0 ≤ ttl → 0 ≤ f → acquire owner f now ttl = Ok l →
  l = mk owner f now now (now + ttl) ∧ lease_ok l.
Proof.
  unfold acquire, validate_lease_ttl. intros Ht Hf H. run_in H. int_facts. bool_facts.
  unfold lease_ok; cbn. split_and!; (done || lia).
Qed.

Lemma renew_Ok tok now ttl l l' :
  0 ≤ ttl → renew tok now ttl l = (l', Ok tt) →
  tok = token l ∧ renewed_at l ≤ now < expires_at l ∧
  l' = mk (owner_id l) (fence l) (acquired_at l) now (now + ttl) ∧
  0 < ttl ≤ MAX_AUTOMATION_SCHEDULER_LEASE_MS.
Proof.
  unfold renew, validate_lease_ttl. intros Ht H. run_in H. int_facts. bool_facts.
  destruct tok, l; cbn in *. subst. split_and!; (done || lia).
Qed.

Lemma take_over_Ok owner f now ttl l l' :
  0 ≤ ttl → 0 ≤ fence l → take_over owner f now ttl l = (l', Ok tt) →
  expires_at l ≤ now ∧ fence l < f ∧ l' = mk owner f now now (now + ttl) ∧ lease_ok l'.
Proof.
  unfold take_over. intros Ht Hf H. run_in H.
  match goal with E : acquire _ _ _ _ = Ok _ |- _ => apply acquire_Ok in E as [-> ?]; [|lia..] end.
  split_and!; (done || lia).
Qed.

(** Along accepted steps the fence and the start of the generation never go back. *)
Lemma lease_step_ok l l' :
  lease_ok l → lease_step l l' →
  lease_ok l' ∧ fence l ≤ fence l' ∧ acquired_at l ≤ acquired_at l'.
Proof.
  intros Hl Hs. destruct Hs as [l tok now ttl l' Ht H|l owner f now ttl l' Ht H].
  - apply renew_Ok in H as (_ & ? & -> & ?); [|done]. destruct Hl as (? & ? & ?).
    unfold lease_ok; cbn. lia.
  - apply take_over_Ok in H as (? & ? & -> & ?); [|done|destruct Hl; lia].
    destruct Hl as (? & ? & ?). split; [done|]. cbn. lia.
Qed.
Lemma lease_steps_ok l l' :
  lease_ok l → rtc lease_step l l' →
  lease_ok l' ∧ fence l ≤ fence l' ∧ acquired_at l ≤ acquired_at l'.
Proof.
  intros Hl Hs. revert Hl. induction Hs as [|l l1 l2 H _ IH]; intros Hl; [split_and!; (done||lia)|].
  apply lease_step_ok in H as (Hl1 & ? & ?); [|done]. destruct (IH Hl1) as (? & ? & ?).
  split_and!; (done||lia).
Qed.
End leases.

(** ** Snapshots and cursors *)

Section snapshots.
Context {CH : Chrono} {CL : ChronoLaws} {SHA : Sha256}.
Import AutomationExecutionSnapshot.
Implicit Types s : AutomationExecutionSnapshot.t.

Definition snapshot_ok s : Prop :=
  validate_execution_text (title s) (prompt s) = Ok tt ∧
  AutomationSchedule.parse_canonical (canonical_schedule s) = Ok (schedule s) ∧
  (∃ z, tz_from_str (timezone s) = Some z ∧ tz_name z = timezone s) ∧
  calculator_version s = AUTOMATION_SCHEDULE_CALCULATOR_VERSION ∧
  AutomationSchedule.fingerprint (schedule s) (timezone s) = Ok (schedule_fingerprint s).

Lemma is_ok_and_true {E A} (r : result E A) p :
  is_ok_and r p = true ↔ ∃ a, r = Ok a ∧ p a = true.
Proof. destruct r; cbn; naive_solver. Qed.

Lemma snapshot_restore_Ok s s' : restore s = Ok s' ↔ s' = s ∧ snapshot_ok s.
Proof.
  unfold restore, snapshot_ok, parse_timezone.
  rewrite reject_then_Ok, negb_false_iff, !andb_true_iff, !is_ok_and_true, Z.eqb_eq.
  setoid_rewrite bool_decide_eq_true.
  assert (Hv : is_ok (validate_execution_text (title s) (prompt s)) = true ↔
               validate_execution_text (title s) (prompt s) = Ok tt)
    by (destruct (validate_execution_text _ _) as [[]|]; naive_solver).
  rewrite Hv. destruct (tz_from_str (timezone s)); cbn; naive_solver.
Qed.

Lemma snapshot_new_Ok r p ti pr c tz mp op s :
  new r p ti pr c tz mp op = Ok s ↔
  ∃ z, tz_from_str tz = Some z ∧ validate_execution_text ti pr = Ok tt ∧
    AutomationSchedule.parse_canonical c = Ok (schedule s) ∧
    AutomationSchedule.fingerprint (schedule s) (tz_name z) = Ok (schedule_fingerprint s) ∧
    s = mk r p ti pr (schedule s) c (tz_name z) mp op (schedule_fingerprint s)
          AUTOMATION_SCHEDULE_CALCULATOR_VERSION.
Proof.
  unfold new, canonicalize_timezone, parse_timezone, from_schedule. split.
  - intros H. apply result_bind_Ok in H as ([] & Hv & H).
    apply result_bind_Ok in H as (sch & Hs & H). apply map_err_Ok in Hs.
    apply result_bind_Ok in H as (tz' & Hz & H). apply map_err_Ok in Hz.
    apply result_bind_Ok in H as (f & Hf & H). apply map_err_Ok in Hf.
    destruct (tz_from_str tz) as [z|]; [|done]. cbn in Hz.
    assert (tz' = tz_name z) as -> by (destruct (tz_name z == tz) eqn:E; bool_facts; congruence).
    injection H as <-. by exists z.
  - intros (z & Hz & Hv & Hs & Hf & E). rewrite Hv, Hs, Hz. cbn.
    assert ((if tz_name z == tz then tz else tz_name z) = tz_name z) as ->
      by (destruct (tz_name z == tz) eqn:Ez; bool_facts; congruence).
    rewrite Hf. cbn. by rewrite E at 3.
Qed.
End snapshots.

Section accepts_decisions.
Context {CH : Chrono} {CL : ChronoLaws} {SHA : Sha256}.
Import AutomationExecutionSnapshot.

Lemma snapshot_valid_schedule s : snapshot_ok s → valid_schedule (schedule s).
Proof. intros (_ & H & _). by apply parse_canonical_Ok in H as [? _]. Qed.

Lemma decision_nominal_naive s tz n d :
  AutomationSchedule.decision_for_nominal s tz n = Ok d → is_ok (LocalSlot.to_naive n) = true.
Proof.
  unfold AutomationSchedule.decision_for_nominal. intros H.
  apply result_bind_Ok in H as (? & H & _). by rewrite H.
Qed.

(** Materializing the decision of a slot. *)
Lemma materialize_Ok id a snap d k now st :
  snapshot_ok snap → k ≠ 0 →
  AutomationSchedule.decision_for_nominal (schedule snap) (timezone snap)
    (AutomationScheduleDecision.nominal_local d) = Ok d →
  (st = Pending ∧ is_Some (AutomationScheduleDecision.scheduled_for d) ∨
   st = SkippedInvalidLocalTime ∧ AutomationScheduleDecision.scheduled_for d = None) →
  ∃ x, AutomationOccurrence.materialize id a snap (AutomationScheduleDecision.nominal_local d)
         (AutomationScheduleDecision.scheduled_for d) k st now = Ok x.
Proof.
  intros Hs Hk Hd Hst. unfold AutomationOccurrence.materialize, from_schedule.
  rewrite (proj2 (snapshot_restore_Ok snap snap)) by done.
  pose proof (decision_nominal_naive _ _ _ _ Hd) as Hn.
  destruct (LocalSlot.to_naive _) as [local|] eqn:El; [|done]. cbn.
  rewrite (proj2 (Z.eqb_neq _ _) Hk). cbn. eexists. apply occurrence_restore_Ok.
  split; [done|]. split.
  - unfold identity_ok, AutomationOccurrence.exact_decision; cbn.
    rewrite (proj2 (snapshot_restore_Ok snap snap)), El, Hd by done. cbn.
    split_and!; try done. by apply bool_decide_eq_true.
  - unfold shape_ok. destruct Hst as [[-> [t Ht]]|[-> Ht]];
      unfold AutomationOccurrence.scheduled_shape; cbn; rewrite Ht; cbn.
    all: unfold MAX_AUTOMATION_OCCURRENCE_CLAIM_ATTEMPTS; split_and!; (done || lia).
Qed.
End accepts_decisions.

(** ** Properties *)

(** Every occurrence the scheduler can produce survives a restart, and every
    call on it is all or nothing: it is accepted exactly when its lifecycle, policy,
    claim, clock and counter conditions hold, then moves the occurrence as specified
    to one that survives a restart as well, and otherwise changes nothing. *)
Theorem occurrence_survives_restart {CH : Chrono} {SHA : Sha256} x :
  occurrence_reachable x →
  AutomationOccurrence.restore x = Ok x ∧
  ∀ c now, call_typed c →
    (accepts c now x →
       let x' := occurrence_moved c now x in
       occurrence_apply c now x = (x', Ok tt) ∧ AutomationOccurrence.restore x' = Ok x') ∧
    (¬ accepts c now x → ∃ e, occurrence_apply c now x = (x, Err e)).
Proof.
  intros Hi%reachable_occurrence_inv. split; [by apply occurrence_restore_Ok; destruct Hi|].
  intros c now Hc. split.
  - intros Ha x'. split; [by apply occurrence_apply_accepts|].
    apply occurrence_restore_Ok. by destruct (occurrence_step_inv _ _ _ Hi Hc Ha).
  - intros Hn. destruct (occurrence_apply c now x) as [x' [[]|e]] eqn:E.
    + by apply occurrence_apply_accepted in E as [? _].
    + exists e. by rewrite (occurrence_apply_atomic _ _ _ _ _ E).
Qed.

(** One scheduled slot starts at most one run. From an occurrence without a run,
    under any sequence of attempted calls with any tokens and times, at most one run
    is ever linked, it is the run the occurrence then names for good, and the slot is
    claimed at most sixteen times. *)
Theorem occurrence_links_one_run {CH : Chrono} {SHA : Sha256} x cs x' runs :
  occurrence_reachable x → AutomationOccurrence.run_id x = None →
  Forall (λ p, call_typed p.1) cs → occurrence_trace cs x = (x', runs) →
  ((runs = [] ∧ AutomationOccurrence.run_id x' = None) ∨
   ∃ r, runs = [r] ∧ AutomationOccurrence.run_id x' = Some r) ∧
  AutomationOccurrence.claim_attempt_count x' ≤ MAX_AUTOMATION_OCCURRENCE_CLAIM_ATTEMPTS.
Proof.
  intros Hi%reachable_occurrence_inv Hr Hc H.
  destruct (occurrence_trace_unlinked _ _ _ _ Hi Hc Hr H) as [Hi' Ho]. split; [done|].
  by destruct Hi' as [_ (? & _) _ _ _].
Qed.

(** The scheduler lease excludes: once a generation is taken over, then whatever
    renewals and takeovers follow, the current lease passes the restart check, has a
    larger fence, refuses the old token, and is not valid at any instant at which the
    old generation was. *)
Theorem lease_generations_exclude l1 owner f now ttl l2 l3 :
  lease_ok l1 → 0 ≤ ttl →
  AutomationSchedulerLease.take_over owner f now ttl l1 = (l2, Ok tt) →
  rtc lease_step l2 l3 →
  AutomationSchedulerLease.restore l3 = Ok l3 ∧
  AutomationSchedulerLease.fence l1 < AutomationSchedulerLease.fence l3 ∧
  (∀ t ttl', 0 < ttl' ≤ MAX_AUTOMATION_SCHEDULER_LEASE_MS →
     AutomationSchedulerLease.renew (AutomationSchedulerLease.token l1) t ttl' l3 =
       (l3, Err StaleFence)) ∧
  (∀ t, AutomationSchedulerLease.is_valid_at l1 t = true →
     AutomationSchedulerLease.is_valid_at l3 t = false).
Proof.
  intros Hl Ht Ho Hs.
  apply take_over_Ok in Ho as (Hnow & Hf & -> & Hl2); [|done|destruct Hl; lia].
  destruct (lease_steps_ok _ _ Hl2 Hs) as (Hl3 & Hf3 & Ha3). cbn in *.
  split_and!; [|lia| |].
  - apply lease_restore_Ok; [destruct Hl3; lia|done].
  - intros t ttl' Httl. unfold AutomationSchedulerLease.renew, validate_lease_ttl. run_unfold.
    rewrite (proj2 (Z.eqb_neq _ _)), (proj2 (Z.ltb_ge _ _)) by lia. cbn.
    rewrite (bool_decide_eq_false_2 (_ = AutomationSchedulerLease.fence l3)) by lia.
    by rewrite orb_true_r.
  - intros t. unfold AutomationSchedulerLease.is_valid_at. lia.
Qed.

(** Restoring a snapshot accepts exactly what the constructor builds: a stored
    snapshot passes the check if and only if it is the result of a construction from
    its own fields and some name of its time zone. *)
Theorem snapshot_restore_exact {CH : Chrono} {CL : ChronoLaws} {SHA : Sha256} s :
  AutomationExecutionSnapshot.restore s = Ok s ↔
  ∃ zone_name, AutomationExecutionSnapshot.new
    (AutomationExecutionSnapshot.definition_revision s)
    (AutomationExecutionSnapshot.project_id s) (AutomationExecutionSnapshot.title s)
    (AutomationExecutionSnapshot.prompt s) (AutomationExecutionSnapshot.canonical_schedule s)
    zone_name (AutomationExecutionSnapshot.missed_run_policy s)
    (AutomationExecutionSnapshot.overlap_policy s) = Ok s.
Proof.
  rewrite snapshot_restore_Ok. setoid_rewrite snapshot_new_Ok. split.
  - intros (_ & Hv & Hs & (z & Hz & Hn) & Hc & Hf).
    exists (AutomationExecutionSnapshot.timezone s), z. rewrite Hn. split_and!; try done.
    destruct s; cbn in *. by subst.
  - intros (zone & z & Hz & Hv & Hs & Hf & E).
    assert (Et : AutomationExecutionSnapshot.timezone s = tz_name z) by (by rewrite E).
    split; [done|]. split_and!; try done.
    + exists z. rewrite Et. split; [apply tz_name_parses|done].
    + by rewrite E.
    + by rewrite Et.
Qed.

(** The journal accepts what the calculator decides. For a restorable snapshot,
    every decision of an evaluation of its schedule can be materialized, a due slot
    as a pending occurrence and a missing local time as an explicit skip, and the
    next decision computed from a watermark is accepted by a cursor that advances to
    that watermark. *)
Theorem scheduler_accepts_decisions {CH : Chrono} {CL : ChronoLaws} {SHA : Sha256} snap :
  AutomationExecutionSnapshot.restore snap = Ok snap →
  (∀ after through lim ev d id a k now,
     AutomationSchedule.decisions_between (AutomationExecutionSnapshot.schedule snap)
       (AutomationExecutionSnapshot.timezone snap) after through lim = Ok ev →
     d ∈ AutomationScheduleEvaluation.decisions ev → k ≠ 0 →
     ∃ x, match AutomationScheduleDecision.scheduled_for d with
          | Some _ => AutomationOccurrence.pending id a snap d k now
          | None => AutomationOccurrence.skipped_invalid_local_time id a snap d now
          end = Ok x) ∧
  (∀ after d cursor now,
     AutomationSchedule.next_decision_after (AutomationExecutionSnapshot.schedule snap)
       (AutomationExecutionSnapshot.timezone snap) after = Ok d →
     AutomationScheduleCursor.evaluated_through cursor ≤ after ≤ now →
     AutomationScheduleCursor.updated_at cursor ≤ now →
     AutomationScheduleCursor.revision cursor < u64_max →
     is_ok (AutomationScheduleCursor.advance after (Some d) now cursor).2 = true).
Proof.
  intros [_ Hs]%snapshot_restore_Ok. pose proof (snapshot_valid_schedule _ Hs) as Hv. split.
  - intros after through lim ev d id a k now H Hd Hk.
    destruct (decisions_between_slots _ _ _ _ _ _ _ Hv H Hd) as [Hd' _].
    destruct d as [n t|n]; cbn.
    + apply (materialize_Ok id a snap (AutomationScheduleDecision.Due n t)); eauto.
    + apply (materialize_Ok id a snap
        (AutomationScheduleDecision.SkippedNonexistentLocalTime n)); eauto.
  - intros after d cursor now (ev & Hev & Hd)%next_decision_between He Hu Hr.
    destruct (decisions_between_slots _ _ _ _ _ _ d Hv Hev) as [Hd' Ht];
      [destruct (AutomationScheduleEvaluation.decisions ev); [done|]; injection Hd as ->; constructor|].
    assert (Hval : validate_next_decision (Some d) after = Ok tt).
    { unfold validate_next_decision, from_schedule.
      pose proof (decision_nominal_naive _ _ _ _ Hd') as Hn.
      destruct (LocalSlot.to_naive _); [|done]. cbn.
      destruct (AutomationScheduleDecision.scheduled_for d) as [t|] eqn:E; [|done].
      specialize (Ht t eq_refl). by rewrite (proj2 (Z.leb_gt _ _)) by lia. }
    unfold AutomationScheduleCursor.advance, AutomationScheduleCursor.advance_revision, checked_add.
    run_unfold. rewrite Hval, !(proj2 (Z.ltb_ge _ _)) by lia. cbn.
    by rewrite (proj2 (Z.leb_le _ _)) by lia.
Qed.

(** ** Witnesses: a weekday report in UTC *)

#[local] Existing Instance UtcCalendar.chrono.
#[local] Existing Instance UtcCalendar.laws.
#[local] Existing Instance demo_sha.

Definition demo_snapshot : AutomationExecutionSnapshot.t :=
  AutomationExecutionSnapshot.mk 1 (mk_id (lit "project-1")) (lit "Report") (lit "Summarize")
    demo_schedule (lit "v1;weekdays;09:30") (lit "UTC") MissedRunPolicy.RunOnce
    OverlapPolicy.QueueOne
    (match AutomationSchedule.fingerprint demo_schedule (lit "UTC") with
     | Ok f => f | Err _ => [] end) 1.
Definition demo_slot : AutomationLocalDateTime.t := AutomationLocalDateTime.mk 1970 1 1 9 30.
Definition demo_due : Z := (9 * 60 + 30) * 60000.
Definition demo_occurrence : AutomationOccurrence.t :=
  AutomationOccurrence.mk (mk_id (lit "occurrence-1")) (mk_id (lit "automation-1"))
    demo_snapshot demo_slot (Some demo_due) 1 Pending None None 0 0 demo_due demo_due.
Definition demo_token : AutomationSchedulerLeaseToken.t :=
  AutomationSchedulerLeaseToken.mk (mk_id (lit "daemon-1")) 1.

Lemma demo_occurrence_reachable : occurrence_reachable demo_occurrence.
Proof.
  apply (reach_pending (mk_id (lit "occurrence-1")) (mk_id (lit "automation-1")) demo_snapshot
    (AutomationScheduleDecision.Due demo_slot demo_due) 1 demo_due); [lia|].
  vm_compute. reflexivity.
Qed.

Lemma occurrence_survives_restart_witness :
  AutomationOccurrence.restore demo_occurrence = Ok demo_occurrence ∧
  ∃ e, occurrence_apply OReleaseExpired demo_due demo_occurrence = (demo_occurrence, Err e).
Proof.
  destruct (occurrence_survives_restart demo_occurrence demo_occurrence_reachable) as [H Hc].
  split; [exact H|]. apply (Hc OReleaseExpired demo_due I).
  intros ((c & E & _) & _). discriminate E.
Defined.

(** Claimed, linked, and then a second claim and link refused. *)
Definition demo_history : list (occurrence_call * Z) :=
  [(OClaim demo_token (demo_due + 500), demo_due);
   (OLinkRun demo_token (mk_id (lit "run-1")), demo_due);
   (OClaim demo_token (demo_due + 500), demo_due);
   (OLinkRun demo_token (mk_id (lit "run-2")), demo_due)].
Lemma demo_history_typed : Forall (λ p, call_typed p.1) demo_history.
Proof. repeat constructor; cbn; lia. Qed.

Lemma occurrence_links_one_run_witness :
  ∃ x', occurrence_trace demo_history demo_occurrence = (x', [mk_id (lit "run-1")]) ∧
    AutomationOccurrence.run_id x' = Some (mk_id (lit "run-1")).
Proof.
  destruct (occurrence_trace demo_history demo_occurrence) as [x' runs] eqn:H. exists x'.
  assert (E : runs = [mk_id (lit "run-1")]) by (vm_compute in H; injection H as _ <-; reflexivity).
  subst runs. split; [reflexivity|].
  destruct (occurrence_links_one_run _ _ _ _ demo_occurrence_reachable eq_refl
    demo_history_typed H) as [[[E _]|(r & E & Hr)] _];
    [discriminate E|injection E as <-; exact Hr].
Defined.

Definition demo_lease : AutomationSchedulerLease.t :=
  AutomationSchedulerLease.mk (mk_id (lit "daemon-1")) 1 100 100 200.
Lemma lease_generations_exclude_witness :
  ∃ l2, AutomationSchedulerLease.take_over (mk_id (lit "daemon-2")) 2 200 50 demo_lease = (l2, Ok tt) ∧
    AutomationSchedulerLease.fence demo_lease < AutomationSchedulerLease.fence l2.
Proof.
  eexists. split; [vm_compute; reflexivity|].
  refine (proj1 (proj2 (lease_generations_exclude demo_lease (mk_id (lit "daemon-2")) 2 200 50
    _ _ _ _ _ (rtc_refl _ _)))).
  - unfold lease_ok, MAX_AUTOMATION_SCHEDULER_LEASE_MS; cbn; lia.
  - lia.
  - vm_compute. reflexivity.
Defined.

Lemma snapshot_restore_exact_witness :
  ∃ zone_name, AutomationExecutionSnapshot.new 1 (mk_id (lit "project-1")) (lit "Report")
    (lit "Summarize") (lit "v1;weekdays;09:30") zone_name MissedRunPolicy.RunOnce
    OverlapPolicy.QueueOne = Ok demo_snapshot.
Proof. apply (proj1 (snapshot_restore_exact demo_snapshot)). vm_compute. reflexivity. Defined.

Lemma scheduler_accepts_decisions_witness :
  ∃ x, AutomationOccurrence.pending (mk_id (lit "occurrence-1")) (mk_id (lit "automation-1"))
         demo_snapshot (AutomationScheduleDecision.Due demo_slot demo_due) 2 demo_due = Ok x.
Proof.
  destruct (AutomationSchedule.decisions_between demo_schedule (lit "UTC") 0 demo_through 3)
    as [ev|e] eqn:E; [|vm_compute in E; discriminate E].
  refine (proj1 (scheduler_accepts_decisions demo_snapshot _) 0 demo_through 3 ev
    (AutomationScheduleDecision.Due demo_slot demo_due) _ _ 2 demo_due E _ _).
  - vm_compute. reflexivity.
  - vm_compute in E. injection E as <-. vm_compute. apply list_elem_of_here.
  - lia.
Defined.

(** The restart check does not ask for the parity a retained overlap always has: it
    accepts a queued occurrence from which the regular promotion leads to a value it
    rejects. *)
Definition demo_queued (st : AutomationOccurrenceState.t) (revision : Z) :
    AutomationOccurrence.t :=
  AutomationOccurrence.mk (mk_id (lit "occurrence-1")) (mk_id (lit "automation-1"))
    demo_snapshot demo_slot (Some demo_due) 1 st None None 0 revision demo_due demo_due.
Lemma queued_parity_unchecked :
  AutomationOccurrence.restore (demo_queued QueuedOverlap 2) = Ok (demo_queued QueuedOverlap 2) ∧
  AutomationOccurrence.promote_queued demo_due (demo_queued QueuedOverlap 2) =
    (demo_queued Pending 3, Ok tt) ∧
  AutomationOccurrence.restore (demo_queued Pending 3) = Err InvalidPersistedState.
Proof. split_and!; vm_compute; reflexivity. Qed.
