(* ===== verification/Workspace.v ===== *)
(** * Workspace aggregates

    [crates/grok-domain/src/workspace.rs]: projects, conversation threads with
    their fork lineage, messages, artifacts with immutable content versions, and
    automation definitions with their history. *)
From S2P Require Import Prelude RustText Ids ConversationTurns TurnEvents Schedules Scheduler.

Definition MAX_NAME_BYTES : Z := 200.
Definition MAX_DESCRIPTION_BYTES : Z := 4 * 1024.
Definition MAX_PROMPT_BYTES : Z := 64 * 1024.
Definition MAX_SOURCE_CONTEXT_SEQUENCE : Z := 1000.
Definition MAX_ARTIFACT_CONTENT_VERSION : Z := 1000000.

Module WorkspaceError.
Inductive t : Type :=
| InvalidField (field reason : str)
| InvalidLifecycle (entity : str)
| ClockRegression
| RevisionExhausted.
#[global] Instance eq_dec : EqDecision t.
Proof. solve_decision. Defined.
End WorkspaceError.
Import WorkspaceError.

(** ** Field checks *)

(** The characters [validate_text] refuses. *)
Definition text_char_invalid (single_line : bool) (c : char) : bool :=
  (c =? 0) || (single_line && is_control c)
  || (negb single_line && is_control c && negb ((c =? 10) || (c =? 13) || (c =? 9))).

(** [validate_text]. *)
Definition validate_text (field value : str) (minimum maximum : Z) (single_line : bool) :
    result WorkspaceError.t unit :=
  _ ← reject_if (len (trim value) <? minimum) (InvalidField field (lit "is required"));
  _ ← reject_if (maximum <? len value) (InvalidField field (lit "exceeds the size limit"));
  reject_if (existsb (text_char_invalid single_line) value)
    (InvalidField field (lit "contains unsupported control characters")).

(** [invalid_lineage], [invalid_artifact_state], [invalid_automation_schedule]. *)
Definition invalid_lineage (field : str) : WorkspaceError.t :=
  InvalidField field (lit "has invalid immutable lineage").
Definition invalid_artifact_state : WorkspaceError.t :=
  InvalidField (lit "artifact.persisted_state")
    (lit "has invalid lifecycle, revision, or content metadata").
Definition invalid_automation_schedule : WorkspaceError.t :=
  InvalidField (lit "automation.schedule") (lit "must use a supported canonical schedule").

(** [touch]: the revision and the timestamp it leaves. *)
Definition touch (revision updated_at now : Z) : result WorkspaceError.t (Z * Z) :=
  _ ← reject_if (now <? updated_at) ClockRegression;
  revision ← ok_or RevisionExhausted (checked_add u64_max revision 1);
  Ok (revision, now).

(** [validate_artifact_display_name], [validate_artifact_media_type],
    [validate_content_version]. *)
Definition validate_artifact_display_name (name : str) : result WorkspaceError.t unit :=
  validate_text (lit "artifact.name") name 1 MAX_NAME_BYTES true.
Definition validate_artifact_media_type (media_type : str) : result WorkspaceError.t unit :=
  validate_text (lit "artifact.media_type") media_type 1 255 true.
Definition validate_content_version (version : Z) : result WorkspaceError.t unit :=
  reject_if (negb (in_range 1 MAX_ARTIFACT_CONTENT_VERSION version))
    (InvalidField (lit "artifact.content_version") (lit "must be between 1 and 1000000")).

(** The set ['.', ' ']. *)
Definition dot_or_space (c : char) : bool := (c =? 46) || (c =? 32).
(** The characters Windows forbids; 34 is the double quote and 92 the backslash. *)
Definition windows_forbidden : str := [60; 62; 58; 34; 47; 92; 124; 63; 42].

(** [is_windows_device_name]. *)
Definition is_windows_device_name (name : str) : bool :=
  let stem := trim_end_matches dot_or_space (default [] (head (split_by (Z.eqb 46) name))) in
  let upper := to_ascii_uppercase stem in
  bool_decide (upper ∈ [lit "CON"; lit "PRN"; lit "AUX"; lit "NUL"; lit "CLOCK$"])
  || match (match strip_prefix (lit "COM") upper with
            | Some suffix => Some suffix
            | None => strip_prefix (lit "LPT") upper
            end) with
     | Some suffix => match bytes suffix with [b] => in_range 49 57 b | _ => false end
     | None => false
     end.

(** [validate_imported_file_name]. *)
Definition validate_imported_file_name (name : str) : result WorkspaceError.t unit :=
  _ ← validate_artifact_display_name name;
  reject_if ((name != trim name) || ends_with_any dot_or_space name
             || (name == lit ".") || (name == lit "..")
             || existsb (λ c, contains c windows_forbidden) name
             || is_windows_device_name name)
    (InvalidField (lit "artifact.name") (lit "must be a portable file name")).

(** ** Projects *)

Module ProjectState.
Inductive t : Type := Active | Archived.
#[global] Instance eq_dec : EqDecision t.
Proof. solve_decision. Defined.
End ProjectState.

Module Project.
Record t : Type := mk {
  id : ProjectId; name : str; description : str; state : ProjectState.t;
  revision : Z; created_at : Z; updated_at : Z }.
#[global] Instance eq_dec : EqDecision t.
Proof. solve_decision. Defined.
#[global] Instance eta : Eta t := λ x,
  mk (id x) (name x) (description x) (state x) (revision x) (created_at x) (updated_at x).

(** The two field checks [new] and [update] share. *)
Definition validate_fields (name description : str) : result WorkspaceError.t unit :=
  _ ← validate_text (lit "project.name") name 1 MAX_NAME_BYTES true;
  validate_text (lit "project.description") description 0 MAX_DESCRIPTION_BYTES false.

(** [Project::new]. *)
Definition new (id : ProjectId) (name description : str) (now : Z) :
    result WorkspaceError.t t :=
  _ ← validate_fields name description;
  Ok (mk id name description ProjectState.Active 0 now now).

(** [Project::ensure_active]. *)
Definition ensure_active (entity : str) : method t WorkspaceError.t unit :=
  x ← self; throw_if (state x == ProjectState.Archived) (InvalidLifecycle entity).

(** [Project::touch]. *)
Definition touch_self (now : Z) : method t WorkspaceError.t unit :=
  x ← self;
  '(r, u) ← lift (touch (revision x) (updated_at x) now);
  _ ← assign (λ x, x <| revision := r |>);
  assign (λ x, x <| updated_at := u |>).

(** [Project::update]. *)
Definition update (name' description' : str) (now : Z) : method t WorkspaceError.t unit :=
  _ ← ensure_active (lit "project");
  _ ← lift (validate_fields name' description');
  _ ← touch_self now;
  _ ← assign (λ x, x <| name := name' |>);
  assign (λ x, x <| description := description' |>).

(** [Project::archive]. *)
Definition archive (now : Z) : method t WorkspaceError.t unit :=
  _ ← ensure_active (lit "project");
  _ ← touch_self now;
  assign (λ x, x <| state := ProjectState.Archived |>).
End Project.

(** ** Threads *)

Module MessageRole.
Inductive t : Type := System | User | Assistant.
#[global] Instance eq_dec : EqDecision t.
Proof. solve_decision. Defined.
End MessageRole.

Module ThreadState.
Inductive t : Type := Open | Archived.
#[global] Instance eq_dec : EqDecision t.
Proof. solve_decision. Defined.
End ThreadState.

Module ConversationForkKind.
Inductive t : Type := Branch | EditAndBranch | Regenerate.
#[global] Instance eq_dec : EqDecision t.
Proof. solve_decision. Defined.
(** [ConversationForkKind::source_message_role]. *)
Definition source_message_role (k : t) : MessageRole.t :=
  match k with
  | Branch | Regenerate => MessageRole.Assistant
  | EditAndBranch => MessageRole.User
  end.
End ConversationForkKind.

Module ConversationThreadOrigin.
Inductive t : Type :=
| Original
| Fork (parent_thread_id : ThreadId) (source_turn_id : ConversationTurnId)
       (source_message_id : MessageId) (kind : ConversationForkKind.t).
#[global] Instance eq_dec : EqDecision t.
Proof. solve_decision. Defined.
End ConversationThreadOrigin.

Module ConversationThreadLineage.
Import ConversationThreadOrigin.
Record t : Type := mk {
  root_thread_id : ThreadId; origin : ConversationThreadOrigin.t; fork_depth : Z }.
#[global] Instance eq_dec : EqDecision t.
Proof. solve_decision. Defined.

(** [ConversationThreadLineage::original]. *)
Definition original (owner_thread_id : ThreadId) : t := mk owner_thread_id Original 0.

(** [ConversationThreadLineage::restore]. *)
Definition restore (lineage : t) (owner_thread_id : ThreadId) : result WorkspaceError.t t :=
  let valid :=
    match origin lineage with
    | Original => (root_thread_id lineage == owner_thread_id) && (fork_depth lineage =? 0)
    | Fork parent_thread_id _ _ _ =>
        (parent_thread_id != owner_thread_id)
        && (root_thread_id lineage != owner_thread_id)
        && in_range 1 64 (fork_depth lineage)
        && Bool.eqb (fork_depth lineage =? 1) (parent_thread_id == root_thread_id lineage)
    end in
  _ ← reject_if (negb valid) (invalid_lineage (lit "thread.lineage"));
  Ok lineage.

(** [ConversationThreadLineage::fork]. *)
Definition fork (owner_thread_id parent_thread_id : ThreadId) (parent_lineage : t)
    (source_turn_id : ConversationTurnId) (source_message_id : MessageId)
    (source_message_role : MessageRole.t) (kind : ConversationForkKind.t) :
    result WorkspaceError.t t :=
  _ ← restore parent_lineage parent_thread_id;
  _ ← reject_if ((parent_thread_id == owner_thread_id)
                 || (ConversationForkKind.source_message_role kind != source_message_role))
        (invalid_lineage (lit "thread.lineage"));
  fork_depth ← ok_or (invalid_lineage (lit "thread.fork_depth"))
    (depth ← checked_add u8_max (fork_depth parent_lineage) 1;
     if depth <=? 64 then Some depth else None);
  restore (mk (root_thread_id parent_lineage)
             (Fork parent_thread_id source_turn_id source_message_id kind) fork_depth)
    owner_thread_id.

(** [ConversationThreadLineage::validate_source_message_role]. *)
Definition validate_source_message_role (lineage : t) (role : MessageRole.t) :
    result WorkspaceError.t unit :=
  match origin lineage with
  | Fork _ _ _ kind =>
      reject_if (ConversationForkKind.source_message_role kind != role)
        (invalid_lineage (lit "thread.source_message_role"))
  | Original => Ok tt
  end.
End ConversationThreadLineage.

Module Thread.
Record t : Type := mk {
  id : ThreadId; project_id : ProjectId; title : str; state : ThreadState.t;
  lineage : ConversationThreadLineage.t; revision : Z; created_at : Z; updated_at : Z }.
#[global] Instance eq_dec : EqDecision t.
Proof. solve_decision. Defined.
#[global] Instance eta : Eta t := λ x,
  mk (id x) (project_id x) (title x) (state x) (lineage x) (revision x) (created_at x)
     (updated_at x).

Definition validate_title (title : str) : result WorkspaceError.t unit :=
  validate_text (lit "thread.title") title 1 MAX_NAME_BYTES true.

(** [Thread::new]. *)
Definition new (id : ThreadId) (project_id : ProjectId) (title : str) (now : Z) :
    result WorkspaceError.t t :=
  _ ← validate_title title;
  Ok (mk id project_id title ThreadState.Open (ConversationThreadLineage.original id) 0 now now).

(** [Thread::new_fork]. *)
Definition new_fork (id : ThreadId) (project_id : ProjectId) (title : str)
    (parent_thread_id : ThreadId) (parent_lineage : ConversationThreadLineage.t)
    (source_turn_id : ConversationTurnId) (source_message_id : MessageId)
    (source_message_role : MessageRole.t) (kind : ConversationForkKind.t) (now : Z) :
    result WorkspaceError.t t :=
  _ ← validate_title title;
  lineage ← ConversationThreadLineage.fork id parent_thread_id parent_lineage source_turn_id
              source_message_id source_message_role kind;
  Ok (mk id project_id title ThreadState.Open lineage 0 now now).

(** [Thread::restore]. *)
Definition restore (x : t) : result WorkspaceError.t t :=
  _ ← validate_title (title x);
  _ ← ConversationThreadLineage.restore (lineage x) (id x);
  _ ← reject_if ((updated_at x <? created_at x)
                 || ((revision x =? 0)
                     && ((state x != ThreadState.Open) || (updated_at x != created_at x)))
                 || ((state x == ThreadState.Archived) && (revision x =? 0)))
        (invalid_lineage (lit "thread.persisted_state"));
  Ok x.

(** [Thread::ensure_open]. *)
Definition ensure_open : method t WorkspaceError.t unit :=
  x ← self; throw_if (state x == ThreadState.Archived) (InvalidLifecycle (lit "thread")).

(** [touch] on the fields of the thread. *)
Definition touch_self (now : Z) : method t WorkspaceError.t unit :=
  x ← self;
  '(r, u) ← lift (touch (revision x) (updated_at x) now);
  _ ← assign (λ x, x <| revision := r |>);
  assign (λ x, x <| updated_at := u |>).

(** [Thread::update]. *)
Definition update (title' : str) (now : Z) : method t WorkspaceError.t unit :=
  _ ← ensure_open;
  _ ← lift (validate_title title');
  _ ← touch_self now;
  assign (λ x, x <| title := title' |>).

(** [Thread::archive]. *)
Definition archive (now : Z) : method t WorkspaceError.t unit :=
  _ ← ensure_open;
  _ ← touch_self now;
  assign (λ x, x <| state := ThreadState.Archived |>).
End Thread.

(** ** Messages *)

Module MessageState.
Inductive t : Type := Active | Deleted.
#[global] Instance eq_dec : EqDecision t.
Proof. solve_decision. Defined.
End MessageState.

Module ConversationMessageDerivationKind.
Inductive t : Type := ContextCopy | SourceAssistantCopy | EditedUser.
#[global] Instance eq_dec : EqDecision t.
Proof. solve_decision. Defined.
End ConversationMessageDerivationKind.

Module ConversationMessageDerivation.
Import ConversationMessageDerivationKind.
Inductive t : Type :=
| Original
| Fork (kind : ConversationMessageDerivationKind.t) (source_message_id : MessageId)
       (source_turn_id : ConversationTurnId) (source_context_sequence : option Z).
#[global] Instance eq_dec : EqDecision t.
Proof. solve_decision. Defined.

(** [ConversationMessageDerivation::restore]. *)
Definition restore (derivation : t) (owner_message_id : MessageId) (role : MessageRole.t) :
    result WorkspaceError.t t :=
  let valid :=
    match derivation with
    | Original => true
    | Fork ContextCopy source _ (Some sequence) =>
        (source != owner_message_id) && in_range 1 MAX_SOURCE_CONTEXT_SEQUENCE sequence
    | Fork SourceAssistantCopy source _ None =>
        (source != owner_message_id) && (role == MessageRole.Assistant)
    | Fork EditedUser source _ (Some sequence) =>
        (source != owner_message_id) && (role == MessageRole.User)
        && in_range 1 MAX_SOURCE_CONTEXT_SEQUENCE sequence
    | Fork _ _ _ _ => false
    end in
  _ ← reject_if (negb valid) (invalid_lineage (lit "message.derivation"));
  Ok derivation.

(** [ConversationMessageDerivation::fork]. *)
Definition fork (owner_message_id : MessageId) (role : MessageRole.t)
    (source_message_id : MessageId) (source_turn_id : ConversationTurnId)
    (source_context_sequence : option Z) (kind : ConversationMessageDerivationKind.t) :
    result WorkspaceError.t t :=
  restore (Fork kind source_message_id source_turn_id source_context_sequence)
    owner_message_id role.

(** [ConversationMessageDerivation::is_original]. *)
Definition is_original (d : t) : bool := match d with Original => true | _ => false end.
End ConversationMessageDerivation.

Module Message.
Record t : Type := mk {
  id : MessageId; thread_id : ThreadId; sequence : Z; role : MessageRole.t; content : str;
  state : MessageState.t; derivation : ConversationMessageDerivation.t;
  revision : Z; created_at : Z; updated_at : Z }.
#[global] Instance eq_dec : EqDecision t.
Proof. solve_decision. Defined.
#[global] Instance eta : Eta t := λ x,
  mk (id x) (thread_id x) (sequence x) (role x) (content x) (state x) (derivation x)
     (revision x) (created_at x) (updated_at x).

Definition validate_content (content : str) : result WorkspaceError.t unit :=
  validate_text (lit "message.content") content 1 MAX_MESSAGE_BYTES false.

(** [Message::new]. *)
Definition new (id : MessageId) (thread_id : ThreadId) (role : MessageRole.t) (content : str)
    (now : Z) : result WorkspaceError.t t :=
  _ ← validate_content content;
  Ok (mk id thread_id 0 role content MessageState.Active
        ConversationMessageDerivation.Original 0 now now).

(** [Message::new_derived]. *)
Definition new_derived (id : MessageId) (thread_id : ThreadId) (sequence : Z)
    (role : MessageRole.t) (content : str) (source_message_id : MessageId)
    (source_turn_id : ConversationTurnId) (source_context_sequence : option Z)
    (kind : ConversationMessageDerivationKind.t) (now : Z) : result WorkspaceError.t t :=
  _ ← reject_if (sequence =? 0) (invalid_lineage (lit "message.sequence"));
  _ ← validate_content content;
  derivation ← ConversationMessageDerivation.fork id role source_message_id source_turn_id
                 source_context_sequence kind;
  Ok (mk id thread_id sequence role content MessageState.Active derivation 0 now now).

Definition invalid_state : WorkspaceError.t := invalid_lineage (lit "message.persisted_state").

(** [Message::restore]. *)
Definition restore (x : t) : result WorkspaceError.t t :=
  _ ← reject_if ((sequence x =? 0) || (updated_at x <? created_at x)) invalid_state;
  _ ← ConversationMessageDerivation.restore (derivation x) (id x) (role x);
  _ ← match state x with
      | MessageState.Active =>
          _ ← validate_content (content x);
          reject_if ((revision x =? 0) && (updated_at x != created_at x)) invalid_state
      | MessageState.Deleted =>
          reject_if (negb (is_empty (content x)) || (revision x =? 0)
                     || negb (ConversationMessageDerivation.is_original (derivation x)))
            invalid_state
      end;
  _ ← reject_if (negb (ConversationMessageDerivation.is_original (derivation x))
                 && ((state x != MessageState.Active) || (revision x != 0)
                     || (updated_at x != created_at x))) invalid_state;
  Ok x.

(** [Message::ensure_active] and [Message::ensure_original]. *)
Definition ensure_active : method t WorkspaceError.t unit :=
  x ← self; throw_if (state x == MessageState.Deleted) (InvalidLifecycle (lit "message")).
Definition ensure_original : method t WorkspaceError.t unit :=
  x ← self;
  throw_if (negb (ConversationMessageDerivation.is_original (derivation x)))
    (InvalidLifecycle (lit "derived message")).

(** [touch] on the fields of the message. *)
Definition touch_self (now : Z) : method t WorkspaceError.t unit :=
  x ← self;
  '(r, u) ← lift (touch (revision x) (updated_at x) now);
  _ ← assign (λ x, x <| revision := r |>);
  assign (λ x, x <| updated_at := u |>).

(** [Message::update]. *)
Definition update (content' : str) (now : Z) : method t WorkspaceError.t unit :=
  _ ← ensure_active;
  _ ← ensure_original;
  _ ← lift (validate_content content');
  _ ← touch_self now;
  assign (λ x, x <| content := content' |>).

(** [Message::delete]. *)
Definition delete (now : Z) : method t WorkspaceError.t unit :=
  _ ← ensure_active;
  _ ← ensure_original;
  _ ← touch_self now;
  _ ← assign (λ x, x <| content := [] |>);
  assign (λ x, x <| state := MessageState.Deleted |>).
End Message.

(** ** Artifacts *)

Module ArtifactState.
Inductive t : Type := Unavailable | Available | Deleted.
#[global] Instance eq_dec : EqDecision t.
Proof. solve_decision. Defined.
End ArtifactState.

Module ArtifactContentSummary.
Record t : Type := mk { content_version : Z; media_type : str; byte_size : Z }.
#[global] Instance eq_dec : EqDecision t.
Proof. solve_decision. Defined.

(** [ArtifactContentSummary::validate]. *)
Definition validate (x : t) : result WorkspaceError.t unit :=
  _ ← validate_content_version (content_version x);
  validate_artifact_media_type (media_type x).

(** [ArtifactContentSummary::new]. *)
Definition new (content_version : Z) (media_type : str) (byte_size : Z) :
    result WorkspaceError.t t :=
  _ ← validate_content_version content_version;
  _ ← validate_artifact_media_type media_type;
  Ok (mk content_version media_type byte_size).
End ArtifactContentSummary.

Module ArtifactVersion.
Record t : Type := mk {
  artifact_id : ArtifactId; version : Z; content_sha256 : digest; media_type : str;
  byte_size : Z; created_at : Z }.
#[global] Instance eq_dec : EqDecision t.
Proof. solve_decision. Defined.

(** [ArtifactVersion::restore]. *)
Definition restore (x : t) : result WorkspaceError.t t :=
  _ ← validate_content_version (version x);
  _ ← validate_artifact_media_type (media_type x);
  Ok x.

(** [ArtifactVersion::new]. *)
Definition new (artifact_id : ArtifactId) (version : Z) (content_sha256 : digest)
    (media_type : str) (byte_size created_at : Z) : result WorkspaceError.t t :=
  restore (mk artifact_id version content_sha256 media_type byte_size created_at).

(** [ArtifactVersion::summary]. *)
Definition summary (x : t) : ArtifactContentSummary.t :=
  ArtifactContentSummary.mk (version x) (media_type x) (byte_size x).
End ArtifactVersion.

Module Artifact.
Record t : Type := mk {
  id : ArtifactId; project_id : ProjectId; thread_id : option ThreadId; name : str;
  content : option ArtifactContentSummary.t; state : ArtifactState.t;
  revision : Z; created_at : Z; updated_at : Z }.
#[global] Instance eq_dec : EqDecision t.
Proof. solve_decision. Defined.
#[global] Instance eta : Eta t := λ x,
  mk (id x) (project_id x) (thread_id x) (name x) (content x) (state x) (revision x)
     (created_at x) (updated_at x).

(** [Artifact::new_unavailable]. *)
Definition new_unavailable (id : ArtifactId) (project_id : ProjectId)
    (thread_id : option ThreadId) (name : str) (now : Z) : result WorkspaceError.t t :=
  _ ← validate_imported_file_name name;
  Ok (mk id project_id thread_id name None ArtifactState.Unavailable 0 now now).

(** [Artifact::restore]. *)
Definition restore (x : t) : result WorkspaceError.t t :=
  _ ← validate_artifact_display_name (name x);
  _ ← reject_if (updated_at x <? created_at x) invalid_artifact_state;
  _ ← match content x with
      | Some content => ArtifactContentSummary.validate content
      | None => Ok tt
      end;
  let valid :=
    match state x, content x with
    | ArtifactState.Unavailable, None => (revision x =? 0) && (updated_at x =? created_at x)
    | ArtifactState.Available, Some content =>
        revision x =? ArtifactContentSummary.content_version content
    | ArtifactState.Deleted, None => 0 <? revision x
    | _, _ => false
    end in
  _ ← reject_if (negb valid) invalid_artifact_state;
  Ok x.

(** [touch] on the fields of the artifact. *)
Definition touch_self (now : Z) : method t WorkspaceError.t unit :=
  x ← self;
  '(r, u) ← lift (touch (revision x) (updated_at x) now);
  _ ← assign (λ x, x <| revision := r |>);
  assign (λ x, x <| updated_at := u |>).

(** The version [Artifact::record_content] expects next. *)
Definition expected_version (x : t) : result WorkspaceError.t Z :=
  match content x with
  | None => Ok 1
  | Some current =>
      ok_or RevisionExhausted
        (version ← checked_add u32_max (ArtifactContentSummary.content_version current) 1;
         if version <=? MAX_ARTIFACT_CONTENT_VERSION then Some version else None)
  end.

(** [Artifact::record_content]. *)
Definition record_content (content' : ArtifactContentSummary.t) (now : Z) :
    method t WorkspaceError.t unit :=
  x ← self;
  _ ← throw_if (state x == ArtifactState.Deleted) (InvalidLifecycle (lit "artifact"));
  _ ← lift (ArtifactContentSummary.validate content');
  expected ← lift (expected_version x);
  _ ← throw_if (ArtifactContentSummary.content_version content' != expected)
        (InvalidField (lit "artifact.content_version") (lit "must be the exact next version"));
  _ ← touch_self now;
  _ ← assign (λ x, x <| content := Some content' |>);
  assign (λ x, x <| state := ArtifactState.Available |>).

(** [Artifact::remove]. *)
Definition remove (now : Z) : method t WorkspaceError.t unit :=
  x ← self;
  _ ← throw_if ((state x != ArtifactState.Available) || is_none (content x))
        (InvalidLifecycle (lit "artifact"));
  _ ← touch_self now;
  _ ← assign (λ x, x <| content := None |>);
  assign (λ x, x <| state := ArtifactState.Deleted |>).
End Artifact.

(** ** Automations *)

Module AutomationState.
Inductive t : Type := Enabled | Disabled | Archived.
#[global] Instance eq_dec : EqDecision t.
Proof. solve_decision. Defined.
End AutomationState.

(** The characters of a time zone name. *)
Definition timezone_char (c : char) : bool :=
  is_ascii_alphanumeric c || contains c (lit "_+-/").

(** [validate_automation_text]. *)
Definition validate_automation_text `{Chrono} (title prompt timezone : str) :
    result WorkspaceError.t unit :=
  _ ← validate_text (lit "automation.title") title 1 MAX_NAME_BYTES true;
  _ ← validate_text (lit "automation.prompt") prompt 1 MAX_PROMPT_BYTES false;
  _ ← validate_text (lit "automation.timezone") timezone 1 128 true;
  reject_if (negb (forallb timezone_char timezone) || is_none (tz_from_str timezone))
    (InvalidField (lit "automation.timezone")
       (lit "must be an IANA-style timezone identifier")).

(** [normalize_automation]. *)
Definition normalize_automation `{Chrono, SerdeJson} (title prompt schedule timezone : str) :
    result WorkspaceError.t str :=
  _ ← validate_automation_text title prompt timezone;
  map_err (λ _, invalid_automation_schedule)
    (s ← AutomationSchedule.parse_for_normalization schedule timezone;
     Ok (AutomationSchedule.to_canonical_string s)).

Module Automation.
Record t : Type := mk {
  id : AutomationId; project_id : ProjectId; title : str; prompt : str; schedule : str;
  timezone : str; missed_run_policy : MissedRunPolicy.t; overlap_policy : OverlapPolicy.t;
  state : AutomationState.t; revision : Z; created_at : Z; updated_at : Z }.
#[global] Instance eq_dec : EqDecision t.
Proof. solve_decision. Defined.
#[global] Instance eta : Eta t := λ x,
  mk (id x) (project_id x) (title x) (prompt x) (schedule x) (timezone x)
     (missed_run_policy x) (overlap_policy x) (state x) (revision x) (created_at x)
     (updated_at x).

Definition enabled_state (enabled : bool) : AutomationState.t :=
  if enabled then AutomationState.Enabled else AutomationState.Disabled.

(** [touch] on the fields of the automation. *)
Definition touch_self (now : Z) : method t WorkspaceError.t unit :=
  x ← self;
  '(r, u) ← lift (touch (revision x) (updated_at x) now);
  _ ← assign (λ x, x <| revision := r |>);
  assign (λ x, x <| updated_at := u |>).

(** [Automation::archive]. *)
Definition archive (now : Z) : method t WorkspaceError.t unit :=
  x ← self;
  _ ← throw_if (state x == AutomationState.Archived) (InvalidLifecycle (lit "automation"));
  _ ← touch_self now;
  assign (λ x, x <| state := AutomationState.Archived |>).

Section automation.
Context {CH : Chrono} {SJ : SerdeJson}.

(** [Automation::new]. *)
Definition new (id : AutomationId) (project_id : ProjectId)
    (title prompt schedule timezone : str) (missed_run_policy : MissedRunPolicy.t)
    (overlap_policy : OverlapPolicy.t) (enabled : bool) (now : Z) :
    result WorkspaceError.t t :=
  schedule ← normalize_automation title prompt schedule timezone;
  Ok (mk id project_id title prompt schedule timezone missed_run_policy overlap_policy
        (enabled_state enabled) 0 now now).

(** [Automation::update]. *)
Definition update (title' prompt' schedule' timezone' : str) (missed : MissedRunPolicy.t)
    (overlap : OverlapPolicy.t) (enabled : bool) (now : Z) : method t WorkspaceError.t unit :=
  x ← self;
  _ ← throw_if (state x == AutomationState.Archived) (InvalidLifecycle (lit "automation"));
  schedule' ← lift (normalize_automation title' prompt' schedule' timezone');
  _ ← touch_self now;
  _ ← assign (λ x, x <| title := title' |>);
  _ ← assign (λ x, x <| prompt := prompt' |>);
  _ ← assign (λ x, x <| schedule := schedule' |>);
  _ ← assign (λ x, x <| timezone := timezone' |>);
  _ ← assign (λ x, x <| missed_run_policy := missed |>);
  _ ← assign (λ x, x <| overlap_policy := overlap |>);
  assign (λ x, x <| state := enabled_state enabled |>).

(** [Automation::restore]. *)
Definition restore (x : t) : result WorkspaceError.t t :=
  _ ← validate_automation_text (title x) (prompt x) (timezone x);
  _ ← map_err (λ _, invalid_automation_schedule)
        (AutomationSchedule.parse_canonical (schedule x));
  _ ← reject_if ((updated_at x <? created_at x)
                 || ((revision x =? 0)
                     && ((updated_at x != created_at x)
                         || (state x == AutomationState.Archived))))
        (InvalidField (lit "automation.persisted_state")
           (lit "has invalid lifecycle, revision, or timestamps"));
  Ok x.
End automation.
End Automation.

Module AutomationHistoryStatus.
Inductive t : Type := Succeeded | Failed | SkippedMissed | SkippedOverlap.
#[global] Instance eq_dec : EqDecision t.
Proof. solve_decision. Defined.
End AutomationHistoryStatus.

Module AutomationHistoryEntry.
Record t : Type := mk {
  automation_id : AutomationId; sequence : Z; scheduled_for : Z; recorded_at : Z;
  status : AutomationHistoryStatus.t; summary : str }.
#[global] Instance eq_dec : EqDecision t.
Proof. solve_decision. Defined.
#[global] Instance eta : Eta t := λ x,
  mk (automation_id x) (sequence x) (scheduled_for x) (recorded_at x) (status x) (summary x).

Definition validate_summary (summary : str) : result WorkspaceError.t unit :=
  validate_text (lit "automation_history.summary") summary 0 1000 false.

(** [AutomationHistoryEntry::new]. *)
Definition new (automation_id : AutomationId) (scheduled_for recorded_at : Z)
    (status : AutomationHistoryStatus.t) (summary : str) : result WorkspaceError.t t :=
  _ ← validate_summary summary;
  _ ← reject_if (recorded_at <? scheduled_for)
        (InvalidField (lit "automation_history.recorded_at")
           (lit "must not predate the scheduled time"));
  Ok (mk automation_id 0 scheduled_for recorded_at status summary).

(** [AutomationHistoryEntry::restore]. *)
Definition restore (x : t) : result WorkspaceError.t t :=
  _ ← reject_if ((sequence x =? 0) || (recorded_at x <? scheduled_for x)
                 || negb (is_ok (validate_summary (summary x))))
        (InvalidField (lit "automation_history.persisted_state")
           (lit "has invalid sequence, timestamps, or summary"));
  Ok x.
End AutomationHistoryEntry.

(** ** Revisioned aggregates

    The five editable entities share one contract: a call either changes nothing or
    advances the revision by one and the timestamp to its time, and a sealed entity
    (archived, deleted or derived) accepts no call. [Aggregate] is the interface and
    [AggregateLaws] that contract; [Restorable] adds the restart check. *)
Class Aggregate (A C : Type) := {
  ag_apply : C → Z → method A WorkspaceError.t unit;
  ag_revision : A → Z;
  ag_updated_at : A → Z;
  ag_sealed : A → bool;
}.
Class AggregateLaws (A C : Type) `{!Aggregate A C} : Prop := {
  ag_atomic c now : atomic (ag_apply c now : method A _ _);
  ag_step c now (x x' : A) :
    ag_apply c now x = (x', Ok tt) →
    ag_revision x' = ag_revision x + 1 ∧ ag_updated_at x' = now ∧ ag_updated_at x ≤ now ∧
    ag_sealed x = false;
}.
Class Restorable (A C : Type) `{!Aggregate A C} := {
  ag_initial : A → Prop;
  ag_restore : A → result WorkspaceError.t A;
}.
Class RestorableLaws (A C : Type) `{!Aggregate A C, !Restorable A C} : Prop := {
  restore_initial (x : A) : ag_initial x → ag_restore x = Ok x ∧ 0 ≤ ag_revision x;
  restore_step c now (x x' : A) :
    0 ≤ ag_revision x → ag_restore x = Ok x → ag_apply c now x = (x', Ok tt) →
    ag_restore x' = Ok x';
}.

Section aggregates.
Context {A C : Type} `{!Aggregate A C, !AggregateLaws A C}.

(** Attempts a list of calls and counts the accepted ones. *)
Fixpoint ag_run (cs : list (C * Z)) (x : A) : A * nat :=
  match cs with
  | [] => (x, O)
  | (c, now) :: cs' =>
      let '(x1, r) := ag_apply c now x in
      let '(x2, n) := ag_run cs' x1 in
      (x2, if is_ok r then S n else n)
  end.

Lemma ag_run_revision cs x x' n :
  ag_run cs x = (x', n) →
  ag_revision x' = ag_revision x + Z.of_nat n ∧ ag_updated_at x ≤ ag_updated_at x' ∧
  (n = O → x' = x).
Proof.
  revert x n. induction cs as [|[c now] cs IH]; intros x n H; cbn in H.
  { simplify_eq. split_and!; (done || lia). }
  destruct (ag_apply c now x) as [x1 [[]|e]] eqn:E; destruct (ag_run cs x1) as [x2 k] eqn:Er;
    simplify_eq/=; destruct (IH _ _ Er) as (H1 & H2 & H3).
  - apply ag_step in E as (? & ? & ? & _). split_and!; (done || lia).
  - apply ag_atomic in E as ->. split_and!; (done || lia).
Qed.

Lemma ag_run_sealed cs x : ag_sealed x = true → ag_run cs x = (x, O).
Proof.
  intros Hs. induction cs as [|[c now] cs IH]; [done|]. cbn.
  destruct (ag_apply c now x) as [x1 [[]|e]] eqn:E.
  - apply ag_step in E as (_ & _ & _ & E). congruence.
  - apply ag_atomic in E as ->. by rewrite IH.
Qed.

Context `{!Restorable A C, !RestorableLaws A C}.

Inductive ag_reachable : A → Prop :=
| ag_reach_initial x : ag_initial x → ag_reachable x
| ag_reach_call x c now x' :
    ag_reachable x → ag_apply c now x = (x', Ok tt) → ag_reachable x'.

Lemma ag_reachable_restores x : ag_reachable x → ag_restore x = Ok x ∧ 0 ≤ ag_revision x.
Proof.
  induction 1 as [x H|x c now x' _ [Hr Hn] H]; [by apply restore_initial|].
  split; [by eapply restore_step|]. apply ag_step in H as (-> & _). lia.
Qed.
End aggregates.

Lemma touch_Ok r u now r' u' :
  touch r u now = Ok (r', u') ↔ r' = r + 1 ∧ u' = now ∧ u ≤ now ∧ r + 1 ≤ u64_max.
Proof.
  unfold touch. split.
  - intros H. run_in H. int_facts. lia.
  - intros (-> & -> & Hu & Hr). rewrite (proj2 (Z.ltb_ge _ _) Hu). cbn.
    unfold checked_add. by rewrite (proj2 (Z.leb_le _ _) Hr).
Qed.

(** Executes a method body that succeeded, with [touch] summarised. *)
Ltac run_touch H :=
  run_in H; bool_facts;
  repeat match goal with
  | H : touch _ _ _ = Ok _ |- _ => apply touch_Ok in H as (-> & -> & ? & ?)
  end; simplify_eq/=.

(** *** Projects *)

Inductive project_call : Type := PUpdate (name description : str) | PArchive.
#[global] Instance project_aggregate : Aggregate Project.t project_call := {|
  ag_apply c now := match c with
    | PUpdate name description => Project.update name description now
    | PArchive => Project.archive now end;
  ag_revision := Project.revision;
  ag_updated_at := Project.updated_at;
  ag_sealed x := Project.state x == ProjectState.Archived;
|}.
#[global] Instance project_laws : AggregateLaws Project.t project_call.
Proof.
  split; intros c now x x'; [intros e H|intros H]; destruct c; cbn in *;
    unfold Project.update, Project.archive, Project.ensure_active, Project.touch_self in H.
  1,2: by run_in H.
  all: run_touch H; split_and!; try done; by apply bool_decide_eq_false.
Qed.

(** *** Threads *)

Inductive thread_call : Type := TUpdate (title : str) | TArchive.
#[global] Instance thread_aggregate : Aggregate Thread.t thread_call := {|
  ag_apply c now := match c with
    | TUpdate title => Thread.update title now | TArchive => Thread.archive now end;
  ag_revision := Thread.revision;
  ag_updated_at := Thread.updated_at;
  ag_sealed x := Thread.state x == ThreadState.Archived;
|}.
#[global] Instance thread_laws : AggregateLaws Thread.t thread_call.
Proof.
  split; intros c now x x'; [intros e H|intros H]; destruct c; cbn in *;
    unfold Thread.update, Thread.archive, Thread.ensure_open, Thread.touch_self in H.
  1,2: by run_in H.
  all: run_touch H; split_and!; try done; by apply bool_decide_eq_false.
Qed.

(** A thread is created on its own or as a fork. *)
#[global] Instance thread_restorable : Restorable Thread.t thread_call := {|
  ag_initial x :=
    (∃ id p title now, Thread.new id p title now = Ok x) ∨
    (∃ id p title parent pl turn msg role kind now,
       Thread.new_fork id p title parent pl turn msg role kind now = Ok x);
  ag_restore := Thread.restore;
|}.

Lemma unit_Ok {E} (r : result E unit) u : r = Ok u ↔ r = Ok tt.
Proof. by destruct u. Qed.

Definition thread_shape (x : Thread.t) : Prop :=
  Thread.created_at x ≤ Thread.updated_at x ∧
  (Thread.revision x = 0 →
     Thread.state x = ThreadState.Open ∧ Thread.updated_at x = Thread.created_at x).
Lemma thread_restore_Ok x :
  Thread.restore x = Ok x ↔
  Thread.validate_title (Thread.title x) = Ok tt ∧
  is_ok (ConversationThreadLineage.restore (Thread.lineage x) (Thread.id x)) = true ∧
  thread_shape x.
Proof.
  unfold Thread.restore, thread_shape.
  destruct (Thread.validate_title _) as [[]|]; [cbn|split; [done|naive_solver]].
  destruct (ConversationThreadLineage.restore _ _); [cbn|split; [done|naive_solver]].
  rewrite reject_then_Ok, !orb_false_iff, !andb_false_iff, Z.ltb_ge, Z.eqb_neq, orb_false_iff,
    !negb_false_iff, !bool_decide_eq_true, bool_decide_eq_false.
  destruct (decide (Thread.revision x = 0)) as [E|E]; [|tauto].
  split; [tauto|]. intros (_ & _ & ? & Hs). destruct (Hs E) as [-> ?].
  split_and!; [done|done|by right|by left].
Qed.
#[global] Instance thread_restorable_laws : RestorableLaws Thread.t thread_call.
Proof.
  split.
  - intros x [(id & p & title & now & H)|(id & p & title & par & pl & tu & m & r & k & now & H)];
      cbn in *; rewrite thread_restore_Ok; unfold thread_shape.
    + unfold Thread.new in H. apply result_bind_Ok in H as ([] & Ht & [= <-]). cbn.
      rewrite Ht. unfold ConversationThreadLineage.restore; cbn.
      rewrite bool_decide_eq_true_2 by done. naive_solver lia.
    + unfold Thread.new_fork in H. apply result_bind_Ok in H as ([] & Ht & H).
      apply result_bind_Ok in H as (l & Hl & [= <-]). cbn. rewrite Ht.
      unfold ConversationThreadLineage.fork in Hl.
      do 3 apply result_bind_Ok in Hl as (? & _ & Hl).
      assert (ConversationThreadLineage.restore l id = Ok l) as ->.
      { pose proof Hl as E. unfold ConversationThreadLineage.restore in E at 1.
        apply reject_then_Ok in E as [-> _]. done. }
      naive_solver lia.
  - cbn. intros c now x x'. rewrite !thread_restore_Ok. unfold thread_shape.
    intros Hr (Ht & Hl & Hs) H. destruct c; cbn in H;
      unfold Thread.update, Thread.archive, Thread.ensure_open, Thread.touch_self in H.
    all: run_touch H; cbn; rewrite ?Ht; split_and!; try done; try lia.
    by destruct (Thread.validate_title title) as [[]|].
Qed.

(** *** Messages *)

Inductive message_call : Type := MUpdate (content : str) | MDelete.
#[global] Instance message_aggregate : Aggregate Message.t message_call := {|
  ag_apply c now := match c with
    | MUpdate content => Message.update content now | MDelete => Message.delete now end;
  ag_revision := Message.revision;
  ag_updated_at := Message.updated_at;
  ag_sealed x := (Message.state x == MessageState.Deleted)
    || negb (ConversationMessageDerivation.is_original (Message.derivation x));
|}.
#[global] Instance message_laws : AggregateLaws Message.t message_call.
Proof.
  split; intros c now x x'; [intros e H|intros H]; destruct c; cbn in *;
    unfold Message.update, Message.delete, Message.ensure_active, Message.ensure_original,
      Message.touch_self in H.
  1,2: by run_in H.
  all: run_touch H; split_and!; try done; rewrite bool_decide_eq_false_2 by done.
  all: by match goal with H : ConversationMessageDerivation.is_original _ = true |- _ => rewrite H end.
Qed.

(** An ordinary message is created unsequenced and numbered by the store; a derived
    one is created with its number. *)
#[global] Instance message_restorable : Restorable Message.t message_call := {|
  ag_initial x :=
    (∃ id t r c now m s, Message.new id t r c now = Ok m ∧ s ≠ 0 ∧
       x = m <| Message.sequence := s |>) ∨
    (∃ id t s r c sm st seq k now, Message.new_derived id t s r c sm st seq k now = Ok x);
  ag_restore := Message.restore;
|}.

Definition message_shape (x : Message.t) : Prop :=
  Message.sequence x ≠ 0 ∧ Message.created_at x ≤ Message.updated_at x ∧
  match Message.state x with
  | MessageState.Active =>
      Message.validate_content (Message.content x) = Ok tt ∧
      (Message.revision x = 0 → Message.updated_at x = Message.created_at x)
  | MessageState.Deleted =>
      Message.content x = [] ∧ Message.revision x ≠ 0 ∧
      Message.derivation x = ConversationMessageDerivation.Original
  end ∧
  (Message.derivation x ≠ ConversationMessageDerivation.Original →
     Message.state x = MessageState.Active ∧ Message.revision x = 0).

Lemma original_spec d :
  ConversationMessageDerivation.is_original d = true ↔
  d = ConversationMessageDerivation.Original.
Proof. by destruct d. Qed.

Lemma message_restore_Ok x :
  message_shape x →
  is_ok (ConversationMessageDerivation.restore (Message.derivation x) (Message.id x)
           (Message.role x)) = true →
  Message.restore x = Ok x.
Proof.
  intros (Hs & Ht & Hst & Hd) Hr. unfold Message.restore.
  rewrite (proj2 (Z.eqb_neq _ _) Hs), (proj2 (Z.ltb_ge _ _) Ht). cbn.
  destruct (ConversationMessageDerivation.restore _ _ _); [|done]. cbn.
  destruct (decide (Message.derivation x = ConversationMessageDerivation.Original)) as [E|E].
  - rewrite E. cbn. destruct (Message.state x).
    + destruct Hst as [-> Hv]. cbn. destruct (Message.revision x =? 0) eqn:Er; cbn; [|done].
      rewrite bool_decide_eq_true_2 by lia. done.
    + destruct Hst as (-> & Hv & _). cbn. by rewrite (proj2 (Z.eqb_neq _ _) Hv).
  - destruct (Hd E) as [Ha Hv]. rewrite Ha in *. rewrite Hv in *. destruct Hst as [-> Hu].
    cbn. rewrite !bool_decide_eq_true_2 by (done || lia). cbn. by rewrite andb_false_r.
Qed.
Lemma message_restore_inv x :
  Message.restore x = Ok x →
  message_shape x ∧
  is_ok (ConversationMessageDerivation.restore (Message.derivation x) (Message.id x)
           (Message.role x)) = true.
Proof.
  unfold Message.restore, message_shape. intros H.
  apply result_bind_Ok in H as (? & H1 & H). apply result_bind_Ok in H as (d & H2 & H).
  apply result_bind_Ok in H as (? & H3 & H). apply reject_then_Ok in H as [_ H4].
  rewrite H2. split; [|done]. apply reject_if_Ok in H1.
  apply orb_false_iff in H1 as [H0 H1].
  assert (Hx : Message.sequence x ≠ 0 ∧ Message.created_at x ≤ Message.updated_at x) by lia.
  destruct Hx as [? ?]. pose proof (original_spec (Message.derivation x)) as Ho.
  destruct (ConversationMessageDerivation.is_original _); cbn in H4.
  - split_and!; [done..| |intros Hn; by destruct Hn; apply Ho]. destruct (Message.state x).
    + apply result_bind_Ok in H3 as ([] & ? & H3). split; [done|]. apply reject_if_Ok in H3.
      intros Er. rewrite Er in H3. cbn in H3. bool_facts. done.
    + apply reject_if_Ok in H3. bool_facts.
      split_and!; [by apply is_empty_spec|lia|by apply Ho].
  - bool_facts. split_and!; [done..| |done].
    match goal with E : Message.state x = _ |- _ => rewrite E in H3 |- * end.
    by apply result_bind_Ok in H3 as ([] & ? & _).
Qed.
#[global] Instance message_restorable_laws : RestorableLaws Message.t message_call.
Proof.
  split.
  - intros x [(id & t & r & c & now & m & s & H & Hs & ->)|
              (id & t & s & r & c & sm & st & seq & k & now & H)]; cbn in *.
    + unfold Message.new in H. apply result_bind_Ok in H as ([] & Hc & [= <-]). cbn.
      split; [|lia]. apply message_restore_Ok; [|done]. unfold message_shape; cbn.
      split_and!; (done || lia).
    + unfold Message.new_derived in H. apply result_bind_Ok in H as (? & Hz & H).
      apply result_bind_Ok in H as ([] & Hc & H). apply result_bind_Ok in H as (d & Hd & [= <-]).
      apply reject_if_Ok in Hz. cbn. split; [|lia].
      unfold ConversationMessageDerivation.fork in Hd.
      assert (ConversationMessageDerivation.restore d id r = Ok d) as E.
      { pose proof Hd as E. unfold ConversationMessageDerivation.restore in E at 1.
        apply reject_then_Ok in E as [-> _]. done. }
      apply message_restore_Ok; cbn; [|by rewrite E]. unfold message_shape; cbn.
      split_and!; (done || lia).
  - cbn. intros c now x x' Hr [Hs Hd]%message_restore_inv H. destruct c; cbn in H;
      unfold Message.update, Message.delete, Message.ensure_active, Message.ensure_original,
        Message.touch_self in H.
    all: run_touch H; rewrite original_spec in *; apply message_restore_Ok; [|done].
    all: unfold message_shape in *; cbn.
    all: destruct Hs as (? & ? & ? & ?); split_and!; try (done || lia).
    + destruct (Message.state x); [|done]. split; [|lia].
      by destruct (Message.validate_content content) as [[]|].
Qed.

(** *** Artifacts *)

Inductive artifact_call : Type := ARecord (content : ArtifactContentSummary.t) | ARemove.
#[global] Instance artifact_aggregate : Aggregate Artifact.t artifact_call := {|
  ag_apply c now := match c with
    | ARecord content => Artifact.record_content content now
    | ARemove => Artifact.remove now end;
  ag_revision := Artifact.revision;
  ag_updated_at := Artifact.updated_at;
  ag_sealed x := Artifact.state x == ArtifactState.Deleted;
|}.

Lemma expected_version_Ok x v :
  Artifact.expected_version x = Ok v ↔
  v = match Artifact.content x with
      | None => 1 | Some c => ArtifactContentSummary.content_version c + 1 end ∧
  (is_Some (Artifact.content x) → v ≤ MAX_ARTIFACT_CONTENT_VERSION).
Proof.
  unfold Artifact.expected_version, checked_add. destruct (Artifact.content x) as [c|]; cbn.
  - unfold MAX_ARTIFACT_CONTENT_VERSION, u32_max.
    destruct (_ <=? 4294967295) eqn:E1; cbn; [destruct (_ <=? 1000000) eqn:E2; cbn|].
    + split; [intros [= <-]; split; [done|lia]|by intros [-> _]].
    + split; [done|]. intros [-> H]. specialize (H ltac:(by eexists)). lia.
    + split; [done|]. intros [-> H]. specialize (H ltac:(by eexists)). lia.
  - split; [intros [= <-]; split; [done|by intros []]|by intros [-> _]].
Qed.

#[global] Instance artifact_laws : AggregateLaws Artifact.t artifact_call.
Proof.
  split; intros c now x x'; [intros e H|intros H]; destruct c; cbn in *;
    unfold Artifact.record_content, Artifact.remove, Artifact.touch_self in H.
  1,2: by run_in H.
  all: run_touch H; split_and!; try done; apply bool_decide_eq_false; congruence.
Qed.
#[global] Instance artifact_restorable : Restorable Artifact.t artifact_call := {|
  ag_initial x := ∃ id p t name now, Artifact.new_unavailable id p t name now = Ok x;
  ag_restore := Artifact.restore;
|}.

Definition artifact_shape (x : Artifact.t) : Prop :=
  validate_artifact_display_name (Artifact.name x) = Ok tt ∧
  Artifact.created_at x ≤ Artifact.updated_at x ∧
  match Artifact.state x, Artifact.content x with
  | ArtifactState.Unavailable, None =>
      Artifact.revision x = 0 ∧ Artifact.updated_at x = Artifact.created_at x
  | ArtifactState.Available, Some c =>
      ArtifactContentSummary.validate c = Ok tt ∧
      Artifact.revision x = ArtifactContentSummary.content_version c
  | ArtifactState.Deleted, None => 0 < Artifact.revision x
  | _, _ => False
  end.
Lemma artifact_restore_Ok x : Artifact.restore x = Ok x ↔ artifact_shape x.
Proof.
  unfold Artifact.restore, artifact_shape.
  destruct (validate_artifact_display_name _) as [[]|]; cbn; [|split; [done|by intros [? _]]].
  destruct (Artifact.updated_at x <? Artifact.created_at x) eqn:Et; cbn; [split; [done|intros (_ & ? & _); lia]|].
  assert (Artifact.created_at x ≤ Artifact.updated_at x) by lia.
  destruct (Artifact.content x) as [c|];
    [destruct (ArtifactContentSummary.validate c) as [[]|]; cbn|cbn].
  2: { split; [done|]. intros (_ & _ & Hs). by destruct (Artifact.state x), Hs. }
  all: rewrite reject_then_Ok, negb_false_iff; split.
  all: intros; destruct_and?; destruct (Artifact.state x); split_and!; try done; try lia.
  all: destruct_and?; try done; lia.
Qed.
#[global] Instance artifact_restorable_laws : RestorableLaws Artifact.t artifact_call.
Proof.
  split.
  - cbn. intros x (id & p & t & name & now & H). unfold Artifact.new_unavailable in H.
    apply result_bind_Ok in H as ([] & Hn & [= <-]). split; [|cbn; lia].
    apply artifact_restore_Ok. unfold artifact_shape; cbn. unfold validate_imported_file_name in Hn.
    apply result_bind_Ok in Hn as ([] & Hn & _). split_and!; (done || lia).
  - cbn. intros c now x x' Hr (Hn & Ht & Hs)%artifact_restore_Ok H. apply artifact_restore_Ok.
    unfold artifact_shape. destruct c; cbn in H.
    + unfold Artifact.record_content, Artifact.touch_self in H.
      destruct (ArtifactContentSummary.validate content) as [[]|] eqn:Hv; [|by run_in H].
      run_touch H; try done;
        match goal with E : Artifact.expected_version _ = Ok _ |- _ =>
          apply expected_version_Ok in E as [Hver _] end;
        repeat match goal with E : Artifact.content _ = _ |- _ => rewrite E in * end;
        split_and!; (done || lia).
    + unfold Artifact.remove, Artifact.touch_self in H. run_touch H. split_and!; (done || lia).
Qed.

(** *** Automations *)

Section automations.
Context {CH : Chrono} {SJ : SerdeJson}.

Inductive automation_call : Type :=
| AuUpdate (title prompt schedule timezone : str) (missed : MissedRunPolicy.t)
    (overlap : OverlapPolicy.t) (enabled : bool)
| AuArchive.
#[export] Instance automation_aggregate : Aggregate Automation.t automation_call := {|
  ag_apply c now := match c with
    | AuUpdate title prompt schedule timezone missed overlap enabled =>
        Automation.update title prompt schedule timezone missed overlap enabled now
    | AuArchive => Automation.archive now end;
  ag_revision := Automation.revision;
  ag_updated_at := Automation.updated_at;
  ag_sealed x := Automation.state x == AutomationState.Archived;
|}.
#[export] Instance automation_laws : AggregateLaws Automation.t automation_call.
Proof.
  split; intros c now x x'; [intros e H|intros H]; destruct c; cbn in *;
    unfold Automation.update, Automation.archive, Automation.touch_self in H.
  1,2: by run_in H.
  all: run_touch H; split_and!; try done; by apply bool_decide_eq_false.
Qed.
#[export] Instance automation_restorable : Restorable Automation.t automation_call := {|
  ag_initial x := ∃ id p title prompt schedule timezone missed overlap enabled now,
    Automation.new id p title prompt schedule timezone missed overlap enabled now = Ok x;
  ag_restore := Automation.restore;
|}.

Definition automation_shape (x : Automation.t) : Prop :=
  validate_automation_text (Automation.title x) (Automation.prompt x) (Automation.timezone x)
    = Ok tt ∧
  (∃ s, AutomationSchedule.parse_canonical (Automation.schedule x) = Ok s) ∧
  Automation.created_at x ≤ Automation.updated_at x ∧
  (Automation.revision x = 0 →
     Automation.updated_at x = Automation.created_at x ∧
     Automation.state x ≠ AutomationState.Archived).
Lemma automation_restore_Ok x : Automation.restore x = Ok x ↔ automation_shape x.
Proof.
  unfold Automation.restore, automation_shape.
  destruct (validate_automation_text _ _ _) as [[]|]; cbn; [|naive_solver].
  destruct (AutomationSchedule.parse_canonical _); cbn; [|naive_solver].
  rewrite reject_then_Ok, orb_false_iff, Z.ltb_ge, andb_false_iff, Z.eqb_neq, orb_false_iff,
    negb_false_iff, bool_decide_eq_true, bool_decide_eq_false.
  destruct (decide (Automation.revision x = 0)) as [E|E]; split.
  - intros (_ & ? & [?|?]); [done|]. eauto.
  - intros (_ & _ & ? & Hs). split_and!; [done..|]. by right; apply Hs.
  - intros (_ & ? & _). split_and!; [done|by eexists|done|done].
  - intros (_ & _ & ? & _). split_and!; [done..|]. by left.
Qed.

Lemma normalize_automation_Ok title prompt schedule timezone s :
  normalize_automation title prompt schedule timezone = Ok s →
  validate_automation_text title prompt timezone = Ok tt ∧
  ∃ v, AutomationSchedule.parse_canonical s = Ok v.
Proof.
  unfold normalize_automation. intros H. apply result_bind_Ok in H as ([] & Hv & H).
  apply map_err_Ok in H. apply result_bind_Ok in H as (v & Hn & [= <-]). split; [done|].
  exists v. apply parse_canonical_Ok. by apply parse_for_normalization_valid in Hn as [? _].
Qed.
#[export] Instance automation_restorable_laws : RestorableLaws Automation.t automation_call.
Proof.
  split.
  - cbn. intros x (id & p & ti & pr & sc & tz & mi & ov & en & now & H). unfold Automation.new in H.
    apply result_bind_Ok in H as (s & [Hv Hs]%normalize_automation_Ok & [= <-]). split; [|cbn; lia].
    apply automation_restore_Ok. unfold automation_shape; cbn. split_and!; try (done || lia).
    intros _. split; [done|]. by destruct en.
  - cbn. intros c now x x' Hr (Hv & Hp & Ht & Hs)%automation_restore_Ok H.
    apply automation_restore_Ok. unfold automation_shape.
    destruct c; cbn in H; unfold Automation.update, Automation.archive, Automation.touch_self in H;
      run_touch H.
    all: try match goal with
      | H : normalize_automation _ _ _ _ = Ok _ |- _ => apply normalize_automation_Ok in H as [? ?]
      end; split_and!; try (done || lia).
Qed.
End automations.

(** ** What the aggregates guarantee *)

Section guarantees.
Context {CH : Chrono} {SJ : SerdeJson}.

(** C31. Workspace entities survive a restart. Every thread, message, artifact and
    automation that creation and accepted edits can produce is accepted unchanged by
    the validation that rebuilds it from storage. *)
Theorem workspace_survives_restart :
  (∀ x : Thread.t, ag_reachable x → Thread.restore x = Ok x) ∧
  (∀ x : Message.t, ag_reachable x → Message.restore x = Ok x) ∧
  (∀ x : Artifact.t, ag_reachable x → Artifact.restore x = Ok x) ∧
  (∀ x : Automation.t, ag_reachable x → Automation.restore x = Ok x).
Proof. split_and!; intros x H; exact (proj1 (ag_reachable_restores x H)). Qed.

(** The optimistic-concurrency contract of an editable entity, over any attempted
    history: the revision is the number of accepted edits, the update time never goes
    back, rejected edits leave no trace, and a sealed entity never changes. *)
Definition revision_contract A C `{!Aggregate A C} : Prop :=
  ∀ cs (x x' : A) n, ag_run cs x = (x', n) →
    ag_revision x' = ag_revision x + Z.of_nat n ∧ ag_updated_at x ≤ ag_updated_at x' ∧
    (n = O → x' = x) ∧ (ag_sealed x = true → x' = x).

Lemma revision_contract_holds {A C} `{!Aggregate A C, !AggregateLaws A C} :
  revision_contract A C.
Proof.
  intros cs x x' n H. destruct (ag_run_revision _ _ _ _ H) as (H1 & H2 & H3).
  split_and!; try done. intros Hs. rewrite (ag_run_sealed _ _ Hs) in H. congruence.
Qed.

(** The revision of a project, thread, message, artifact or automation counts
    exactly the edits that were accepted, its update time never decreases, rejected
    edits change nothing, and an archived, deleted or derived entity is final. *)
Theorem workspace_revisions_count_edits :
  revision_contract Project.t project_call ∧ revision_contract Thread.t thread_call ∧
  revision_contract Message.t message_call ∧ revision_contract Artifact.t artifact_call ∧
  revision_contract Automation.t automation_call.
Proof. split_and!; apply revision_contract_holds. Qed.
End guarantees.

(** ** Thread ancestry

    A table of threads grows by new threads, by forks of stored threads and by edits.
    [ancestor] follows the recorded parents. *)
Section ancestry.
Inductive forest : gmap ThreadId Thread.t → Prop :=
| forest_empty : forest ∅
| forest_new m id p title now x :
    forest m → m !! id = None → Thread.new id p title now = Ok x → forest (<[id := x]> m)
| forest_fork m parent y id p title turn message role kind now x :
    forest m → m !! parent = Some y → m !! id = None →
    Thread.new_fork id p title parent (Thread.lineage y) turn message role kind now = Ok x →
    forest (<[id := x]> m)
| forest_edit m id y c now x :
    forest m → m !! id = Some y → ag_apply (c : thread_call) now y = (x, Ok tt) →
    forest (<[id := x]> m).

Definition parent_of (m : gmap ThreadId Thread.t) (id : ThreadId) : option ThreadId :=
  x ← m !! id;
  match ConversationThreadLineage.origin (Thread.lineage x) with
  | ConversationThreadOrigin.Fork parent _ _ _ => Some parent
  | ConversationThreadOrigin.Original => None
  end.
Fixpoint ancestor (m : gmap ThreadId Thread.t) (n : nat) (id : ThreadId) : option ThreadId :=
  match n with
  | O => Some id
  | S n' => p ← parent_of m id; ancestor m n' p
  end.

Abbreviation depth x := (ConversationThreadLineage.fork_depth (Thread.lineage x)).
Abbreviation root x := (ConversationThreadLineage.root_thread_id (Thread.lineage x)).

(** Every stored lineage agrees with the lineage of its stored parent. *)
Definition rooted (m : gmap ThreadId Thread.t) (id : ThreadId) (x : Thread.t) : Prop :=
  0 ≤ depth x ≤ 64 ∧
  match ConversationThreadLineage.origin (Thread.lineage x) with
  | ConversationThreadOrigin.Original => root x = id ∧ depth x = 0
  | ConversationThreadOrigin.Fork parent _ _ _ =>
      ∃ y, m !! parent = Some y ∧ root y = root x ∧ depth x = depth y + 1
  end.

Lemma rooted_insert m id x' id' x :
  (∀ y, m !! id' = Some y → Thread.lineage y = Thread.lineage x') →
  rooted m id x → rooted (<[id' := x']> m) id x.
Proof.
  intros Hl [Hd Ho]. split; [done|]. destruct (ConversationThreadLineage.origin _); [done|].
  destruct Ho as (y & Hy & Hr & Hy'). destruct (decide (parent_thread_id = id')) as [->|].
  - exists x'. rewrite lookup_insert_eq, <- (Hl y Hy). done.
  - exists y. by rewrite lookup_insert_ne.
Qed.

Lemma thread_edit_lineage c now y x :
  ag_apply (c : thread_call) now y = (x, Ok tt) → Thread.lineage x = Thread.lineage y.
Proof.
  intros H. destruct c; cbn in H;
    unfold Thread.update, Thread.archive, Thread.ensure_open, Thread.touch_self in H;
    by run_touch H.
Qed.

Lemma fork_Ok owner parent pl turn message role kind l :
  ConversationThreadLineage.fork owner parent pl turn message role kind = Ok l →
  l = ConversationThreadLineage.mk (ConversationThreadLineage.root_thread_id pl)
        (ConversationThreadOrigin.Fork parent turn message kind)
        (ConversationThreadLineage.fork_depth pl + 1) ∧
  ConversationThreadLineage.fork_depth l ≤ 64.
Proof.
  unfold ConversationThreadLineage.fork. intros H.
  apply result_bind_Ok in H as (? & _ & H). apply result_bind_Ok in H as (? & _ & H).
  apply result_bind_Ok in H as (d & Hd & H).
  unfold checked_add in Hd. cbn in Hd.
  destruct (_ <=? u8_max); cbn in Hd; [|done].
  destruct (_ <=? 64) eqn:E; cbn in Hd; [|done]. injection Hd as <-.
  unfold ConversationThreadLineage.restore in H. apply reject_then_Ok in H as [-> _].
  split; [done|]. cbn. lia.
Qed.

Lemma forest_rooted m : forest m → ∀ id x, m !! id = Some x → rooted m id x.
Proof.
  induction 1 as [|m id p title now x _ IH Hid H|m parent y id p title turn msg role kind now x _ IH Hy Hid H
                  |m id y c now x _ IH Hy H]; intros i z Hz.
  - by rewrite lookup_empty in Hz.
  - apply lookup_insert_Some in Hz as [[<- <-]|[Hne Hz]].
    + unfold Thread.new in H. apply result_bind_Ok in H as (? & _ & [= <-]). split; cbn; [lia|done].
    + apply rooted_insert; [by rewrite Hid|auto].
  - apply lookup_insert_Some in Hz as [[<- <-]|[Hne Hz]].
    + unfold Thread.new_fork in H. apply result_bind_Ok in H as (? & _ & H).
      apply result_bind_Ok in H as (l & [-> Hd]%fork_Ok & [= <-]). cbn in Hd.
      apply rooted_insert; [by rewrite Hid|]. destruct (IH _ _ Hy) as [? _].
      split; cbn; [lia|]. by exists y.
    + apply rooted_insert; [by rewrite Hid|auto].
  - pose proof (thread_edit_lineage _ _ _ _ H) as Hl.
    apply rooted_insert; [intros y' Hy'; congruence|].
    apply lookup_insert_Some in Hz as [[<- <-]|[Hne Hz]]; [|auto].
    specialize (IH _ _ Hy). unfold rooted in *. by rewrite Hl.
Qed.

Lemma ancestor_depth m (Hm : forest m) n : ∀ id x,
  m !! id = Some x → Z.to_nat (depth x) = n →
  ancestor m n id = Some (root x) ∧
  (∀ k a, ancestor m k id = Some a →
     (k ≤ n)%nat ∧ ∃ y, m !! a = Some y ∧ root y = root x ∧ depth y = depth x - Z.of_nat k).
Proof.
  induction n as [|n IH]; intros id x Hx Hn;
    destruct (forest_rooted m Hm id x Hx) as [Hd Ho].
  all: assert (Hp : parent_of m id = match ConversationThreadLineage.origin (Thread.lineage x) with
      | ConversationThreadOrigin.Fork parent _ _ _ => Some parent
      | ConversationThreadOrigin.Original => None end)
    by (unfold parent_of; by rewrite Hx).
  all: destruct (ConversationThreadLineage.origin (Thread.lineage x)) as [|parent].
  - destruct Ho as [<- Ho]. split; [done|]. intros [|k] a; cbn; rewrite ?Hp; [|done].
    intros [= <-]. split; [done|]. exists x. split_and!; (done || lia).
  - destruct Ho as (y & Hy & _ & Hdy). destruct (forest_rooted m Hm _ _ Hy) as [? _]. lia.
  - lia.
  - destruct Ho as (y & Hy & Hr & Hdy). destruct (IH parent y Hy ltac:(lia)) as [IH1 IH2].
    cbn; rewrite Hp; cbn. rewrite IH1, Hr. split; [done|]. intros [|k] a; cbn; rewrite ?Hp; cbn.
    + intros [= <-]. split; [lia|]. exists x. split_and!; (done || lia).
    + intros (? & z & Hz & Hrz & Hdz)%IH2. split; [lia|]. exists z.
      split_and!; [done|congruence|lia].
Qed.

(** C32. Following the recorded parents terminates. From any stored thread the walk
    reaches the recorded root after exactly the recorded number of forks, at most
    64, and stops there; every thread on the way is stored, belongs to the same root
    and is one fork shallower than the one before, so no thread is its own ancestor. *)
Theorem thread_ancestry_terminates m id x :
  forest m → m !! id = Some x →
  (Z.to_nat (depth x) ≤ 64)%nat ∧ ancestor m (Z.to_nat (depth x)) id = Some (root x) ∧
  ancestor m (S (Z.to_nat (depth x))) id = None ∧
  (∀ k a, ancestor m k id = Some a →
     ∃ y, m !! a = Some y ∧ root y = root x ∧ depth y = depth x - Z.of_nat k) ∧
  (∀ k, ancestor m (S k) id ≠ Some id).
Proof.
  intros Hm Hx. destruct (forest_rooted m Hm id x Hx) as [Hd _].
  destruct (ancestor_depth m Hm _ id x Hx eq_refl) as [Ha Hk].
  split; [lia|]. split; [done|]. split_and!.
  - destruct (ancestor m (S _) id) eqn:E; [|done]. destruct (Hk _ _ E). lia.
  - intros k a E. by destruct (Hk _ _ E).
  - intros k E. destruct (Hk _ _ E) as (_ & y & Hy & _ & Hdy).
    rewrite Hx in Hy. injection Hy as <-. lia.
Qed.
End ancestry.

(** ** Witnesses *)

Definition demo_thread : Thread.t :=
  Thread.mk (mk_id (lit "thread-1")) (mk_id (lit "project-1")) (lit "Plan") ThreadState.Open
    (ConversationThreadLineage.original (mk_id (lit "thread-1"))) 0 10 10.
Definition demo_fork : Thread.t :=
  Thread.mk (mk_id (lit "thread-2")) (mk_id (lit "project-1")) (lit "Plan B") ThreadState.Open
    (ConversationThreadLineage.mk (mk_id (lit "thread-1"))
       (ConversationThreadOrigin.Fork (mk_id (lit "thread-1")) (mk_id (lit "turn-1"))
          (mk_id (lit "message-1")) ConversationForkKind.Branch) 1) 0 20 20.
Definition demo_threads : gmap ThreadId Thread.t :=
  <[mk_id (lit "thread-2") := demo_fork]> (<[mk_id (lit "thread-1") := demo_thread]> ∅).

Lemma demo_forest : forest demo_threads.
Proof.
  apply (forest_fork _ (mk_id (lit "thread-1")) demo_thread _ (mk_id (lit "project-1")) (lit "Plan B")
    (mk_id (lit "turn-1")) (mk_id (lit "message-1")) MessageRole.Assistant
    ConversationForkKind.Branch 20); [|vm_compute; reflexivity..].
  apply (forest_new _ _ (mk_id (lit "project-1")) (lit "Plan") 10);
    [apply forest_empty|vm_compute; reflexivity..].
Qed.

Lemma thread_ancestry_terminates_witness :
  ancestor demo_threads 1 (mk_id (lit "thread-2")) = Some (mk_id (lit "thread-1")) ∧
  ancestor demo_threads 2 (mk_id (lit "thread-2")) = None.
Proof.
  destruct (thread_ancestry_terminates demo_threads (mk_id (lit "thread-2")) demo_fork demo_forest
    ltac:(vm_compute; reflexivity)) as (_ & H1 & H2 & _).
  split; [exact H1|exact H2].
Defined.
