(* ===== verification/Preferences.v ===== *)
(** * Desktop settings

    The singleton settings of the domain crate: desktop behaviour and the default Chat
    model ([crates/grok-domain/src/preferences.rs]) and the Host Tools enrollment
    ([crates/grok-domain/src/host_execution.rs]). *)
From S2P Require Import Prelude RustText.

(** ** Desktop preferences *)

Module DesktopPreferencesError.
Inductive t : Type := ClockRegression | RevisionExhausted.
#[global] Instance eq_dec : EqDecision t.
Proof. solve_decision. Defined.
End DesktopPreferencesError.

Module DesktopUpdateChannel.
Inductive t : Type := Stable | Beta.
#[global] Instance eq_dec : EqDecision t.
Proof. solve_decision. Defined.
(** [DesktopUpdateChannel::as_str]. *)
Definition as_str (c : t) : str :=
  match c with Stable => lit "stable" | Beta => lit "beta" end.
End DesktopUpdateChannel.

Module DesktopPreferences.
Record t : Type := mk {
  keep_running_in_notification_area : bool; update_channel : DesktopUpdateChannel.t;
  revision : Z; updated_at : Z }.
#[global] Instance eq_dec : EqDecision t.
Proof. solve_decision. Defined.
#[global] Instance eta : Eta t := λ x,
  mk (keep_running_in_notification_area x) (update_channel x) (revision x) (updated_at x).

(** [DesktopPreferences::default_at] and [Default]. *)
Definition default_at (now : Z) : t := mk true DesktopUpdateChannel.Stable 0 now.
Definition default : t := default_at 0.

(** [DesktopPreferences::update]. *)
Definition update (keep_running : bool) (channel : DesktopUpdateChannel.t) (now : Z) :
    method t DesktopPreferencesError.t unit :=
  x ← self;
  _ ← throw_if (now <? updated_at x) DesktopPreferencesError.ClockRegression;
  r ← lift (ok_or DesktopPreferencesError.RevisionExhausted
              (checked_add u64_max (revision x) 1));
  _ ← assign (λ x, x <| revision := r |>);
  _ ← assign (λ x, x <| updated_at := now |>);
  _ ← assign (λ x, x <| keep_running_in_notification_area := keep_running |>);
  assign (λ x, x <| update_channel := channel |>).
End DesktopPreferences.

(** ** Default Chat model *)

Definition DEFAULT_XAI_CHAT_MODEL_ID : str := lit "grok-4.3".
Definition MAX_MODEL_ID_BYTES : Z := 512.

Module ChatModelPreferenceError.
Inductive t : Type := InvalidModelId | ClockRegression | RevisionExhausted.
#[global] Instance eq_dec : EqDecision t.
Proof. solve_decision. Defined.
End ChatModelPreferenceError.

(** [validate_model_id]. *)
Definition validate_model_id (value : str) : result ChatModelPreferenceError.t unit :=
  reject_if (is_empty value || (MAX_MODEL_ID_BYTES <? len value) || (trim value != value)
             || existsb is_control value) ChatModelPreferenceError.InvalidModelId.

Module ChatModelPreference.
Record t : Type := mk { selected_model_id : str; revision : Z; updated_at : Z }.
#[global] Instance eq_dec : EqDecision t.
Proof. solve_decision. Defined.
#[global] Instance eta : Eta t := λ x, mk (selected_model_id x) (revision x) (updated_at x).

(** [ChatModelPreference::initial]. *)
Definition initial (model : str) (now : Z) : result ChatModelPreferenceError.t t :=
  _ ← validate_model_id model; Ok (mk model 0 now).

(** [ChatModelPreference::restore]. *)
Definition restore (model : str) (revision updated_at : Z) :
    result ChatModelPreferenceError.t t :=
  _ ← validate_model_id model; Ok (mk model revision updated_at).

(** [ChatModelPreference::select_model]. *)
Definition select_model (model : str) (now : Z) :
    method t ChatModelPreferenceError.t unit :=
  _ ← lift (validate_model_id model);
  x ← self;
  _ ← throw_if (now <? updated_at x) ChatModelPreferenceError.ClockRegression;
  r ← lift (ok_or ChatModelPreferenceError.RevisionExhausted
              (checked_add u64_max (revision x) 1));
  _ ← assign (λ x, x <| revision := r |>);
  _ ← assign (λ x, x <| updated_at := now |>);
  assign (λ x, x <| selected_model_id := model |>).

(** [Default]: the [expect] does not fail. *)
Definition default : t := mk DEFAULT_XAI_CHAT_MODEL_ID 0 0.
Lemma default_initial : initial DEFAULT_XAI_CHAT_MODEL_ID 0 = Ok default.
Proof. by vm_compute. Qed.
End ChatModelPreference.

(** ** Host Tools enrollment *)

Definition HOST_ACKNOWLEDGMENT_VERSION : Z := 1.
Definition HOST_ACKNOWLEDGMENT_PHRASE : str :=
  lit "I UNDERSTAND HOST TOOLS CAN CONTROL THIS COMPUTER".
Definition MAX_HOST_EXECUTION_ROOTS : Z := 8.

Module HostToolClasses.
Record t : Type := mk {
  filesystem_read : bool; filesystem_write : bool; process_execute : bool }.
#[global] Instance eq_dec : EqDecision t.
Proof. solve_decision. Defined.
(** [HostToolClasses::any]. *)
Definition any (c : t) : bool := filesystem_read c || filesystem_write c || process_execute c.
End HostToolClasses.

Module HostExecutionPolicyError.
Inductive t : Type := AcknowledgmentMismatch | NoToolClasses | InvalidRoots.
#[global] Instance eq_dec : EqDecision t.
Proof. solve_decision. Defined.
End HostExecutionPolicyError.

Module HostExecutionPolicy.
Record t : Type := mk {
  revision : Z; active : bool; acknowledgment_version : Z; acknowledged_at : Z;
  tool_classes : HostToolClasses.t; canonical_roots : list str;
  broad_scope_acknowledged : bool; updated_at : Z }.
#[global] Instance eq_dec : EqDecision t.
Proof. solve_decision. Defined.
#[global] Instance eta : Eta t := λ x,
  mk (revision x) (active x) (acknowledgment_version x) (acknowledged_at x) (tool_classes x)
     (canonical_roots x) (broad_scope_acknowledged x) (updated_at x).

(** [HostExecutionPolicy::is_effectively_active]. *)
Definition is_effectively_active (p : t) : bool :=
  active p && (acknowledgment_version p =? HOST_ACKNOWLEDGMENT_VERSION)
  && HostToolClasses.any (tool_classes p) && negb (is_empty (canonical_roots p)).

(** The test on one root. *)
Definition root_invalid (root : str) : bool :=
  is_empty root || (4096 <? len root) || existsb (λ c, c =? 0) root.

(** [HostExecutionPolicy::validate_enrollment]. *)
Definition validate_enrollment (version : Z) (typed_acknowledgment : str)
    (classes : HostToolClasses.t) (roots : list str) :
    result HostExecutionPolicyError.t unit :=
  _ ← reject_if ((negb (version =? HOST_ACKNOWLEDGMENT_VERSION))
                 || (trim typed_acknowledgment != HOST_ACKNOWLEDGMENT_PHRASE))
        HostExecutionPolicyError.AcknowledgmentMismatch;
  _ ← reject_if (negb (HostToolClasses.any classes)) HostExecutionPolicyError.NoToolClasses;
  _ ← reject_if (is_empty roots || (MAX_HOST_EXECUTION_ROOTS <? Z.of_nat (length roots)))
        HostExecutionPolicyError.InvalidRoots;
  reject_if (existsb root_invalid roots) HostExecutionPolicyError.InvalidRoots.
End HostExecutionPolicy.
