(* ===== verification/Capabilities.v ===== *)
(** * Product capabilities

    The capability vocabulary ([crates/grok-domain/src/capability.rs]) and the resolver
    that decides, from authentication, connectivity and runtime facts, which features
    are available and which backend runs Work
    ([crates/grok-application/src/capabilities.rs]). *)
From S2P Require Import Prelude RustText Ids Runs.

Module Capability.
Inductive t : Type :=
| Chat | Work | Files | Shell | Mcp | BrowserAutomation | ComputerUse | Search | Research
| ImagineImage | ImagineVideo | RealtimeVoice | Automations.
#[global] Instance eq_dec : EqDecision t.
Proof. solve_decision. Defined.
End Capability.

Module CapabilitySurface.
Inductive t : Type := SubscriptionAcp | XaiApi | Desktop | ManagedAddon | WebHandoff.
#[global] Instance eq_dec : EqDecision t.
Proof. solve_decision. Defined.
End CapabilitySurface.

Module AuthMethod.
Inductive t : Type := None | SubscriptionOAuth | XaiApiKey | Either.
#[global] Instance eq_dec : EqDecision t.
Proof. solve_decision. Defined.
End AuthMethod.

Module CapabilityRequirement.
Record t : Type := mk {
  capability : Capability.t; surface : CapabilitySurface.t; authentication : AuthMethod.t;
  requires_strong_isolation : bool }.
End CapabilityRequirement.

Module CapabilityAvailability.
Inductive t : Type := Available | Limited | Unavailable.
#[global] Instance eq_dec : EqDecision t.
Proof. solve_decision. Defined.
End CapabilityAvailability.

Module CapabilityStatus.
Record t : Type := mk {
  capability : Capability.t; surface : CapabilitySurface.t; authentication : AuthMethod.t;
  availability : CapabilityAvailability.t; reason_code : str; reason : str }.
#[global] Instance eq_dec : EqDecision t.
Proof. solve_decision. Defined.
End CapabilityStatus.

Module CapabilityFacts.
Record t : Type := mk {
  subscription_authenticated : bool; xai_api_key_configured : bool;
  supergrok_api_connected : bool; xai_capabilities_resolved : bool; online : bool;
  isolation_broker_qualified : bool; strong_isolation_ready : bool;
  managed_browser_ready : bool; computer_use_ready : bool; artifact_content_ready : bool;
  automation_scheduler_ready : bool; host_policy_effective : bool;
  host_work_runtime_ready : bool; host_process_execute_enabled : bool }.
(** [Default]. *)
Definition default : t :=
  mk false false false false false false false false false false false false false false.
End CapabilityFacts.

Section resolver.
Import CapabilityFacts.

(** [status]. *)
Definition status (capability : Capability.t) (surface : CapabilitySurface.t)
    (authentication : AuthMethod.t) (ready : bool) (fallback : CapabilityAvailability.t)
    (reason_code reason : str) : CapabilityStatus.t :=
  CapabilityStatus.mk capability surface authentication
    (if ready then CapabilityAvailability.Available else fallback)
    (if ready then lit "ready" else reason_code)
    (if ready then lit "Available." else reason).

(** [unavailable]. *)
Definition unavailable (capability : Capability.t) (surface : CapabilitySurface.t)
    (authentication : AuthMethod.t) (reason_code reason : str) : CapabilityStatus.t :=
  status capability surface authentication false CapabilityAvailability.Unavailable
    reason_code reason.

(** [CapabilityResolver::resolve_work_backend]. *)
Definition resolve_work_backend (facts : CapabilityFacts.t) : option WorkExecutionBackend.t :=
  if subscription_authenticated facts && strong_isolation_ready facts
  then Some WorkExecutionBackend.IsolatedGuest
  else if subscription_authenticated facts && host_policy_effective facts
          && host_work_runtime_ready facts
  then Some WorkExecutionBackend.HostDirect
  else None.

(** [local_definition_capabilities]. *)
Definition local_definition_capabilities (facts : CapabilityFacts.t) : list CapabilityStatus.t :=
  [status Capability.Files CapabilitySurface.Desktop AuthMethod.None
     (artifact_content_ready facts) CapabilityAvailability.Limited
     (lit "artifact_content_unavailable")
     (lit "Artifact metadata is available, but private import and local open are not qualified on this runtime.");
   status Capability.Automations CapabilitySurface.Desktop AuthMethod.None
     (automation_scheduler_ready facts) CapabilityAvailability.Limited
     (lit "automation_scheduler_unavailable")
     (lit "Automation definitions are available, but scheduled execution is not yet qualified.")].

(** [chat_capability]. *)
Definition chat_capability (facts : CapabilityFacts.t) : CapabilityStatus.t :=
  status Capability.Chat CapabilitySurface.XaiApi AuthMethod.Either
    ((xai_api_key_configured facts || supergrok_api_connected facts)
     && xai_capabilities_resolved facts && online facts)
    CapabilityAvailability.Limited (lit "xai_conversation_unavailable")
    (lit "Chat requires a connected SuperGrok API grant or validated xAI API key, selected model, and network access.").

(** [execution_capabilities]. *)
Definition execution_capabilities (facts : CapabilityFacts.t) : list CapabilityStatus.t :=
  let backend := resolve_work_backend facts in
  let work_ready := is_some backend in
  let host_ready := backend == Some WorkExecutionBackend.HostDirect in
  let isolation_ready := strong_isolation_ready facts in
  [status Capability.Work CapabilitySurface.SubscriptionAcp AuthMethod.SubscriptionOAuth
     work_ready CapabilityAvailability.Unavailable
     (if strong_isolation_ready facts then lit "subscription_session_unavailable"
      else if host_policy_effective facts && negb (host_work_runtime_ready facts)
      then lit "host_tools_runtime_not_prepared"
      else if negb (host_policy_effective facts) then lit "host_tools_not_enrolled"
      else lit "work_execution_unavailable")
     (if strong_isolation_ready facts
      then lit "Work requires an authenticated official Grok Build subscription session in the guest."
      else if host_policy_effective facts
      then lit "Prepare the authenticated Host Tools runtime before starting Work."
      else lit "Work requires Isolated Guest readiness or explicit Host Tools enrollment.");
   status Capability.Shell CapabilitySurface.Desktop AuthMethod.SubscriptionOAuth
     (work_ready && (negb host_ready || host_process_execute_enabled facts))
     CapabilityAvailability.Unavailable
     (if host_ready then lit "host_process_execution_not_enrolled"
      else lit "work_execution_unavailable")
     (lit "Shell requires Isolated Work or the separately acknowledged Host process-execution class.");
   status Capability.Mcp CapabilitySurface.Desktop AuthMethod.None isolation_ready
     CapabilityAvailability.Unavailable (lit "mcp_sandbox_unavailable")
     (lit "MCP servers require the qualified guest execution backend.");
   status Capability.BrowserAutomation CapabilitySurface.ManagedAddon AuthMethod.None
     (isolation_ready && managed_browser_ready facts) CapabilityAvailability.Unavailable
     (lit "managed_browser_unavailable")
     (lit "Browser automation requires the qualified managed browser broker.");
   status Capability.ComputerUse CapabilitySurface.Desktop AuthMethod.None
     (isolation_ready && computer_use_ready facts) CapabilityAvailability.Unavailable
     (lit "computer_use_broker_unavailable")
     (lit "Computer use requires the qualified native broker and guest proxy.")].

(** [unavailable_provider_capabilities]. *)
Definition unavailable_provider_capabilities (facts : CapabilityFacts.t) :
    list CapabilityStatus.t :=
  let setup_reason :=
    if xai_api_key_configured facts
    then lit "The xAI credential is configured, but this provider workflow is not yet exposed."
    else lit "This workflow requires native xAI credential enrollment and a qualified daemon command." in
  let entry capability code :=
    unavailable capability CapabilitySurface.XaiApi AuthMethod.XaiApiKey code setup_reason in
  [entry Capability.Search (lit "search_operation_unavailable");
   entry Capability.Research (lit "research_operation_unavailable");
   entry Capability.ImagineImage (lit "image_operation_unavailable");
   entry Capability.ImagineVideo (lit "video_operation_unavailable");
   entry Capability.RealtimeVoice (lit "voice_operation_unavailable")].

(** [CapabilityResolver::resolve]. *)
Definition resolve (facts : CapabilityFacts.t) : list CapabilityStatus.t :=
  local_definition_capabilities facts ++ [chat_capability facts] ++ execution_capabilities facts
  ++ unavailable_provider_capabilities facts.
End resolver.

(** ** Properties *)

Section properties.
Import CapabilityFacts.

(** What the UI sees of one capability. *)
Definition available (facts : CapabilityFacts.t) (c : Capability.t) : bool :=
  existsb (λ s, (CapabilityStatus.capability s == c)
                && (CapabilityStatus.availability s == CapabilityAvailability.Available))
    (resolve facts).

(** The readiness rule of each capability. *)
Definition ready (facts : CapabilityFacts.t) (c : Capability.t) : bool :=
  match c with
  | Capability.Files => artifact_content_ready facts
  | Capability.Automations => automation_scheduler_ready facts
  | Capability.Chat =>
      (xai_api_key_configured facts || supergrok_api_connected facts)
      && xai_capabilities_resolved facts && online facts
  | Capability.Work =>
      subscription_authenticated facts
      && (strong_isolation_ready facts
          || host_policy_effective facts && host_work_runtime_ready facts)
  | Capability.Shell =>
      subscription_authenticated facts
      && (strong_isolation_ready facts
          || host_policy_effective facts && host_work_runtime_ready facts
             && host_process_execute_enabled facts)
  | Capability.Mcp => strong_isolation_ready facts
  | Capability.BrowserAutomation => strong_isolation_ready facts && managed_browser_ready facts
  | Capability.ComputerUse => strong_isolation_ready facts && computer_use_ready facts
  | _ => false
  end.

(** Pointwise order on facts. *)
Definition facts_list (f : CapabilityFacts.t) : list bool :=
  [subscription_authenticated f; xai_api_key_configured f; supergrok_api_connected f;
   xai_capabilities_resolved f; online f; isolation_broker_qualified f;
   strong_isolation_ready f; managed_browser_ready f; computer_use_ready f;
   artifact_content_ready f; automation_scheduler_ready f; host_policy_effective f;
   host_work_runtime_ready f; host_process_execute_enabled f].
Definition facts_le (f f' : CapabilityFacts.t) : Prop :=
  Forall2 (λ b b' : bool, b = true → b' = true) (facts_list f) (facts_list f').

Lemma available_ready f c : available f c = ready f c.
Proof.
  destruct c, f; vm_compute;
    repeat (match goal with |- context [match ?b with true => _ | false => _ end] =>
              is_var b; destruct b end; vm_compute); done.
Qed.

Lemma ready_mono f f' c : facts_le f f' → ready f c = true → ready f' c = true.
Proof.
  unfold facts_le, facts_list. intros Hle.
  repeat match goal with H : Forall2 _ (_ :: _) (_ :: _) |- _ => apply Forall2_cons in H as [? H] end.
  destruct c; cbn; try done; intros Hr;
    repeat match goal with
    | H : _ && _ = true |- _ => apply andb_true_iff in H as [? ?]
    | H : _ || _ = true |- _ => apply orb_true_iff in H as [H|H]
    end;
    repeat match goal with H : ?b = true → _, H' : ?b = true |- _ => specialize (H H') end;
    repeat match goal with H : _ = true |- _ => rewrite H; clear H end;
    rewrite ?orb_true_r; done.
Qed.

Lemma status_code c sf au r fb code reason :
  code ≠ lit "ready" → fb ≠ CapabilityAvailability.Available →
  CapabilityStatus.availability (status c sf au r fb code reason)
    = CapabilityAvailability.Available ↔
  CapabilityStatus.reason_code (status c sf au r fb code reason) = lit "ready".
Proof. intros Hc Hf. unfold status. cbn. by destruct r. Qed.

(** The resolver is its readiness table. Every capability is reported exactly once;
    it is available exactly under its rule, and then carries the code [ready]; gaining a
    fact never takes a capability away; and Work is bound to the host only without a
    qualified guest and with an effective enrollment and a prepared runtime. *)
Theorem capability_resolution f :
  map CapabilityStatus.capability (resolve f) =
    [Capability.Files; Capability.Automations; Capability.Chat; Capability.Work;
     Capability.Shell; Capability.Mcp; Capability.BrowserAutomation; Capability.ComputerUse;
     Capability.Search; Capability.Research; Capability.ImagineImage; Capability.ImagineVideo;
     Capability.RealtimeVoice] ∧
  (∀ c, available f c = ready f c) ∧
  Forall (λ s, CapabilityStatus.availability s = CapabilityAvailability.Available ↔
               CapabilityStatus.reason_code s = lit "ready") (resolve f) ∧
  (∀ f' c, facts_le f f' → available f c = true → available f' c = true) ∧
  (resolve_work_backend f = Some WorkExecutionBackend.HostDirect →
     strong_isolation_ready f = false ∧ subscription_authenticated f = true ∧
     host_policy_effective f = true ∧ host_work_runtime_ready f = true).
Proof.
  split_and!.
  - done.
  - apply available_ready.
  - unfold resolve, local_definition_capabilities, chat_capability, execution_capabilities,
      unavailable_provider_capabilities, unavailable.
    repeat (apply Forall_cons; split); [..|done]; (apply status_code; [|done]);
      repeat case_match; vm_compute; intros E; discriminate E.
  - intros f' c Hle. rewrite !available_ready. by apply ready_mono.
  - unfold resolve_work_backend.
    by destruct (subscription_authenticated f), (strong_isolation_ready f),
      (host_policy_effective f), (host_work_runtime_ready f).
Qed.
End properties.
