(* ===== verification/ExecutionStore.v ===== *)
(** * The execution store

    The persistence port of runs, approvals and effects
    ([crates/grok-application/src/ports.rs], [ExecutionStore]) as a class of
    operations, and its in-memory implementation
    ([crates/grok-memory/src/lib.rs], [impl ExecutionStore for
    InMemoryExecutionStore]) as an instance. Every operation holds the store's
    lock from its first to its last statement, so it is one atomic step. *)
From stdpp Require Import sorting.
From S2P Require Import Prelude RustText Ids Runs Approvals Effects.

(** ** The port *)

Inductive StoreError : Type :=
| NotFound | Conflict | Unavailable (message : str) | Internal (message : str).
#[global] Instance StoreError_eq_dec : EqDecision StoreError.
Proof. solve_decision. Defined.

Module NewRunEvent.
Record t : Type := mk { occurred_at : Z; kind : RunEventKind }.
End NewRunEvent.

Module MutationCommand.
Record t : Type := mk { scope : str; key : str; fingerprint : digest }.
#[global] Instance eq_dec : EqDecision t.
Proof. solve_decision. Defined.
End MutationCommand.

Inductive ExecutionMutationOutcome : Type :=
| OutcomeRun (run : Run.t)
| OutcomeApproval (approval : Approval.t).

Class ExecutionStore (S : Type) := {
  resolve_execution_mutation :
    MutationCommand.t → method S StoreError (option ExecutionMutationOutcome);
  create_run : Run.t → NewRunEvent.t → MutationCommand.t → method S StoreError Run.t;
  get_run : RunId → method S StoreError Run.t;
  save_run : Run.t → Z → NewRunEvent.t → MutationCommand.t → method S StoreError Run.t;
  create_approval : Approval.t → Run.t → Z → list NewRunEvent.t → MutationCommand.t →
    method S StoreError Approval.t;
  get_approval : ApprovalId → method S StoreError Approval.t;
  decide_approval : Approval.t → Z → option (Run.t * Z * NewRunEvent.t) →
    MutationCommand.t → method S StoreError Approval.t;
  create_effect : SideEffect.t → NewRunEvent.t → method S StoreError unit;
  get_effect : EffectId → method S StoreError SideEffect.t;
  list_recoverable_host_effects : Z → method S StoreError (list SideEffect.t);
  list_recoverable_host_runs : Z → method S StoreError (list Run.t);
  list_host_work_runs : Z → option ThreadId → method S StoreError (list Run.t);
  pending_approval_for_run : RunId → method S StoreError (option Approval.t);
  save_effect : SideEffect.t → Z → method S StoreError unit;
  interrupt_effect : SideEffect.t → Z → Run.t → Z → list NewRunEvent.t →
    method S StoreError unit;
  events_since : RunId → Z → Z → method S StoreError (list RunEvent.t);
}.

(** ** In-memory state *)

Module ExecutionCommandRecord.
Record t : Type := mk { fingerprint : digest; outcome : ExecutionMutationOutcome }.
End ExecutionCommandRecord.

(** The maps of [State] the execution port uses. *)
Module State.
Record t : Type := mk {
  runs : gmap RunId Run.t;
  approvals : gmap ApprovalId Approval.t;
  effects : gmap EffectId SideEffect.t;
  events : gmap RunId (list RunEvent.t);
  execution_commands : gmap (str * str) ExecutionCommandRecord.t;
}.
#[global] Instance eta : Eta t := λ s,
  mk (runs s) (approvals s) (effects s) (events s) (execution_commands s).
Definition empty : t := mk ∅ ∅ ∅ ∅ ∅.
End State.

(** Unchecked [u64] addition, as compiled for release. *)
Definition u64_add (a b : Z) : Z := (a + b) mod 18446744073709551616.

(** The loop of [append_events] on one stream. *)
Fixpoint push_events (run_id : RunId) (new : list NewRunEvent.t)
    (stream : list RunEvent.t) : list RunEvent.t :=
  match new with
  | [] => stream
  | event :: new' =>
      let sequence := saturating_add u64_max (Z.of_nat (length stream)) 1 in
      push_events run_id new'
        (stream ++ [RunEvent.mk sequence run_id (NewRunEvent.occurred_at event)
                      (NewRunEvent.kind event)])
  end.

(** [append_events]. *)
Definition append_events (run_id : RunId) (new : list NewRunEvent.t) (s : State.t) : State.t :=
  s <| State.events :=
    <[run_id := push_events run_id new (default [] (State.events s !! run_id))]> (State.events s) |>.

(** [prior_execution_command]. *)
Definition prior_execution_command (command : MutationCommand.t) :
    method State.t StoreError (option ExecutionMutationOutcome) :=
  s ← self;
  match State.execution_commands s
          !! (MutationCommand.scope command, MutationCommand.key command) with
  | Some record =>
      if ExecutionCommandRecord.fingerprint record == MutationCommand.fingerprint command
      then mret (Some (ExecutionCommandRecord.outcome record))
      else throw Conflict
  | None => mret None
  end.

(** [record_execution_command]. *)
Definition record_execution_command (command : MutationCommand.t)
    (outcome : ExecutionMutationOutcome) : method State.t StoreError unit :=
  assign (λ s, s <| State.execution_commands :=
    <[(MutationCommand.scope command, MutationCommand.key command) :=
        ExecutionCommandRecord.mk (MutationCommand.fingerprint command) outcome]>
      (State.execution_commands s) |>).

Definition missing_idempotent_result : StoreError :=
  Internal (lit "idempotency result is missing").

(** [run_outcome] and [approval_outcome]. *)
Definition run_outcome (outcome : ExecutionMutationOutcome) : result StoreError Run.t :=
  match outcome with
  | OutcomeRun run => Ok run
  | OutcomeApproval _ => Err missing_idempotent_result
  end.
Definition approval_outcome (outcome : ExecutionMutationOutcome) :
    result StoreError Approval.t :=
  match outcome with
  | OutcomeApproval approval => Ok approval
  | OutcomeRun _ => Err missing_idempotent_result
  end.

Module InMemory.
(** [create_run]. *)
Definition create_run (run : Run.t) (event : NewRunEvent.t) (command : MutationCommand.t) :
    method State.t StoreError Run.t :=
  prior ← prior_execution_command command;
  match prior with
  | Some outcome => lift (run_outcome outcome)
  | None =>
      s ← self;
      _ ← throw_if (is_some (State.runs s !! Run.id run)) Conflict;
      _ ← assign (λ s, s <| State.runs := <[Run.id run := run]> (State.runs s) |>);
      _ ← assign (append_events (Run.id run) [event]);
      _ ← record_execution_command command (OutcomeRun run);
      mret run
  end.

(** [get_run]. *)
Definition get_run (id : RunId) : method State.t StoreError Run.t :=
  s ← self; lift (ok_or NotFound (State.runs s !! id)).

(** The optimistic test on a run that [save_run], [create_approval],
    [decide_approval] and [interrupt_effect] share. *)
Definition run_conflict (current run : Run.t) (expected : Z) : bool :=
  (Run.revision current != expected) || (Run.revision run != u64_add expected 1).

(** [save_run]. *)
Definition save_run (run : Run.t) (expected_revision : Z) (event : NewRunEvent.t)
    (command : MutationCommand.t) : method State.t StoreError Run.t :=
  prior ← prior_execution_command command;
  match prior with
  | Some outcome => lift (run_outcome outcome)
  | None =>
      s ← self;
      current ← lift (ok_or NotFound (State.runs s !! Run.id run));
      _ ← throw_if (run_conflict current run expected_revision) Conflict;
      _ ← assign (λ s, s <| State.runs := <[Run.id run := run]> (State.runs s) |>);
      _ ← assign (append_events (Run.id run) [event]);
      _ ← record_execution_command command (OutcomeRun run);
      mret run
  end.

(** [create_approval]. *)
Definition create_approval (approval : Approval.t) (run : Run.t)
    (expected_run_revision : Z) (events : list NewRunEvent.t)
    (command : MutationCommand.t) : method State.t StoreError Approval.t :=
  prior ← prior_execution_command command;
  match prior with
  | Some outcome => lift (approval_outcome outcome)
  | None =>
      s ← self;
      current ← lift (ok_or NotFound (State.runs s !! Run.id run));
      _ ← throw_if (run_conflict current run expected_run_revision) Conflict;
      _ ← throw_if (is_some (State.approvals s !! Approval.id approval)
                    || (Approval.run_id approval != Run.id run)) Conflict;
      _ ← assign (λ s, s <| State.runs := <[Run.id run := run]> (State.runs s) |>);
      _ ← assign (λ s, s <| State.approvals :=
            <[Approval.id approval := approval]> (State.approvals s) |>);
      _ ← assign (append_events (Run.id run) events);
      _ ← record_execution_command command (OutcomeApproval approval);
      mret approval
  end.

(** [get_approval]. *)
Definition get_approval (id : ApprovalId) : method State.t StoreError Approval.t :=
  s ← self; lift (ok_or NotFound (State.approvals s !! id)).

(** [decide_approval]. *)
Definition decide_approval (approval : Approval.t) (expected_approval_revision : Z)
    (run_update : option (Run.t * Z * NewRunEvent.t)) (command : MutationCommand.t) :
    method State.t StoreError Approval.t :=
  prior ← prior_execution_command command;
  match prior with
  | Some outcome => lift (approval_outcome outcome)
  | None =>
      s ← self;
      current ← lift (ok_or NotFound (State.approvals s !! Approval.id approval));
      _ ← throw_if ((Approval.revision current != expected_approval_revision)
                    || (Approval.revision approval != u64_add expected_approval_revision 1))
            Conflict;
      _ ← match run_update with
          | Some (run, expected_run_revision, _) =>
              current_run ← lift (ok_or NotFound (State.runs s !! Run.id run));
              throw_if (run_conflict current_run run expected_run_revision
                        || (Run.id run != Approval.run_id approval)) Conflict
          | None => mret tt
          end;
      _ ← assign (λ s, s <| State.approvals :=
            <[Approval.id approval := approval]> (State.approvals s) |>);
      _ ← match run_update with
          | Some (run, _, event) =>
              _ ← assign (λ s, s <| State.runs := <[Run.id run := run]> (State.runs s) |>);
              assign (append_events (Run.id run) [event])
          | None => mret tt
          end;
      _ ← record_execution_command command (OutcomeApproval approval);
      mret approval
  end.

(** [create_effect]. *)
Definition create_effect (effect : SideEffect.t) (event : NewRunEvent.t) :
    method State.t StoreError unit :=
  s ← self;
  _ ← throw_if (is_some (State.effects s !! SideEffect.id effect)) Conflict;
  _ ← throw_if (is_none (State.runs s !! SideEffect.run_id effect)) NotFound;
  _ ← assign (λ s, s <| State.effects :=
        <[SideEffect.id effect := effect]> (State.effects s) |>);
  assign (append_events (SideEffect.run_id effect) [event]).

(** [get_effect]. *)
Definition get_effect (id : EffectId) : method State.t StoreError SideEffect.t :=
  s ← self; lift (ok_or NotFound (State.effects s !! id)).

(** [save_effect]. *)
Definition save_effect (effect : SideEffect.t) (expected_revision : Z) :
    method State.t StoreError unit :=
  s ← self;
  current ← lift (ok_or NotFound (State.effects s !! SideEffect.id effect));
  _ ← throw_if ((SideEffect.revision current != expected_revision)
                || (SideEffect.revision effect != u64_add expected_revision 1)) Conflict;
  assign (λ s, s <| State.effects :=
    <[SideEffect.id effect := effect]> (State.effects s) |>).

(** [interrupt_effect]. *)
Definition interrupt_effect (effect : SideEffect.t) (expected_effect_revision : Z)
    (run : Run.t) (expected_run_revision : Z) (events : list NewRunEvent.t) :
    method State.t StoreError unit :=
  s ← self;
  current_effect ← lift (ok_or NotFound (State.effects s !! SideEffect.id effect));
  current_run ← lift (ok_or NotFound (State.runs s !! Run.id run));
  _ ← throw_if ((SideEffect.revision current_effect != expected_effect_revision)
                || (SideEffect.revision effect != u64_add expected_effect_revision 1)
                || run_conflict current_run run expected_run_revision
                || (SideEffect.run_id effect != Run.id run)) Conflict;
  _ ← assign (λ s, s <| State.effects :=
        <[SideEffect.id effect := effect]> (State.effects s) |>);
  _ ← assign (λ s, s <| State.runs := <[Run.id run := run]> (State.runs s) |>);
  assign (append_events (Run.id run) events).

(** [events_since]. *)
Definition events_since (run_id : RunId) (after_sequence limit : Z) :
    method State.t StoreError (list RunEvent.t) :=
  s ← self;
  _ ← throw_if (is_none (State.runs s !! run_id)) NotFound;
  mret (take (Z.to_nat limit)
          (filter (λ event, after_sequence < RunEvent.sequence event)
             (default [] (State.events s !! run_id)))).

(** [sort_by_key] on a key of a time and an identifier. *)
Definition key_leb {A} (time : A → Z) (id : A → str) (x y : A) : bool :=
  if time x =? time y then str_leb (id x) (id y) else time x <? time y.
Definition key_le {A} (time : A → Z) (id : A → str) (x y : A) : Prop :=
  key_leb time id x y = true.
#[global] Instance key_le_dec {A} (time : A → Z) (id : A → str) :
  RelDecision (key_le time id).
Proof. intros x y. unfold key_le. apply _. Defined.
Definition sort_by_key {A} (time : A → Z) (id : A → str) (l : list A) : list A :=
  merge_sort (key_le time id) l.

(** The values of a [HashMap], in the order of its iterator. The order is not
    specified; every use sorts by a key that contains the identifier. *)
Definition values {K A} `{Countable K} (m : gmap K A) : list A := (map_to_list m).*2.

(** [list_recoverable_host_effects]. *)
Definition is_recoverable_host_effect (runs : gmap RunId Run.t) (effect : SideEffect.t) : bool :=
  match SideEffect.kind effect with
  | EffectKind.FileWrite | EffectKind.ProcessExecution => true | _ => false end
  && match SideEffect.state effect with
     | EffectState.Prepared | EffectState.Executing => true | _ => false end
  && match runs !! SideEffect.run_id effect with
     | Some run => Run.is_work_bound_to WorkExecutionBackend.HostDirect run
     | None => false
     end.
Definition list_recoverable_host_effects (limit : Z) :
    method State.t StoreError (list SideEffect.t) :=
  _ ← throw_if (negb (in_range 1 1000 limit)) (Internal (lit "invalid recovery limit"));
  s ← self;
  mret (take (Z.to_nat limit)
          (sort_by_key SideEffect.created_at (λ e, as_str (SideEffect.id e))
             (filter (λ e, is_recoverable_host_effect (State.runs s) e = true)
                (values (State.effects s))))).

(** [list_recoverable_host_runs]. *)
Definition is_recoverable_host_run (run : Run.t) : bool :=
  Run.is_work_bound_to WorkExecutionBackend.HostDirect run
  && negb (RunState.is_terminal (Run.state run)).
Definition list_recoverable_host_runs (limit : Z) : method State.t StoreError (list Run.t) :=
  _ ← throw_if (negb (in_range 1 1000 limit)) (Internal (lit "invalid recovery limit"));
  s ← self;
  mret (take (Z.to_nat limit)
          (sort_by_key Run.created_at (λ r, as_str (Run.id r))
             (filter (λ r, is_recoverable_host_run r = true) (values (State.runs s))))).

(** [list_host_work_runs]: newest first, [Reverse(run.updated_at)]. *)
Definition list_host_work_runs (limit : Z) (thread_id : option ThreadId) :
    method State.t StoreError (list Run.t) :=
  _ ← throw_if (negb (in_range 1 100 limit)) (Internal (lit "invalid Host Work list limit"));
  s ← self;
  mret (take (Z.to_nat limit)
          (sort_by_key (λ r, - Run.updated_at r) (λ r, as_str (Run.id r))
             (filter (λ r, Run.is_work_bound_to WorkExecutionBackend.HostDirect r
                           && match thread_id with
                              | Some thread_id => Run.thread_id r == thread_id
                              | None => true
                              end = true)
                (values (State.runs s))))).

(** [Iterator::max_by_key]: the last of the greatest elements. *)
Definition max_by_key {A} (leb : A → A → bool) (l : list A) : option A :=
  foldl (λ best x, match best with
                   | None => Some x
                   | Some b => if leb b x then Some x else Some b
                   end) None l.

(** [pending_approval_for_run]. *)
Definition pending_approval_for_run (run_id : RunId) :
    method State.t StoreError (option Approval.t) :=
  s ← self;
  _ ← throw_if (is_none (State.runs s !! run_id)) NotFound;
  mret (max_by_key (key_leb Approval.created_at (λ a, as_str (Approval.id a)))
          (filter (λ a, (Approval.run_id a == run_id)
                        && (Approval.status a == ApprovalStatus.Pending) = true)
             (values (State.approvals s)))).
End InMemory.

#[export] Instance memory_store : ExecutionStore State.t := {|
  resolve_execution_mutation := prior_execution_command;
  create_run := InMemory.create_run;
  get_run := InMemory.get_run;
  save_run := InMemory.save_run;
  create_approval := InMemory.create_approval;
  get_approval := InMemory.get_approval;
  decide_approval := InMemory.decide_approval;
  create_effect := InMemory.create_effect;
  get_effect := InMemory.get_effect;
  list_recoverable_host_effects := InMemory.list_recoverable_host_effects;
  list_recoverable_host_runs := InMemory.list_recoverable_host_runs;
  list_host_work_runs := InMemory.list_host_work_runs;
  pending_approval_for_run := InMemory.pending_approval_for_run;
  save_effect := InMemory.save_effect;
  interrupt_effect := InMemory.interrupt_effect;
  events_since := InMemory.events_since;
|}.

(** ** Every operation is all or nothing *)

Section store_atomic.
Import InMemory.

Lemma prior_execution_command_readonly c : readonly (prior_execution_command c).
Proof.
  intros s. unfold prior_execution_command, mbind, method_bind, self.
  repeat case_match; done.
Qed.
Hint Resolve prior_execution_command_readonly : methods.
Lemma record_execution_command_infallible c o : infallible (record_execution_command c o).
Proof. apply infallible_assign. Qed.
Hint Resolve record_execution_command_infallible : methods.

(** The store operations that write, as one type. *)
Inductive store_op : Type :=
| OpCreateRun (run : Run.t) (event : NewRunEvent.t) (command : MutationCommand.t)
| OpSaveRun (run : Run.t) (expected : Z) (event : NewRunEvent.t) (command : MutationCommand.t)
| OpCreateApproval (approval : Approval.t) (run : Run.t) (expected : Z)
    (events : list NewRunEvent.t) (command : MutationCommand.t)
| OpDecideApproval (approval : Approval.t) (expected : Z)
    (run_update : option (Run.t * Z * NewRunEvent.t)) (command : MutationCommand.t)
| OpCreateEffect (effect : SideEffect.t) (event : NewRunEvent.t)
| OpSaveEffect (effect : SideEffect.t) (expected : Z)
| OpInterruptEffect (effect : SideEffect.t) (expected : Z) (run : Run.t)
    (expected_run : Z) (events : list NewRunEvent.t).

Definition store_apply (op : store_op) : method State.t StoreError unit :=
  match op with
  | OpCreateRun run event command => discard (create_run run event command)
  | OpSaveRun run expected event command => discard (save_run run expected event command)
  | OpCreateApproval approval run expected events command =>
      discard (create_approval approval run expected events command)
  | OpDecideApproval approval expected run_update command =>
      discard (decide_approval approval expected run_update command)
  | OpCreateEffect effect event => create_effect effect event
  | OpSaveEffect effect expected => save_effect effect expected
  | OpInterruptEffect effect expected run expected_run events =>
      interrupt_effect effect expected run expected_run events
  end.

Lemma store_apply_atomic op : atomic (store_apply op).
Proof.
  destruct op; cbn [store_apply]; try apply discard_atomic;
    unfold create_run, save_run, create_approval, decide_approval, create_effect,
      save_effect, interrupt_effect;
    repeat match goal with
    | |- atomic (prior_execution_command _ ≫= _) =>
        apply atomic_bind; [auto with methods|intros [?|]; [apply lift_atomic|]]
    end; try (solve_atomic); destruct run_update as [[[run expected_run] event]|]; solve_atomic.
Qed.
End store_atomic.

(** ** What an operation does to the runs *)

Definition op_run_update (op : store_op) : option (Run.t * Z) :=
  match op with
  | OpSaveRun run expected _ _ => Some (run, expected)
  | OpCreateApproval _ run expected _ _ => Some (run, expected)
  | OpDecideApproval _ _ (Some (run, expected, _)) _ => Some (run, expected)
  | OpInterruptEffect _ _ run expected _ => Some (run, expected)
  | _ => None
  end.

Inductive runs_effect (op : store_op) (s s' : State.t) : Prop :=
| runs_same : State.runs s' = State.runs s → runs_effect op s s'
| runs_created run event command :
    op = OpCreateRun run event command → State.runs s !! Run.id run = None →
    State.runs s' = <[Run.id run := run]> (State.runs s) → runs_effect op s s'
| runs_updated run expected current :
    op_run_update op = Some (run, expected) →
    State.runs s !! Run.id run = Some current →
    InMemory.run_conflict current run expected = false →
    State.runs s' = <[Run.id run := run]> (State.runs s) → runs_effect op s s'.

Lemma prior_bind_Ok {A} c (k : option ExecutionMutationOutcome → method State.t StoreError A)
    s s' a :
  (prior_execution_command c ≫= k) s = (s', Ok a) →
  ∃ o, prior_execution_command c s = (s, Ok o) ∧ k o s = (s', Ok a).
Proof.
  intros (s1 & o & H1 & H2)%method_bind_Ok. exists o.
  pose proof (prior_execution_command_readonly c s) as Hr. rewrite H1 in Hr. cbn in Hr. by subst.
Qed.

Lemma store_apply_runs op s s' : store_apply op s = (s', Ok tt) → runs_effect op s s'.
Proof.
  intros H. destruct op; cbn [store_apply] in H; try (apply discard_Ok in H as [a H]).
  1-4: unfold InMemory.create_run, InMemory.save_run, InMemory.create_approval,
      InMemory.decide_approval in H;
    apply prior_bind_Ok in H as ([o|] & _ & H);
    [cbv [lift] in H; simplify_eq; by apply runs_same|].
  - run_in H. eapply runs_created; [done| |done]. unfold is_some in *. by case_match.
  - run_in H. by eapply runs_updated.
  - run_in H. by eapply runs_updated.
  - destruct run_update as [[[run er] event]|]; run_in H; bool_facts;
      [by eapply runs_updated|by apply runs_same].
  - unfold InMemory.create_effect in H. run_in H. by apply runs_same.
  - unfold InMemory.save_effect in H. run_in H. by apply runs_same.
  - unfold InMemory.interrupt_effect in H. run_in H. bool_facts. by eapply runs_updated.
Qed.

(** ** Interleaved clients

    Clients share the store and nothing else. A client reads a run, prepares its
    successor with a domain transition and submits it with the revision it read;
    any number of other operations may commit in between. [seen] collects every
    snapshot any client ever read. *)
Record world : Type := mk_world { store : State.t; seen : list Run.t }.

Inductive world_step : world → world → Prop :=
| world_read s rs i r :
    InMemory.get_run i s = (s, Ok r) → world_step (mk_world s rs) (mk_world s (r :: rs))
| world_create s rs run event command s' res :
    run_created run → store_apply (OpCreateRun run event command) s = (s', res) →
    world_step (mk_world s rs) (mk_world s' rs)
| world_commit s rs op run run' s' res :
    run ∈ rs → run_step run run' → op_run_update op = Some (run', Run.revision run) →
    store_apply op s = (s', res) → world_step (mk_world s rs) (mk_world s' rs)
| world_other s rs op s' res :
    op_run_update op = None → (∀ run event command, op ≠ OpCreateRun run event command) →
    store_apply op s = (s', res) → world_step (mk_world s rs) (mk_world s' rs).

Definition world_reachable (w : world) : Prop := rtc world_step (mk_world State.empty []) w.

Definition world_inv (w : world) : Prop :=
  (∀ i r, State.runs (store w) !! i = Some r → Run.id r = i ∧ run_reachable r) ∧
  (∀ r0, r0 ∈ seen w → ∃ r, State.runs (store w) !! Run.id r0 = Some r ∧
     run_reachable r0 ∧ rtc run_step r0 r).

Lemma run_reachable_revision r : run_reachable r → is_u64 (Run.revision r).
Proof.
  intros (r0 & Hc & [n Hn]%rtc_nsteps_1). unfold fits.
  rewrite (run_steps_revision r0 n r); [|destruct Hc; done|done].
  destruct Hc; cbn; unfold u64_max; lia.
Qed.

Lemma run_reachable_step r r' : run_reachable r → run_step r r' → run_reachable r'.
Proof. intros (r0 & Hc & Hs) H. exists r0. split; [done|]. by eapply rtc_r. Qed.

(** The revision identifies the version, up to the saturation point that the
    optimistic test refuses. *)
Lemma commit_current run run' current :
  run_reachable run → rtc run_step run current → run_step run run' →
  InMemory.run_conflict current run' (Run.revision run) = false → current = run.
Proof.
  intros Hr Hs Hstep Hc. apply run_reachable_revision in Hr.
  apply orb_false_iff in Hc as [Hc1 Hc2].
  apply negb_false_iff, bool_decide_eq_true in Hc1.
  apply negb_false_iff, bool_decide_eq_true in Hc2. unfold u64_add in Hc2.
  assert (Run.revision run' = saturating_add u64_max (Run.revision run) 1) as Hrev'.
  { by destruct Hstep as [next now ?? (_ & _ & ->)%run_transition_Ok]. }
  apply rtc_nsteps_1 in Hs as [n Hs].
  pose proof (run_steps_revision run n current ltac:(apply Hr) Hs) as Hrev.
  unfold fits, saturating_add, u64_max in *.
  assert (n = 0%nat) as ->; [|by inversion Hs].
  destruct (decide (Run.revision run = 18446744073709551615)) as [E|E]; [|lia].
  rewrite E in *. rewrite Hrev' in Hc2. by vm_compute in Hc2.
Qed.

Lemma world_inv_insert s s' rs run :
  world_inv (mk_world s rs) → run_reachable run →
  State.runs s' = <[Run.id run := run]> (State.runs s) →
  (∀ current, State.runs s !! Run.id run = Some current → rtc run_step current run) →
  world_inv (mk_world s' rs).
Proof.
  intros [H1 H2] Hr Hs Hcur. split; cbn in *.
  - intros i r. rewrite Hs, lookup_insert_Some. naive_solver.
  - intros r0 Hin. destruct (H2 r0 Hin) as (r & Hl & Hreach & Hsteps).
    rewrite Hs. destruct (decide (Run.id run = Run.id r0)) as [E|E].
    + exists run. rewrite E, lookup_insert_eq. split_and!; [done..|].
      etrans; [done|]. apply Hcur. by rewrite E.
    + exists r. by rewrite lookup_insert_ne.
Qed.

Lemma world_inv_step w w' : world_inv w → world_step w w' → world_inv w'.
Proof.
  intros Hi Hs. destruct Hs as [s rs i r H|s rs run event command s' res Hc H
    |s rs op run run' s' res Hin Hstep Hop H|s rs op s' res Hop Hne H].
  - unfold InMemory.get_run in H. run_in H. destruct Hi as [H1 H2]. split; [done|].
    cbn in *. intros r0 [->|Hin]%elem_of_cons; [|by apply H2].
    destruct (H1 _ _ ltac:(done)) as [<- Hr]. exists r. done.
  - destruct res as [[]|e]; [|by apply store_apply_atomic in H as ->].
    apply store_apply_runs in H as [Hs|run0 ev0 c0 [= <- <- <-] Hn Hs|? ? ? [=]].
    + unfold world_inv in *; cbn in *. by rewrite Hs.
    + eapply world_inv_insert; [done| |done|congruence]. by exists run.
  - destruct res as [[]|e]; [|by apply store_apply_atomic in H as ->].
    apply store_apply_runs in H as [Hs|run0 ev0 c0 -> Hn Hs|run0 expected current Hop' Hl Hcf Hs].
    + unfold world_inv in *; cbn in *. by rewrite Hs.
    + done.
    + rewrite Hop in Hop'. injection Hop' as <- <-.
      destruct (proj2 Hi run Hin) as (r & Hr & Hreach & Hsteps). cbn in Hr.
      assert (Run.id run' = Run.id run) as Hid by (by apply run_step_same in Hstep as [? _]).
      rewrite Hid in Hl. rewrite Hl in Hr. injection Hr as <-.
      rewrite (commit_current run run' current Hreach Hsteps Hstep Hcf) in *.
      eapply world_inv_insert; [done|by eapply run_reachable_step|done|].
      rewrite Hid, Hl. intros ? [= <-]. by apply rtc_once.
  - destruct res as [[]|e]; [|by apply store_apply_atomic in H as ->].
    apply store_apply_runs in H as [Hs|run0 ev0 c0 -> Hn Hs|? ? ? Hop' _ _ _].
    + unfold world_inv in *; cbn in *. by rewrite Hs.
    + by destruct (Hne run0 ev0 c0).
    + congruence.
Qed.

Lemma world_reachable_inv w : world_reachable w → world_inv w.
Proof.
  unfold world_reachable. intros H.
  assert (Hi : world_inv (mk_world State.empty [])).
  { split; cbn; [done|]. intros r0 Hin. by apply elem_of_nil in Hin. }
  revert Hi. induction H as [|w1 w2 w3 Hs _ IH]; [done|].
  intros Hi. apply IH. by eapply world_inv_step.
Qed.

(** ** Audit streams *)

Definition stream_ok (i : RunId) (es : list RunEvent.t) : Prop :=
  ∀ k e, es !! k = Some e →
    RunEvent.sequence e = Z.min u64_max (Z.of_nat k + 1) ∧ RunEvent.run_id e = i.
Definition audit_ok (s : State.t) : Prop :=
  ∀ i es, State.events s !! i = Some es → stream_ok i es.

Lemma push_events_ok i new es : stream_ok i es → stream_ok i (push_events i new es).
Proof.
  revert es. induction new as [|e new IH]; intros es H; [done|]. cbn. apply IH.
  intros k x. rewrite lookup_app_Some. intros [Hk|[Hk Hx]]; [by apply H|].
  destruct (k - length es)%nat eqn:E; [|done]. cbn in Hx. simplify_eq. cbn.
  unfold saturating_add. split; [|done]. f_equal. lia.
Qed.
Lemma push_events_app i new es : ∃ more, push_events i new es = es ++ more.
Proof.
  revert es. induction new as [|e new IH]; intros es; [exists []; by rewrite app_nil_r|].
  cbn. destruct (IH (es ++ [RunEvent.mk (saturating_add u64_max (Z.of_nat (length es)) 1) i
    (NewRunEvent.occurred_at e) (NewRunEvent.kind e)])) as [more ->].
  eexists. by rewrite <- app_assoc.
Qed.

#[local] Arguments push_events : simpl never.

(** An operation leaves every stream as it was or appends to one. *)
Definition events_extend (s s' : State.t) : Prop :=
  State.events s' = State.events s ∨
  ∃ i new, State.events s' =
    <[i := push_events i new (default [] (State.events s !! i))]> (State.events s).

Lemma store_apply_events op s s' :
  store_apply op s = (s', Ok tt) → events_extend s s'.
Proof.
  intros H. destruct op; cbn [store_apply] in H; try (apply discard_Ok in H as [a H]).
  1-4: unfold InMemory.create_run, InMemory.save_run, InMemory.create_approval,
      InMemory.decide_approval in H;
    apply prior_bind_Ok in H as ([o|] & _ & H);
    [cbv [lift] in H; simplify_eq; by left|].
  4: destruct run_update as [[[run er] event]|].
  all: try unfold InMemory.create_effect, InMemory.save_effect,
    InMemory.interrupt_effect in H; run_in H; try (by left);
    right; eexists _, _; reflexivity.
Qed.

Lemma audit_ok_step op s s' res :
  audit_ok s → store_apply op s = (s', res) → audit_ok s'.
Proof.
  intros Ha H. destruct res as [[]|e]; [|by apply store_apply_atomic in H as ->].
  apply store_apply_events in H as [He|(i & new & He)]; intros j es; rewrite He; [apply Ha|].
  rewrite lookup_insert_Some. intros [[<- <-]|[_ H]]; [|by apply Ha].
  apply push_events_ok. destruct (State.events s !! i) eqn:E; cbn; [by apply Ha|done].
Qed.

(** Runs operations in order, ignoring refusals. *)
Definition store_run (ops : list store_op) (s : State.t) : State.t :=
  foldl (λ s op, (store_apply op s).1) s ops.

Lemma store_run_audit ops s : audit_ok s → audit_ok (store_run ops s).
Proof.
  revert s. induction ops as [|op ops IH]; intros s H; [done|]. cbn. apply IH.
  destruct (store_apply op s) eqn:E. by eapply audit_ok_step.
Qed.

Definition stream (s : State.t) (i : RunId) : list RunEvent.t :=
  default [] (State.events s !! i).

(** A cursor on contiguous sequences selects a suffix. *)
Lemma cursor_suffix (b after : Z) (es : list RunEvent.t) :
  (∀ k e, es !! k = Some e → RunEvent.sequence e = b + Z.of_nat k + 1) →
  b ≤ after →
  filter (λ e, after < RunEvent.sequence e) es = drop (Z.to_nat (after - b)) es.
Proof.
  revert b. induction es as [|e es IH]; intros b Hs Hb; [by rewrite drop_nil|].
  pose proof (Hs 0%nat e eq_refl) as H0.
  assert (Hs' : ∀ k x, es !! k = Some x → RunEvent.sequence x = b + 1 + Z.of_nat k + 1).
  { intros k x Hx. rewrite (Hs (S k) x Hx). lia. }
  rewrite filter_cons. destruct (decide (b = after)) as [->|Hne].
  - rewrite decide_True by lia. rewrite Z.sub_diag. change (drop (Z.to_nat 0) (e :: es)) with (e :: es).
    f_equal. apply filter_all.
    intros x [k Hk]%list_elem_of_lookup. rewrite (Hs' k x Hk). lia.
  - rewrite decide_False by lia. rewrite (IH (b + 1) Hs') by lia.
    replace (Z.to_nat (after - b)) with (S (Z.to_nat (after - (b + 1)))) by lia. done.
Qed.

Lemma events_since_page s i after limit page :
  audit_ok s → Z.of_nat (length (stream s i)) ≤ u64_max → 0 ≤ after →
  InMemory.events_since i after limit s = (s, Ok page) →
  page = take (Z.to_nat limit) (drop (Z.to_nat after) (stream s i)).
Proof.
  intros Ha Hl Hz H. unfold InMemory.events_since in H. run_in H.
  fold (stream s i). rewrite (cursor_suffix 0 after (stream s i)); [by rewrite Z.sub_0_r| |lia].
  intros k e Hk. unfold stream in *. destruct (State.events s !! i) as [es|] eqn:E; [|done].
  cbn in *. destruct (Ha i es E k e Hk) as [-> _]. apply lookup_lt_Some in Hk. lia.
Qed.

(** ** Bounded recovery lists *)

Section recovery.
Import InMemory.

Lemma key_le_total {A} time (id : A → str) : Total (key_le time id).
Proof.
  intros x y. unfold key_le, key_leb. destruct (time x =? time y) eqn:E;
    rewrite Z.eqb_sym, E; [apply str_leb_total|lia].
Qed.
Lemma key_le_trans {A} time (id : A → str) : Transitive (key_le time id).
Proof.
  intros x y z. unfold key_le, key_leb.
  destruct (time x =? time y) eqn:E1, (time y =? time z) eqn:E2, (time x =? time z) eqn:E3;
    try lia. apply str_leb_trans.
Qed.

Lemma sort_by_key_perm {A} time (id : A → str) l : sort_by_key time id l ≡ₚ l.
Proof. apply merge_sort_Permutation. Qed.
Lemma sort_by_key_sorted {A} time (id : A → str) l :
  StronglySorted (key_le time id) (sort_by_key time id l).
Proof.
  apply Sorted_StronglySorted; [apply key_le_trans|].
  apply Sorted_merge_sort, key_le_total.
Qed.

(** Truncating a sorted list keeps the least elements. *)
Lemma sort_take_least {A} time (id : A → str) (l : list A) n :
  let page := take n (sort_by_key time id l) in
  length page = Nat.min n (length l) ∧
  (∀ x, x ∈ page → x ∈ l) ∧ StronglySorted (key_le time id) page ∧
  ∀ x, x ∈ l → x ∉ page → ∀ y, y ∈ page → key_le time id y x.
Proof.
  cbv zeta. pose proof (sort_by_key_sorted time id l) as Hs.
  pose proof (sort_by_key_perm time id l) as Hp.
  rewrite <- (take_drop n (sort_by_key time id l)) in Hs.
  split_and!.
  - by rewrite length_take, Hp.
  - intros x Hx. rewrite <- Hp. apply elem_of_take in Hx as (k & Hk & _).
    by eapply list_elem_of_lookup_2.
  - by apply StronglySorted_app_1_l in Hs.
  - intros x Hx Hn y Hy. rewrite <- Hp, <- (take_drop n (sort_by_key time id l)) in Hx.
    apply elem_of_app in Hx as [Hx|Hx]; [done|]. by eapply StronglySorted_app_1_elem_of.
Qed.
End recovery.

Lemma elem_of_values {K A} `{Countable K} (m : gmap K A) x :
  x ∈ InMemory.values m ↔ ∃ k, m !! k = Some x.
Proof.
  unfold InMemory.values. rewrite list_elem_of_fmap. split.
  - intros ([k y] & -> & Hy). exists k. by apply elem_of_map_to_list.
  - intros [k Hk]. exists (k, x). by rewrite elem_of_map_to_list.
Qed.
(** The values of a map keyed by their own identifier have distinct identifiers. *)
Lemma values_keys_NoDup {K A} `{Countable K} (f : A → K) (m : gmap K A) :
  (∀ i x, m !! i = Some x → f x = i) → NoDup (f <$> InMemory.values m).
Proof.
  intros Hm. assert (E : f <$> InMemory.values m = (map_to_list m).*1).
  { unfold InMemory.values. rewrite <- list_fmap_compose. apply list_fmap_ext.
    intros k [i x] Hk. cbn. apply list_elem_of_lookup_2, elem_of_map_to_list in Hk. by apply Hm. }
  rewrite E. apply NoDup_fst_map_to_list.
Qed.

(** ** Properties *)

(** C1. Concurrent clients never lose or corrupt a run. However reads and commits
    of any number of clients interleave, every stored run is reachable in the run
    lifecycle, every snapshot a client ever read leads to the stored run by legal
    transitions, and a commit prepared from a snapshot that is no longer current
    leaves the runs as they are. *)
Theorem concurrent_commits_linearize w :
  world_reachable w →
  (∀ i r, State.runs (store w) !! i = Some r → Run.id r = i ∧ run_reachable r) ∧
  (∀ r0, r0 ∈ seen w →
     ∃ r, State.runs (store w) !! Run.id r0 = Some r ∧ rtc run_step r0 r ∧
       (r ≠ r0 → ∀ op r' s' res,
          run_step r0 r' → op_run_update op = Some (r', Run.revision r0) →
          store_apply op (store w) = (s', res) →
          State.runs s' = State.runs (store w))).
Proof.
  intros [H1 H2]%world_reachable_inv. split; [done|].
  intros r0 Hin. destruct (H2 r0 Hin) as (r & Hl & Hr & Hs). exists r. split_and!; [done..|].
  intros Hne op r' s' res Hstep Hop H.
  destruct res as [[]|e]; [|by apply store_apply_atomic in H as ->].
  apply store_apply_runs in H as [Hs'|run ev c -> _ _|run expected cur Hop' Hl' Hc _];
    [done|done|].
  rewrite Hop in Hop'. injection Hop' as <- <-.
  assert (Run.id r' = Run.id r0) as Hid by (by apply run_step_same in Hstep as [? _]).
  rewrite Hid, Hl in Hl'. injection Hl' as <-.
  by destruct Hne; eapply commit_current.
Qed.

(** Two clients read the same queued run; the first plans it, the second one's
    cancellation is stale. *)
Definition demo_command (k : str) : MutationCommand.t :=
  MutationCommand.mk (lit "test") k [].
Definition demo_event : NewRunEvent.t := NewRunEvent.mk 11 RunCreated.
Definition demo_ops : list store_op :=
  [OpCreateRun demo_run demo_event (demo_command (lit "create"));
             OpSaveRun demo_run_planned 0 demo_event (demo_command (lit "plan"))].
Definition demo_store : State.t := store_run demo_ops State.empty.

Lemma demo_world_reachable : world_reachable (mk_world demo_store [demo_run]).
Proof.
  eapply rtc_l; [eapply (world_create _ _ demo_run demo_event (demo_command (lit "create")));
    [constructor|reflexivity]|].
  eapply rtc_l; [eapply (world_read _ _ (Run.id demo_run)); reflexivity|].
  apply rtc_once.
  eapply (world_commit _ _ (OpSaveRun demo_run_planned 0 demo_event (demo_command (lit "plan")))
    demo_run demo_run_planned); [constructor| |reflexivity|vm_compute; reflexivity].
  apply (run_step_transition RunState.Planning 11). reflexivity.
Qed.

Lemma concurrent_commits_linearize_witness :
  ∃ r, State.runs demo_store !! Run.id demo_run = Some r ∧ rtc run_step demo_run r.
Proof.
  destruct (proj2 (concurrent_commits_linearize _ demo_world_reachable) demo_run)
    as (r & H1 & H2 & _); [constructor|]. exists r. split; [exact H1|exact H2].
Defined.

(** The audit stream of a run is gap-free and its cursor is exact: after any
    operations, stored events carry the sequences 1, 2, 3, ... and their run, and
    a page read after a cursor is the next events of the stream, so a client that
    continues from the last sequence it saw misses nothing and sees nothing
    twice. *)
Theorem audit_stream_pages ops i after limit page :
  let s := store_run ops State.empty in
  Z.of_nat (length (stream s i)) ≤ u64_max → 0 ≤ after →
  InMemory.events_since i after limit s = (s, Ok page) →
  page = take (Z.to_nat limit) (drop (Z.to_nat after) (stream s i)) ∧
  ∀ k e, page !! k = Some e →
    RunEvent.sequence e = after + Z.of_nat k + 1 ∧ RunEvent.run_id e = i.
Proof.
  intros s Hl Ha H.
  assert (Hok : audit_ok s) by (by apply store_run_audit).
  pose proof (events_since_page _ _ _ _ _ Hok Hl Ha H) as ->. split; [done|].
  intros k e [Hk _]%lookup_take_Some. rewrite lookup_drop in Hk.
  pose proof (lookup_lt_Some _ _ _ Hk) as Hlt. unfold stream in *.
  destruct (State.events s !! i) as [es|] eqn:E; [|done].
  destruct (Hok i es E _ _ Hk) as [-> ->]. cbn in *. split; [lia|done].
Qed.

Definition demo_page : list RunEvent.t := drop 1 (stream demo_store (Run.id demo_run)).

Lemma audit_stream_pages_witness :
  length demo_page = 1%nat ∧
  ∀ k e, demo_page !! k = Some e →
    RunEvent.sequence e = 1 + Z.of_nat k + 1 ∧ RunEvent.run_id e = Run.id demo_run.
Proof.
  split; [vm_compute; reflexivity|].
  refine (proj2 (audit_stream_pages demo_ops (Run.id demo_run) 1 10 demo_page _ _ _)).
  - vm_compute. intros H; discriminate H.
  - lia.
  - vm_compute. reflexivity.
Defined.

(** Restart recovery sees what it must: the bounded list holds only stored,
    unfinished file and process effects of host-bound work, ordered by age, fills
    its limit when it can, and whatever it leaves out is younger than everything
    it returns. *)
Theorem recovery_lists_oldest_first limit s page :
  InMemory.list_recoverable_host_effects limit s = (s, Ok page) →
  let candidate e :=
    (∃ i, State.effects s !! i = Some e) ∧
    InMemory.is_recoverable_host_effect (State.runs s) e = true in
  let older := InMemory.key_le SideEffect.created_at (λ e, as_str (SideEffect.id e)) in
  (∀ e, e ∈ page → candidate e) ∧ StronglySorted older page ∧
  (length page ≤ Z.to_nat limit)%nat ∧
  (∀ e, candidate e → e ∉ page →
     length page = Z.to_nat limit ∧ ∀ e', e' ∈ page → older e' e).
Proof.
  intros H candidate older. unfold InMemory.list_recoverable_host_effects in H. run_in H.
  set (l := filter _ _) in *.
  destruct (sort_take_least SideEffect.created_at (λ e, as_str (SideEffect.id e)) l
    (Z.to_nat limit)) as (Hlen & Hin & Hs & Hout).
  assert (Hl : ∀ e, e ∈ l ↔ candidate e).
  { intros e. unfold l, candidate. rewrite list_elem_of_filter, elem_of_values. tauto. }
  split_and!; [naive_solver|done|lia|].
  intros e Hc Hn. split; [|by apply Hout; [apply Hl|]].
  rewrite Hlen. apply Nat.min_l. destruct (decide (length l ≤ Z.to_nat limit)%nat); [|lia].
  destruct Hn. rewrite take_ge; [|rewrite (sort_by_key_perm _ _ l); lia].
  rewrite (sort_by_key_perm _ _ l). by apply Hl.
Qed.

Definition demo_write (i : str) (now : Z) : SideEffect.t :=
  SideEffect.prepare (mk_id i) (Run.id demo_run) EffectKind.FileWrite (lit "report.md")
    Idempotency.NonIdempotent now.
Definition demo_recovery_store : State.t :=
  store_run [OpCreateEffect (demo_write (lit "effect-2") 30) demo_event;
             OpCreateEffect (demo_write (lit "effect-1") 20) demo_event] demo_store.

Lemma recovery_lists_oldest_first_witness :
  InMemory.key_le SideEffect.created_at (λ e, as_str (SideEffect.id e))
    (demo_write (lit "effect-1") 20) (demo_write (lit "effect-2") 30).
Proof.
  assert (H : InMemory.list_recoverable_host_effects 1 demo_recovery_store =
    (demo_recovery_store, Ok [demo_write (lit "effect-1") 20])) by (vm_compute; reflexivity).
  destruct (recovery_lists_oldest_first 1 demo_recovery_store _ H) as (_ & _ & _ & Hout).
  apply (Hout (demo_write (lit "effect-2") 30)).
  - split; [exists (mk_id (lit "effect-2")); vm_compute; reflexivity|vm_compute; reflexivity].
  - rewrite list_elem_of_singleton. intros E; discriminate E.
  - constructor.
Defined.
