(* ===== verification/Commands.v ===== *)
(** * Application errors and mutation commands

    What every use case shares: the error type with its conversions
    ([crates/grok-application/src/error.rs]), the identity of a mutation command
    ([mutations.rs]), and the calls of a port or a domain method from a handler. *)
From S2P Require Import Prelude RustText Ids Runs Approvals Effects PrivilegedOperations ConversationTurns Schedules Scheduler Workspace Preferences ExecutionStore.

(** ** Errors *)

(** The text of an error is kept as the value it renders. *)
Inductive message : Type :=
| Text (s : str)
| OfIdError (e : IdError)
| OfTransition (e : TransitionError)
| OfApproval (e : ApprovalError)
| OfEffect (e : EffectTransitionError)
| OfPrivileged (e : PrivilegedOperationError.t)
| OfWorkspace (e : WorkspaceError.t)
| OfSchedule (e : AutomationScheduleError.t)
| OfScheduler (e : AutomationSchedulerError.t)
| OfTurn (e : ConversationTurnError.t)
| OfDesktopPreferences (e : DesktopPreferencesError.t)
| OfChatModelPreference (e : ChatModelPreferenceError.t).

Module ApplicationError.
Inductive t : Type :=
| InvalidInput (m : message)
| NotFound
| Conflict
| InvalidState (m : message)
| Unavailable (m : message)
| Integrity (m : message)
| Unauthorized (m : message)
| Storage (m : message)
| DeadlineExceeded
| Cancelled.

(** The [From] conversions. *)
Definition from_id (e : IdError) : t := InvalidInput (OfIdError e).
Definition from_transition (e : TransitionError) : t := InvalidState (OfTransition e).
Definition from_approval (e : ApprovalError) : t := InvalidState (OfApproval e).
Definition from_effect (e : EffectTransitionError) : t := InvalidState (OfEffect e).
Definition from_privileged (e : PrivilegedOperationError.t) : t :=
  match e with
  | PrivilegedOperationError.TargetKindMismatch _ _
  | PrivilegedOperationError.InvalidTarget
  | PrivilegedOperationError.SelfSupersession
  | PrivilegedOperationError.InvalidLinks => InvalidInput (OfPrivileged e)
  | PrivilegedOperationError.InvalidPersistedState => Integrity (OfPrivileged e)
  | _ => InvalidState (OfPrivileged e)
  end.
Definition from_workspace (e : WorkspaceError.t) : t :=
  match e with
  | WorkspaceError.InvalidField _ _ => InvalidInput (OfWorkspace e)
  | _ => InvalidState (OfWorkspace e)
  end.
Definition from_schedule (e : AutomationScheduleError.t) : t := InvalidInput (OfSchedule e).
Definition from_scheduler (e : AutomationSchedulerError.t) : t :=
  match e with
  | AutomationSchedulerError.Schedule e => InvalidInput (OfSchedule e)
  | AutomationSchedulerError.InvalidExecutionText
  | AutomationSchedulerError.InvalidDecision
  | AutomationSchedulerError.InvalidLease => InvalidInput (OfScheduler e)
  | AutomationSchedulerError.InvalidPersistedState => Integrity (OfScheduler e)
  | _ => InvalidState (OfScheduler e)
  end.
Definition from_turn (e : ConversationTurnError.t) : t :=
  match e with
  | ConversationTurnError.InvalidField _ => InvalidInput (OfTurn e)
  | _ => InvalidState (OfTurn e)
  end.
Definition from_desktop_preferences (e : DesktopPreferencesError.t) : t :=
  InvalidState (OfDesktopPreferences e).
Definition from_chat_model_preference (e : ChatModelPreferenceError.t) : t :=
  match e with
  | ChatModelPreferenceError.InvalidModelId => InvalidInput (OfChatModelPreference e)
  | _ => InvalidState (OfChatModelPreference e)
  end.
Definition from_store (e : StoreError) : t :=
  match e with
  | ExecutionStore.NotFound => NotFound
  | ExecutionStore.Conflict => Conflict
  | ExecutionStore.Unavailable m => Unavailable (Text m)
  | Internal m => Storage (Text m)
  end.
End ApplicationError.

(** ** Mutation commands *)

(** What [hash_part] feeds to the hasher. *)
Definition hash_part (value : list Z) : list Z :=
  to_be_bytes (Z.of_nat (length value)) ++ value.

Definition command_preimage (scope : list Z) (parts : list (list Z)) : list Z :=
  hash_part scope ++ flat_map hash_part parts.

(** [mutation_command_bytes]. *)
Definition mutation_command_bytes `{Sha256} (scope key : str) (parts : list (list Z)) :
    result ApplicationError.t MutationCommand.t :=
  _ ← reject_if (is_empty key || (128 <? len key) || existsb is_control key)
        (ApplicationError.InvalidInput (Text (lit "a bounded idempotency key is required")));
  Ok (MutationCommand.mk scope key (sha256 (command_preimage (bytes scope) parts))).

(** [mutation_command]. *)
Definition mutation_command `{Sha256} (scope key : str) (parts : list str) :
    result ApplicationError.t MutationCommand.t :=
  mutation_command_bytes scope key (map bytes parts).

(** ** Calls from a handler *)

(** [store.op(..).await?]. *)
Definition call {S A} (m : method S StoreError A) : method S ApplicationError.t A :=
  λ s, let '(s', r) := m s in (s', map_err ApplicationError.from_store r).

(** A local copy of an entity moved by a domain method: the moved copy, or the
    error of the method. *)
Definition moved_copy {T E E' A} (from : E → E') (m : method T E A) (x : T) : result E' T :=
  let '(x', r) := m x in _ ← map_err from r; Ok x'.

(** ** Handlers, statement by statement *)

Lemma call_readonly {S A} (m : method S StoreError A) : readonly m → readonly (call m).
Proof. intros H s. unfold call. specialize (H s). by destruct (m s). Qed.
#[export] Hint Resolve call_readonly : methods.
Lemma call_Ok {S A} (m : method S StoreError A) s s' a :
  call m s = (s', Ok a) → m s = (s', Ok a).
Proof. unfold call. destruct (m s) as [s1 [x|e]]; cbn; naive_solver. Qed.
Lemma call_run {T A} (m : method T StoreError A) s s' a :
  m s = (s', Ok a) → call m s = (s', Ok a).
Proof. intros H. unfold call. by rewrite H. Qed.

Lemma moved_copy_Ok {T E E'} (from : E → E') (m : method T E unit) x x' :
  moved_copy from m x = Ok x' ↔ m x = (x', Ok tt).
Proof. unfold moved_copy. destruct (m x) as [y [[]|e]]; cbn; naive_solver. Qed.

(** Peels the reads and guards of a handler: each either ends it with the store
    untouched or yields its value. *)
Ltac peel H a Ha :=
  apply readonly_bind_inv in H; [|solve [auto with methods]];
  destruct H as [->|(a & Ha & H)]; [by left|].

(** The same peeling for a handler that succeeded. *)
Ltac peel_ok H a Ha :=
  apply readonly_bind_Ok in H; [|solve [auto with methods]]; destruct H as (a & Ha & H).

(** ** The hashed preimage determines the command input *)

Definition be_value (l : list Z) : Z := foldl (λ acc b, acc * 256 + b) 0 l.

Lemma to_be_bytes_value n : is_u64 n → be_value (to_be_bytes n) = n.
Proof.
  intros Hn. unfold fits, u64_max in Hn. unfold be_value, to_be_bytes. cbn [map foldl].
  set (p k := n / 2 ^ (8 * k)).
  assert (Hs : ∀ k, 0 ≤ k → p k = p (k + 1) * 256 + p k mod 256).
  { intros k Hk. unfold p. replace (8 * (k + 1)) with (8 * k + 8) by lia.
    rewrite Z.pow_add_r, <- Z.div_div by lia. change (2 ^ 8) with 256.
    pose proof (Z.div_mod (n / 2 ^ (8 * k)) 256). lia. }
  assert (H7 : 0 ≤ p 7 < 256).
  { unfold p. change (2 ^ (8 * 7)) with 72057594037927936. split; [apply Z.div_pos; lia|].
    apply Z.div_lt_upper_bound; lia. }
  assert (H0 : p 0 = n) by (unfold p; by rewrite Z.mul_0_r, Z.div_1_r).
  fold (p 7) (p 6) (p 5) (p 4) (p 3) (p 2) (p 1) (p 0). rewrite (Z.mod_small (p 7)) by lia.
  clearbody p.
  assert (p 0 = p 1 * 256 + p 0 mod 256) by (apply (Hs 0); lia).
  assert (p 1 = p 2 * 256 + p 1 mod 256) by (apply (Hs 1); lia).
  assert (p 2 = p 3 * 256 + p 2 mod 256) by (apply (Hs 2); lia).
  assert (p 3 = p 4 * 256 + p 3 mod 256) by (apply (Hs 3); lia).
  assert (p 4 = p 5 * 256 + p 4 mod 256) by (apply (Hs 4); lia).
  assert (p 5 = p 6 * 256 + p 5 mod 256) by (apply (Hs 5); lia).
  assert (p 6 = p 7 * 256 + p 6 mod 256) by (apply (Hs 6); lia).
  clear Hs. lia.
Qed.

Lemma to_be_bytes_inj n m : is_u64 n → is_u64 m → to_be_bytes n = to_be_bytes m → n = m.
Proof. intros Hn Hm H. by rewrite <- (to_be_bytes_value n), <- (to_be_bytes_value m), H. Qed.

(** A vector's length is a [usize]. *)
Definition fits_memory (l : list Z) : Prop := Z.of_nat (length l) ≤ usize_max.

Lemma hash_part_app_inj v1 v2 r1 r2 :
  fits_memory v1 → fits_memory v2 → hash_part v1 ++ r1 = hash_part v2 ++ r2 →
  v1 = v2 ∧ r1 = r2.
Proof.
  unfold fits_memory, hash_part. intros H1 H2 H. rewrite <- !app_assoc in H.
  apply app_inj_1 in H as [Hl H]; [|done].
  apply to_be_bytes_inj in Hl; [|unfold fits, usize_max in *; lia..].
  apply app_inj_1 in H as [-> ->]; [done|lia].
Qed.

Lemma hash_parts_inj ps1 ps2 :
  Forall fits_memory ps1 → Forall fits_memory ps2 →
  flat_map hash_part ps1 = flat_map hash_part ps2 → ps1 = ps2.
Proof.
  intros H1. revert ps2. induction H1 as [|p ps1 Hp _ IH]; intros ps2 H2 H; cbn in H.
  - by destruct ps2.
  - destruct H2 as [|p2 ps2 Hp2 H2]; [done|]. cbn in H.
    apply hash_part_app_inj in H as [-> H]; [|done..]. f_equal. by apply IH.
Qed.

(** ** Properties *)

(** C29. The fingerprint covers the whole input: two commands hash the same bytes
    only if they have the same scope and the same list of parts, so inputs cannot
    be confused by moving bytes between fields. *)
Theorem command_preimage_injective scope1 scope2 parts1 parts2 :
  fits_memory scope1 → fits_memory scope2 →
  Forall fits_memory parts1 → Forall fits_memory parts2 →
  command_preimage scope1 parts1 = command_preimage scope2 parts2 →
  scope1 = scope2 ∧ parts1 = parts2.
Proof.
  intros H1 H2 H3 H4 H. unfold command_preimage in H.
  apply hash_part_app_inj in H as [-> H]; [|done..]. split; [done|]. by apply hash_parts_inj.
Qed.

Lemma command_preimage_injective_witness :
  command_preimage (lit "create_run") [lit "p"; lit "t"]
  ≠ command_preimage (lit "create_run") [lit "pt"; []].
Proof.
  intros H.
  destruct (command_preimage_injective (lit "create_run") (lit "create_run")
    [lit "p"; lit "t"] [lit "pt"; []]) as [_ E];
    [vm_compute; intros E; discriminate E..| | |exact H|discriminate E].
  all: repeat constructor; vm_compute; intros E; discriminate E.
Defined.
