(* ===== verification/ExecutionServices.v ===== *)
(** * Execution services

    The use cases over the execution port
    ([crates/grok-application/src/runs.rs], [approvals.rs], [effects.rs],
    as [Commands] defines their errors and command identities). A handler reads the clock
    and the identifier generator at most once; their values are arguments. *)
From S2P Require Import Prelude RustText Ids Runs Approvals Effects ExecutionStore Commands.

(** ** Services *)

Section services.
Context {S : Type} {ES : ExecutionStore S} {SHA : Sha256}.

Definition incompatible_result : ApplicationError.t :=
  ApplicationError.Storage (Text (lit "execution command returned an incompatible result")).
Definition service_run_outcome (outcome : ExecutionMutationOutcome) :
    result ApplicationError.t Run.t :=
  match outcome with OutcomeRun run => Ok run | OutcomeApproval _ => Err incompatible_result end.
Definition service_approval_outcome (outcome : ExecutionMutationOutcome) :
    result ApplicationError.t Approval.t :=
  match outcome with
  | OutcomeApproval approval => Ok approval | OutcomeRun _ => Err incompatible_result end.

(** [RunService]. *)
Definition work_backend_key (backend : WorkExecutionBackend.t) : str :=
  match backend with
  | WorkExecutionBackend.HostDirect => lit "host_direct"
  | WorkExecutionBackend.IsolatedGuest => lit "isolated_guest"
  end.
Definition run_state_key (state : RunState.t) : str :=
  match state with
  | RunState.Queued => lit "queued"
  | RunState.Planning => lit "planning"
  | RunState.AwaitingApproval => lit "awaiting_approval"
  | RunState.Running => lit "running"
  | RunState.Paused => lit "paused"
  | RunState.Completed => lit "completed"
  | RunState.Failed => lit "failed"
  | RunState.Cancelled => lit "cancelled"
  | RunState.InterruptedNeedsReview => lit "interrupted_needs_review"
  end.

(** [RunService::create]. *)
Definition run_create (project_id thread_id key : str) (now : Z) (generated : str) :
    method S ApplicationError.t Run.t :=
  command ← lift (mutation_command (lit "create_run") key [project_id; thread_id]);
  prior ← call (resolve_execution_mutation command);
  match prior with
  | Some outcome => lift (service_run_outcome outcome)
  | None =>
      id ← lift (map_err ApplicationError.from_id (new_id generated));
      pid ← lift (map_err ApplicationError.from_id (new_id project_id));
      tid ← lift (map_err ApplicationError.from_id (new_id thread_id));
      call (create_run (Run.queued id pid tid now) (NewRunEvent.mk now RunCreated) command)
  end.

(** [RunService::create_work]. *)
Definition run_create_work (project_id thread_id : str) (backend : WorkExecutionBackend.t)
    (key : str) (now : Z) (generated : str) : method S ApplicationError.t Run.t :=
  command ← lift (mutation_command (lit "create_work_run") key
                    [project_id; thread_id; work_backend_key backend]);
  prior ← call (resolve_execution_mutation command);
  match prior with
  | Some outcome => lift (service_run_outcome outcome)
  | None =>
      id ← lift (map_err ApplicationError.from_id (new_id generated));
      pid ← lift (map_err ApplicationError.from_id (new_id project_id));
      tid ← lift (map_err ApplicationError.from_id (new_id thread_id));
      call (create_run (Run.queued_work id pid tid backend now)
              (NewRunEvent.mk now RunCreated) command)
  end.

(** [RunService::transition]. *)
Definition run_transition (id : RunId) (expected_revision : Z) (next : RunState.t)
    (key : str) (now : Z) : method S ApplicationError.t Run.t :=
  command ← lift (mutation_command (lit "transition_run") key
                    [as_str id; to_string expected_revision; run_state_key next]);
  prior ← call (resolve_execution_mutation command);
  match prior with
  | Some outcome => lift (service_run_outcome outcome)
  | None =>
      run ← call (get_run id);
      _ ← throw_if (Run.revision run != expected_revision) ApplicationError.Conflict;
      run' ← lift (moved_copy ApplicationError.from_transition (Run.transition next now) run);
      call (save_run run' expected_revision
              (NewRunEvent.mk (Run.updated_at run') (RunStateChanged (Run.state run) next))
              command)
  end.

(** [RunService::events_since]. *)
Definition run_events_since (id : RunId) (after_sequence limit : Z) :
    method S ApplicationError.t (list RunEvent.t) :=
  _ ← throw_if (negb (in_range 1 1000 limit))
        (ApplicationError.InvalidInput (Text (lit "event limit must be between 1 and 1000")));
  call (events_since id after_sequence limit).

(** [RunService::has_active_host_work]. *)
Definition has_active_host_work : method S ApplicationError.t bool :=
  runs ← call (list_recoverable_host_runs 1); mret (negb (is_empty runs)).

(** The loop of [RunService::list_host_work]. *)
Fixpoint with_pending_approvals (runs : list Run.t) :
    method S ApplicationError.t (list (Run.t * option Approval.t)) :=
  match runs with
  | [] => mret []
  | run :: runs' =>
      approval ← call (pending_approval_for_run (Run.id run));
      snapshots ← with_pending_approvals runs';
      mret ((run, approval) :: snapshots)
  end.
(** [RunService::list_host_work]. *)
Definition list_host_work (limit : Z) (thread_id : option ThreadId) :
    method S ApplicationError.t (list (Run.t * option Approval.t)) :=
  runs ← call (list_host_work_runs limit thread_id); with_pending_approvals runs.

(** [ApprovalService]. *)
Definition approval_scope_key (scope : ApprovalScope.t) : str * str :=
  match scope with
  | ApprovalScope.Once => (lit "once", [])
  | ApprovalScope.Run => (lit "run", [])
  | ApprovalScope.Resource resource => (lit "resource", resource)
  end.
Definition approval_risk_key (risk : ApprovalRisk.t) : str :=
  match risk with
  | ApprovalRisk.Low => lit "low"
  | ApprovalRisk.Elevated => lit "elevated"
  | ApprovalRisk.High => lit "high"
  | ApprovalRisk.Critical => lit "critical"
  end.
Definition approval_decision_key (decision : ApprovalDecision.t) : str :=
  match decision with
  | ApprovalDecision.Grant => lit "grant"
  | ApprovalDecision.Deny => lit "deny"
  end.

(** [RequestApproval]. *)
Record RequestApproval : Type := mk_request_approval {
  ra_run_id : RunId;
  ra_expected_run_revision : Z;
  ra_action : RequestedAction.t;
  ra_scope : ApprovalScope.t;
  ra_expires_at : Z;
}.

(** [ApprovalService::request]. *)
Definition approval_request (input : RequestApproval) (key : str) (now : Z)
    (generated : str) : method S ApplicationError.t Approval.t :=
  let '(scope, resource) := approval_scope_key (ra_scope input) in
  command ← lift (mutation_command (lit "request_approval") key
    [as_str (ra_run_id input); to_string (ra_expected_run_revision input);
     RequestedAction.action (ra_action input); RequestedAction.target (ra_action input);
     RequestedAction.data_summary (ra_action input);
     approval_risk_key (RequestedAction.risk (ra_action input)); scope; resource;
     to_string (ra_expires_at input)]);
  prior ← call (resolve_execution_mutation command);
  match prior with
  | Some outcome => lift (service_approval_outcome outcome)
  | None =>
      _ ← throw_if (ra_expires_at input <=? now)
            (ApplicationError.InvalidInput (Text (lit "approval expiry must be in the future")));
      run ← call (get_run (ra_run_id input));
      _ ← throw_if (Run.revision run != ra_expected_run_revision input)
            ApplicationError.Conflict;
      run' ← lift (moved_copy ApplicationError.from_transition
                     (Run.transition RunState.AwaitingApproval now) run);
      id ← lift (map_err ApplicationError.from_id (new_id generated));
      let approval := Approval.pending id (ra_run_id input) (ra_action input)
                        (ra_scope input) now (ra_expires_at input) in
      call (create_approval approval run' (ra_expected_run_revision input)
        [NewRunEvent.mk now (RunStateChanged (Run.state run) RunState.AwaitingApproval);
         NewRunEvent.mk now (RunApprovalRequested id)] command)
  end.

(** [decided_approval_outcome]. *)
Definition decided_approval_outcome (outcome : ExecutionMutationOutcome) :
    result ApplicationError.t Approval.t :=
  approval ← service_approval_outcome outcome;
  match Approval.status approval with
  | ApprovalStatus.Granted | ApprovalStatus.Denied => Ok approval
  | ApprovalStatus.Expired =>
      Err (ApplicationError.from_approval (ApprovalExpired (Approval.expires_at approval)))
  | ApprovalStatus.Pending | ApprovalStatus.Cancelled =>
      Err (ApplicationError.Storage
             (Text (lit "approval decision command returned an invalid lifecycle result")))
  end.

(** [ApprovalService::decide]. *)
Definition approval_decide (id : ApprovalId) (expected_revision : Z)
    (decision : ApprovalDecision.t) (key : str) (now : Z) :
    method S ApplicationError.t Approval.t :=
  command ← lift (mutation_command (lit "decide_approval") key
    [as_str id; to_string expected_revision; approval_decision_key decision]);
  prior ← call (resolve_execution_mutation command);
  match prior with
  | Some outcome => lift (decided_approval_outcome outcome)
  | None =>
      approval ← call (get_approval id);
      _ ← throw_if (Approval.revision approval != expected_revision) ApplicationError.Conflict;
      let '(approval', r) := Approval.decide decision now approval in
      expired ← lift match r with
                     | Ok _ => Ok false
                     | Err (ApprovalExpired _) => Ok true
                     | Err error => Err (ApplicationError.from_approval error)
                     end;
      let next_run_state :=
        if (decision == ApprovalDecision.Grant) && negb expired
        then RunState.Running else RunState.Paused in
      run ← call (get_run (Approval.run_id approval'));
      run' ← lift (moved_copy ApplicationError.from_transition
                     (Run.transition next_run_state now) run);
      saved ← call (decide_approval approval' expected_revision
        (Some (run', Run.revision run,
               NewRunEvent.mk now (RunStateChanged (Run.state run) next_run_state))) command);
      if expired
      then throw (ApplicationError.from_approval (ApprovalExpired (Approval.expires_at saved)))
      else mret saved
  end.

(** [SideEffectService]: [prepare], [prepare_with_id], [start], [finish],
    [interrupt]. *)
Record PrepareEffect : Type := mk_prepare_effect {
  pe_run_id : RunId;
  pe_kind : EffectKind.t;
  pe_target : str;
  pe_idempotency : Idempotency.t;
}.

Definition effect_prepare_with_id (input : PrepareEffect) (effect_id : EffectId) (now : Z) :
    method S ApplicationError.t SideEffect.t :=
  run ← call (get_run (pe_run_id input));
  _ ← throw_if (Run.state run != RunState.Running)
        (ApplicationError.InvalidState (Text (lit "side effects require a running run")));
  _ ← throw_if (is_empty (trim (pe_target input)))
        (ApplicationError.InvalidInput (Text (lit "effect target cannot be empty")));
  let effect := SideEffect.prepare effect_id (pe_run_id input) (pe_kind input)
                  (pe_target input) (pe_idempotency input) now in
  _ ← call (create_effect effect (NewRunEvent.mk now (RunEffectPrepared effect_id)));
  mret effect.

Definition effect_prepare (input : PrepareEffect) (now : Z) (generated : str) :
    method S ApplicationError.t SideEffect.t :=
  id ← lift (map_err ApplicationError.from_id (new_id generated));
  effect_prepare_with_id input id now.

(** The common body of [start] and [finish]. *)
Definition effect_move (m : Z → method SideEffect.t EffectTransitionError unit)
    (id : EffectId) (expected_revision : Z) (now : Z) :
    method S ApplicationError.t SideEffect.t :=
  effect ← call (get_effect id);
  _ ← throw_if (SideEffect.revision effect != expected_revision) ApplicationError.Conflict;
  effect' ← lift (moved_copy ApplicationError.from_effect (m now) effect);
  _ ← call (save_effect effect' expected_revision);
  mret effect'.
Definition effect_start := effect_move SideEffect.start.
Definition effect_finish (id : EffectId) (expected_revision : Z) (succeeded : bool) :=
  effect_move (SideEffect.finish succeeded) id expected_revision.

Definition effect_interrupt (id : EffectId) (expected_revision : Z) (now : Z) :
    method S ApplicationError.t SideEffect.t :=
  effect ← call (get_effect id);
  _ ← throw_if (SideEffect.revision effect != expected_revision) ApplicationError.Conflict;
  effect' ← lift (moved_copy ApplicationError.from_effect (SideEffect.interrupt now) effect);
  run ← call (get_run (SideEffect.run_id effect'));
  run' ← lift (moved_copy ApplicationError.from_transition
                 (Run.transition RunState.InterruptedNeedsReview now) run);
  _ ← call (interrupt_effect effect' expected_revision run' (Run.revision run)
        [NewRunEvent.mk now (RunEffectNeedsReview (SideEffect.id effect'));
         NewRunEvent.mk now (RunStateChanged (Run.state run) RunState.InterruptedNeedsReview)]);
  mret effect'.
End services.

(** ** Handlers on the in-memory store *)

Inductive service_call : Type :=
| CallCreateRun (project_id thread_id key : str)
| CallCreateWork (project_id thread_id : str) (backend : WorkExecutionBackend.t) (key : str)
| CallTransition (id : RunId) (expected : Z) (next : RunState.t) (key : str)
| CallRequestApproval (input : RequestApproval) (key : str)
| CallDecideApproval (id : ApprovalId) (expected : Z) (decision : ApprovalDecision.t) (key : str)
| CallPrepareEffect (input : PrepareEffect)
| CallStartEffect (id : EffectId) (expected : Z)
| CallFinishEffect (id : EffectId) (expected : Z) (succeeded : bool)
| CallInterruptEffect (id : EffectId) (expected : Z).

(** One handler at time [now], with the identifier the generator would return. *)
Definition service_apply `{!Sha256} (c : service_call) (now : Z) (generated : str) :
    method State.t ApplicationError.t unit :=
  match c with
  | CallCreateRun p t key => discard (run_create p t key now generated)
  | CallCreateWork p t b key => discard (run_create_work p t b key now generated)
  | CallTransition id expected next key => discard (run_transition id expected next key now)
  | CallRequestApproval input key => discard (approval_request input key now generated)
  | CallDecideApproval id expected decision key =>
      discard (approval_decide id expected decision key now)
  | CallPrepareEffect input => discard (effect_prepare input now generated)
  | CallStartEffect id expected => discard (effect_start id expected now)
  | CallFinishEffect id expected succeeded => discard (effect_finish id expected succeeded now)
  | CallInterruptEffect id expected => discard (effect_interrupt id expected now)
  end.

(** The run a handler writes is the legal successor of the run it finds, and
    the events name that transition. *)
Definition successor (s : State.t) (run' : Run.t) (expected : Z) (next : RunState.t)
    (kind : RunEventKind) : Prop :=
  ∃ run now, State.runs s !! Run.id run = Some run ∧
    Run.transition next now run = (run', Ok tt) ∧ expected = Run.revision run ∧
    kind = RunStateChanged (Run.state run) next.

Definition event_kinds (events : list NewRunEvent.t) : list RunEventKind :=
  map NewRunEvent.kind events.

Definition op_sound (s : State.t) (op : store_op) : Prop :=
  match op with
  | OpCreateRun run event _ => run_created run ∧ NewRunEvent.kind event = RunCreated
  | OpSaveRun run expected event _ =>
      ∃ next, successor s run expected next (NewRunEvent.kind event)
  | OpCreateApproval approval run expected events _ =>
      ∃ kind, event_kinds events = [kind; RunApprovalRequested (Approval.id approval)] ∧
        successor s run expected RunState.AwaitingApproval kind
  | OpDecideApproval _ _ run_update _ =>
      ∃ run expected event next, run_update = Some (run, expected, event) ∧
        successor s run expected next (NewRunEvent.kind event)
  | OpCreateEffect effect event =>
      NewRunEvent.kind event = RunEffectPrepared (SideEffect.id effect) ∧
      ∃ run, State.runs s !! SideEffect.run_id effect = Some run ∧
        Run.state run = RunState.Running
  | OpSaveEffect _ _ => True
  | OpInterruptEffect effect _ run expected events =>
      ∃ kind, event_kinds events = [RunEffectNeedsReview (SideEffect.id effect); kind] ∧
        successor s run expected RunState.InterruptedNeedsReview kind
  end.

(** What a handler leaves behind: the store as it was, or one committed store
    operation built from what it holds. *)
Definition commits (s s' : State.t) : Prop :=
  s' = s ∨ ∃ op, store_apply op s = (s', Ok tt) ∧ op_sound s op.

Lemma memory_get_run_readonly i : readonly (InMemory.get_run i).
Proof. done. Qed.
Lemma memory_get_approval_readonly i : readonly (InMemory.get_approval i).
Proof. done. Qed.
Lemma memory_get_effect_readonly i : readonly (InMemory.get_effect i).
Proof. done. Qed.
#[local] Hint Resolve memory_get_run_readonly memory_get_approval_readonly
  memory_get_effect_readonly prior_execution_command_readonly : methods.

Lemma call_get_run_Ok i s run :
  call (InMemory.get_run i) s = (s, Ok run) → State.runs s !! i = Some run.
Proof.
  unfold call, InMemory.get_run. run_unfold. destruct (State.runs s !! i); naive_solver.
Qed.

Definition keyed (s : State.t) : Prop :=
  ∀ i r, State.runs s !! i = Some r → Run.id r = i.

Lemma successor_intro s i run run' now next :
  keyed s → State.runs s !! i = Some run → Run.transition next now run = (run', Ok tt) →
  successor s run' (Run.revision run) next (RunStateChanged (Run.state run) next).
Proof. intros Hk Hl Ht. exists run, now. by rewrite (Hk _ _ Hl). Qed.

(** A handler's last step: one store operation, followed by code that only
    computes the response. *)
Lemma commit_tail {A B} op (m : method State.t StoreError A)
    (k : A → method State.t ApplicationError.t B) s s' r :
  op_sound s op → (∀ s, store_apply op s = discard m s) → (∀ a, readonly (k a)) →
  (call m ≫= k) s = (s', r) → commits s s'.
Proof.
  intros Hop Hm Hk H. specialize (Hm s). unfold mbind, method_bind, call in H.
  destruct (m s) as [s1 [a|e]] eqn:E; cbn in H.
  - specialize (Hk a s1). destruct (k a s1) as [s2 r2]. simplify_eq/=.
    right. exists op. split; [|done]. rewrite Hm. by eapply discard_run.
  - simplify_eq. left. apply (store_apply_atomic op s s' e). rewrite Hm. by eapply discard_err.
Qed.
Lemma commit_last {A} op (m : method State.t StoreError A) s s' r :
  op_sound s op → (∀ s, store_apply op s = discard m s) → call m s = (s', r) → commits s s'.
Proof.
  intros Hop Hm H. apply (commit_tail op m mret s s' r Hop Hm); [intros; apply readonly_ret|].
  rewrite <- H. unfold mbind, method_bind. by destruct (call m s) as [? []].
Qed.
Section handlers.
Context {SHA : Sha256}.

Lemma run_create_commits p t key now g s s' r :
  run_create p t key now g s = (s', r) → commits s s'.
Proof.
  unfold run_create. intros H. peel H cmd Hc. peel H prior Hp.
  destruct prior as [o|]; [left; by injection H as <- _|].
  peel H i Hi. peel H pi Hpi. peel H ti Hti.
  apply (commit_last (OpCreateRun (Run.queued i pi ti now) (NewRunEvent.mk now RunCreated) cmd))
    in H; [done| |done].
  split; [apply created_chat|done].
Qed.

Lemma run_create_work_commits p t b key now g s s' r :
  run_create_work p t b key now g s = (s', r) → commits s s'.
Proof.
  unfold run_create_work. intros H. peel H cmd Hc. peel H prior Hp.
  destruct prior as [o|]; [left; by injection H as <- _|].
  peel H i Hi. peel H pi Hpi. peel H ti Hti.
  apply (commit_last (OpCreateRun (Run.queued_work i pi ti b now)
    (NewRunEvent.mk now RunCreated) cmd)) in H; [done| |done].
  split; [apply created_work|done].
Qed.

Lemma revision_checked (x y : Z) (e : ApplicationError.t) (s : State.t) u :
  throw_if (x != y) e s = (s, Ok u) → x = y.
Proof. intros H%throw_if_Ok. by bool_facts. Qed.
Lemma lift_moved_copy {T E E'} (from : E → E') (m : method T E unit) x x' (s : State.t) :
  lift (moved_copy from m x) s = (s, Ok x') → m x = (x', Ok tt).
Proof. intros [= H]. by apply moved_copy_Ok in H. Qed.

Lemma run_transition_commits i expected next key now s s' r :
  keyed s → run_transition i expected next key now s = (s', r) → commits s s'.
Proof.
  unfold run_transition. intros Hk H. peel H cmd Hc. peel H prior Hp.
  destruct prior as [o|]; [left; by injection H as <- _|].
  peel H run Hrun. peel H u Hu. peel H run' Hrun'.
  apply call_get_run_Ok in Hrun. apply lift_moved_copy in Hrun'. apply revision_checked in Hu as <-.
  apply (commit_last (OpSaveRun run' (Run.revision run) (NewRunEvent.mk (Run.updated_at run')
    (RunStateChanged (Run.state run) next)) cmd)) in H; [done| |done].
  exists next. by eapply successor_intro.
Qed.

Lemma approval_request_commits input key now g s s' r :
  keyed s → approval_request input key now g s = (s', r) → commits s s'.
Proof.
  unfold approval_request. intros Hk H. destruct (approval_scope_key _) as [sc rs].
  peel H cmd Hc. peel H prior Hp.
  destruct prior as [o|]; [left; by injection H as <- _|].
  peel H u1 Hu1. peel H run Hrun. peel H u Hu. peel H run' Hrun'. peel H i Hi.
  apply call_get_run_Ok in Hrun. apply lift_moved_copy in Hrun'.
  apply revision_checked in Hu. rewrite <- Hu in H.
  match type of H with call (create_approval ?a ?r ?e ?evs ?c) _ = _ =>
    apply (commit_last (OpCreateApproval a r e evs c)) in H; [done| |done] end.
  eexists. split; [done|]. by eapply successor_intro.
Qed.

Lemma approval_decide_commits i expected d key now s s' r :
  keyed s → approval_decide i expected d key now s = (s', r) → commits s s'.
Proof.
  unfold approval_decide. intros Hk H. peel H cmd Hc. peel H prior Hp.
  destruct prior as [o|]; [left; by injection H as <- _|].
  peel H a Ha. peel H u Hu. destruct (Approval.decide d now a) as [a' ra].
  peel H expired He. peel H run Hrun. peel H run' Hrun'.
  apply call_get_run_Ok in Hrun. apply lift_moved_copy in Hrun'.
  match type of H with (call (decide_approval ?a ?e ?up ?c) ≫= _) _ = _ =>
    apply (commit_tail (OpDecideApproval a e up c)) in H; [done| |done|] end.
  - eexists _, _, _, _. split; [done|]. by eapply successor_intro.
  - intros x. destruct expired; [apply readonly_throw|apply readonly_ret].
Qed.

Lemma effect_prepare_commits input now g s s' r :
  effect_prepare input now g s = (s', r) → commits s s'.
Proof.
  unfold effect_prepare, effect_prepare_with_id. intros H. peel H i Hi.
  peel H run Hrun. peel H u Hu. peel H u2 Hu2. apply call_get_run_Ok in Hrun.
  apply throw_if_Ok, negb_false_iff, bool_decide_eq_true in Hu.
  match type of H with (call (create_effect ?e ?ev) ≫= _) _ = _ =>
    apply (commit_tail (OpCreateEffect e ev)) in H; [done| |apply discard_unit|] end.
  - split; [done|]. by exists run.
  - intros x. apply readonly_ret.
Qed.

Lemma effect_move_commits m i expected now s s' r :
  effect_move m i expected now s = (s', r) → commits s s'.
Proof.
  unfold effect_move. intros H. peel H e He. peel H u Hu. peel H e' He'.
  match type of H with (call (save_effect ?e ?ev) ≫= _) _ = _ =>
    apply (commit_tail (OpSaveEffect e ev)) in H; [done|done|apply discard_unit|] end.
  intros x. apply readonly_ret.
Qed.

Lemma effect_interrupt_commits i expected now s s' r :
  keyed s → effect_interrupt i expected now s = (s', r) → commits s s'.
Proof.
  unfold effect_interrupt. intros Hk H. peel H e He. peel H u Hu. peel H e' He'.
  peel H run Hrun. peel H run' Hrun'.
  apply call_get_run_Ok in Hrun. apply lift_moved_copy in Hrun'.
  match type of H with (call (interrupt_effect ?a ?b ?c ?d ?e) ≫= _) _ = _ =>
    apply (commit_tail (OpInterruptEffect a b c d e)) in H; [done| |apply discard_unit|] end.
  - eexists. split; [done|]. by eapply successor_intro.
  - intros x. apply readonly_ret.
Qed.

Lemma service_commits c now g s s' r :
  keyed s → service_apply c now g s = (s', r) → commits s s'.
Proof.
  intros Hk H. destruct c; cbn [service_apply] in H; apply discard_state in H as [r' H];
    eauto using run_create_commits, run_create_work_commits, run_transition_commits,
      approval_request_commits, approval_decide_commits, effect_prepare_commits,
      effect_interrupt_commits, effect_move_commits.
Qed.
End handlers.

(** ** The audit trail determines the run *)

(** A legal trail and the state it ends in: it opens with the creation, every
    state change starts from the state so far along an edge of the lifecycle, an
    approval is requested only while the run awaits one and an effect prepared
    only while it is running. *)
Inductive trail : list RunEventKind → RunState.t → Prop :=
| trail_created : trail [RunCreated] RunState.Queued
| trail_changed ks from to :
    trail ks from → RunState.permits from to = true →
    trail (ks ++ [RunStateChanged from to]) to
| trail_approval ks a :
    trail ks RunState.AwaitingApproval →
    trail (ks ++ [RunApprovalRequested a]) RunState.AwaitingApproval
| trail_effect ks e :
    trail ks RunState.Running → trail (ks ++ [RunEffectPrepared e]) RunState.Running
| trail_review ks st e : trail ks st → trail (ks ++ [RunEffectNeedsReview e]) st.

Definition kinds (es : list RunEvent.t) : list RunEventKind := map RunEvent.kind es.

Definition trail_inv (s : State.t) : Prop :=
  keyed s ∧
  ∀ i, match State.runs s !! i with
       | Some r => trail (kinds (stream s i)) (Run.state r)
       | None => stream s i = []
       end.

Definition op_written (op : store_op) : option Run.t :=
  match op with
  | OpCreateRun run _ _ | OpSaveRun run _ _ _ | OpCreateApproval _ run _ _ _
  | OpDecideApproval _ _ (Some (run, _, _)) _ | OpInterruptEffect _ _ run _ _ => Some run
  | _ => None
  end.
Definition op_events (op : store_op) : option (RunId * list NewRunEvent.t) :=
  match op with
  | OpCreateRun run event _ | OpSaveRun run _ event _ => Some (Run.id run, [event])
  | OpCreateApproval _ run _ events _ => Some (Run.id run, events)
  | OpDecideApproval _ _ (Some (run, _, event)) _ => Some (Run.id run, [event])
  | OpInterruptEffect _ _ run _ events => Some (Run.id run, events)
  | OpCreateEffect effect event => Some (SideEffect.run_id effect, [event])
  | _ => None
  end.

Lemma kinds_push i new es : kinds (push_events i new es) = kinds es ++ event_kinds new.
Proof.
  revert es. induction new as [|e new IH]; intros es; cbn [push_events].
  - by rewrite app_nil_r.
  - rewrite IH. unfold kinds. rewrite map_app. by rewrite <- app_assoc.
Qed.

#[local] Arguments push_events : simpl never.

Lemma store_apply_detail op s s' :
  store_apply op s = (s', Ok tt) →
  s' = s ∨
  State.runs s' = match op_written op with
                  | Some r => <[Run.id r := r]> (State.runs s) | None => State.runs s end ∧
  State.events s' = match op_events op with
                    | Some (i, new) => <[i := push_events i new (stream s i)]> (State.events s)
                    | None => State.events s
                    end ∧
  match op with OpCreateRun run _ _ => State.runs s !! Run.id run = None | _ => True end.
Proof.
  intros H. destruct op; cbn [store_apply] in H; try (apply discard_Ok in H as [a H]).
  1-4: unfold InMemory.create_run, InMemory.save_run, InMemory.create_approval,
      InMemory.decide_approval in H;
    apply prior_bind_Ok in H as ([o|] & _ & H);
    [cbv [lift] in H; simplify_eq; by left|].
  4: destruct run_update as [[[run er] event]|].
  all: right; try unfold InMemory.create_effect, InMemory.save_effect,
    InMemory.interrupt_effect in H; run_in H; try done.
  split_and!; [done..|]. unfold is_some in *. by case_match.
Qed.

Lemma trail_inv_write s s' run new :
  trail_inv s → State.runs s' = <[Run.id run := run]> (State.runs s) →
  State.events s' = <[Run.id run := push_events (Run.id run) new (stream s (Run.id run))]>
                      (State.events s) →
  trail (kinds (stream s (Run.id run)) ++ event_kinds new) (Run.state run) →
  trail_inv s'.
Proof.
  intros [Hk Ht] Hr He Hn. split.
  - intros i r. rewrite Hr, lookup_insert_Some. naive_solver.
  - intros i. specialize (Ht i). unfold stream in *. rewrite Hr, He.
    destruct (decide (i = Run.id run)) as [->|Hne].
    + rewrite !lookup_insert_eq. cbn. by rewrite kinds_push.
    + by rewrite !lookup_insert_ne.
Qed.

Lemma trail_successor s run' expected next kind now run :
  trail_inv s → State.runs s !! Run.id run = Some run →
  Run.transition next now run = (run', Ok tt) →
  kind = RunStateChanged (Run.state run) next → expected = Run.revision run →
  Run.id run' = Run.id run ∧ Run.state run' = next ∧
  trail (kinds (stream s (Run.id run))) (Run.state run) ∧
  RunState.permits (Run.state run) next = true.
Proof.
  intros [_ Ht] Hl (Hp & _ & ->)%run_transition_Ok -> ->. specialize (Ht (Run.id run)).
  by rewrite Hl in Ht.
Qed.

Lemma trail_inv_op s s' op :
  trail_inv s → op_sound s op → store_apply op s = (s', Ok tt) → trail_inv s'.
Proof.
  intros Hi Hop [->|(Hr & He & Hn)]%store_apply_detail; [done|].
  destruct op; cbn [op_sound op_written op_events] in *.
  - destruct Hop as [Hc Hev]. eapply trail_inv_write; [done..|].
    destruct Hi as [_ Ht]. specialize (Ht (Run.id run)). rewrite Hn in Ht. rewrite Ht. cbn.
    rewrite Hev. replace (Run.state run) with RunState.Queued by (by destruct Hc).
    constructor.
  - destruct Hop as (next & r0 & now & Hl & Ht & Hx & Hev).
    destruct (trail_successor _ _ _ _ _ _ _ Hi Hl Ht Hev Hx) as (Hid & Hst & Htr & Hp).
    eapply trail_inv_write; [done..|]. cbn. rewrite Hid, Hst, Hev. by apply trail_changed.
  - destruct Hop as (kind & Hk & r0 & now & Hl & Ht & Hx & Hev).
    destruct (trail_successor _ _ _ _ _ _ _ Hi Hl Ht Hev Hx) as (Hid & Hst & Htr & Hp).
    eapply trail_inv_write; [done..|]. rewrite Hid, Hst, Hk, Hev.
    rewrite (app_assoc _ [_] [_] : _ ++ [_; _] = _). apply trail_approval. by apply trail_changed.
  - destruct Hop as (r' & ex & ev & next & -> & r0 & now & Hl & Ht & Hx & Hev).
    destruct (trail_successor _ _ _ _ _ _ _ Hi Hl Ht Hev Hx) as (Hid & Hst & Htr & Hp).
    eapply trail_inv_write; [done..|]. cbn. rewrite Hid, Hst, Hev. by apply trail_changed.
  - destruct Hop as (Hev & r0 & Hl & Hst). pose proof (proj1 Hi _ _ Hl) as Hid.
    rewrite <- Hid in *.
    eapply (trail_inv_write s s' r0); [done| |done|].
    + by rewrite Hr, insert_id.
    + cbn. rewrite Hev, Hst. apply trail_effect. destruct Hi as [_ Ht].
      specialize (Ht (Run.id r0)). rewrite Hl in Ht. by rewrite Hst in Ht.
  - unfold trail_inv, keyed, stream in *. by rewrite Hr, He.
  - destruct Hop as (kind & Hk & r0 & now & Hl & Ht & Hx & Hev).
    destruct (trail_successor _ _ _ _ _ _ _ Hi Hl Ht Hev Hx) as (Hid & Hst & Htr & Hp).
    eapply trail_inv_write; [done..|]. rewrite Hid, Hst, Hk, Hev.
    rewrite (app_assoc _ [_] [_] : _ ++ [_; _] = _). apply trail_changed; [|done].
    by apply trail_review.
Qed.

(** A history of handlers, each with its time and generated identifier. *)
Definition service_run {SHA : Sha256} (cs : list (service_call * Z * str)) (s : State.t) :
    State.t :=
  foldl (λ s '(c, now, g), (service_apply c now g s).1) s cs.

Lemma service_run_trail {SHA : Sha256} cs s : trail_inv s → trail_inv (service_run cs s).
Proof.
  revert s. induction cs as [|[[c now] g] cs IH]; intros s Hi; [done|]. cbn. apply IH.
  destruct (service_apply c now g s) as [s' r] eqn:H. cbn.
  apply service_commits in H as [->|(op & Hop & Hs)]; [done| |apply Hi].
  by eapply trail_inv_op.
Qed.

Lemma trail_inv_empty : trail_inv State.empty.
Proof. split; [by intros i r|]. by intros i. Qed.

(** ** Command records *)

(** The records only grow: an operation that finds its key recorded does not
    write. *)
Definition later (s s' : State.t) : Prop :=
  rtc (λ s s', ∃ op r, store_apply op s = (s', r)) s s'.

Lemma prior_None_lookup c s :
  prior_execution_command c s = (s, Ok None) →
  State.execution_commands s !! (MutationCommand.scope c, MutationCommand.key c) = None.
Proof. unfold prior_execution_command. run_unfold. repeat case_match; naive_solver. Qed.

Lemma store_apply_commands op s s' k rec :
  store_apply op s = (s', Ok tt) → State.execution_commands s !! k = Some rec →
  State.execution_commands s' !! k = Some rec.
Proof.
  intros H Hk. destruct op; cbn [store_apply] in H; try (apply discard_Ok in H as [a H]).
  1-4: unfold InMemory.create_run, InMemory.save_run, InMemory.create_approval,
      InMemory.decide_approval in H;
    apply prior_bind_Ok in H as ([o|] & Hp & H);
    [cbv [lift] in H; by simplify_eq|apply prior_None_lookup in Hp].
  4: destruct run_update as [[[run er] event]|].
  all: try unfold InMemory.create_effect, InMemory.save_effect,
    InMemory.interrupt_effect in H;
    unfold record_execution_command in H; run_in H; try done;
    rewrite lookup_insert_ne by congruence; done.
Qed.

Lemma later_commands s s' k rec :
  later s s' → State.execution_commands s !! k = Some rec →
  State.execution_commands s' !! k = Some rec.
Proof.
  induction 1 as [|s1 s2 s3 (op & [[]|e] & H) _ IH]; [done|..]; intros Hk.
  - apply IH. by eapply store_apply_commands.
  - apply IH. by apply store_apply_atomic in H as ->.
Qed.

Definition recorded (s : State.t) (c : MutationCommand.t) (o : ExecutionMutationOutcome) : Prop :=
  State.execution_commands s !! (MutationCommand.scope c, MutationCommand.key c) =
    Some (ExecutionCommandRecord.mk (MutationCommand.fingerprint c) o).

Lemma prior_recorded c s o :
  prior_execution_command c s = (s, Ok (Some o)) ↔ recorded s c o.
Proof.
  unfold recorded, prior_execution_command. run_unfold.
  destruct (State.execution_commands s !! _) as [[fp o']|]; cbn; [|naive_solver].
  case_bool_decide; naive_solver.
Qed.

Lemma call_prior_recorded c s o :
  recorded s c o → call (prior_execution_command c) s = (s, Ok (Some o)).
Proof. intros H%prior_recorded. unfold call. by rewrite H. Qed.

Lemma create_run_recorded run ev c s s' a :
  prior_execution_command c s = (s, Ok None) →
  InMemory.create_run run ev c s = (s', Ok a) → a = run ∧ recorded s' c (OutcomeRun run).
Proof.
  intros Hp H. unfold InMemory.create_run, mbind, method_bind in H. rewrite Hp in H.
  unfold record_execution_command in H. run_in H. split; [done|]. apply lookup_insert_eq.
Qed.
Lemma save_run_recorded run ex ev c s s' a :
  prior_execution_command c s = (s, Ok None) →
  InMemory.save_run run ex ev c s = (s', Ok a) → a = run ∧ recorded s' c (OutcomeRun run).
Proof.
  intros Hp H. unfold InMemory.save_run, mbind, method_bind in H. rewrite Hp in H.
  unfold record_execution_command in H. run_in H. split; [done|]. apply lookup_insert_eq.
Qed.
Lemma create_approval_recorded a0 run ex evs c s s' a :
  prior_execution_command c s = (s, Ok None) →
  InMemory.create_approval a0 run ex evs c s = (s', Ok a) →
  a = a0 ∧ recorded s' c (OutcomeApproval a0).
Proof.
  intros Hp H. unfold InMemory.create_approval, mbind, method_bind in H. rewrite Hp in H.
  unfold record_execution_command in H. run_in H. split; [done|]. apply lookup_insert_eq.
Qed.
Lemma decide_approval_recorded a0 ex up c s s' a :
  prior_execution_command c s = (s, Ok None) →
  InMemory.decide_approval a0 ex up c s = (s', Ok a) →
  a = a0 ∧ recorded s' c (OutcomeApproval a0).
Proof.
  intros Hp H. unfold InMemory.decide_approval, mbind, method_bind in H. rewrite Hp in H.
  unfold record_execution_command in H. destruct up as [[[run er] event]|]; run_in H;
    (split; [done|]); apply lookup_insert_eq.
Qed.

(** The handlers that carry an idempotency key, with the outcome they return. *)
Inductive command_call : Type :=
| CmdCreateRun (project_id thread_id key : str)
| CmdCreateWork (project_id thread_id : str) (backend : WorkExecutionBackend.t) (key : str)
| CmdTransition (id : RunId) (expected : Z) (next : RunState.t) (key : str)
| CmdRequestApproval (input : RequestApproval) (key : str)
| CmdDecideApproval (id : ApprovalId) (expected : Z) (decision : ApprovalDecision.t) (key : str).

Section commands.
Context {SHA : Sha256}.

Definition run_result {S E} (m : method S E Run.t) : method S E ExecutionMutationOutcome :=
  run ← m; mret (OutcomeRun run).
Definition approval_result {S E} (m : method S E Approval.t) :
    method S E ExecutionMutationOutcome :=
  approval ← m; mret (OutcomeApproval approval).

Definition command_apply (c : command_call) (now : Z) (g : str) :
    method State.t ApplicationError.t ExecutionMutationOutcome :=
  match c with
  | CmdCreateRun p t key => run_result (run_create p t key now g)
  | CmdCreateWork p t b key => run_result (run_create_work p t b key now g)
  | CmdTransition id expected next key => run_result (run_transition id expected next key now)
  | CmdRequestApproval input key => approval_result (approval_request input key now g)
  | CmdDecideApproval id expected decision key =>
      approval_result (approval_decide id expected decision key now)
  end.

(** The command a call stands for, and what its recorded outcome replays as. *)
Definition command_of (c : command_call) : result ApplicationError.t MutationCommand.t :=
  match c with
  | CmdCreateRun p t key => mutation_command (lit "create_run") key [p; t]
  | CmdCreateWork p t b key =>
      mutation_command (lit "create_work_run") key [p; t; work_backend_key b]
  | CmdTransition id expected next key =>
      mutation_command (lit "transition_run") key
        [as_str id; to_string expected; run_state_key next]
  | CmdRequestApproval input key =>
      mutation_command (lit "request_approval") key
        [as_str (ra_run_id input); to_string (ra_expected_run_revision input);
         RequestedAction.action (ra_action input); RequestedAction.target (ra_action input);
         RequestedAction.data_summary (ra_action input);
         approval_risk_key (RequestedAction.risk (ra_action input));
         (approval_scope_key (ra_scope input)).1; (approval_scope_key (ra_scope input)).2;
         to_string (ra_expires_at input)]
  | CmdDecideApproval id expected decision key =>
      mutation_command (lit "decide_approval") key
        [as_str id; to_string expected; approval_decision_key decision]
  end.
Definition replayed (c : command_call) (o : ExecutionMutationOutcome) :
    result ApplicationError.t ExecutionMutationOutcome :=
  match c with
  | CmdCreateRun _ _ _ | CmdCreateWork _ _ _ _ | CmdTransition _ _ _ _ =>
      run ← service_run_outcome o; Ok (OutcomeRun run)
  | CmdRequestApproval _ _ => a ← service_approval_outcome o; Ok (OutcomeApproval a)
  | CmdDecideApproval _ _ _ _ => a ← decided_approval_outcome o; Ok (OutcomeApproval a)
  end.

(** Once its command is recorded, a call answers from the record and touches
    nothing. *)
Lemma command_replays c cmd o now g s :
  command_of c = Ok cmd → recorded s cmd o → command_apply c now g s = (s, replayed c o).
Proof.
  intros Hc Ho. apply call_prior_recorded in Ho.
  change (prior_execution_command cmd) with (resolve_execution_mutation cmd) in Ho.
  destruct c; cbn [command_apply command_of replayed] in *;
    unfold run_result, approval_result, run_create, run_create_work, run_transition,
      approval_request, approval_decide;
    try destruct (approval_scope_key _) as [sc rs]; cbn [fst snd] in Hc;
    unfold mbind, method_bind, lift; rewrite Hc; cbn beta iota; rewrite Ho;
    cbn [service_run_outcome service_approval_outcome decided_approval_outcome];
    try (by destruct o).
  by destruct (decided_approval_outcome o).
Qed.

Lemma resolve_call_Ok cmd (s : State.t) prior :
  call (resolve_execution_mutation cmd) s = (s, Ok prior) →
  prior_execution_command cmd s = (s, Ok prior).
Proof.
  unfold call; cbn. pose proof (prior_execution_command_readonly cmd s) as Hr.
  destruct (prior_execution_command cmd s) as [s1 [o|e]]; cbn in *; naive_solver.
Qed.
Ltac open_command H cmd Hc prior Hp :=
  peel_ok H cmd Hc; injection Hc as Hc; peel_ok H prior Hp; apply resolve_call_Ok in Hp.

(** A call that succeeded left its command recorded with the outcome it
    returned. *)
Definition leaves_record (c : command_call) (s' : State.t) (out : ExecutionMutationOutcome) : Prop :=
  ∃ cmd o, command_of c = Ok cmd ∧ recorded s' cmd o ∧ replayed c o = Ok out.

Lemma run_create_records p t key now g s s' r :
  run_create p t key now g s = (s', Ok r) →
  leaves_record (CmdCreateRun p t key) s' (OutcomeRun r).
Proof.
  unfold run_create. intros H. open_command H cmd Hc prior Hp. exists cmd.
  destruct prior as [o|].
  - injection H as <- Ho. exists o. cbn. by rewrite Ho, <- prior_recorded.
  - peel_ok H i Hi. peel_ok H pi Hpi. peel_ok H ti Hti. apply call_Ok in H.
    apply create_run_recorded in H as [-> Hr]; [|done]. by eexists.
Qed.
Lemma run_create_work_records p t b key now g s s' r :
  run_create_work p t b key now g s = (s', Ok r) →
  leaves_record (CmdCreateWork p t b key) s' (OutcomeRun r).
Proof.
  unfold run_create_work. intros H. open_command H cmd Hc prior Hp. exists cmd.
  destruct prior as [o|].
  - injection H as <- Ho. exists o. cbn. by rewrite Ho, <- prior_recorded.
  - peel_ok H i Hi. peel_ok H pi Hpi. peel_ok H ti Hti. apply call_Ok in H.
    apply create_run_recorded in H as [-> Hr]; [|done]. by eexists.
Qed.
Lemma run_transition_records i expected next key now s s' r :
  run_transition i expected next key now s = (s', Ok r) →
  leaves_record (CmdTransition i expected next key) s' (OutcomeRun r).
Proof.
  unfold run_transition. intros H. open_command H cmd Hc prior Hp. exists cmd.
  destruct prior as [o|].
  - injection H as <- Ho. exists o. cbn. by rewrite Ho, <- prior_recorded.
  - peel_ok H run Hrun. peel_ok H u Hu. peel_ok H run' Hrun'. apply call_Ok in H.
    apply save_run_recorded in H as [-> Hr]; [|done]. by eexists.
Qed.
Lemma approval_request_records input key now g s s' r :
  approval_request input key now g s = (s', Ok r) →
  leaves_record (CmdRequestApproval input key) s' (OutcomeApproval r).
Proof.
  unfold approval_request, leaves_record; cbn [command_of].
  destruct (approval_scope_key _) as [sc rs]. intros H. open_command H cmd Hc prior Hp.
  exists cmd. destruct prior as [o|].
  - injection H as <- Ho. exists o. cbn. by rewrite Ho, <- prior_recorded.
  - peel_ok H u1 Hu1. peel_ok H run Hrun. peel_ok H u Hu. peel_ok H run' Hrun'.
    peel_ok H i Hi. apply call_Ok in H.
    apply create_approval_recorded in H as [-> Hr]; [|done]. by eexists.
Qed.
Lemma approval_decide_records i expected d key now s s' r :
  approval_decide i expected d key now s = (s', Ok r) →
  leaves_record (CmdDecideApproval i expected d key) s' (OutcomeApproval r).
Proof.
  unfold approval_decide. intros H. open_command H cmd Hc prior Hp. exists cmd.
  destruct prior as [o|].
  { injection H as <- Ho. exists o. cbn. by rewrite Ho, <- prior_recorded. }
  peel_ok H a Ha. peel_ok H u Hu.
  pose proof (approval_decide_spec d now a) as Hd.
  destruct (Approval.decide d now a) as [a' ra]. peel_ok H expired He.
  peel_ok H run Hrun. peel_ok H run' Hrun'. apply method_bind_Ok in H as (s1 & saved & Hs & H).
  apply call_Ok in Hs. apply decide_approval_recorded in Hs as [-> Hr]; [|done].
  destruct expired; [done|]. injection H as -> <-. eexists. split_and!; [done..|].
  unfold lift in He. repeat case_match; simplify_eq/=; by destruct d.
Qed.

Lemma command_records c now g s s' out :
  command_apply c now g s = (s', Ok out) → leaves_record c s' out.
Proof.
  intros H. destruct c; cbn [command_apply] in H; unfold run_result, approval_result in H;
    apply method_bind_Ok in H as (s1 & r & H & [= -> <-]);
    eauto using run_create_records, run_create_work_records, run_transition_records,
      approval_request_records, approval_decide_records.
Qed.
End commands.

(** ** Properties *)

(** C15. The audit trail determines the run: whatever handlers are called, in any
    order, at any times and with any generated identifiers, the stored state of
    every run is the state its audit stream ends in, the stream opens with the
    creation and each recorded change follows an edge of the lifecycle. *)
Theorem services_keep_audit_trail {SHA : Sha256} cs i r :
  let s := service_run cs State.empty in
  State.runs s !! i = Some r → Run.id r = i ∧ trail (kinds (stream s i)) (Run.state r).
Proof.
  intros s Hr. destruct (service_run_trail cs State.empty trail_inv_empty) as [Hk Ht].
  split; [by apply Hk|]. specialize (Ht i). fold s in Ht. by rewrite Hr in Ht.
Qed.

(** C16. A command takes effect once: after a successful command, replaying it with
    the same key and input at any later time, after any other store operations,
    returns the recorded outcome of the first execution and leaves the store
    untouched. *)
Theorem command_replay_is_stable {SHA : Sha256} c now g now' g' s s1 s2 out :
  command_apply c now g s = (s1, Ok out) → later s1 s2 →
  command_apply c now' g' s2 = (s2, Ok out).
Proof.
  intros (cmd & o & Hc & Ho & Hr)%command_records Hl.
  rewrite (command_replays c cmd o now' g' s2 Hc); [by rewrite Hr|].
  unfold recorded in *. by eapply later_commands.
Qed.

Definition demo_calls : list (service_call * Z * str) :=
  [(CallCreateWork (lit "project-1") (lit "thread-1") WorkExecutionBackend.HostDirect
      (lit "k1"), 10, lit "run-1");
   (CallTransition (mk_id (lit "run-1")) 0 RunState.Planning (lit "k2"), 11, []);
   (CallRequestApproval (mk_request_approval (mk_id (lit "run-1")) 1
      (Approval.request demo_approval) ApprovalScope.Once 50) (lit "k3"), 12, lit "approval-1")].
Definition demo_service_store : State.t := service_run (SHA := demo_sha) demo_calls State.empty.
Definition demo_awaiting : Run.t :=
  Run.mk (mk_id (lit "run-1")) (mk_id (lit "project-1")) (mk_id (lit "thread-1"))
    RunKind.Work (Some WorkExecutionBackend.HostDirect) RunState.AwaitingApproval 2 10 12.
Definition demo_pending : Approval.t :=
  Approval.pending (mk_id (lit "approval-1")) (mk_id (lit "run-1"))
    (Approval.request demo_approval) ApprovalScope.Once 12 50.

Lemma services_keep_audit_trail_witness :
  trail (kinds (stream demo_service_store (mk_id (lit "run-1")))) RunState.AwaitingApproval ∧
  length (stream demo_service_store (mk_id (lit "run-1"))) = 4%nat.
Proof.
  split; [|vm_compute; reflexivity].
  refine (proj2 (services_keep_audit_trail (SHA := demo_sha) demo_calls
    (mk_id (lit "run-1")) demo_awaiting _)).
  vm_compute. reflexivity.
Defined.

Lemma command_replay_is_stable_witness :
  let c := CmdCreateRun (lit "project-1") (lit "thread-1") (lit "key") in
  let '(s1, r1) := command_apply (SHA := demo_sha) c 10 (lit "run-1") State.empty in
  match r1 with
  | Ok out => command_apply (SHA := demo_sha) c 99 (lit "run-2") s1 = (s1, Ok out)
  | Err _ => False
  end.
Proof.
  cbv zeta. destruct (command_apply _ 10 _ State.empty) as [s1 [out|e]] eqn:H.
  - exact (command_replay_is_stable (SHA := demo_sha) _ _ _ 99 (lit "run-2") _ _ s1 _ H
      (rtc_refl _ _)).
  - vm_compute in H. discriminate H.
Defined.

Lemma u64_succ n : 0 ≤ n < u64_max → saturating_add u64_max n 1 = n + 1 ∧ u64_add n 1 = n + 1.
Proof.
  unfold saturating_add, u64_add, u64_max. intros H. split; [lia|]. apply Z.mod_small. lia.
Qed.

(** Where a decision sends the run. *)
Definition resumed (d : ApprovalDecision.t) (expired : bool) : RunState.t :=
  if (d == ApprovalDecision.Grant) && negb expired then RunState.Running else RunState.Paused.

(** The store operation a decision commits. *)
Lemma decide_approval_run cmd s a a' run run' event :
  prior_execution_command cmd s = (s, Ok None) →
  State.approvals s !! Approval.id a' = Some a →
  Approval.revision a' = u64_add (Approval.revision a) 1 →
  State.runs s !! Run.id run' = Some run →
  Run.revision run' = u64_add (Run.revision run) 1 → Run.id run' = Approval.run_id a' →
  ∃ s', InMemory.decide_approval a' (Approval.revision a)
          (Some (run', Run.revision run, event)) cmd s = (s', Ok a') ∧
    State.approvals s' !! Approval.id a' = Some a' ∧
    State.runs s' !! Run.id run' = Some run' ∧
    stream s' (Run.id run') = push_events (Run.id run') [event] (stream s (Run.id run')).
Proof.
  intros Hp Ha Hra Hr Hrr Hid. unfold InMemory.decide_approval, mbind, method_bind.
  rewrite Hp. unfold InMemory.run_conflict. run_unfold. cbn. rewrite Ha, Hr, Hra, Hrr, <- Hid.
  rewrite !bool_decide_eq_true_2 by done. cbn. eexists. split; [done|]. cbn.
  unfold stream. cbn. by rewrite !lookup_insert_eq.
Qed.

(** C24. Deciding an approval settles the approval and its run together. For a
    pending request whose run waits for it, a decision in time stores the verdict,
    returns it and moves the run to running for a grant and to paused for a denial;
    a decision past the deadline stores the expiry, pauses the run and reports the
    expiry, and in every case the audit stream gains exactly that state change. *)
Theorem approval_decision_settles {SHA : Sha256} i d key now s a run cmd :
  command_of (CmdDecideApproval i (Approval.revision a) d key) = Ok cmd →
  prior_execution_command cmd s = (s, Ok None) →
  State.approvals s !! i = Some a → Approval.id a = i →
  Approval.status a = ApprovalStatus.Pending → 0 ≤ Approval.revision a < u64_max →
  State.runs s !! Approval.run_id a = Some run → Run.id run = Approval.run_id a →
  Run.state run = RunState.AwaitingApproval → Run.updated_at run ≤ now →
  0 ≤ Run.revision run < u64_max →
  let expired := Approval.expires_at a <? now in
  let a' := decided a (if expired then ApprovalStatus.Expired else verdict d) now in
  ∃ s' run',
    approval_decide i (Approval.revision a) d key now s =
      (s', if expired
           then Err (ApplicationError.from_approval (ApprovalExpired (Approval.expires_at a)))
           else Ok a') ∧
    State.approvals s' !! i = Some a' ∧
    State.runs s' !! Approval.run_id a = Some run' ∧ Run.state run' = resumed d expired ∧
    kinds (stream s' (Approval.run_id a)) =
      kinds (stream s (Approval.run_id a)) ++
      [RunStateChanged RunState.AwaitingApproval (resumed d expired)].
Proof.
  intros Hc Hp Ha <- Hst Hra Hr Hid Hrs Hu Hrr expired a'.
  set (next := resumed d expired).
  assert (Ht : ∃ run', Run.transition next now run = (run', Ok tt) ∧ Run.id run' = Run.id run ∧
    Run.state run' = next ∧ Run.revision run' = u64_add (Run.revision run) 1).
  { eexists. rewrite run_transition_Ok. split; [split_and!; [|done|reflexivity]|].
    - rewrite Hrs. unfold next, resumed. by destruct (_ && _).
    - cbn. split_and!; [done..|]. destruct (u64_succ _ Hrr). congruence. }
  destruct Ht as (run' & Ht & Hid' & Hst' & Hrev').
  destruct (decide_approval_run cmd s a a' run run'
    (NewRunEvent.mk now (RunStateChanged (Run.state run) next)))
    as (s' & Hs & H1 & H2 & H3);
    [done|done|cbn; destruct (u64_succ _ Hra); congruence|congruence|done|cbn; congruence|].
  exists s', run'. rewrite <- Hid, <- Hid', H3, kinds_push, <- Hrs.
  split_and!; try done.
  unfold approval_decide, mbind, method_bind, lift. cbn [command_of] in Hc. rewrite Hc.
  unfold call at 1; cbn. rewrite Hp. cbn. unfold self, call, InMemory.get_approval,
    mbind, method_bind, self, lift; cbn. rewrite Ha; cbn.
  rewrite (bool_decide_eq_true_2 (Approval.revision a = _)) by done. cbn.
  rewrite approval_decide_spec, bool_decide_eq_true_2 by done. fold expired.
  apply (moved_copy_Ok ApplicationError.from_transition) in Ht.
  unfold InMemory.get_run, mbind, method_bind, self, lift.
  clear Hc H1 H2 H3 Hst'. unfold next, a', resumed in Ht, Hs.
  unfold a'. clear a' next. clearbody expired.
  destruct expired; cbn in Ht, Hs |- *; rewrite Hr; cbn; rewrite Ht, Hs; done.
Qed.

Definition demo_decide_command : MutationCommand.t :=
  MutationCommand.mk (lit "decide_approval") (lit "k4")
    (command_preimage (bytes (lit "decide_approval"))
       [bytes (lit "approval-1"); bytes (lit "0"); bytes (lit "grant")]).

Lemma approval_decision_settles_witness :
  ∃ s' run',
    approval_decide (SHA := demo_sha) (mk_id (lit "approval-1")) 0 ApprovalDecision.Grant
      (lit "k4") 20 demo_service_store =
      (s', Ok (decided demo_pending ApprovalStatus.Granted 20)) ∧
    State.runs s' !! Approval.run_id demo_pending = Some run' ∧
    Run.state run' = RunState.Running.
Proof.
  destruct (approval_decision_settles (SHA := demo_sha) (mk_id (lit "approval-1"))
    ApprovalDecision.Grant (lit "k4") 20 demo_service_store demo_pending demo_awaiting
    demo_decide_command) as (s' & run' & H1 & H2 & H3 & H4 & H5);
    try (vm_compute; reflexivity); try (cbn; unfold u64_max; lia).
  exists s', run'. split; [exact H1|]. split; [exact H3|exact H4].
Defined.
