(* ===== verification/PrivilegedJournal.v ===== *)
(** * The privileged-operation journal

    The persistence port of privileged operations
    ([crates/grok-application/src/privileged_operations.rs],
    [PrivilegedOperationStore]) as a class, its in-memory implementation
    ([crates/grok-memory/src/lib.rs]) as an instance, and the journal coordinator
    [PrivilegedOperationService] over the class. *)
From S2P Require Import Prelude RustText Ids PrivilegedOperations ExecutionStore Commands ExecutionServices.
Import PrivilegedOperationState.

Definition MIN_PRIVILEGED_OPERATION_PAYLOAD_BYTES : Z := 2.
Definition MAX_PRIVILEGED_OPERATION_PAYLOAD_BYTES : Z := 8 * 1024 * 1024.
Definition MAX_PRIVILEGED_ATTEMPT_DURATION_MS : Z := 30000.

Module PrivilegedPreparation.
Record t : Type := mk { operation : PrivilegedOperation.t; created : bool }.
End PrivilegedPreparation.

Module PrivilegedDispatchAttempt.
Record t : Type := mk {
  sequence : Z;
  transport_operation_id : str;
  wire_digest : digest;
  broker_boot_id : list Z;
  guest_boot_id : list Z;
  started_at : Z;
  deadline_unix_ms : Z;
}.
End PrivilegedDispatchAttempt.

Module StoredPrivilegedDispatchAttempt.
Record t : Type := mk { attempt : PrivilegedDispatchAttempt.t; completed_at : option Z }.
#[global] Instance eta : Eta t := λ a, mk (attempt a) (completed_at a).
End StoredPrivilegedDispatchAttempt.

Module PrivilegedRecoveryCandidate.
Record t : Type := mk {
  operation : PrivilegedOperation.t; attempt_sequence : Z; attempt_started_at : Z }.
End PrivilegedRecoveryCandidate.

Module PrivilegedRecoverySummary.
Record t : Type := mk {
  retry_pending : Z; interrupted_needs_review : Z; truncated : bool }.
#[global] Instance eta : Eta t := λ x,
  mk (retry_pending x) (interrupted_needs_review x) (truncated x).
End PrivilegedRecoverySummary.

(** ** The port *)

Class PrivilegedOperationStore (S : Type) := {
  resolve_preparation :
    PrivilegedOperationIntent.t → method S StoreError (option PrivilegedOperation.t);
  prepare_with_payload :
    PrivilegedOperation.t → list Z → method S StoreError PrivilegedPreparation.t;
  get_privileged_operation :
    PrivilegedOperationId → method S StoreError PrivilegedOperation.t;
  begin_dispatch_with_attempt :
    PrivilegedOperation.t → Z → PrivilegedDispatchAttempt.t →
    method S StoreError PrivilegedOperation.t;
  list_dispatching_for_recovery :
    Z → method S StoreError (list PrivilegedRecoveryCandidate.t);
  recover_interrupted_attempt :
    PrivilegedOperation.t → Z → Z → Z → method S StoreError PrivilegedOperation.t;
  complete_dispatch_outcome :
    PrivilegedOperation.t → Z → Z → Z → method S StoreError PrivilegedOperation.t;
}.

(** ** In-memory journal *)

(** The maps of [State] the journal uses. *)
Module Journal.
Record t : Type := mk {
  privileged_operations : gmap PrivilegedOperationId PrivilegedOperation.t;
  privileged_operation_keys : gmap (str * str) PrivilegedOperationId;
  privileged_operation_payloads : gmap PrivilegedOperationId (list Z);
  privileged_operation_attempts :
    gmap PrivilegedOperationId (list StoredPrivilegedDispatchAttempt.t);
  privileged_transport_ids : gset str;
}.
#[global] Instance eta : Eta t := λ j,
  mk (privileged_operations j) (privileged_operation_keys j)
     (privileged_operation_payloads j) (privileged_operation_attempts j)
     (privileged_transport_ids j).
Definition empty : t := mk ∅ ∅ ∅ ∅ ∅.
End Journal.

Module JournalStore.
Import Journal.

Definition invalid_privileged_journal : StoreError :=
  Internal (lit "invalid durable privileged-operation journal").

(** [validate_privileged_operation]. *)
Definition validate_privileged_operation (operation : PrivilegedOperation.t) :
    result StoreError PrivilegedOperation.t :=
  map_err (λ _, invalid_privileged_journal) (PrivilegedOperation.restore operation).

(** [validate_privileged_payload]. *)
Definition validate_privileged_payload {SHA : Sha256} (operation : PrivilegedOperation.t)
    (payload : list Z) : result StoreError unit :=
  reject_if (negb (in_range 2 (8 * 1024 * 1024) (Z.of_nat (length payload)))
             || (sha256 payload != PrivilegedOperation.payload_digest operation))
    invalid_privileged_journal.

(** The transport identifier test. *)
Definition valid_transport_id (value : str) : bool :=
  in_range 16 128 (len value) && forallb safe_key_byte (bytes value).

(** [validate_privileged_attempt]. *)
Definition validate_privileged_attempt (operation : PrivilegedOperation.t)
    (attempt : PrivilegedDispatchAttempt.t) : result StoreError unit :=
  let duration := checked_sub (PrivilegedDispatchAttempt.deadline_unix_ms attempt)
                    (PrivilegedDispatchAttempt.started_at attempt) in
  reject_if
    ((PrivilegedOperation.state operation != Dispatching)
     || (PrivilegedDispatchAttempt.sequence attempt
         != PrivilegedOperation.attempt_count operation)
     || (PrivilegedDispatchAttempt.started_at attempt
         != PrivilegedOperation.updated_at operation)
     || negb (valid_transport_id (PrivilegedDispatchAttempt.transport_operation_id attempt))
     || (PrivilegedDispatchAttempt.transport_operation_id attempt
         == as_str (PrivilegedOperation.id operation))
     || (PrivilegedDispatchAttempt.broker_boot_id attempt == repeat 0 16)
     || (PrivilegedDispatchAttempt.guest_boot_id attempt == repeat 0 16)
     || match duration with
        | None => true | Some duration => (duration =? 0) || (30000 <? duration) end)
    invalid_privileged_journal.

(** [privileged_operation_key]. *)
Definition intent_key (authority : PrivilegedAuthority.t)
    (idempotency : PrivilegedIdempotency.t) : str * str :=
  (key_str (PrivilegedAuthority.grant_id authority),
   key_str (PrivilegedIdempotency.key idempotency)).
Definition privileged_operation_key (operation : PrivilegedOperation.t) : str * str :=
  intent_key (PrivilegedOperation.authority operation)
    (PrivilegedOperation.idempotency operation).

(** [exact_privileged_intent]. *)
Definition exact_privileged_intent (existing : PrivilegedOperation.t)
    (intent : PrivilegedOperationIntent.t) : bool :=
  (PrivilegedOperation.kind existing == PrivilegedOperationIntent.kind intent)
  && (PrivilegedOperation.target existing == PrivilegedOperationIntent.target intent)
  && (PrivilegedOperation.payload_digest existing
      == PrivilegedOperationIntent.payload_digest intent)
  && (PrivilegedOperation.authority existing == PrivilegedOperationIntent.authority intent)
  && (PrivilegedOperation.idempotency existing == PrivilegedOperationIntent.idempotency intent)
  && (PrivilegedOperation.links existing == PrivilegedOperationIntent.links intent).

(** [exact_privileged_replay]. *)
Definition exact_privileged_replay (existing proposed : PrivilegedOperation.t) : bool :=
  (PrivilegedOperation.kind existing == PrivilegedOperation.kind proposed)
  && (PrivilegedOperation.target existing == PrivilegedOperation.target proposed)
  && (PrivilegedOperation.payload_digest existing
      == PrivilegedOperation.payload_digest proposed)
  && (PrivilegedOperation.authority existing == PrivilegedOperation.authority proposed)
  && (PrivilegedOperation.idempotency existing == PrivilegedOperation.idempotency proposed)
  && (PrivilegedOperation.links existing == PrivilegedOperation.links proposed).

(** [resolve_preparation]. *)
Definition resolve_preparation (intent : PrivilegedOperationIntent.t) :
    method Journal.t StoreError (option PrivilegedOperation.t) :=
  state ← self;
  match privileged_operation_keys state
          !! intent_key (PrivilegedOperationIntent.authority intent)
               (PrivilegedOperationIntent.idempotency intent) with
  | None => mret None
  | Some id =>
      existing ← lift (ok_or invalid_privileged_journal (privileged_operations state !! id));
      existing ← lift (validate_privileged_operation existing);
      if exact_privileged_intent existing intent then mret (Some existing)
      else throw Conflict
  end.

(** [prepare_with_payload]. *)
Definition prepare_with_payload {SHA : Sha256} (operation : PrivilegedOperation.t)
    (payload : list Z) : method Journal.t StoreError PrivilegedPreparation.t :=
  _ ← throw_if (PrivilegedOperation.state operation != Prepared) invalid_privileged_journal;
  _ ← lift (validate_privileged_payload operation payload);
  operation ← lift (validate_privileged_operation operation);
  state ← self;
  let key := privileged_operation_key operation in
  match privileged_operation_keys state !! key with
  | Some id =>
      existing ← lift (ok_or invalid_privileged_journal (privileged_operations state !! id));
      existing ← lift (validate_privileged_operation existing);
      _ ← throw_if (negb (exact_privileged_replay existing operation)) Conflict;
      mret (PrivilegedPreparation.mk existing false)
  | None =>
      let id := PrivilegedOperation.id operation in
      _ ← throw_if (is_some (privileged_operations state !! id)) Conflict;
      _ ← assign (λ j, j <| privileged_operation_keys :=
            <[key := id]> (privileged_operation_keys j) |>);
      _ ← assign (λ j, j <| privileged_operation_payloads :=
            <[id := payload]> (privileged_operation_payloads j) |>);
      _ ← assign (λ j, j <| privileged_operations :=
            <[id := operation]> (privileged_operations j) |>);
      mret (PrivilegedPreparation.mk operation true)
  end.

(** [get_privileged_operation]. *)
Definition get_privileged_operation (id : PrivilegedOperationId) :
    method Journal.t StoreError PrivilegedOperation.t :=
  state ← self;
  operation ← lift (ok_or NotFound (privileged_operations state !! id));
  lift (validate_privileged_operation operation).

(** [begin_dispatch_with_attempt]. The attempt list is created by [or_default]
    before its length is tested. *)
Definition begin_dispatch_with_attempt (operation : PrivilegedOperation.t)
    (expected_revision : Z) (attempt : PrivilegedDispatchAttempt.t) :
    method Journal.t StoreError PrivilegedOperation.t :=
  operation ← lift (validate_privileged_operation operation);
  _ ← lift (validate_privileged_attempt operation attempt);
  state ← self;
  let id := PrivilegedOperation.id operation in
  current ← lift (ok_or NotFound (privileged_operations state !! id));
  current ← lift (validate_privileged_operation current);
  let '(expected, r) :=
    PrivilegedOperation.dispatch (PrivilegedDispatchAttempt.started_at attempt) current in
  _ ← throw_if ((PrivilegedOperation.revision current != expected_revision)
                || negb (is_ok r) || (expected != operation)
                || bool_decide (PrivilegedDispatchAttempt.transport_operation_id attempt
                                ∈ privileged_transport_ids state)) Conflict;
  let attempts := default [] (privileged_operation_attempts state !! id) in
  _ ← assign (λ j, j <| privileged_operation_attempts :=
        <[id := attempts]> (privileged_operation_attempts j) |>);
  _ ← throw_if (Z.of_nat (length attempts)
                != saturating_sub (PrivilegedDispatchAttempt.sequence attempt) 1) Conflict;
  _ ← assign (λ j, j <| privileged_operation_attempts :=
        <[id := attempts ++ [StoredPrivilegedDispatchAttempt.mk attempt None]]>
          (privileged_operation_attempts j) |>);
  _ ← assign (λ j, j <| privileged_transport_ids :=
        {[ PrivilegedDispatchAttempt.transport_operation_id attempt ]}
        ∪ privileged_transport_ids j |>);
  _ ← assign (λ j, j <| privileged_operations :=
        <[id := operation]> (privileged_operations j) |>);
  mret operation.

(** [attempts.get(id).and_then(|attempts| attempts.last())]. *)
Definition last_attempt (state : Journal.t) (id : PrivilegedOperationId) :
    option StoredPrivilegedDispatchAttempt.t :=
  attempts ← privileged_operation_attempts state !! id; last attempts.

(** The closure of [list_dispatching_for_recovery]. *)
Definition recovery_candidate (state : Journal.t) (operation : PrivilegedOperation.t) :
    result StoreError PrivilegedRecoveryCandidate.t :=
  operation ← validate_privileged_operation operation;
  attempt ← ok_or invalid_privileged_journal
              (last_attempt state (PrivilegedOperation.id operation));
  _ ← validate_privileged_attempt operation (StoredPrivilegedDispatchAttempt.attempt attempt);
  _ ← reject_if (is_some (StoredPrivilegedDispatchAttempt.completed_at attempt))
        invalid_privileged_journal;
  Ok (PrivilegedRecoveryCandidate.mk operation
        (PrivilegedDispatchAttempt.sequence (StoredPrivilegedDispatchAttempt.attempt attempt))
        (PrivilegedDispatchAttempt.started_at (StoredPrivilegedDispatchAttempt.attempt attempt))).

(** [Iterator::collect] into a [Result]. *)
Fixpoint collect {E A B} (f : A → result E B) (l : list A) : result E (list B) :=
  match l with
  | [] => Ok []
  | x :: l' => y ← f x; ys ← collect f l'; Ok (y :: ys)
  end.

(** [list_dispatching_for_recovery]. *)
Definition list_dispatching_for_recovery (limit : Z) :
    method Journal.t StoreError (list PrivilegedRecoveryCandidate.t) :=
  state ← self;
  let operations :=
    InMemory.sort_by_key PrivilegedOperation.updated_at
      (λ o, as_str (PrivilegedOperation.id o))
      (filter (λ o, PrivilegedOperation.state o = Dispatching)
         (InMemory.values (privileged_operations state))) in
  lift (collect (recovery_candidate state) (take (Z.to_nat limit) operations)).

(** The end of [recover_interrupted_attempt] and [complete_dispatch_outcome]:
    closing the last attempt and storing the operation. *)
Definition close_last_attempt (operation : PrivilegedOperation.t)
    (attempt_sequence completed_at : Z) :
    method Journal.t StoreError PrivilegedOperation.t :=
  state ← self;
  let id := PrivilegedOperation.id operation in
  let attempts := default [] (privileged_operation_attempts state !! id) in
  attempt ← lift (ok_or invalid_privileged_journal (last attempts));
  _ ← throw_if ((PrivilegedDispatchAttempt.sequence
                   (StoredPrivilegedDispatchAttempt.attempt attempt) != attempt_sequence)
                || is_some (StoredPrivilegedDispatchAttempt.completed_at attempt)
                || (completed_at <? PrivilegedDispatchAttempt.started_at
                                      (StoredPrivilegedDispatchAttempt.attempt attempt)))
        Conflict;
  _ ← assign (λ j, j <| privileged_operation_attempts :=
        <[id := <[Nat.pred (length attempts) :=
                    attempt <| StoredPrivilegedDispatchAttempt.completed_at := Some completed_at |>]>
                  attempts]> (privileged_operation_attempts j) |>);
  _ ← assign (λ j, j <| privileged_operations :=
        <[id := operation]> (privileged_operations j) |>);
  mret operation.

(** [recover_interrupted_attempt]. *)
Definition recover_interrupted_attempt (operation : PrivilegedOperation.t)
    (expected_revision attempt_sequence completed_at : Z) :
    method Journal.t StoreError PrivilegedOperation.t :=
  operation ← lift (validate_privileged_operation operation);
  state ← self;
  current ← lift (ok_or NotFound
    (privileged_operations state !! PrivilegedOperation.id operation));
  current ← lift (validate_privileged_operation current);
  let '(expected, r) := PrivilegedOperation.interrupt completed_at current in
  _ ← throw_if ((PrivilegedOperation.revision current != expected_revision)
                || (PrivilegedOperation.attempt_count current != attempt_sequence)
                || negb (is_ok r) || (expected != operation)) Conflict;
  close_last_attempt operation attempt_sequence completed_at.

(** The states [complete_dispatch_outcome] may store. *)
Definition is_dispatch_outcome (s : PrivilegedOperationState.t) : bool :=
  match s with
  | Succeeded | Failed | RetryPending | InterruptedNeedsReview => true | _ => false end.

(** [complete_dispatch_outcome]. *)
Definition complete_dispatch_outcome (operation : PrivilegedOperation.t)
    (expected_revision attempt_sequence completed_at : Z) :
    method Journal.t StoreError PrivilegedOperation.t :=
  operation ← lift (validate_privileged_operation operation);
  _ ← throw_if (negb (is_dispatch_outcome (PrivilegedOperation.state operation)))
        invalid_privileged_journal;
  state ← self;
  current ← lift (ok_or NotFound
    (privileged_operations state !! PrivilegedOperation.id operation));
  current ← lift (validate_privileged_operation current);
  _ ← throw_if ((PrivilegedOperation.revision current != expected_revision)
                || (PrivilegedOperation.attempt_count current != attempt_sequence)
                || (PrivilegedOperation.state current != Dispatching)) Conflict;
  close_last_attempt operation attempt_sequence completed_at.
End JournalStore.

#[export] Instance memory_journal {SHA : Sha256} : PrivilegedOperationStore Journal.t := {|
  resolve_preparation := JournalStore.resolve_preparation;
  prepare_with_payload := JournalStore.prepare_with_payload;
  get_privileged_operation := JournalStore.get_privileged_operation;
  begin_dispatch_with_attempt := JournalStore.begin_dispatch_with_attempt;
  list_dispatching_for_recovery := JournalStore.list_dispatching_for_recovery;
  recover_interrupted_attempt := JournalStore.recover_interrupted_attempt;
  complete_dispatch_outcome := JournalStore.complete_dispatch_outcome;
|}.

(** ** The coordinator *)

Module BeginPrivilegedDispatch.
Record t : Type := mk {
  operation_id : PrivilegedOperationId;
  expected_revision : Z;
  transport_operation_id : str;
  wire_digest : digest;
  broker_boot_id : list Z;
  guest_boot_id : list Z;
  timeout_ms : Z;
}.
End BeginPrivilegedDispatch.

Module PrivilegedOperationService.
Section service.
Context {T : Type} {PS : PrivilegedOperationStore T} {SHA : Sha256}.

Definition invalid_input (s : str) : ApplicationError.t :=
  ApplicationError.InvalidInput (Text s).

(** [validate_payload]. *)
Definition validate_payload (payload : list Z) (expected : digest) :
    result ApplicationError.t unit :=
  _ ← reject_if (negb (in_range MIN_PRIVILEGED_OPERATION_PAYLOAD_BYTES
                         MAX_PRIVILEGED_OPERATION_PAYLOAD_BYTES (Z.of_nat (length payload))))
        (invalid_input (lit "privileged operation payload is outside durable bounds"));
  reject_if (sha256 payload != expected)
    (invalid_input (lit "privileged operation payload digest does not match exact bytes")).

(** [validate_transport_id]. *)
Definition validate_transport_id (value : str) : result ApplicationError.t unit :=
  reject_if (negb (in_range 16 128 (len value)) || negb (forallb safe_key_byte (bytes value)))
    (invalid_input (lit "transport operation id must be 16-128 allowlisted ASCII bytes")).

(** [PrivilegedOperationService::prepare]. *)
Definition prepare (intent : PrivilegedOperationIntent.t) (payload : list Z)
    (generated : str) (now : Z) : method T ApplicationError.t PrivilegedPreparation.t :=
  _ ← lift (validate_payload payload (PrivilegedOperationIntent.payload_digest intent));
  prior ← call (resolve_preparation intent);
  match prior with
  | Some operation => mret (PrivilegedPreparation.mk operation false)
  | None =>
      id ← lift (map_err ApplicationError.from_id (new_id generated));
      operation ← lift (map_err ApplicationError.from_privileged
                          (PrivilegedOperation.prepare id intent now));
      call (prepare_with_payload operation payload)
  end.

(** [PrivilegedOperationService::begin_dispatch]. *)
Definition begin_dispatch (input : BeginPrivilegedDispatch.t) (started_at : Z) :
    method T ApplicationError.t PrivilegedOperation.t :=
  _ ← lift (validate_transport_id (BeginPrivilegedDispatch.transport_operation_id input));
  _ ← throw_if ((BeginPrivilegedDispatch.broker_boot_id input == repeat 0 16)
                || (BeginPrivilegedDispatch.guest_boot_id input == repeat 0 16))
        (invalid_input (lit "privileged attempt boot identities must be nonzero"));
  _ ← throw_if ((BeginPrivilegedDispatch.timeout_ms input =? 0)
                || (MAX_PRIVILEGED_ATTEMPT_DURATION_MS <? BeginPrivilegedDispatch.timeout_ms input))
        (invalid_input (lit "privileged attempt duration must be between 1 and 30000 milliseconds"));
  operation ← call (get_privileged_operation (BeginPrivilegedDispatch.operation_id input));
  _ ← throw_if (BeginPrivilegedDispatch.transport_operation_id input
                == as_str (PrivilegedOperation.id operation))
        (invalid_input (lit "transport identity must differ from the durable journal identity"));
  _ ← throw_if (PrivilegedOperation.revision operation
                != BeginPrivilegedDispatch.expected_revision input) ApplicationError.Conflict;
  deadline_unix_ms ← lift (ok_or (invalid_input (lit "attempt deadline overflow"))
    (checked_add u64_max started_at (BeginPrivilegedDispatch.timeout_ms input)));
  operation ← lift (moved_copy ApplicationError.from_privileged
                      (PrivilegedOperation.dispatch started_at) operation);
  call (begin_dispatch_with_attempt operation
          (BeginPrivilegedDispatch.expected_revision input)
          (PrivilegedDispatchAttempt.mk (PrivilegedOperation.attempt_count operation)
             (BeginPrivilegedDispatch.transport_operation_id input)
             (BeginPrivilegedDispatch.wire_digest input)
             (BeginPrivilegedDispatch.broker_boot_id input)
             (BeginPrivilegedDispatch.guest_boot_id input) started_at deadline_unix_ms)).



End service.
End PrivilegedOperationService.

(** ** The journal invariant *)

Abbreviation attempt_of := StoredPrivilegedDispatchAttempt.attempt (only parsing).
Abbreviation completed := StoredPrivilegedDispatchAttempt.completed_at (only parsing).

Section invariant.
Context {SHA : Sha256}.
Import Journal JournalStore.

Definition transport (a : StoredPrivilegedDispatchAttempt.t) : str :=
  PrivilegedDispatchAttempt.transport_operation_id (attempt_of a).

Definition attempts_of (j : Journal.t) (i : PrivilegedOperationId) :
    list StoredPrivilegedDispatchAttempt.t :=
  default [] (privileged_operation_attempts j !! i).

(** The attempts of an operation: as many as it counts, numbered from one, open
    exactly while the last one is dispatching. *)
Definition attempts_ok (o : PrivilegedOperation.t)
    (l : list StoredPrivilegedDispatchAttempt.t) : Prop :=
  Z.of_nat (length l) = PrivilegedOperation.attempt_count o ∧
  (∀ k a, l !! k = Some a →
     PrivilegedDispatchAttempt.sequence (attempt_of a) = Z.of_nat k + 1 ∧
     (completed a = None ↔ S k = length l ∧ PrivilegedOperation.state o = Dispatching)) ∧
  (PrivilegedOperation.state o = Dispatching →
     ∃ a, last l = Some a ∧ validate_privileged_attempt o (attempt_of a) = Ok tt).

Record journal_ok (j : Journal.t) : Prop := {
  ok_operations : ∀ i o, privileged_operations j !! i = Some o →
    PrivilegedOperation.id o = i ∧ PrivilegedOperation.restore o = Ok o ∧ journal_inv o;
  ok_keys : ∀ k i, privileged_operation_keys j !! k = Some i ↔
    ∃ o, privileged_operations j !! i = Some o ∧ privileged_operation_key o = k;
  ok_payloads : ∀ i o, privileged_operations j !! i = Some o →
    ∃ p, privileged_operation_payloads j !! i = Some p ∧
         sha256 p = PrivilegedOperation.payload_digest o;
  ok_attempts : ∀ i o, privileged_operations j !! i = Some o → attempts_ok o (attempts_of j i);
  ok_no_attempts : ∀ i, privileged_operations j !! i = None → attempts_of j i = [];
  ok_transports : ∀ i a, a ∈ attempts_of j i → transport a ∈ privileged_transport_ids j;
  ok_unique : ∀ i k a i' k' a',
    attempts_of j i !! k = Some a → attempts_of j i' !! k' = Some a' →
    transport a = transport a' → i = i' ∧ k = k';
}.

Lemma journal_ok_empty : journal_ok Journal.empty.
Proof.
  split; unfold attempts_of; cbn; try done; by intros; set_solver.
Qed.

Lemma validate_operation_Ok o o' :
  validate_privileged_operation o = Ok o' ↔ o' = o ∧ PrivilegedOperation.restore o = Ok o.
Proof.
  unfold validate_privileged_operation, PrivilegedOperation.restore.
  destruct (PrivilegedOperation.validate_snapshot o); cbn; naive_solver.
Qed.

(** Replacing the operation [i] by a later version of itself and its attempts by
    [l]. *)
Lemma journal_ok_update j j' i o o' l :
  journal_ok j → privileged_operations j !! i = Some o →
  PrivilegedOperation.id o' = i → PrivilegedOperation.restore o' = Ok o' → journal_inv o' →
  privileged_operation_key o' = privileged_operation_key o →
  PrivilegedOperation.payload_digest o' = PrivilegedOperation.payload_digest o →
  attempts_ok o' l →
  privileged_operations j' = <[i := o']> (privileged_operations j) →
  privileged_operation_keys j' = privileged_operation_keys j →
  privileged_operation_payloads j' = privileged_operation_payloads j →
  (∀ i', attempts_of j' i' = if decide (i = i') then l else attempts_of j i') →
  privileged_transport_ids j ⊆ privileged_transport_ids j' →
  (∀ a, a ∈ l → transport a ∈ privileged_transport_ids j') →
  (∀ k a, l !! k = Some a →
     (∃ a0, attempts_of j i !! k = Some a0 ∧ transport a0 = transport a) ∨
     S k = length l ∧ transport a ∉ privileged_transport_ids j) →
  journal_ok j'.
Proof.
  intros Hj Ho Hid Hres Hinv Hkey Hdig Hl Hops Hkeys Hpay Hat Hsub Hin Hold.
  split.
  - intros i' x. rewrite Hops, lookup_insert_Some.
    intros [[<- <-]|[_ H]]; [done|by apply (ok_operations _ Hj)].
  - intros k i'. rewrite Hkeys, (ok_keys _ Hj), Hops. split.
    + intros (x & Hx & Hk). destruct (decide (i = i')) as [<-|Hne].
      * exists o'. rewrite lookup_insert_eq. split; [done|]. congruence.
      * exists x. by rewrite lookup_insert_ne.
    + intros (x & [[<- <-]|[Hne Hx]]%lookup_insert_Some & Hk); [|by exists x].
      exists o. split; [done|]. congruence.
  - intros i' x. rewrite Hops, Hpay, lookup_insert_Some.
    intros [[<- <-]|[_ H]]; [rewrite Hdig|]; by apply (ok_payloads _ Hj).
  - intros i' x. rewrite Hops, Hat, lookup_insert_Some.
    intros [[<- <-]|[Hne H]]; [by rewrite decide_True|].
    rewrite decide_False by done. by apply (ok_attempts _ Hj).
  - intros i'. rewrite Hops, Hat, lookup_insert_None. intros [H Hne].
    rewrite decide_False by done. by apply (ok_no_attempts _ Hj).
  - intros i' a. rewrite Hat. destruct (decide (i = i')) as [<-|Hne]; [apply Hin|].
    intros H. apply Hsub. by eapply (ok_transports _ Hj).
  - assert (Horig : ∀ i' k a, attempts_of j' i' !! k = Some a →
      (∃ a0, attempts_of j i' !! k = Some a0 ∧ transport a0 = transport a) ∨
      (i' = i ∧ S k = length l ∧ transport a ∉ privileged_transport_ids j)).
    { intros i' k a. rewrite Hat. destruct (decide (i = i')) as [<-|Hne]; [|by eauto].
      intros [?|[? ?]]%Hold; auto. }
    assert (Htr : ∀ i' k a0, attempts_of j i' !! k = Some a0 →
      transport a0 ∈ privileged_transport_ids j).
    { intros i' k a0 H0. by eapply (ok_transports _ Hj i'), list_elem_of_lookup_2. }
    intros i1 k1 a1 i2 k2 a2 H1 H2 Ht.
    destruct (Horig _ _ _ H1) as [(b1 & Hb1 & Ht1)|(-> & Hk1 & Hn1)],
      (Horig _ _ _ H2) as [(b2 & Hb2 & Ht2)|(-> & Hk2 & Hn2)].
    + eapply (ok_unique _ Hj); [done..|congruence].
    + destruct Hn2. rewrite <- Ht, <- Ht1. by eapply Htr.
    + destruct Hn1. rewrite Ht, <- Ht2. by eapply Htr.
    + split; [done|lia].
Qed.

(** Journals that differ only in empty attempt lists. *)
Definition journal_equiv (j j' : Journal.t) : Prop :=
  privileged_operations j' = privileged_operations j ∧
  privileged_operation_keys j' = privileged_operation_keys j ∧
  privileged_operation_payloads j' = privileged_operation_payloads j ∧
  privileged_transport_ids j' = privileged_transport_ids j ∧
  ∀ i, attempts_of j' i = attempts_of j i.

#[local] Instance journal_equiv_equivalence : Equivalence journal_equiv.
Proof.
  split.
  - intros j. by split_and!.
  - intros j1 j2 (?&?&?&?&?). by split_and!.
  - intros j1 j2 j3 (?&?&?&?&?) (?&?&?&?&?). split_and!; congruence.
Qed.
#[local] Instance journal_ok_proper : Proper (journal_equiv ==> impl) journal_ok.
Proof.
  intros j j' (H1 & H2 & H3 & H4 & H5) [A B C D E F G].
  split; intros *; rewrite ?H1, ?H2, ?H3, ?H4, ?H5; eauto.
Qed.

Lemma attempts_ok_push o o' l a :
  attempts_ok o l → PrivilegedOperation.state o ≠ Dispatching →
  PrivilegedOperation.attempt_count o' = PrivilegedOperation.attempt_count o + 1 →
  PrivilegedOperation.state o' = Dispatching →
  PrivilegedDispatchAttempt.sequence a = PrivilegedOperation.attempt_count o' →
  validate_privileged_attempt o' a = Ok tt →
  attempts_ok o' (l ++ [StoredPrivilegedDispatchAttempt.mk a None]).
Proof.
  intros (Hlen & Hk & _) Hst Hc Hst' Hseq Hv. split_and!.
  - rewrite length_app. cbn. lia.
  - intros k x. rewrite length_app, lookup_app_Some. cbn. intros [Hx|[Hge Hx]].
    + destruct (Hk k x Hx) as [H1 H2]. split; [done|]. apply lookup_lt_Some in Hx.
      split; [by intros [_ ?]%H2|]. intros [? _]. lia.
    + destruct (k - length l)%nat eqn:E; [|done]. cbn in Hx. injection Hx as <-. cbn.
      split; [lia|]. split; [|done]. intros _. split; [lia|done].
  - intros _. eexists. by rewrite last_snoc.
Qed.

Lemma attempts_ok_close o o' l a t :
  attempts_ok o l → PrivilegedOperation.state o = Dispatching → last l = Some a →
  PrivilegedOperation.attempt_count o' = PrivilegedOperation.attempt_count o →
  PrivilegedOperation.state o' ≠ Dispatching →
  attempts_ok o' (<[Nat.pred (length l) :=
    a <| StoredPrivilegedDispatchAttempt.completed_at := Some t |>]> l).
Proof.
  intros (Hlen & Hk & _) Hst Hlast Hc Hst'. rewrite last_lookup in Hlast. split_and!.
  - rewrite length_insert. lia.
  - intros k x. rewrite length_insert.
    rewrite list_lookup_insert_Some. intros [(<- & <- & Hlt)|[Hne Hx]].
    + destruct (Hk _ _ Hlast) as [H1 _]. split; [done|]. cbn. naive_solver.
    + destruct (Hk k x Hx) as [H1 H2]. split; [done|]. rewrite H2.
      apply lookup_lt_Some in Hx. split; [|naive_solver]. intros [? _]. lia.
  - done.
Qed.

(** One accepted dispatch, as stored. *)
Lemma begin_dispatch_Ok o ex a j j' o' :
  begin_dispatch_with_attempt o ex a j = (j', Ok o') →
  o' = o ∧ PrivilegedOperation.restore o = Ok o ∧ validate_privileged_attempt o a = Ok tt ∧
  ¬ (PrivilegedDispatchAttempt.transport_operation_id a ∈ privileged_transport_ids j) ∧
  ∃ cur, privileged_operations j !! PrivilegedOperation.id o = Some cur ∧
    PrivilegedOperation.revision cur = ex ∧
    PrivilegedOperation.dispatch (PrivilegedDispatchAttempt.started_at a) cur = (o, Ok tt) ∧
    let l := attempts_of j (PrivilegedOperation.id o) ++ [StoredPrivilegedDispatchAttempt.mk a None] in
    privileged_operations j' = <[PrivilegedOperation.id o := o]> (privileged_operations j) ∧
    privileged_operation_keys j' = privileged_operation_keys j ∧
    privileged_operation_payloads j' = privileged_operation_payloads j ∧
    privileged_transport_ids j' =
      {[PrivilegedDispatchAttempt.transport_operation_id a]} ∪ privileged_transport_ids j ∧
    ∀ i, attempts_of j' i = if decide (PrivilegedOperation.id o = i) then l else attempts_of j i.
Proof.
  unfold begin_dispatch_with_attempt. intros H.
  apply lift_bind_Ok in H as (o1 & (-> & Hr)%validate_operation_Ok & H).
  apply lift_bind_Ok in H as ([] & Hv & H).
  unfold mbind at 1, method_bind at 1, self at 1 in H.
  apply lift_bind_Ok in H as (cur & Hcur & H). unfold ok_or in Hcur.
  destruct (privileged_operations j !! _) as [c|] eqn:Hl; [|done]. injection Hcur as ->.
  apply lift_bind_Ok in H as (c1 & (-> & Hrc)%validate_operation_Ok & H).
  destruct (PrivilegedOperation.dispatch _ cur) as [e r] eqn:Hd.
  destruct r as [[]|er]; [|run_in H; bool_facts; done].
  run_in H. bool_facts. split_and!; try done. exists cur.
  unfold attempts_of. cbn. split_and!; try done. intros i. rewrite insert_insert_eq.
  destruct (decide _) as [<-|Hne]; [by rewrite lookup_insert_eq|by rewrite lookup_insert_ne].
Qed.

(** A refused operation leaves an equivalent journal. *)
Lemma begin_dispatch_Err o ex a j j' e :
  begin_dispatch_with_attempt o ex a j = (j', Err e) → journal_equiv j j'.
Proof.
  unfold begin_dispatch_with_attempt. intros H. run_unfold in H.
  destruct (validate_privileged_operation o) as [o1|]; [|by simplify_eq].
  destruct (validate_privileged_attempt o1 a) as [[]|]; [|by simplify_eq].
  destruct (privileged_operations j !! _) as [cur|]; [|by simplify_eq].
  destruct (validate_privileged_operation cur) as [c1|]; [|by simplify_eq].
  destruct (PrivilegedOperation.dispatch _ c1) as [ex' r].
  destruct (_ || _) in H; [by simplify_eq|]. destruct (negb _) in H; [|done].
  simplify_eq. unfold journal_equiv, attempts_of. cbn. split_and!; try done. intros i.
  destruct (decide (PrivilegedOperation.id o1 = i)) as [<-|Hne];
    [by rewrite lookup_insert_eq|by rewrite lookup_insert_ne].
Qed.

Lemma validate_payload_digest o p :
  validate_privileged_payload o p = Ok tt → sha256 p = PrivilegedOperation.payload_digest o.
Proof.
  unfold validate_privileged_payload, reject_if. case_match; [done|]. intros _.
  bool_facts. done.
Qed.

Lemma prepared_inv o :
  PrivilegedOperation.restore o = Ok o → PrivilegedOperation.state o = Prepared →
  journal_inv o ∧ PrivilegedOperation.attempt_count o = 0.
Proof.
  intros Hr Hs.
  assert (Ha : PrivilegedOperation.attempt_count o = 0).
  { unfold PrivilegedOperation.restore in Hr.
    destruct (PrivilegedOperation.validate_snapshot o) eqn:Hv; [|done].
    unfold PrivilegedOperation.validate_snapshot, PrivilegedOperation.expected_revision in Hv.
    rewrite Hs in Hv. repeat case_match; bool_facts; done. }
  split; [|done]. apply (validate_snapshot_spec o); [rewrite Ha; unfold fits, u32_max; lia|].
  unfold PrivilegedOperation.restore in Hr.
  destruct (PrivilegedOperation.validate_snapshot o); [|done]. split; [done|]. lia.
Qed.

(** A new operation. *)
Lemma journal_ok_insert j j' o p :
  journal_ok j → privileged_operations j !! PrivilegedOperation.id o = None →
  privileged_operation_keys j !! privileged_operation_key o = None →
  PrivilegedOperation.restore o = Ok o → PrivilegedOperation.state o = Prepared →
  sha256 p = PrivilegedOperation.payload_digest o →
  privileged_operations j' = <[PrivilegedOperation.id o := o]> (privileged_operations j) →
  privileged_operation_keys j' =
    <[privileged_operation_key o := PrivilegedOperation.id o]> (privileged_operation_keys j) →
  privileged_operation_payloads j' =
    <[PrivilegedOperation.id o := p]> (privileged_operation_payloads j) →
  privileged_operation_attempts j' = privileged_operation_attempts j →
  privileged_transport_ids j' = privileged_transport_ids j →
  journal_ok j'.
Proof.
  intros Hj Hn Hkn Hr Hs Hp Hops Hkeys Hpay Hat Htr.
  destruct (prepared_inv o Hr Hs) as [Hinv Hac].
  assert (Hat' : ∀ i, attempts_of j' i = attempts_of j i) by (unfold attempts_of; by rewrite Hat).
  split; try (intros *; rewrite !Hat', ?Htr; apply Hj).
  - intros i x. rewrite Hops, lookup_insert_Some.
    intros [[<- <-]|[_ H]]; [done|by apply (ok_operations _ Hj)].
  - intros k i. rewrite Hkeys, Hops, lookup_insert_Some, (ok_keys _ Hj). split.
    + intros [[<- <-]|[Hne (x & Hx & Hk)]]; [exists o; by rewrite lookup_insert_eq|].
      exists x. rewrite lookup_insert_ne; [done|]. intros <-. congruence.
    + intros (x & [[<- <-]|[Hne Hx]]%lookup_insert_Some & Hk); [by left|]. right.
      split; [|by exists x]. intros E. rewrite <- Hk in E.
      assert (privileged_operation_keys j !! privileged_operation_key x = Some i)
        by (apply (ok_keys _ Hj); by exists x). congruence.
  - intros i x. rewrite Hops, Hpay, lookup_insert_Some.
    intros [[<- <-]|[Hne H]]; [exists p; by rewrite lookup_insert_eq|].
    rewrite lookup_insert_ne by done. by apply (ok_payloads _ Hj).
  - intros i x. rewrite Hops, Hat', lookup_insert_Some.
    intros [[<- <-]|[_ H]]; [|by apply (ok_attempts _ Hj)].
    rewrite (ok_no_attempts _ Hj) by done. split_and!; [by rewrite Hac|done|].
    intros E. congruence.
  - intros i. rewrite Hops, Hat', lookup_insert_None. intros [H _].
    by apply (ok_no_attempts _ Hj).
Qed.

Lemma prepare_preserves o p j j' r :
  journal_ok j → JournalStore.prepare_with_payload o p j = (j', r) → journal_ok j'.
Proof.
  intros Hj H. unfold JournalStore.prepare_with_payload in H. run_unfold in H.
  destruct (negb _) eqn:Hs in H; [by simplify_eq|]. apply negb_false_iff, bool_decide_eq_true in Hs.
  destruct (validate_privileged_payload o p) as [[]|] eqn:Hp; [|by simplify_eq].
  destruct (validate_privileged_operation o) as [o1|] eqn:Hv; [|by simplify_eq].
  apply validate_operation_Ok in Hv as [-> Hr]. apply validate_payload_digest in Hp.
  destruct (privileged_operation_keys j !! _) as [i|] eqn:Hk.
  - repeat case_match; by simplify_eq.
  - destruct (is_some _) eqn:Hi in H; [by simplify_eq|].
    assert (privileged_operations j !! PrivilegedOperation.id o = None) as Hn
      by (by destruct (privileged_operations j !! _)).
    simplify_eq. by eapply (journal_ok_insert j _ o p).
Qed.

(** What closing the last attempt stores. *)
Lemma close_last_attempt_spec o seq t j j' r :
  close_last_attempt o seq t j = (j', r) →
  match r with
  | Err _ => j' = j
  | Ok o' => o' = o ∧ ∃ a,
      last (attempts_of j (PrivilegedOperation.id o)) = Some a ∧
      PrivilegedDispatchAttempt.sequence (attempt_of a) = seq ∧
      privileged_operations j' = <[PrivilegedOperation.id o := o]> (privileged_operations j) ∧
      privileged_operation_keys j' = privileged_operation_keys j ∧
      privileged_operation_payloads j' = privileged_operation_payloads j ∧
      privileged_transport_ids j' = privileged_transport_ids j ∧
      ∀ i, attempts_of j' i =
        if decide (PrivilegedOperation.id o = i)
        then <[Nat.pred (length (attempts_of j (PrivilegedOperation.id o))) :=
               a <| StoredPrivilegedDispatchAttempt.completed_at := Some t |>]>
               (attempts_of j (PrivilegedOperation.id o))
        else attempts_of j i
  end.
Proof.
  unfold close_last_attempt. intros H. run_unfold in H. fold (attempts_of j (PrivilegedOperation.id o)) in H.
  destruct (last _) as [a|] eqn:Hl in H; [|by simplify_eq].
  destruct (_ || _) eqn:Hc in H; [by simplify_eq|]. bool_facts.
  split; [done|]. exists a. split_and!; try done. intros i. unfold attempts_of; cbn.
  destruct (decide _) as [<-|Hne]; [by rewrite lookup_insert_eq|by rewrite lookup_insert_ne].
Qed.

Lemma transport_close (l : list StoredPrivilegedDispatchAttempt.t) n a t x k :
  l !! n = Some a →
  (<[n := a <| StoredPrivilegedDispatchAttempt.completed_at := Some t |>]> l) !! k = Some x →
  ∃ a0, l !! k = Some a0 ∧ transport a0 = transport x.
Proof.
  intros Hn. rewrite list_lookup_insert_Some. intros [(<- & <- & _)|[_ H]]; [by exists a|].
  by exists x.
Qed.

(** Closing the dispatch of a stored operation with one of its successors. *)
Lemma close_preserves cur o' c now seq t j j' r :
  journal_ok j → privileged_operations j !! PrivilegedOperation.id o' = Some cur →
  PrivilegedOperation.state cur = Dispatching →
  privileged_apply c now cur = (o', Ok tt) → PrivilegedOperation.restore o' = Ok o' →
  close_last_attempt o' seq t j = (j', r) → journal_ok j'.
Proof.
  intros Hj Hl Hst Ha Hr H. apply close_last_attempt_spec in H. destruct r as [x|e]; [|by subst].
  destruct H as (-> & a & Hlast & _ & H1 & H2 & H3 & H4 & H5).
  destruct (ok_operations _ Hj _ _ Hl) as (_ & _ & Hinv).
  pose proof (journal_inv_step _ _ _ _ Hinv Ha) as Hinv'.
  apply privileged_apply_Ok in Ha as ((Hp & _) & _ & Hm).
  pose proof Hlast as Hlook. rewrite last_lookup in Hlook.
  assert (Htr : ∀ k x, (<[Nat.pred (length (attempts_of j (PrivilegedOperation.id o'))) :=
      a <| StoredPrivilegedDispatchAttempt.completed_at := Some t |>]>
      (attempts_of j (PrivilegedOperation.id o'))) !! k = Some x →
    ∃ a0, attempts_of j (PrivilegedOperation.id o') !! k = Some a0 ∧ transport a0 = transport x)
    by (intros k x; by apply transport_close).
  assert (Hne : call_target c cur ≠ Dispatching)
    by (intros E; rewrite Hst, E in Hp; discriminate Hp).
  eapply (journal_ok_update j j' _ cur o'); try done.
  - by rewrite Hm.
  - by rewrite Hm.
  - eapply attempts_ok_close; [by apply (ok_attempts _ Hj)|done..| |by rewrite Hm].
    rewrite Hm. by destruct c.
  - by rewrite H4.
  - intros x [k Hk]%list_elem_of_lookup. destruct (Htr k x Hk) as (a0 & Ha0 & <-).
    rewrite H4. eapply (ok_transports _ Hj). by eapply list_elem_of_lookup_2.
  - intros k x Hk. left. by apply Htr.
Qed.

Lemma begin_preserves o ex a j j' r :
  journal_ok j → begin_dispatch_with_attempt o ex a j = (j', r) → journal_ok j'.
Proof.
  intros Hj H. destruct r as [o'|e]; [|by rewrite <- (begin_dispatch_Err _ _ _ _ _ _ H)].
  apply begin_dispatch_Ok in H as (-> & Hr & Hv & Hn & cur & Hl & _ & Hd & H1 & H2 & H3 & H4 & H5).
  destruct (ok_operations _ Hj _ _ Hl) as (_ & _ & Hinv).
  pose proof (journal_inv_step PDispatch _ _ _ Hinv Hd) as Hinv'.
  apply op_dispatch_Ok in Hd as ((Hp & _) & _ & Hm).
  assert (Hseq : PrivilegedDispatchAttempt.sequence a = PrivilegedOperation.attempt_count o).
  { unfold validate_privileged_attempt, reject_if in Hv. case_match eqn:E; [done|]. by bool_facts. }
  eapply (journal_ok_update j j' _ cur o); try done.
  - by rewrite Hm.
  - by rewrite Hm.
  - eapply attempts_ok_push; [by apply (ok_attempts _ Hj)| |by rewrite Hm..|done|done].
    intros E. rewrite E in Hp. discriminate Hp.
  - rewrite H4. apply union_subseteq_r.
  - intros x [Hx|Hx]%elem_of_app; rewrite H4.
    + apply elem_of_union_r. by eapply (ok_transports _ Hj).
    + apply list_elem_of_singleton in Hx as ->. by apply elem_of_union_l, elem_of_singleton.
  - intros k x. rewrite lookup_app_Some, length_app. cbn. intros [Hx|[Hge Hx]]; [left; by exists x|].
    right. destruct (k - length _)%nat eqn:E in Hx; [|done]. cbn in Hx. injection Hx as <-.
    split; [lia|done].
Qed.

Lemma recover_preserves o ex seq t j j' r :
  journal_ok j → JournalStore.recover_interrupted_attempt o ex seq t j = (j', r) → journal_ok j'.
Proof.
  intros Hj H. unfold JournalStore.recover_interrupted_attempt in H. run_unfold in H.
  destruct (validate_privileged_operation o) as [o1|] eqn:Hv; [|by simplify_eq].
  apply validate_operation_Ok in Hv as [-> Hr].
  destruct (privileged_operations j !! _) as [cur|] eqn:Hl; [|by simplify_eq].
  destruct (validate_privileged_operation cur) as [c1|] eqn:Hc; [|by simplify_eq].
  apply validate_operation_Ok in Hc as [-> Hrc].
  destruct (PrivilegedOperation.interrupt t cur) as [o' ri] eqn:Hi.
  destruct ri as [[]|]; [|repeat case_match; bool_facts; by simplify_eq].
  destruct (_ || _) eqn:Hg in H; [by simplify_eq|]. bool_facts.
  eapply (close_preserves cur o PInterrupt t); try done.
  apply (privileged_apply_Ok PInterrupt) in Hi as ((Hp & _) & _ & _).
  destruct (PrivilegedOperation.state cur), (decide (retry_safe cur)); try done;
    cbn in Hp; rewrite ?decide_True, ?decide_False in Hp by done; done.
Qed.

(** [complete_dispatch_outcome] relies on its caller for the successor. *)
Definition completes (j : Journal.t) (o : PrivilegedOperation.t) : Prop :=
  ∀ cur, privileged_operations j !! PrivilegedOperation.id o = Some cur →
    ∃ c now, privileged_apply c now cur = (o, Ok tt).

Lemma complete_preserves o ex seq t j j' r :
  journal_ok j → completes j o →
  JournalStore.complete_dispatch_outcome o ex seq t j = (j', r) → journal_ok j'.
Proof.
  intros Hj Hco H. unfold JournalStore.complete_dispatch_outcome in H. run_unfold in H.
  destruct (validate_privileged_operation o) as [o1|] eqn:Hv; [|by simplify_eq].
  apply validate_operation_Ok in Hv as [-> Hr].
  destruct (negb _) in H; [by simplify_eq|].
  destruct (privileged_operations j !! _) as [cur|] eqn:Hl; [|by simplify_eq].
  destruct (validate_privileged_operation cur) as [c1|] eqn:Hc; [|by simplify_eq].
  apply validate_operation_Ok in Hc as [-> Hrc].
  destruct (_ || _) eqn:Hg in H; [by simplify_eq|]. bool_facts.
  destruct (Hco cur Hl) as (c & now & Ha). by eapply (close_preserves cur o c now).
Qed.
End invariant.

(** ** Reachable journals *)

Section history.
Context {SHA : Sha256}.
Import Journal JournalStore.

(** Any client may submit any operation; an outcome is completed with a
    successor the domain aggregate produced. *)
Inductive journal_step : Journal.t → Journal.t → Prop :=
| step_prepare j j' o p r :
    JournalStore.prepare_with_payload o p j = (j', r) → journal_step j j'
| step_begin j j' o ex a r :
    JournalStore.begin_dispatch_with_attempt o ex a j = (j', r) → journal_step j j'
| step_recover j j' o ex seq t r :
    JournalStore.recover_interrupted_attempt o ex seq t j = (j', r) → journal_step j j'
| step_complete j j' o ex seq t r :
    completes j o → JournalStore.complete_dispatch_outcome o ex seq t j = (j', r) →
    journal_step j j'.

Definition journal_reachable (j : Journal.t) : Prop := rtc journal_step Journal.empty j.

Lemma journal_step_ok j j' : journal_ok j → journal_step j j' → journal_ok j'.
Proof.
  intros Hj Hs. destruct Hs;
    [by eapply prepare_preserves|by eapply begin_preserves|by eapply recover_preserves
    |by eapply complete_preserves].
Qed.
Lemma journal_steps_ok j j' : journal_ok j → rtc journal_step j j' → journal_ok j'.
Proof. intros Hj Hs. revert Hj. induction Hs; eauto using journal_step_ok. Qed.

















(** A step replaces stored operations by successors of themselves and forgets
    none. *)
Definition evolves (j j' : Journal.t) : Prop :=
  ∀ i o, privileged_operations j !! i = Some o →
    ∃ o', privileged_operations j' !! i = Some o' ∧ rtc privileged_step o o'.

Lemma evolves_refl j j' :
  privileged_operations j' = privileged_operations j → evolves j j'.
Proof. intros E i o Ho. rewrite E. by exists o. Qed.
Lemma evolves_insert j j' i o cur :
  privileged_operations j' = <[i := o]> (privileged_operations j) →
  privileged_operations j !! i = cur →
  (∀ c, cur = Some c → privileged_step c o) → evolves j j'.
Proof.
  intros E Hc Hs k x Hk. rewrite E. destruct (decide (i = k)) as [<-|Hne].
  - exists o. rewrite lookup_insert_eq. split; [done|]. apply rtc_once, Hs. congruence.
  - exists x. by rewrite lookup_insert_ne.
Qed.

Lemma close_evolves o seq t j j' r cur :
  close_last_attempt o seq t j = (j', r) →
  privileged_operations j !! PrivilegedOperation.id o = Some cur → privileged_step cur o →
  evolves j j'.
Proof.
  intros H Hl Hs. apply close_last_attempt_spec in H. destruct r as [x|e]; [|subst; by apply evolves_refl].
  destruct H as (_ & a & _ & _ & H1 & _). eapply evolves_insert; [done..|]. by intros c [= <-].
Qed.

Lemma journal_step_evolves j j' : journal_step j j' → evolves j j'.
Proof.
  intros [j1 j2 o p r H|j1 j2 o ex a r H|j1 j2 o ex seq t r H|j1 j2 o ex seq t r Hco H].
  - unfold JournalStore.prepare_with_payload in H. run_unfold in H.
    repeat case_match; simplify_eq; try (by apply evolves_refl).
    eapply evolves_insert; [done..|]. intros c Hc. cbn in *. by rewrite Hc in *.
  - destruct r as [o'|e]; [|apply begin_dispatch_Err in H as (H & _); by apply evolves_refl].
    apply begin_dispatch_Ok in H as (_ & _ & _ & _ & cur & Hl & _ & Hd & H1 & _).
    eapply evolves_insert; [done..|]. intros c [= <-].
    by exists PDispatch, (PrivilegedDispatchAttempt.started_at a).
  - unfold JournalStore.recover_interrupted_attempt in H. run_unfold in H.
    destruct (validate_privileged_operation o) as [o1|] eqn:Hv; [|simplify_eq; by apply evolves_refl].
    apply validate_operation_Ok in Hv as [-> Hr].
    destruct (privileged_operations j1 !! _) as [cur|] eqn:Hl; [|simplify_eq; by apply evolves_refl].
    destruct (validate_privileged_operation cur) as [c1|] eqn:Hc; [|simplify_eq; by apply evolves_refl].
    apply validate_operation_Ok in Hc as [-> Hrc].
    destruct (PrivilegedOperation.interrupt t cur) as [o' [[]|]] eqn:Hi;
      [|repeat case_match; bool_facts; simplify_eq; by apply evolves_refl].
    destruct (_ || _) eqn:Hg in H; [simplify_eq; by apply evolves_refl|]. bool_facts.
    eapply close_evolves; [done..|]. by exists PInterrupt, t.
  - unfold JournalStore.complete_dispatch_outcome in H. run_unfold in H.
    destruct (validate_privileged_operation o) as [o1|] eqn:Hv; [|simplify_eq; by apply evolves_refl].
    apply validate_operation_Ok in Hv as [-> Hr].
    destruct (negb _) in H; [simplify_eq; by apply evolves_refl|].
    destruct (privileged_operations j1 !! _) as [cur|] eqn:Hl; [|simplify_eq; by apply evolves_refl].
    destruct (validate_privileged_operation cur) as [c1|] eqn:Hc; [|simplify_eq; by apply evolves_refl].
    destruct (_ || _) in H; [simplify_eq; by apply evolves_refl|].
    destruct (Hco cur Hl) as (c & now & Ha). eapply close_evolves; [done..|]. by exists c, now.
Qed.

Lemma journal_steps_evolve j j' : rtc journal_step j j' → evolves j j'.
Proof.
  induction 1 as [|j1 j2 j3 Hs _ IH]; [by apply evolves_refl|].
  intros i o Ho. destruct (journal_step_evolves _ _ Hs i o Ho) as (o1 & H1 & Hr1).
  destruct (IH i o1 H1) as (o2 & H2 & Hr2). exists o2. split; [done|]. by etrans.
Qed.

Lemma privileged_steps_intent o o' :
  rtc privileged_step o o' →
  PrivilegedOperation.id o' = PrivilegedOperation.id o ∧
  PrivilegedOperation.kind o' = PrivilegedOperation.kind o ∧
  PrivilegedOperation.target o' = PrivilegedOperation.target o ∧
  PrivilegedOperation.payload_digest o' = PrivilegedOperation.payload_digest o ∧
  PrivilegedOperation.authority o' = PrivilegedOperation.authority o ∧
  PrivilegedOperation.idempotency o' = PrivilegedOperation.idempotency o ∧
  PrivilegedOperation.links o' = PrivilegedOperation.links o.
Proof.
  induction 1 as [|o1 o2 o3 (c & now & (_ & _ & ->)%privileged_apply_Ok) _ IH]; [done|].
  cbn in IH. done.
Qed.

Lemma exact_intent_iff o intent :
  exact_privileged_intent o intent = true ↔
  PrivilegedOperation.kind o = PrivilegedOperationIntent.kind intent ∧
  PrivilegedOperation.target o = PrivilegedOperationIntent.target intent ∧
  PrivilegedOperation.payload_digest o = PrivilegedOperationIntent.payload_digest intent ∧
  PrivilegedOperation.authority o = PrivilegedOperationIntent.authority intent ∧
  PrivilegedOperation.idempotency o = PrivilegedOperationIntent.idempotency intent ∧
  PrivilegedOperation.links o = PrivilegedOperationIntent.links intent.
Proof.
  unfold exact_privileged_intent. rewrite !andb_true_iff, !bool_decide_eq_true. tauto.
Qed.

(** Looking an intent up by its authority and key. *)
Lemma resolve_preparation_spec intent j j' r :
  journal_ok j → JournalStore.resolve_preparation intent j = (j', r) →
  j' = j ∧
  match privileged_operation_keys j !! intent_key (PrivilegedOperationIntent.authority intent)
          (PrivilegedOperationIntent.idempotency intent) with
  | None => r = Ok None
  | Some i => ∃ o, privileged_operations j !! i = Some o ∧
      r = if exact_privileged_intent o intent then Ok (Some o) else Err Conflict
  end.
Proof.
  intros Hj H. unfold JournalStore.resolve_preparation, mbind, method_bind, self, mret,
    method_ret, throw in H.
  destruct (privileged_operation_keys j !! _) as [i|] eqn:Hk; [|by simplify_eq].
  apply (ok_keys _ Hj) in Hk as (o & Ho & _). destruct (ok_operations _ Hj _ _ Ho) as (_ & Hr & _).
  unfold lift in H. rewrite Ho in H. cbn [ok_or] in H.
  rewrite (proj2 (validate_operation_Ok _ _) (conj eq_refl Hr)) in H.
  destruct (exact_privileged_intent o intent) eqn:E; simplify_eq; (split; [done|]); exists o;
    by rewrite E.
Qed.

(** What a successful preparation leaves: the operation stored under its
    intent. *)
Lemma prepare_stores intent payload g now j j1 prep :
  journal_ok j →
  PrivilegedOperationService.prepare intent payload g now j = (j1, Ok prep) →
  let o := PrivilegedPreparation.operation prep in
  PrivilegedOperationService.validate_payload payload
    (PrivilegedOperationIntent.payload_digest intent) = Ok tt ∧
  privileged_operations j1 !! PrivilegedOperation.id o = Some o ∧
  exact_privileged_intent o intent = true ∧ journal_ok j1.
Proof.
  intros Hj H. unfold PrivilegedOperationService.prepare in H.
  apply lift_bind_Ok in H as ([] & Hv & H). split; [done|].
  apply method_bind_Ok in H as (j2 & prior & Hp & H). apply call_Ok in Hp.
  apply (resolve_preparation_spec _ _ _ _ Hj) in Hp as [-> Hp].
  destruct (privileged_operation_keys j !! _) as [i|] eqn:Hk.
  - destruct Hp as (o & Ho & Hp). destruct (exact_privileged_intent o intent) eqn:E; [|done].
    destruct (ok_operations _ Hj _ _ Ho) as (<- & _). injection Hp as ->.
    injection H as <- <-. done.
  - simplify_eq. apply lift_bind_Ok in H as (i & Hi & H).
    apply lift_bind_Ok in H as (o & Ho & H). apply call_Ok in H.
    unfold map_err in Ho. destruct (PrivilegedOperation.prepare i intent now) as [o0|] eqn:Hprep;
      [|done]. injection Ho as ->. apply prepare_Ok in Hprep as [Heq _].
    change (JournalStore.prepare_with_payload o payload j = (j1, Ok prep)) in H.
    assert (Hj1 : journal_ok j1) by (by eapply prepare_preserves).
    assert (Hkey : privileged_operation_key o = intent_key
      (PrivilegedOperationIntent.authority intent) (PrivilegedOperationIntent.idempotency intent))
      by (by rewrite Heq).
    assert (Hex : exact_privileged_intent o intent = true)
      by (apply exact_intent_iff; by rewrite Heq).
    unfold JournalStore.prepare_with_payload in H.
    apply method_bind_Ok in H as (j3 & [] & Ht & H). unfold throw_if in Ht. injection Ht as <- _.
    apply lift_bind_Ok in H as ([] & _ & H).
    apply lift_bind_Ok in H as (o1 & (-> & _)%validate_operation_Ok & H).
    run_unfold in H. rewrite Hkey, Hk in H.
    destruct (is_some _) in H; [done|]. simplify_eq. cbn. by rewrite lookup_insert_eq.
Qed.
End history.

(** ** Properties *)


(** A privileged intent is prepared once: after a successful preparation, and
    after any later journal operations, preparing the same intent and payload again
    creates nothing, leaves the journal untouched and returns the same operation,
    moved on only by its own lifecycle; a different intent under the same authority
    and key is refused as a conflict. *)
Theorem journal_prepare_once {SHA : Sha256} intent payload g now j j1 prep j2 g' now' :
  journal_reachable j →
  PrivilegedOperationService.prepare intent payload g now j = (j1, Ok prep) →
  rtc journal_step j1 j2 →
  (∃ o', PrivilegedOperationService.prepare intent payload g' now' j2 =
           (j2, Ok (PrivilegedPreparation.mk o' false)) ∧
         rtc privileged_step (PrivilegedPreparation.operation prep) o') ∧
  (∀ intent' payload',
     PrivilegedOperationIntent.authority intent' = PrivilegedOperationIntent.authority intent →
     PrivilegedOperationIntent.idempotency intent' = PrivilegedOperationIntent.idempotency intent →
     intent' ≠ intent →
     PrivilegedOperationService.validate_payload payload'
       (PrivilegedOperationIntent.payload_digest intent') = Ok tt →
     PrivilegedOperationService.prepare intent' payload' g' now' j2 =
       (j2, Err ApplicationError.Conflict)).
Proof.
  intros Hr Hp Hs.
  assert (Hj : journal_ok j) by (by eapply journal_steps_ok; [apply journal_ok_empty|]).
  destruct (prepare_stores _ _ _ _ _ _ _ Hj Hp) as (Hv & Ho & Hex & Hj1).
  destruct (journal_steps_evolve _ _ Hs _ _ Ho) as (o' & Ho' & Hsteps).
  pose proof (journal_steps_ok _ _ Hj1 Hs) as Hj2.
  pose proof (privileged_steps_intent _ _ Hsteps) as (_ & E1 & E2 & E3 & E4 & E5 & E6).
  apply exact_intent_iff in Hex as (F1 & F2 & F3 & F4 & F5 & F6).
  assert (Hkey : Journal.privileged_operation_keys j2 !! JournalStore.intent_key
      (PrivilegedOperationIntent.authority intent) (PrivilegedOperationIntent.idempotency intent)
    = Some (PrivilegedOperation.id (PrivilegedPreparation.operation prep))).
  { apply (ok_keys _ Hj2). exists o'. split; [done|].
    unfold JournalStore.privileged_operation_key. by rewrite E4, E5, F4, F5. }
  split.
  - exists o'. split; [|done].
    unfold PrivilegedOperationService.prepare, mbind, method_bind, lift. rewrite Hv.
    destruct (JournalStore.resolve_preparation intent j2) as [j3 r] eqn:Hres.
    pose proof (resolve_preparation_spec _ _ _ _ Hj2 Hres) as [-> Hm].
    rewrite Hkey in Hm. destruct Hm as (x & Hx & ->). rewrite Ho' in Hx. injection Hx as <-.
    assert (Hex' : JournalStore.exact_privileged_intent o' intent = true)
      by (apply exact_intent_iff; rewrite E1, E2, E3, E4, E5, E6; by split_and!).
    rewrite Hex' in Hres.
    match goal with |- context [call ?m j2] => rewrite (call_run m j2 _ _ Hres) end. done.
  - intros intent' payload' Ha Hi Hne Hv'.
    unfold PrivilegedOperationService.prepare, mbind, method_bind, lift. rewrite Hv'.
    destruct (JournalStore.resolve_preparation intent' j2) as [j3 r] eqn:Hres.
    pose proof (resolve_preparation_spec _ _ _ _ Hj2 Hres) as [-> Hm].
    rewrite Ha, Hi, Hkey in Hm. destruct Hm as (x & Hx & ->). rewrite Ho' in Hx. injection Hx as <-.
    destruct (JournalStore.exact_privileged_intent o' intent') eqn:Ex.
    + destruct Hne. apply exact_intent_iff in Ex as (G1 & G2 & G3 & G4 & G5 & G6).
      destruct intent, intent'; cbn in *; congruence.
    + match goal with |- context [call ?m j2] =>
        change (call m j2) with (call (JournalStore.resolve_preparation intent') j2) end.
      unfold call. by rewrite Hres.
Qed.


(** ** Witnesses: a catalog update left dispatching *)

Definition demo_catalog_intent : PrivilegedOperationIntent.t :=
  PrivilegedOperationIntent.mk PrivilegedOperationKind.CatalogApply
    (PrivilegedOperationTarget.Catalog demo_key) (repeat 0 32)
    (PrivilegedAuthority.mk demo_key 100) (PrivilegedIdempotency.mk demo_key (repeat 1 32))
    demo_links.

Definition demo_prepared : Journal.t * result ApplicationError.t PrivilegedPreparation.t :=
  PrivilegedOperationService.prepare (PS := memory_journal (SHA := demo_sha)) (SHA := demo_sha)
    demo_catalog_intent (repeat 0 32) (lit "operation-1") 10 Journal.empty.
Definition demo_dispatch : PrivilegedDispatchAttempt.t :=
  PrivilegedDispatchAttempt.mk 1 (lit "transport-identity-1") (repeat 2 32) (repeat 3 16)
    (repeat 4 16) 11 20.
Definition demo_dispatching : PrivilegedOperation.t :=
  (demo_catalog Dispatching 1 1) <| PrivilegedOperation.updated_at := 11 |>.
Definition demo_journal : Journal.t :=
  fst (JournalStore.begin_dispatch_with_attempt demo_dispatching 0 demo_dispatch
         (fst demo_prepared)).


Lemma demo_journal_step : journal_step (SHA := demo_sha) (fst demo_prepared) demo_journal.
Proof.
  eapply (step_begin _ _ demo_dispatching 0 demo_dispatch).
  apply surjective_pairing.
Qed.



Lemma journal_prepare_once_witness :
  ∃ o', PrivilegedOperationService.prepare (PS := memory_journal (SHA := demo_sha))
          (SHA := demo_sha) demo_catalog_intent (repeat 0 32) (lit "operation-2") 50
          demo_journal = (demo_journal, Ok (PrivilegedPreparation.mk o' false)) ∧
        rtc privileged_step (demo_catalog Prepared 0 0) o'.
Proof.
  refine (proj1 (journal_prepare_once (SHA := demo_sha) demo_catalog_intent (repeat 0 32)
    (lit "operation-1") 10 Journal.empty (fst demo_prepared)
    (PrivilegedPreparation.mk (demo_catalog Prepared 0 0) true) demo_journal _ _
    (rtc_refl _ _) _ (rtc_once _ _ demo_journal_step))).
  vm_compute. reflexivity.
Defined.

