(* ===== verification/WorkspaceStore.v ===== *)
(** * The workspace store

    The persistence port of projects, threads, messages and automations
    ([crates/grok-application/src/ports.rs], [WorkspaceStore]) as a class of operations,
    and its in-memory implementation ([crates/grok-memory/src/lib.rs],
    [impl WorkspaceStore for InMemoryExecutionStore], with full-text search) as an
    instance. Every operation holds the store's lock, so it is one atomic step. *)
From stdpp Require Import sorting.
From S2P Require Import Prelude RustText Ids Runs Approvals Effects ConversationTurns TurnEvents Schedules Scheduler Workspace ExecutionStore.

(** ** The port *)

Module WorkspaceSearchKind.
Inductive t : Type := Project | Thread | Message | Artifact | Automation.
#[global] Instance eq_dec : EqDecision t.
Proof. solve_decision. Defined.
End WorkspaceSearchKind.

Module WorkspaceSearchHit.
Record t : Type := mk {
  id : str; project_id : ProjectId; thread_id : option ThreadId; kind : WorkspaceSearchKind.t;
  title : str; snippet : str; updated_at : Z }.
#[global] Instance eq_dec : EqDecision t.
Proof. solve_decision. Defined.
End WorkspaceSearchHit.

Class WorkspaceStore (S : Type) := {
  resolve_mutation : str → MutationCommand.t → method S StoreError (option str);
  create_project : Project.t → MutationCommand.t → method S StoreError Project.t;
  get_project : ProjectId → method S StoreError Project.t;
  save_project : Project.t → Z → MutationCommand.t → method S StoreError unit;
  list_projects : option ProjectId → Z → method S StoreError (list Project.t);
  create_thread : Thread.t → MutationCommand.t → method S StoreError Thread.t;
  get_thread : ThreadId → method S StoreError Thread.t;
  save_thread : Thread.t → Z → MutationCommand.t → method S StoreError unit;
  list_threads : ProjectId → option ThreadId → Z → method S StoreError (list Thread.t);
  create_message : Message.t → MutationCommand.t → method S StoreError Message.t;
  get_message : MessageId → method S StoreError Message.t;
  save_message : Message.t → Z → MutationCommand.t → method S StoreError unit;
  list_messages : ThreadId → option MessageId → Z → method S StoreError (list Message.t);
  create_automation : Automation.t → MutationCommand.t → method S StoreError Automation.t;
  get_automation : AutomationId → method S StoreError Automation.t;
  save_automation : Automation.t → Z → MutationCommand.t → method S StoreError unit;
  list_automations : ProjectId → option AutomationId → Z →
    method S StoreError (list Automation.t);
  record_automation_history : AutomationHistoryEntry.t →
    method S StoreError AutomationHistoryEntry.t;
  automation_history : AutomationId → Z → Z → method S StoreError (list AutomationHistoryEntry.t);
  search : option ProjectId → str → Z → Z → method S StoreError (list WorkspaceSearchHit.t);
}.

(** ** In-memory state *)

Module CommandRecord.
Record t : Type := mk { fingerprint : digest; entity_id : str }.
End CommandRecord.

Module AutomationOccurrenceDispatchResult.
Record t : Type := mk {
  occurrence : AutomationOccurrence.t; thread : Thread.t; prompt : Message.t; run : Run.t }.
#[global] Instance eta : Eta t := λ x, mk (occurrence x) (thread x) (prompt x) (run x).
End AutomationOccurrenceDispatchResult.

(** The maps of [State] the workspace port reads or writes. *)
Module WorkspaceState.
Record t : Type := mk {
  projects : gmap ProjectId Project.t;
  threads : gmap ThreadId Thread.t;
  messages : gmap MessageId Message.t;
  artifacts : gmap ArtifactId Artifact.t;
  automations : gmap AutomationId Automation.t;
  automation_history : gmap AutomationId (list AutomationHistoryEntry.t);
  conversation_turns : gmap ConversationTurnId ConversationTurn.t;
  conversation_contexts : gmap ConversationTurnId (list Message.t);
  automation_schedule_cursors : gmap AutomationId AutomationScheduleCursor.t;
  automation_occurrence_dispatches :
    gmap AutomationOccurrenceId AutomationOccurrenceDispatchResult.t;
  workspace_commands : gmap (str * str) CommandRecord.t;
}.
#[global] Instance eta : Eta t := λ s,
  mk (projects s) (threads s) (messages s) (artifacts s) (automations s) (automation_history s)
     (conversation_turns s) (conversation_contexts s) (automation_schedule_cursors s)
     (automation_occurrence_dispatches s) (workspace_commands s).
Definition empty : t := mk ∅ ∅ ∅ ∅ ∅ ∅ ∅ ∅ ∅ ∅ ∅.
End WorkspaceState.

Abbreviation WS := WorkspaceState.t.

(** [prior_command]. *)
Definition prior_command (scope : str) (command : MutationCommand.t) :
    method WS StoreError (option str) :=
  _ ← throw_if (scope != MutationCommand.scope command) Conflict;
  s ← self;
  match WorkspaceState.workspace_commands s !! (scope, MutationCommand.key command) with
  | Some record =>
      if CommandRecord.fingerprint record == MutationCommand.fingerprint command
      then mret (Some (CommandRecord.entity_id record)) else throw Conflict
  | None => mret None
  end.

(** [record_command]. *)
Definition record_command (command : MutationCommand.t) (entity_id : str) :
    method WS StoreError unit :=
  assign (λ s, s <| WorkspaceState.workspace_commands :=
    <[(MutationCommand.scope command, MutationCommand.key command) :=
        CommandRecord.mk (MutationCommand.fingerprint command) entity_id]>
      (WorkspaceState.workspace_commands s) |>).

(** [invalid_stored_id]: the message renders the reason. *)
Definition invalid_stored_id (e : IdError) : StoreError :=
  Internal (lit "invalid stored id: " ++
    match e with
    | IdEmpty => lit "empty"
    | IdTooLong => lit "too long"
    | IdControlCharacter => lit "control character"
    end).

(** The replay branch the four creations share: look the recorded entity up. *)
Definition recorded_entity {k A} (table : WS → gmap (entity_id k) A) (id : str) :
    method WS StoreError A :=
  id ← lift (map_err invalid_stored_id (new_id id));
  s ← self;
  lift (ok_or missing_idempotent_result (table s !! id)).

(** [revisioned_replace]. *)
Definition revisioned_replace {K A} `{Countable K} (values : gmap K A) (id : K) (value : A)
    (expected_revision : Z) (revision : A → Z) : result StoreError (gmap K A) :=
  current ← ok_or NotFound (values !! id);
  next_revision ← ok_or Conflict (checked_add u64_max expected_revision 1);
  _ ← reject_if ((revision current != expected_revision) || (revision value != next_revision))
        Conflict;
  Ok (<[id := value]> values).

(** [Iterator::position]. *)
Fixpoint position {A} (p : A → bool) (l : list A) : option nat :=
  match l with
  | [] => None
  | x :: l' => if p x then Some O else S <$> position p l'
  end.

(** [after_position]. *)
Definition after_position {A} (values : list A) (after : option str) (limit : Z)
    (id : A → str) : result StoreError (list A) :=
  start ← match after with
          | Some cursor => i ← ok_or NotFound (position (λ v, id v == cursor) values); Ok (S i)
          | None => Ok O
          end;
  Ok (take (Z.to_nat limit) (drop start values)).

(** [recent_page]. *)
Definition recent_page {A} (values : list A) (after : option str) (limit : Z)
    (updated_at : A → Z) (id : A → str) : result StoreError (list A) :=
  after_position (InMemory.sort_by_key (λ v, - updated_at v) id values) after limit id.

Module WorkspaceMemory.
Import WorkspaceState.

Definition project_active (s : WS) (id : ProjectId) : bool :=
  match projects s !! id with
  | Some project => Project.state project == ProjectState.Active
  | None => false
  end.

(** [create_project]. *)
Definition create_project (project : Project.t) (command : MutationCommand.t) :
    method WS StoreError Project.t :=
  prior ← prior_command (lit "create_project") command;
  match prior with
  | Some id => recorded_entity projects id
  | None =>
      s ← self;
      _ ← throw_if (is_some (projects s !! Project.id project)) Conflict;
      _ ← assign (λ s, s <| projects := <[Project.id project := project]> (projects s) |>);
      _ ← record_command command (as_str (Project.id project));
      mret project
  end.

(** [get_project]. *)
Definition get_project (id : ProjectId) : method WS StoreError Project.t :=
  s ← self; lift (ok_or NotFound (projects s !! id)).

(** [save_project]. *)
Definition save_project (project : Project.t) (expected_revision : Z)
    (command : MutationCommand.t) : method WS StoreError unit :=
  prior ← prior_command (MutationCommand.scope command) command;
  match prior with
  | Some _ => mret tt
  | None =>
      s ← self;
      table ← lift (revisioned_replace (projects s) (Project.id project) project
                      expected_revision Project.revision);
      _ ← assign (λ s, s <| projects := table |>);
      record_command command (as_str (Project.id project))
  end.

(** [list_projects]. *)
Definition list_projects (after : option ProjectId) (limit : Z) :
    method WS StoreError (list Project.t) :=
  s ← self;
  lift (recent_page (InMemory.values (projects s)) (as_str <$> after) limit
          Project.updated_at (λ p, as_str (Project.id p))).

Definition is_original_thread (thread : Thread.t) : bool :=
  match ConversationThreadLineage.origin (Thread.lineage thread) with
  | ConversationThreadOrigin.Original => true
  | ConversationThreadOrigin.Fork _ _ _ _ => false
  end.

(** [create_thread]. *)
Definition create_thread (thread : Thread.t) (command : MutationCommand.t) :
    method WS StoreError Thread.t :=
  prior ← prior_command (lit "create_thread") command;
  match prior with
  | Some id => recorded_entity threads id
  | None =>
      s ← self;
      project ← lift (ok_or NotFound (projects s !! Thread.project_id thread));
      _ ← throw_if ((Project.state project != ProjectState.Active)
                    || is_some (threads s !! Thread.id thread)
                    || negb (is_ok (Thread.restore thread))
                    || negb (is_original_thread thread)) Conflict;
      _ ← assign (λ s, s <| threads := <[Thread.id thread := thread]> (threads s) |>);
      _ ← record_command command (as_str (Thread.id thread));
      mret thread
  end.

(** [get_thread]. *)
Definition get_thread (id : ThreadId) : method WS StoreError Thread.t :=
  s ← self; lift (ok_or NotFound (threads s !! id)).

(** [save_thread]. *)
Definition save_thread (thread : Thread.t) (expected_revision : Z)
    (command : MutationCommand.t) : method WS StoreError unit :=
  prior ← prior_command (MutationCommand.scope command) command;
  match prior with
  | Some _ => mret tt
  | None =>
      s ← self;
      _ ← throw_if ((MutationCommand.scope command == lit "update_thread")
                    && negb (project_active s (Thread.project_id thread))) Conflict;
      current ← lift (ok_or NotFound (threads s !! Thread.id thread));
      _ ← throw_if ((Thread.project_id current != Thread.project_id thread)
                    || (Thread.lineage current != Thread.lineage thread)) Conflict;
      table ← lift (revisioned_replace (threads s) (Thread.id thread) thread
                      expected_revision Thread.revision);
      _ ← assign (λ s, s <| threads := table |>);
      record_command command (as_str (Thread.id thread))
  end.

(** [list_threads]. *)
Definition list_threads (project_id : ProjectId) (after : option ThreadId) (limit : Z) :
    method WS StoreError (list Thread.t) :=
  s ← self;
  _ ← throw_if (is_none (projects s !! project_id)) NotFound;
  lift (recent_page (filter (λ t, Thread.project_id t = project_id) (InMemory.values (threads s)))
          (as_str <$> after) limit Thread.updated_at (λ t, as_str (Thread.id t))).

(** The messages of one thread. *)
Definition thread_messages (s : WS) (thread_id : ThreadId) : list Message.t :=
  filter (λ m, Message.thread_id m = thread_id) (InMemory.values (messages s)).

(** [Iterator::max] of the stored sequences, or zero. *)
Definition last_sequence (s : WS) (thread_id : ThreadId) : Z :=
  foldl Z.max 0 (map Message.sequence (thread_messages s thread_id)).

(** [create_message]. *)
Definition create_message (message : Message.t) (command : MutationCommand.t) :
    method WS StoreError Message.t :=
  prior ← prior_command (lit "create_message") command;
  match prior with
  | Some id => recorded_entity messages id
  | None =>
      s ← self;
      thread ← lift (ok_or NotFound (threads s !! Message.thread_id message));
      project ← lift (ok_or NotFound (projects s !! Thread.project_id thread));
      _ ← throw_if ((Thread.state thread != ThreadState.Open)
                    || (Project.state project != ProjectState.Active)
                    || is_some (messages s !! Message.id message)
                    || negb (ConversationMessageDerivation.is_original (Message.derivation message))
                    || existsb (λ turn, (ConversationTurn.thread_id turn == Message.thread_id message)
                                        && negb (ConversationTurnState.is_terminal
                                                   (ConversationTurn.state turn)))
                         (InMemory.values (conversation_turns s))) Conflict;
      sequence ← lift (ok_or (Internal (lit "message sequence exhausted"))
                         (checked_add u64_max (last_sequence s (Message.thread_id message)) 1));
      let message := message <| Message.sequence := sequence |> in
      _ ← assign (λ s, s <| messages := <[Message.id message := message]> (messages s) |>);
      _ ← record_command command (as_str (Message.id message));
      mret message
  end.

(** [get_message]. *)
Definition get_message (id : MessageId) : method WS StoreError Message.t :=
  s ← self; lift (ok_or NotFound (messages s !! id)).

(** What makes a message immutable to the workspace: it is derived, it is the prompt of
    a dispatched occurrence, or a conversation turn uses it. *)
Definition message_frozen (s : WS) (message : Message.t) : bool :=
  negb (ConversationMessageDerivation.is_original (Message.derivation message))
  || existsb (λ d, Message.id (AutomationOccurrenceDispatchResult.prompt d) == Message.id message)
       (InMemory.values (automation_occurrence_dispatches s))
  || existsb (λ turn, (ConversationTurn.user_message_id turn == Message.id message)
                      || (ConversationTurn.assistant_message_id turn == Some (Message.id message)))
       (InMemory.values (conversation_turns s))
  || existsb (existsb (λ item, Message.id item == Message.id message))
       (InMemory.values (conversation_contexts s))
  || match messages s !! Message.id message with
     | Some stored =>
         negb (ConversationMessageDerivation.is_original (Message.derivation stored))
     | None => false
     end.

(** [save_message]. *)
Definition save_message (message : Message.t) (expected_revision : Z)
    (command : MutationCommand.t) : method WS StoreError unit :=
  prior ← prior_command (MutationCommand.scope command) command;
  match prior with
  | Some _ => mret tt
  | None =>
      s ← self;
      _ ← throw_if (message_frozen s message) Conflict;
      _ ← if MutationCommand.scope command == lit "update_message" then
            thread ← lift (ok_or NotFound (threads s !! Message.thread_id message));
            throw_if ((Thread.state thread != ThreadState.Open)
                      || negb (project_active s (Thread.project_id thread))) Conflict
          else mret tt;
      table ← lift (revisioned_replace (messages s) (Message.id message) message
                      expected_revision Message.revision);
      _ ← assign (λ s, s <| messages := table |>);
      record_command command (as_str (Message.id message))
  end.

(** [sort_by_key] on the sequence. *)
Definition sequence_le (x y : Message.t) : Prop := Message.sequence x ≤ Message.sequence y.
#[global] Instance sequence_le_dec : RelDecision sequence_le.
Proof. intros x y. unfold sequence_le. apply _. Defined.

(** [list_messages]. *)
Definition list_messages (thread_id : ThreadId) (after : option MessageId) (limit : Z) :
    method WS StoreError (list Message.t) :=
  s ← self;
  _ ← throw_if (is_none (threads s !! thread_id)) NotFound;
  lift (after_position (merge_sort sequence_le (thread_messages s thread_id)) (as_str <$> after)
          limit (λ m, as_str (Message.id m))).

(** [create_automation]. *)
Definition create_automation (automation : Automation.t) (command : MutationCommand.t) :
    method WS StoreError Automation.t :=
  prior ← prior_command (lit "create_automation") command;
  match prior with
  | Some id => recorded_entity automations id
  | None =>
      s ← self;
      project ← lift (ok_or NotFound (projects s !! Automation.project_id automation));
      _ ← throw_if ((Project.state project != ProjectState.Active)
                    || is_some (automations s !! Automation.id automation)) Conflict;
      _ ← assign (λ s, s <| automations :=
            <[Automation.id automation := automation]> (automations s) |>);
      _ ← record_command command (as_str (Automation.id automation));
      mret automation
  end.

(** [get_automation]. *)
Definition get_automation (id : AutomationId) : method WS StoreError Automation.t :=
  s ← self; lift (ok_or NotFound (automations s !! id)).

(** [save_automation]. *)
Definition save_automation (automation : Automation.t) (expected_revision : Z)
    (command : MutationCommand.t) : method WS StoreError unit :=
  prior ← prior_command (MutationCommand.scope command) command;
  match prior with
  | Some _ => mret tt
  | None =>
      s ← self;
      _ ← throw_if ((MutationCommand.scope command == lit "update_automation")
                    && negb (project_active s (Automation.project_id automation))) Conflict;
      _ ← throw_if (is_some (automation_schedule_cursors s !! Automation.id automation)) Conflict;
      table ← lift (revisioned_replace (automations s) (Automation.id automation) automation
                      expected_revision Automation.revision);
      _ ← assign (λ s, s <| automations := table |>);
      record_command command (as_str (Automation.id automation))
  end.

(** [list_automations]. *)
Definition list_automations (project_id : ProjectId) (after : option AutomationId) (limit : Z) :
    method WS StoreError (list Automation.t) :=
  s ← self;
  _ ← throw_if (is_none (projects s !! project_id)) NotFound;
  lift (recent_page (filter (λ a, Automation.project_id a = project_id)
                       (InMemory.values (automations s)))
          (as_str <$> after) limit Automation.updated_at (λ a, as_str (Automation.id a))).

(** [record_automation_history]. *)
Definition record_automation_history (entry : AutomationHistoryEntry.t) :
    method WS StoreError AutomationHistoryEntry.t :=
  let id := AutomationHistoryEntry.automation_id entry in
  s ← self;
  _ ← throw_if (is_none (automations s !! id)) NotFound;
  let history := default [] (automation_history s !! id) in
  _ ← assign (λ s, s <| automation_history := <[id := history]> (automation_history s) |>);
  match find (λ e, AutomationHistoryEntry.scheduled_for e
                   =? AutomationHistoryEntry.scheduled_for entry) history with
  | Some existing => mret existing
  | None =>
      sequence ← lift (ok_or (Internal (lit "automation history exhausted"))
                         (checked_add u64_max (Z.of_nat (length history)) 1));
      let entry := entry <| AutomationHistoryEntry.sequence := sequence |> in
      _ ← assign (λ s, s <| automation_history :=
            <[id := history ++ [entry]]> (automation_history s) |>);
      mret entry
  end.

(** [automation_history]. *)
Definition history_after (automation_id : AutomationId) (after_sequence limit : Z) :
    method WS StoreError (list AutomationHistoryEntry.t) :=
  s ← self;
  _ ← throw_if (is_none (automations s !! automation_id)) NotFound;
  mret (take (Z.to_nat limit)
          (filter (λ e, after_sequence < AutomationHistoryEntry.sequence e)
             (default [] (automation_history s !! automation_id)))).
End WorkspaceMemory.

(** ** Full-text search *)

(** The Unicode tables of the standard library: [char::to_lowercase] and
    [char::is_alphanumeric]. *)
Class Unicode := {
  to_lowercase : char → list char;
  is_alphanumeric : char → bool;
}.

(** [is_combining_mark]. *)
Definition is_combining_mark (c : char) : bool :=
  in_range 768 879 c || in_range 6832 6911 c || in_range 7616 7679 c
  || in_range 8400 8447 c || in_range 65056 65071 c.

(** The arms of [fold_latin_diacritic]: code points and the ASCII letter they fold to. *)
Definition latin_diacritics : list (list char * char) :=
  [([192; 193; 194; 195; 196; 197; 224; 225; 226; 227; 228; 229; 256; 257; 258; 259; 260;
    261; 461; 462], 97);
   ([199; 231; 262; 263; 264; 265; 266; 267; 268; 269], 99);
   ([270; 271], 100);
   ([200; 201; 202; 203; 232; 233; 234; 235; 274; 275; 276; 277; 278; 279; 280; 281; 282;
    283], 101);
   ([284; 285; 286; 287; 288; 289; 290; 291], 103);
   ([292; 293], 104);
   ([204; 205; 206; 207; 236; 237; 238; 239; 296; 297; 298; 299; 300; 301; 302; 303; 304;
    463; 464], 105);
   ([308; 309], 106);
   ([310; 311], 107);
   ([313; 314; 315; 316; 317; 318], 108);
   ([209; 241; 323; 324; 325; 326; 327; 328], 110);
   ([210; 211; 212; 213; 214; 242; 243; 244; 245; 246; 332; 333; 334; 335; 336; 337; 465;
    466], 111);
   ([340; 341; 342; 343; 344; 345], 114);
   ([346; 347; 348; 349; 350; 351; 352; 353], 115);
   ([354; 355; 356; 357], 116);
   ([217; 218; 219; 220; 249; 250; 251; 252; 360; 361; 362; 363; 364; 365; 366; 367; 368;
    369; 370; 371; 467; 468], 117);
   ([372; 373], 119);
   ([221; 253; 255; 374; 375; 376], 121);
   ([377; 378; 379; 380; 381; 382], 122)].

(** [fold_latin_diacritic]. *)
Definition fold_latin_diacritic (c : char) : option char :=
  snd <$> find (λ arm, existsb (Z.eqb c) (fst arm)) latin_diacritics.

(** [snippet]: the longest prefix of whole characters within 240 bytes. *)
Fixpoint floor_prefix (limit : Z) (s : str) : str :=
  match s with
  | [] => []
  | c :: s' => if len_utf8 c <=? limit then c :: floor_prefix (limit - len_utf8 c) s' else []
  end.
Definition snippet (value : str) : str := floor_prefix (Z.min (len value) 240) value.

(** [slice::windows]. *)
Fixpoint windows {A} (n : nat) (l : list A) : list (list A) :=
  match l with
  | [] => []
  | _ :: l' => if (n <=? length l)%nat then take n l :: windows n l' else []
  end.

(** [phrase_occurrences]. *)
Definition phrase_occurrences (tokens phrase : list str) : Z :=
  if is_empty phrase || (length tokens <? length phrase)%nat then 0
  else Z.of_nat (length (filter (λ w, w = phrase) (windows (length phrase) tokens))).

(** [str::split_whitespace]. *)
Definition split_whitespace (s : str) : list str :=
  filter (λ f, is_empty f = false) (split_by is_whitespace s).

Module SearchCandidate.
Record t : Type := mk {
  hit : WorkspaceSearchHit.t; title_tokens : list str; body_tokens : list str }.
End SearchCandidate.

(** [search_relevance]: [None] unless every phrase occurs. *)
Fixpoint search_relevance_from (relevance : Z) (candidate : SearchCandidate.t)
    (phrases : list (list str)) : option Z :=
  match phrases with
  | [] => Some relevance
  | phrase :: phrases' =>
      let occurrences := saturating_add usize_max
        (phrase_occurrences (SearchCandidate.title_tokens candidate) phrase)
        (phrase_occurrences (SearchCandidate.body_tokens candidate) phrase) in
      if 0 <? occurrences
      then search_relevance_from (saturating_add usize_max relevance occurrences) candidate phrases'
      else None
  end.
Definition search_relevance : SearchCandidate.t → list (list str) → option Z :=
  search_relevance_from 0.

(** The order of the hits: relevance and update time descending, then the identifier. *)
Definition hit_leb (x y : WorkspaceSearchHit.t * Z) : bool :=
  if x.2 =? y.2 then
    if WorkspaceSearchHit.updated_at x.1 =? WorkspaceSearchHit.updated_at y.1
    then str_leb (WorkspaceSearchHit.id x.1) (WorkspaceSearchHit.id y.1)
    else WorkspaceSearchHit.updated_at y.1 <? WorkspaceSearchHit.updated_at x.1
  else y.2 <? x.2.
Definition hit_le (x y : WorkspaceSearchHit.t * Z) : Prop := hit_leb x y = true.
#[global] Instance hit_le_dec : RelDecision hit_le.
Proof. intros x y. unfold hit_le. apply _. Defined.

Module WorkspaceSearch.
Section search.
Context {UC : Unicode}.
Import WorkspaceState.

(** The loop of [search_tokens]: completed tokens and the token being read. *)
Definition push_lowercase (acc : list str * str) (c : char) : list str * str :=
  let '(tokens, token) := acc in
  if is_alphanumeric c then (tokens, token ++ [c])
  else if is_empty token then (tokens, token) else (tokens ++ [token], []).
Definition push_character (acc : list str * str) (c : char) : list str * str :=
  if is_combining_mark c then acc
  else foldl push_lowercase acc (to_lowercase (default c (fold_latin_diacritic c))).
(** [search_tokens]. *)
Definition search_tokens (value : str) : list str :=
  let '(tokens, token) := foldl push_character ([], []) value in
  if is_empty token then tokens else tokens ++ [token].

(** [search_candidate]. *)
Definition search_candidate (hit : WorkspaceSearchHit.t) (body : str) : SearchCandidate.t :=
  SearchCandidate.mk hit (search_tokens (WorkspaceSearchHit.title hit)) (search_tokens body).

(** The five closures of [search_candidates]. *)
Definition project_candidate (p : Project.t) : SearchCandidate.t :=
  search_candidate
    (WorkspaceSearchHit.mk (as_str (Project.id p)) (Project.id p) None WorkspaceSearchKind.Project
       (Project.name p) (snippet (Project.description p)) (Project.updated_at p))
    (Project.description p).
Definition thread_candidate (s : WS) (t : Thread.t) : option SearchCandidate.t :=
  _ ← projects s !! Thread.project_id t;
  Some (search_candidate
    (WorkspaceSearchHit.mk (as_str (Thread.id t)) (Thread.project_id t) (Some (Thread.id t))
       WorkspaceSearchKind.Thread (Thread.title t) [] (Thread.updated_at t)) []).
Definition message_candidate (s : WS) (m : Message.t) : option SearchCandidate.t :=
  if Message.state m == MessageState.Deleted then None else
  thread ← threads s !! Message.thread_id m;
  _ ← projects s !! Thread.project_id thread;
  Some (search_candidate
    (WorkspaceSearchHit.mk (as_str (Message.id m)) (Thread.project_id thread)
       (Some (Message.thread_id m)) WorkspaceSearchKind.Message (Thread.title thread)
       (snippet (Message.content m)) (Message.updated_at m)) (Message.content m)).
Definition artifact_candidate (s : WS) (a : Artifact.t) : option SearchCandidate.t :=
  if Artifact.state a != ArtifactState.Available then None else
  _ ← projects s !! Artifact.project_id a;
  _ ← match Artifact.thread_id a with
      | Some thread_id =>
          thread ← threads s !! thread_id;
          if Thread.project_id thread != Artifact.project_id a then None else Some tt
      | None => Some tt
      end;
  Some (search_candidate
    (WorkspaceSearchHit.mk (as_str (Artifact.id a)) (Artifact.project_id a) (Artifact.thread_id a)
       WorkspaceSearchKind.Artifact (Artifact.name a) [] (Artifact.updated_at a)) []).
Definition automation_candidate (s : WS) (a : Automation.t) : option SearchCandidate.t :=
  _ ← projects s !! Automation.project_id a;
  Some (search_candidate
    (WorkspaceSearchHit.mk (as_str (Automation.id a)) (Automation.project_id a) None
       WorkspaceSearchKind.Automation (Automation.title a) (snippet (Automation.prompt a))
       (Automation.updated_at a)) (Automation.prompt a)).

(** [search_candidates]. *)
Definition search_candidates (s : WS) : list SearchCandidate.t :=
  map project_candidate (InMemory.values (projects s))
  ++ omap (thread_candidate s) (InMemory.values (threads s))
  ++ omap (message_candidate s) (InMemory.values (messages s))
  ++ omap (artifact_candidate s) (InMemory.values (artifacts s))
  ++ omap (automation_candidate s) (InMemory.values (automations s)).

Definition in_project (project_id : option ProjectId) (c : SearchCandidate.t) : Prop :=
  match project_id with
  | Some id => WorkspaceSearchHit.project_id (SearchCandidate.hit c) = id
  | None => True
  end.
#[global] Instance in_project_dec project_id c : Decision (in_project project_id c).
Proof. destruct project_id; cbn; apply _. Defined.

(** The phrases of a query. *)
Definition query_phrases (query : str) : list (list str) :=
  filter (λ phrase, is_empty phrase = false) (map search_tokens (split_whitespace query)).

(** [search]. The candidates come in the order of the hash maps; the sort leaves it
    visible only between hits with the same identifier. *)
Definition ranked_hits (s : WS) (project_id : option ProjectId) (phrases : list (list str)) :
    list (WorkspaceSearchHit.t * Z) :=
  omap (λ c, relevance ← search_relevance c phrases; Some (SearchCandidate.hit c, relevance))
    (filter (in_project project_id) (search_candidates s)).
Definition search (project_id : option ProjectId) (query : str) (offset limit : Z) :
    method WS StoreError (list WorkspaceSearchHit.t) :=
  s ← self;
  let phrases := query_phrases query in
  if is_empty phrases then mret []
  else mret (map fst (take (Z.to_nat limit) (drop (Z.to_nat offset)
               (merge_sort hit_le (ranked_hits s project_id phrases))))).
End search.
End WorkspaceSearch.

#[export] Instance workspace_memory {UC : Unicode} : WorkspaceStore WS := {|
  resolve_mutation := prior_command;
  create_project := WorkspaceMemory.create_project;
  get_project := WorkspaceMemory.get_project;
  save_project := WorkspaceMemory.save_project;
  list_projects := WorkspaceMemory.list_projects;
  create_thread := WorkspaceMemory.create_thread;
  get_thread := WorkspaceMemory.get_thread;
  save_thread := WorkspaceMemory.save_thread;
  list_threads := WorkspaceMemory.list_threads;
  create_message := WorkspaceMemory.create_message;
  get_message := WorkspaceMemory.get_message;
  save_message := WorkspaceMemory.save_message;
  list_messages := WorkspaceMemory.list_messages;
  create_automation := WorkspaceMemory.create_automation;
  get_automation := WorkspaceMemory.get_automation;
  save_automation := WorkspaceMemory.save_automation;
  list_automations := WorkspaceMemory.list_automations;
  record_automation_history := WorkspaceMemory.record_automation_history;
  automation_history := WorkspaceMemory.history_after;
  search := WorkspaceSearch.search;
|}.

(** ** Search against its specification *)






Section search_spec.
Context {UC : Unicode}.
Import WorkspaceSearch WorkspaceState.





End search_spec.

(** ** Witness: two projects, one of which matches *)

(** A stand-in for the Unicode tables: ASCII. *)
Definition demo_unicode : Unicode := {|
  to_lowercase c := [if in_range 65 90 c then c + 32 else c];
  is_alphanumeric := is_ascii_alphanumeric |}.
#[local] Existing Instance demo_unicode.

Definition demo_project (id name : str) (now : Z) : Project.t :=
  Project.mk (mk_id id) name [] ProjectState.Active 0 now now.
Definition demo_search_store : WS :=
  WorkspaceState.empty <| WorkspaceState.projects :=
    <[mk_id (lit "project-1") := demo_project (lit "project-1") (lit "The Plan") 10]>
      (<[mk_id (lit "project-2") := demo_project (lit "project-2") (lit "Notes") 20]> ∅) |>.

Lemma demo_search :
  (WorkspaceSearch.search None (lit "plan") 0 10 demo_search_store).2 =
    Ok [WorkspaceSearchHit.mk (lit "project-1") (mk_id (lit "project-1")) None
          WorkspaceSearchKind.Project (lit "The Plan") [] 10].
Proof. by vm_compute. Qed.
