(* ===== verification/WorkspaceServices.v ===== *)
(** * Workspace use cases

    [WorkspaceService] ([crates/grok-application/src/workspace.rs]) against the workspace
    port. A handler reads the clock and the identifier generator at most once; their
    values are the arguments [now] and [generated]. *)
From stdpp Require Import sorting.
From S2P Require Import Prelude RustText Ids Runs ConversationTurns TurnEvents Schedules Scheduler Workspace ExecutionStore Commands WorkspaceStore.

Definition MAX_PAGE_SIZE : Z := 200.
Definition MAX_SEARCH_PAGE_SIZE : Z := 100.
Definition MAX_SEARCH_OFFSET : Z := 10000.

Module Page.
Record t (A : Type) : Type := mk { items : list A; next_cursor : option str }.
Arguments mk {A} items next_cursor.
Arguments items {A} _.
Arguments next_cursor {A} _.
End Page.

Module CreateProject.
Record t : Type := mk { name : str; description : str }.
End CreateProject.
Module UpdateProject.
Record t : Type := mk { id : str; expected_revision : Z; name : str; description : str }.
End UpdateProject.
Module CreateThread.
Record t : Type := mk { project_id : str; title : str }.
End CreateThread.
Module UpdateThread.
Record t : Type := mk { id : str; expected_revision : Z; title : str }.
End UpdateThread.
Module CreateMessage.
Record t : Type := mk { thread_id : str; role : MessageRole.t; content : str }.
End CreateMessage.
Module UpdateMessage.
Record t : Type := mk { id : str; expected_revision : Z; content : str }.
End UpdateMessage.
Module CreateAutomation.
Record t : Type := mk {
  project_id : str; title : str; prompt : str; schedule : str; timezone : str;
  missed_run_policy : MissedRunPolicy.t; overlap_policy : OverlapPolicy.t; enabled : bool }.
End CreateAutomation.
Module UpdateAutomation.
Record t : Type := mk {
  id : str; expected_revision : Z; title : str; prompt : str; schedule : str; timezone : str;
  missed_run_policy : MissedRunPolicy.t; overlap_policy : OverlapPolicy.t; enabled : bool }.
End UpdateAutomation.

(** [message_role_key], [missed_run_key], [overlap_key]. *)
Definition message_role_key (role : MessageRole.t) : str :=
  match role with
  | MessageRole.System => lit "system"
  | MessageRole.User => lit "user"
  | MessageRole.Assistant => lit "assistant"
  end.
Definition missed_run_key (policy : MissedRunPolicy.t) : str :=
  match policy with
  | MissedRunPolicy.RunOnce => lit "run_once" | MissedRunPolicy.Skip => lit "skip" end.
Definition overlap_key (policy : OverlapPolicy.t) : str :=
  match policy with
  | OverlapPolicy.QueueOne => lit "queue_one" | OverlapPolicy.Skip => lit "skip" end.
(** [bool::to_string]. *)
Definition bool_to_string (b : bool) : str := if b then lit "true" else lit "false".

(** [validate_page_limit]. *)
Definition validate_page_limit (limit : Z) : result ApplicationError.t unit :=
  reject_if (negb (in_range 1 MAX_PAGE_SIZE limit))
    (ApplicationError.InvalidInput (Text (lit "page limit must be between 1 and 200"))).

(** [ensure_revision]. *)
Definition ensure_revision (actual expected : Z) : result ApplicationError.t unit :=
  reject_if (actual != expected) ApplicationError.Conflict.

(** [ensure_project_active] and [ensure_thread_open]. *)
Definition ensure_project_active (project : Project.t) : result ApplicationError.t unit :=
  reject_if (Project.state project != ProjectState.Active)
    (ApplicationError.InvalidState (Text (lit "project is archived"))).
Definition ensure_thread_open (thread : Thread.t) : result ApplicationError.t unit :=
  reject_if (Thread.state thread != ThreadState.Open)
    (ApplicationError.InvalidState (Text (lit "thread is archived"))).

(** [entity_page]. *)
Definition entity_page {A} (items : list A) (limit : Z) (id : A → str) : Page.t A :=
  let has_more := limit <? Z.of_nat (length items) in
  let items := take (Z.to_nat limit) items in
  Page.mk items (if has_more then id <$> last items else None).

(** [Id::new(..)?]. *)
Definition parse_id {S k} (value : str) : method S ApplicationError.t (entity_id k) :=
  lift (map_err ApplicationError.from_id (new_id value)).
(** [cursor.map(Id::new).transpose()?]. *)
Definition parse_cursor {S k} (cursor : option str) :
    method S ApplicationError.t (option (entity_id k)) :=
  match cursor with
  | Some value => id ← parse_id value; mret (Some id)
  | None => mret None
  end.

Module WorkspaceService.
Section service.
Context {S : Type} {ST : WorkspaceStore S} {SHA : Sha256} {CH : Chrono} {SJ : SerdeJson}.
Abbreviation handler A := (method S ApplicationError.t A).
Abbreviation domain := (moved_copy ApplicationError.from_workspace).
Abbreviation checked r := (lift (map_err ApplicationError.from_workspace r)).

(** [get_project], [get_thread], [get_message], [get_automation]. *)
Definition get_project (id : ProjectId) : handler Project.t := call (WorkspaceStore.get_project id).
Definition get_thread (id : ThreadId) : handler Thread.t := call (WorkspaceStore.get_thread id).
Definition get_message (id : MessageId) : handler Message.t := call (WorkspaceStore.get_message id).
Definition get_automation (id : AutomationId) : handler Automation.t :=
  call (WorkspaceStore.get_automation id).

(** [create_project]. *)
Definition create_project (input : CreateProject.t) (key : str) (now : Z) (generated : str) :
    handler Project.t :=
  command ← lift (mutation_command (lit "create_project") key
                    [CreateProject.name input; CreateProject.description input]);
  prior ← call (resolve_mutation (lit "create_project") command);
  match prior with
  | Some id => id ← parse_id id; get_project id
  | None =>
      id ← parse_id generated;
      project ← checked (Project.new id (CreateProject.name input)
                           (CreateProject.description input) now);
      call (WorkspaceStore.create_project project command)
  end.

(** [update_project]. *)
Definition update_project (input : UpdateProject.t) (key : str) (now : Z) : handler Project.t :=
  let expected := UpdateProject.expected_revision input in
  command ← lift (mutation_command (lit "update_project") key
                    [UpdateProject.id input; to_string expected; UpdateProject.name input;
                     UpdateProject.description input]);
  prior ← call (resolve_mutation (lit "update_project") command);
  match prior with
  | Some id => id ← parse_id id; get_project id
  | None =>
      id ← parse_id (UpdateProject.id input);
      project ← call (WorkspaceStore.get_project id);
      _ ← lift (ensure_revision (Project.revision project) expected);
      project ← lift (domain (Project.update (UpdateProject.name input)
                                (UpdateProject.description input) now) project);
      _ ← call (save_project project expected command);
      mret project
  end.

(** [archive_project]. *)
Definition archive_project (id : ProjectId) (expected : Z) (key : str) (now : Z) :
    handler Project.t :=
  command ← lift (mutation_command (lit "archive_project") key [as_str id; to_string expected]);
  prior ← call (resolve_mutation (lit "archive_project") command);
  match prior with
  | Some id => id ← parse_id id; get_project id
  | None =>
      project ← call (WorkspaceStore.get_project id);
      _ ← lift (ensure_revision (Project.revision project) expected);
      project ← lift (domain (Project.archive now) project);
      _ ← call (save_project project expected command);
      mret project
  end.

(** [list_projects]. *)
Definition list_projects (cursor : option str) (limit : Z) : handler (Page.t Project.t) :=
  _ ← lift (validate_page_limit limit);
  after ← parse_cursor cursor;
  items ← call (WorkspaceStore.list_projects after (limit + 1));
  mret (entity_page items limit (λ p, as_str (Project.id p))).

(** [create_thread]. *)
Definition create_thread (input : CreateThread.t) (key : str) (now : Z) (generated : str) :
    handler Thread.t :=
  command ← lift (mutation_command (lit "create_thread") key
                    [CreateThread.project_id input; CreateThread.title input]);
  prior ← call (resolve_mutation (lit "create_thread") command);
  match prior with
  | Some id => id ← parse_id id; get_thread id
  | None =>
      project_id ← parse_id (CreateThread.project_id input);
      project ← call (WorkspaceStore.get_project project_id);
      _ ← lift (ensure_project_active project);
      id ← parse_id generated;
      thread ← checked (Thread.new id project_id (CreateThread.title input) now);
      call (WorkspaceStore.create_thread thread command)
  end.

(** [update_thread]. *)
Definition update_thread (input : UpdateThread.t) (key : str) (now : Z) : handler Thread.t :=
  let expected := UpdateThread.expected_revision input in
  command ← lift (mutation_command (lit "update_thread") key
                    [UpdateThread.id input; to_string expected; UpdateThread.title input]);
  prior ← call (resolve_mutation (lit "update_thread") command);
  match prior with
  | Some id => id ← parse_id id; get_thread id
  | None =>
      id ← parse_id (UpdateThread.id input);
      thread ← call (WorkspaceStore.get_thread id);
      _ ← lift (ensure_revision (Thread.revision thread) expected);
      thread ← lift (domain (Thread.update (UpdateThread.title input) now) thread);
      _ ← call (save_thread thread expected command);
      mret thread
  end.

(** [archive_thread]. *)
Definition archive_thread (id : ThreadId) (expected : Z) (key : str) (now : Z) :
    handler Thread.t :=
  command ← lift (mutation_command (lit "archive_thread") key [as_str id; to_string expected]);
  prior ← call (resolve_mutation (lit "archive_thread") command);
  match prior with
  | Some id => id ← parse_id id; get_thread id
  | None =>
      thread ← call (WorkspaceStore.get_thread id);
      _ ← lift (ensure_revision (Thread.revision thread) expected);
      thread ← lift (domain (Thread.archive now) thread);
      _ ← call (save_thread thread expected command);
      mret thread
  end.

(** [list_threads]. *)
Definition list_threads (project_id : ProjectId) (cursor : option str) (limit : Z) :
    handler (Page.t Thread.t) :=
  _ ← lift (validate_page_limit limit);
  after ← parse_cursor cursor;
  items ← call (WorkspaceStore.list_threads project_id after (limit + 1));
  mret (entity_page items limit (λ t, as_str (Thread.id t))).

(** [create_message]. *)
Definition create_message (input : CreateMessage.t) (key : str) (now : Z) (generated : str) :
    handler Message.t :=
  command ← lift (mutation_command (lit "create_message") key
                    [CreateMessage.thread_id input; message_role_key (CreateMessage.role input);
                     CreateMessage.content input]);
  prior ← call (resolve_mutation (lit "create_message") command);
  match prior with
  | Some id => id ← parse_id id; get_message id
  | None =>
      thread_id ← parse_id (CreateMessage.thread_id input);
      thread ← call (WorkspaceStore.get_thread thread_id);
      _ ← lift (ensure_thread_open thread);
      project ← call (WorkspaceStore.get_project (Thread.project_id thread));
      _ ← lift (ensure_project_active project);
      id ← parse_id generated;
      message ← checked (Message.new id thread_id (CreateMessage.role input)
                           (CreateMessage.content input) now);
      call (WorkspaceStore.create_message message command)
  end.

(** [update_message]. *)
Definition update_message (input : UpdateMessage.t) (key : str) (now : Z) : handler Message.t :=
  let expected := UpdateMessage.expected_revision input in
  command ← lift (mutation_command (lit "update_message") key
                    [UpdateMessage.id input; to_string expected; UpdateMessage.content input]);
  prior ← call (resolve_mutation (lit "update_message") command);
  match prior with
  | Some id => id ← parse_id id; get_message id
  | None =>
      id ← parse_id (UpdateMessage.id input);
      message ← call (WorkspaceStore.get_message id);
      _ ← lift (ensure_revision (Message.revision message) expected);
      message ← lift (domain (Message.update (UpdateMessage.content input) now) message);
      _ ← call (save_message message expected command);
      mret message
  end.

(** [delete_message]. *)
Definition delete_message (id : MessageId) (expected : Z) (key : str) (now : Z) :
    handler Message.t :=
  command ← lift (mutation_command (lit "delete_message") key [as_str id; to_string expected]);
  prior ← call (resolve_mutation (lit "delete_message") command);
  match prior with
  | Some id => id ← parse_id id; get_message id
  | None =>
      message ← call (WorkspaceStore.get_message id);
      _ ← lift (ensure_revision (Message.revision message) expected);
      message ← lift (domain (Message.delete now) message);
      _ ← call (save_message message expected command);
      mret message
  end.

(** [list_messages]. *)
Definition list_messages (thread_id : ThreadId) (cursor : option str) (limit : Z) :
    handler (Page.t Message.t) :=
  _ ← lift (validate_page_limit limit);
  after ← parse_cursor cursor;
  items ← call (WorkspaceStore.list_messages thread_id after (limit + 1));
  mret (entity_page items limit (λ m, as_str (Message.id m))).

(** [create_automation]. *)
Definition create_automation (input : CreateAutomation.t) (key : str) (now : Z)
    (generated : str) : handler Automation.t :=
  command ← lift (mutation_command (lit "create_automation") key
    [CreateAutomation.project_id input; CreateAutomation.title input;
     CreateAutomation.prompt input; CreateAutomation.schedule input;
     CreateAutomation.timezone input; missed_run_key (CreateAutomation.missed_run_policy input);
     overlap_key (CreateAutomation.overlap_policy input);
     bool_to_string (CreateAutomation.enabled input)]);
  prior ← call (resolve_mutation (lit "create_automation") command);
  match prior with
  | Some id => id ← parse_id id; get_automation id
  | None =>
      project_id ← parse_id (CreateAutomation.project_id input);
      project ← call (WorkspaceStore.get_project project_id);
      _ ← lift (ensure_project_active project);
      id ← parse_id generated;
      automation ← checked (Automation.new id project_id (CreateAutomation.title input)
        (CreateAutomation.prompt input) (CreateAutomation.schedule input)
        (CreateAutomation.timezone input) (CreateAutomation.missed_run_policy input)
        (CreateAutomation.overlap_policy input) (CreateAutomation.enabled input) now);
      call (WorkspaceStore.create_automation automation command)
  end.

(** [update_automation]. *)
Definition update_automation (input : UpdateAutomation.t) (key : str) (now : Z) :
    handler Automation.t :=
  let expected := UpdateAutomation.expected_revision input in
  command ← lift (mutation_command (lit "update_automation") key
    [UpdateAutomation.id input; to_string expected; UpdateAutomation.title input;
     UpdateAutomation.prompt input; UpdateAutomation.schedule input;
     UpdateAutomation.timezone input; missed_run_key (UpdateAutomation.missed_run_policy input);
     overlap_key (UpdateAutomation.overlap_policy input);
     bool_to_string (UpdateAutomation.enabled input)]);
  prior ← call (resolve_mutation (lit "update_automation") command);
  match prior with
  | Some id => id ← parse_id id; get_automation id
  | None =>
      id ← parse_id (UpdateAutomation.id input);
      automation ← call (WorkspaceStore.get_automation id);
      _ ← lift (ensure_revision (Automation.revision automation) expected);
      automation ← lift (domain (Automation.update (UpdateAutomation.title input)
        (UpdateAutomation.prompt input) (UpdateAutomation.schedule input)
        (UpdateAutomation.timezone input) (UpdateAutomation.missed_run_policy input)
        (UpdateAutomation.overlap_policy input) (UpdateAutomation.enabled input) now) automation);
      _ ← call (save_automation automation expected command);
      mret automation
  end.

(** [archive_automation]. *)
Definition archive_automation (id : AutomationId) (expected : Z) (key : str) (now : Z) :
    handler Automation.t :=
  command ← lift (mutation_command (lit "archive_automation") key [as_str id; to_string expected]);
  prior ← call (resolve_mutation (lit "archive_automation") command);
  match prior with
  | Some id => id ← parse_id id; get_automation id
  | None =>
      automation ← call (WorkspaceStore.get_automation id);
      _ ← lift (ensure_revision (Automation.revision automation) expected);
      automation ← lift (domain (Automation.archive now) automation);
      _ ← call (save_automation automation expected command);
      mret automation
  end.

(** [list_automations]. *)
Definition list_automations (project_id : ProjectId) (cursor : option str) (limit : Z) :
    handler (Page.t Automation.t) :=
  _ ← lift (validate_page_limit limit);
  after ← parse_cursor cursor;
  items ← call (WorkspaceStore.list_automations project_id after (limit + 1));
  mret (entity_page items limit (λ a, as_str (Automation.id a))).

(** [record_automation_history]. *)
Definition record_automation_history (automation_id : AutomationId) (scheduled_for : Z)
    (status : AutomationHistoryStatus.t) (summary : str) (now : Z) :
    handler AutomationHistoryEntry.t :=
  automation ← call (WorkspaceStore.get_automation automation_id);
  _ ← throw_if (Automation.state automation == AutomationState.Archived)
        (ApplicationError.InvalidState (Text (lit "automation is archived")));
  entry ← checked (AutomationHistoryEntry.new automation_id scheduled_for now status summary);
  call (WorkspaceStore.record_automation_history entry).

(** [automation_history]. *)
Definition automation_history (automation_id : AutomationId) (after_sequence limit : Z) :
    handler (list AutomationHistoryEntry.t) :=
  _ ← lift (validate_page_limit limit);
  call (WorkspaceStore.automation_history automation_id after_sequence limit).

(** [search]. *)
Definition search (project_id : option ProjectId) (query : str) (offset limit : Z) :
    handler (Page.t WorkspaceSearchHit.t) :=
  _ ← throw_if (is_empty (trim query) || (256 <? len query) || existsb is_control query)
        (ApplicationError.InvalidInput
           (Text (lit "search query must be printable and between 1 and 256 bytes")));
  _ ← throw_if (negb (in_range 1 MAX_SEARCH_PAGE_SIZE limit) || (MAX_SEARCH_OFFSET <? offset))
        (ApplicationError.InvalidInput
           (Text (lit "search pagination is outside the supported bounds")));
  items ← call (WorkspaceStore.search project_id query offset (limit + 1));
  let has_more := limit <? Z.of_nat (length items) in
  let next_offset := saturating_add usize_max offset limit in
  mret (Page.mk (take (Z.to_nat limit) items)
          (if has_more && (next_offset <=? MAX_SEARCH_OFFSET)
           then Some (to_string next_offset) else None)).
End service.
End WorkspaceService.
