(* ===== verification/WorkspaceWorld.v ===== *)
(** * Concurrent use of the workspace

    Handlers of [WorkspaceServices] run concurrently: between the read and the commit of
    one, others commit. A world is the store and the snapshots clients hold; its steps are
    the single store calls handlers make. This file shows what holds in every reachable
    world, that a handler is a sequence of such steps, and that pages tile the lists. *)
From stdpp Require Import sorting.
From S2P Require Import Prelude RustText Ids Runs ConversationTurns TurnEvents Schedules Scheduler Workspace ExecutionStore Commands WorkspaceStore WorkspaceServices.

(** ** Tables of revisioned entities *)

(** What the store keys an entity by and how the workspace creates it. *)
Class Entity (k : id_kind) (A C : Type) `{!Aggregate A C} := {
  ent_id : A → entity_id k;
  ent_initial : A → Prop;
}.

Section edits.
Context {A C : Type} `{!Aggregate A C, !AggregateLaws A C}.

Definition edit (x x' : A) : Prop := ∃ c now, ag_apply c now x = (x', Ok tt).

Lemma edit_revision x x' : edit x x' → ag_revision x' = ag_revision x + 1.
Proof. intros (c & now & H). by apply ag_step in H as (-> & _). Qed.
Lemma edits_revision x x' :
  rtc edit x x' → ag_revision x ≤ ag_revision x' ∧ (ag_revision x = ag_revision x' → x = x').
Proof.
  induction 1 as [x|x y z H _ [IH _]]; [done|]. apply edit_revision in H. split; lia.
Qed.
End edits.

Class EntityLaws (k : id_kind) (A C : Type) `{!Aggregate A C, !Entity k A C} : Prop := {
  edit_id (x x' : A) : edit x x' → ent_id x' = ent_id x;
}.

Section tables.
Context {k : id_kind} {A C : Type}.
Context `{!Aggregate A C, !AggregateLaws A C, !Entity k A C, !EntityLaws k A C}.
Implicit Types (T : gmap (entity_id k) A) (seen : list A).

(** Every stored entity has a history of accepted edits, and every snapshot a client
    holds leads by accepted edits to the stored entity. *)
Record table_inv T seen : Prop := {
  stored_ok i x : T !! i = Some x →
    ent_id x = i ∧ valid_id (as_str i) ∧ ∃ x0, ent_initial x0 ∧ rtc edit x0 x;
  seen_ok x : x ∈ seen → ∃ y, T !! ent_id x = Some y ∧ rtc edit x y;
}.

Lemma edits_id x x' : rtc edit x x' → ent_id x' = ent_id x.
Proof. induction 1 as [|x y z H%edit_id _ IH]; [done|congruence]. Qed.

Lemma table_inv_empty : table_inv ∅ [].
Proof. split; [intros i x H; by rewrite lookup_empty in H|intros x H; by apply not_elem_of_nil in H]. Qed.

Lemma table_inv_read T seen i x : table_inv T seen → T !! i = Some x → table_inv T (x :: seen).
Proof.
  intros [H1 H2] Hx. split; [done|]. intros y [->|Hy]%elem_of_cons; [|auto].
  exists x. destruct (H1 _ _ Hx) as [-> _]. done.
Qed.

Lemma table_inv_create T seen x :
  table_inv T seen → ent_initial x → valid_id (as_str (ent_id x)) → T !! ent_id x = None →
  table_inv (<[ent_id x := x]> T) seen.
Proof.
  intros [H1 H2] Hx Hv Hn. split.
  - intros i y [[<- <-]|[Hne Hy]]%lookup_insert_Some; [|auto]. split_and!; [done|done|].
    by exists x.
  - intros y Hy. destruct (H2 y Hy) as (z & Hz & Hr). exists z.
    rewrite lookup_insert_ne by congruence. done.
Qed.

Lemma revisioned_replace_Ok T i x' expected T' :
  revisioned_replace T i x' expected ag_revision = Ok T' ↔
  T' = <[i := x']> T ∧ ∃ cur, T !! i = Some cur ∧ ag_revision cur = expected ∧
    ag_revision x' = expected + 1 ∧ expected + 1 ≤ u64_max.
Proof.
  unfold revisioned_replace, checked_add. split.
  - intros H. run_in H. bool_facts. split; [done|]. eexists. split_and!; [done..|lia].
  - intros (-> & cur & -> & <- & Hr & Hb). cbn. rewrite (proj2 (Z.leb_le _ _)) by lia. cbn.
    rewrite Hr, !bool_decide_eq_true_2 by done. done.
Qed.

(** A save from a snapshot succeeds only on the entity the snapshot shows. *)
Lemma table_inv_save T seen x x' T' :
  table_inv T seen → x ∈ seen → edit x x' →
  revisioned_replace T (ent_id x') x' (ag_revision x) ag_revision = Ok T' →
  T' = <[ent_id x := x']> T ∧ T !! ent_id x = Some x ∧ table_inv T' seen.
Proof.
  intros [H1 H2] Hx He (-> & cur & Hc & Hr & _)%revisioned_replace_Ok.
  rewrite (edit_id _ _ He) in *. destruct (H2 x Hx) as (y & Hy & Hxy).
  rewrite Hc in Hy. injection Hy as <-.
  assert (x = cur) as <- by (apply edits_revision in Hxy as [_ Hxy]; auto).
  split_and!; [done|done|]. destruct (H1 _ _ Hc) as (_ & Hv & x0 & Hi & Hx0). split.
  - intros i y [[<- <-]|[Hne Hy]]%lookup_insert_Some; [|auto]. split_and!; [by apply edit_id|done|].
    exists x0. split; [done|]. by eapply rtc_r.
  - intros z Hz. destruct (H2 z Hz) as (y & Hy & Hzy).
    destruct (decide (ent_id z = ent_id x)) as [E|E].
    + rewrite E in *. rewrite Hc in Hy. injection Hy as <-. exists x'.
      rewrite lookup_insert_eq. split; [done|]. by eapply rtc_r.
    + exists y. by rewrite lookup_insert_ne.
Qed.
End tables.

(** *** The four tables *)

#[global] Instance project_entity : Entity KProject Project.t project_call := {|
  ent_id := Project.id;
  ent_initial x := ∃ id name description now, Project.new id name description now = Ok x;
|}.
(** A thread starts on its own or as a fork; a message is created unnumbered and numbered
    by the store, or derived with its number. *)
#[global] Instance thread_entity : Entity KThread Thread.t thread_call := {|
  ent_id := Thread.id; ent_initial := ag_initial;
|}.
#[global] Instance message_entity : Entity KMessage Message.t message_call := {|
  ent_id := Message.id; ent_initial := ag_initial;
|}.
Section automation_entity.
Context {CH : Chrono} {SJ : SerdeJson}.
#[export] Instance automation_entity : Entity KAutomation Automation.t automation_call := {|
  ent_id := Automation.id;
  ent_initial x := ∃ id p title prompt schedule timezone missed overlap enabled now,
    Automation.new id p title prompt schedule timezone missed overlap enabled now = Ok x;
|}.
End automation_entity.

(** Edits keep what identifies an entity and where it belongs. *)
Lemma project_edit (x x' : Project.t) : edit x x' → Project.id x' = Project.id x.
Proof.
  intros (c & now & H). destruct c; cbn in H;
    unfold Project.update, Project.archive, Project.ensure_active, Project.touch_self in H;
    by run_touch H.
Qed.
Lemma thread_edit (x x' : Thread.t) :
  edit x x' → Thread.id x' = Thread.id x ∧ Thread.project_id x' = Thread.project_id x ∧
    Thread.lineage x' = Thread.lineage x.
Proof.
  intros (c & now & H). destruct c; cbn in H;
    unfold Thread.update, Thread.archive, Thread.ensure_open, Thread.touch_self in H;
    by run_touch H.
Qed.
Lemma message_edit (x x' : Message.t) :
  edit x x' → Message.id x' = Message.id x ∧ Message.thread_id x' = Message.thread_id x ∧
    Message.sequence x' = Message.sequence x ∧ Message.role x' = Message.role x.
Proof.
  intros (c & now & H). destruct c; cbn in H;
    unfold Message.update, Message.delete, Message.ensure_active, Message.ensure_original,
      Message.touch_self in H; by run_touch H.
Qed.
Lemma automation_edit {CH : Chrono} {SJ : SerdeJson} (x x' : Automation.t) :
  edit x x' → Automation.id x' = Automation.id x ∧ Automation.project_id x' = Automation.project_id x.
Proof.
  intros (c & now & H). destruct c; cbn in H;
    unfold Automation.update, Automation.archive, Automation.touch_self in H; by run_touch H.
Qed.
#[global] Instance project_entity_laws : EntityLaws KProject Project.t project_call.
Proof. split. apply project_edit. Qed.
#[global] Instance thread_entity_laws : EntityLaws KThread Thread.t thread_call.
Proof. split. intros x x' H. by apply thread_edit in H as [? _]. Qed.
#[global] Instance message_entity_laws : EntityLaws KMessage Message.t message_call.
Proof. split. intros x x' H. by apply message_edit in H as [? _]. Qed.
#[export] Instance automation_entity_laws {CH : Chrono} {SJ : SerdeJson} :
  EntityLaws KAutomation Automation.t automation_call.
Proof. split. intros x x' H. by apply automation_edit in H as [? _]. Qed.

(** ** Store calls and their effects *)

Section world.
Context {CH : Chrono} {SJ : SerdeJson}.
Import WorkspaceState.

(** The snapshots clients hold. *)
Record snapshots : Type := Snapshots {
  held_projects : list Project.t;
  held_threads : list Thread.t;
  held_messages : list Message.t;
  held_automations : list Automation.t;
}.
Definition no_snapshots : snapshots := Snapshots [] [] [] [].
(** Everything a client could read at this moment. *)
Definition current_snapshots (s : WS) : snapshots :=
  Snapshots (InMemory.values (projects s)) (InMemory.values (threads s))
    (InMemory.values (messages s)) (InMemory.values (automations s)).

(** The store calls that write. *)
Inductive ws_op : Type :=
| OCreateProject (x : Project.t) (c : MutationCommand.t)
| OSaveProject (x : Project.t) (expected : Z) (c : MutationCommand.t)
| OCreateThread (x : Thread.t) (c : MutationCommand.t)
| OSaveThread (x : Thread.t) (expected : Z) (c : MutationCommand.t)
| OCreateMessage (x : Message.t) (c : MutationCommand.t)
| OSaveMessage (x : Message.t) (expected : Z) (c : MutationCommand.t)
| OCreateAutomation (x : Automation.t) (c : MutationCommand.t)
| OSaveAutomation (x : Automation.t) (expected : Z) (c : MutationCommand.t)
| ORecordHistory (e : AutomationHistoryEntry.t).

Definition ws_exec (op : ws_op) : method WS StoreError unit :=
  match op with
  | OCreateProject x c => discard (WorkspaceMemory.create_project x c)
  | OSaveProject x n c => discard (WorkspaceMemory.save_project x n c)
  | OCreateThread x c => discard (WorkspaceMemory.create_thread x c)
  | OSaveThread x n c => discard (WorkspaceMemory.save_thread x n c)
  | OCreateMessage x c => discard (WorkspaceMemory.create_message x c)
  | OSaveMessage x n c => discard (WorkspaceMemory.save_message x n c)
  | OCreateAutomation x c => discard (WorkspaceMemory.create_automation x c)
  | OSaveAutomation x n c => discard (WorkspaceMemory.save_automation x n c)
  | ORecordHistory e => discard (WorkspaceMemory.record_automation_history e)
  end.

Definition project_scopes : list str :=
  [lit "create_project"; lit "update_project"; lit "archive_project"].
Definition thread_scopes : list str :=
  [lit "create_thread"; lit "update_thread"; lit "archive_thread"].
Definition message_scopes : list str :=
  [lit "create_message"; lit "update_message"; lit "delete_message"].
Definition automation_scopes : list str :=
  [lit "create_automation"; lit "update_automation"; lit "archive_automation"].

(** A client saves an accepted edit of a snapshot it holds. *)
Definition saves {A C} `{!Aggregate A C} (held : list A) (x : A) (expected : Z) : Prop :=
  ∃ x0, x0 ∈ held ∧ edit x0 x ∧ expected = ag_revision x0.

(** The store calls the handlers make, from the snapshots they hold. *)
Definition allowed (h : snapshots) (op : ws_op) : Prop :=
  match op with
  | OCreateProject x _ => ∃ g id name description now,
      new_id g = Ok id ∧ Project.new id name description now = Ok x
  | OSaveProject x n c =>
      saves (held_projects h) x n ∧ MutationCommand.scope c ∈ project_scopes
  | OCreateThread x _ => ∃ g id p title now,
      new_id g = Ok id ∧ Thread.new id p title now = Ok x
  | OSaveThread x n c => saves (held_threads h) x n ∧ MutationCommand.scope c ∈ thread_scopes
  | OCreateMessage x _ => ∃ g id t role content now,
      new_id g = Ok id ∧ Message.new id t role content now = Ok x
  | OSaveMessage x n c => saves (held_messages h) x n ∧ MutationCommand.scope c ∈ message_scopes
  | OCreateAutomation x _ =>
      ∃ g id p title prompt schedule timezone missed overlap enabled now,
      new_id g = Ok id ∧
      Automation.new id p title prompt schedule timezone missed overlap enabled now = Ok x
  | OSaveAutomation x n c =>
      saves (held_automations h) x n ∧ MutationCommand.scope c ∈ automation_scopes
  | ORecordHistory e => ∃ id sf now st su, AutomationHistoryEntry.new id sf now st su = Ok e
  end.

(** *** The effect of a store call: nothing, or one table changes and the command is
    recorded. *)

Definition command_key (c : MutationCommand.t) : str * str :=
  (MutationCommand.scope c, MutationCommand.key c).
Definition with_command (c : MutationCommand.t) (id : str) (s : WS) : WS :=
  s <| workspace_commands := <[command_key c := CommandRecord.mk (MutationCommand.fingerprint c) id]>
         (workspace_commands s) |>.
Abbreviation unused c s := (workspace_commands s !! command_key c = None).

Inductive ws_effect (s : WS) : ws_op → WS → Prop :=
| eff_none op : ws_effect s op s
| eff_create_project x c :
    MutationCommand.scope c = lit "create_project" → unused c s → projects s !! Project.id x = None →
    ws_effect s (OCreateProject x c)
      (with_command c (as_str (Project.id x)) (s <| projects := <[Project.id x := x]> (projects s) |>))
| eff_save_project x n c T :
    unused c s → revisioned_replace (projects s) (Project.id x) x n Project.revision = Ok T →
    ws_effect s (OSaveProject x n c)
      (with_command c (as_str (Project.id x)) (s <| projects := T |>))
| eff_create_thread x c :
    MutationCommand.scope c = lit "create_thread" → unused c s → threads s !! Thread.id x = None →
    is_Some (projects s !! Thread.project_id x) →
    ws_effect s (OCreateThread x c)
      (with_command c (as_str (Thread.id x)) (s <| threads := <[Thread.id x := x]> (threads s) |>))
| eff_save_thread x n c T :
    unused c s → revisioned_replace (threads s) (Thread.id x) x n Thread.revision = Ok T →
    ws_effect s (OSaveThread x n c)
      (with_command c (as_str (Thread.id x)) (s <| threads := T |>))
| eff_create_message x c x' :
    MutationCommand.scope c = lit "create_message" → unused c s → messages s !! Message.id x = None →
    is_Some (threads s !! Message.thread_id x) →
    x' = x <| Message.sequence :=
                WorkspaceMemory.last_sequence s (Message.thread_id x) + 1 |> →
    ws_effect s (OCreateMessage x c)
      (with_command c (as_str (Message.id x)) (s <| messages := <[Message.id x := x']> (messages s) |>))
| eff_save_message x n c T :
    unused c s → WorkspaceMemory.message_frozen s x = false →
    revisioned_replace (messages s) (Message.id x) x n Message.revision = Ok T →
    ws_effect s (OSaveMessage x n c)
      (with_command c (as_str (Message.id x)) (s <| messages := T |>))
| eff_create_automation x c :
    MutationCommand.scope c = lit "create_automation" → unused c s →
    automations s !! Automation.id x = None → is_Some (projects s !! Automation.project_id x) →
    ws_effect s (OCreateAutomation x c)
      (with_command c (as_str (Automation.id x))
         (s <| automations := <[Automation.id x := x]> (automations s) |>))
| eff_save_automation x n c T :
    unused c s → automation_schedule_cursors s !! Automation.id x = None →
    revisioned_replace (automations s) (Automation.id x) x n Automation.revision = Ok T →
    ws_effect s (OSaveAutomation x n c)
      (with_command c (as_str (Automation.id x)) (s <| automations := T |>))
| eff_history e h h' :
    is_Some (automations s !! AutomationHistoryEntry.automation_id e) →
    h = default [] (automation_history s !! AutomationHistoryEntry.automation_id e) →
    h' = h ∨ (find (λ e', AutomationHistoryEntry.scheduled_for e'
                          =? AutomationHistoryEntry.scheduled_for e) h = None ∧
              h' = h ++ [e <| AutomationHistoryEntry.sequence := Z.of_nat (length h) + 1 |>]) →
    ws_effect s (ORecordHistory e)
      (s <| automation_history :=
         <[AutomationHistoryEntry.automation_id e := h']> (automation_history s) |>).

Lemma prior_command_spec scope c s s' r :
  prior_command scope c s = (s', r) →
  s' = s ∧ (r = Ok None → scope = MutationCommand.scope c ∧ unused c s).
Proof.
  unfold prior_command. intros H. run_in H; bool_facts; split; try done.
Qed.
Lemma prior_command_readonly scope c : readonly (prior_command scope c).
Proof.
  intros s. destruct (prior_command scope c s) as [s' r] eqn:H.
  by apply prior_command_spec in H as [-> _].
Qed.

(** Opens a store operation at its command lookup; the replay branch changes nothing. *)
Lemma prior_then_effect {A} op scope c (k : option str → method WS StoreError A) s s' r :
  (prior_command scope c ≫= k) s = (s', r) → (∀ id, readonly (k (Some id))) →
  (scope = MutationCommand.scope c → unused c s → k None s = (s', r) → ws_effect s op s') →
  ws_effect s op s'.
Proof.
  intros H Hk Hn.
  apply readonly_bind_inv in H as [->|(prior & Hp & H)];
    [constructor| |apply prior_command_readonly].
  destruct prior as [id|].
  - specialize (Hk id s). rewrite H in Hk. cbn in Hk. subst. constructor.
  - apply prior_command_spec in Hp as (_ & Hp). destruct (Hp eq_refl). auto.
Qed.

Lemma recorded_entity_readonly {k A} (table : WS → gmap (entity_id k) A) id :
  readonly (recorded_entity table id).
Proof. unfold recorded_entity. solve_readonly. Qed.

Lemma record_history_effect e s s' r :
  WorkspaceMemory.record_automation_history e s = (s', r) → ws_effect s (ORecordHistory e) s'.
Proof.
  unfold WorkspaceMemory.record_automation_history. run_unfold. intros H.
  destruct (automations s !! _) eqn:Ha; cbn in H; [|simplify_eq; constructor].
  destruct (find _ _) eqn:Hf; cbn in H.
  - simplify_eq. econstructor; [by rewrite Ha|done|by left].
  - unfold checked_add in H. destruct (_ <=? u64_max); cbn in H; simplify_eq/=.
    + rewrite insert_insert_eq. econstructor; [by rewrite Ha|done|by right].
    + econstructor; [by rewrite Ha|done|by left].
Qed.

Lemma ws_exec_effect op s s' r : ws_exec op s = (s', r) → ws_effect s op s'.
Proof.
  intros H. destruct op; cbn [ws_exec] in H; apply discard_state in H as [r' H];
    [..|by eapply record_history_effect].
  all: eapply prior_then_effect;
    [exact H|intros ?; first [apply recorded_entity_readonly|apply readonly_ret]|];
    clear H; intros Hs Hu H.
  all: unfold record_command in H; run_unfold in H.
  all: repeat (case_match; simplify_eq/=); bool_facts; try by constructor.
  all: rewrite ?is_some_false in *; int_facts; econstructor; eauto.
Qed.

(** ** The invariant *)

(** Message numbers of a thread are distinct and start at one without gaps. *)
Record sequences_ok (M : gmap MessageId Message.t) : Prop := {
  sequence_pos i x : M !! i = Some x → 1 ≤ Message.sequence x;
  sequence_inj i j x y : M !! i = Some x → M !! j = Some y →
    Message.thread_id x = Message.thread_id y → Message.sequence x = Message.sequence y → i = j;
  sequence_dense i x n : M !! i = Some x → 1 ≤ n ≤ Message.sequence x →
    ∃ j y, M !! j = Some y ∧ Message.thread_id y = Message.thread_id x ∧ Message.sequence y = n;
}.

(** History entries of an automation are numbered and record each scheduled time once. *)
Definition history_ok (a : AutomationId) (h : list AutomationHistoryEntry.t) : Prop :=
  (∀ n e, h !! n = Some e → AutomationHistoryEntry.sequence e = Z.of_nat n + 1 ∧
     AutomationHistoryEntry.automation_id e = a) ∧
  NoDup (map AutomationHistoryEntry.scheduled_for h).

(** The entity a recorded command names is stored. *)
Definition entity_stored (s : WS) (scope id : str) : Prop :=
  (scope ∈ project_scopes ∧ is_Some (projects s !! mk_id id)) ∨
  (scope ∈ thread_scopes ∧ is_Some (threads s !! mk_id id)) ∨
  (scope ∈ message_scopes ∧ is_Some (messages s !! mk_id id)) ∨
  (scope ∈ automation_scopes ∧ is_Some (automations s !! mk_id id)).

Record ws_inv (s : WS) (h : snapshots) : Prop := {
  inv_projects : table_inv (projects s) (held_projects h);
  inv_threads : table_inv (threads s) (held_threads h);
  inv_messages : table_inv (messages s) (held_messages h);
  inv_automations : table_inv (automations s) (held_automations h);
  inv_thread_project i x :
    threads s !! i = Some x → is_Some (projects s !! Thread.project_id x);
  inv_message_thread i x :
    messages s !! i = Some x → is_Some (threads s !! Message.thread_id x);
  inv_automation_project i x :
    automations s !! i = Some x → is_Some (projects s !! Automation.project_id x);
  inv_sequences : sequences_ok (messages s);
  inv_history a l : automation_history s !! a = Some l →
    is_Some (automations s !! a) ∧ history_ok a l;
  inv_commands scope key r : workspace_commands s !! (scope, key) = Some r →
    entity_stored s scope (CommandRecord.entity_id r);
}.

(** *** Growth: nothing is ever removed *)

Definition keeps {K A} `{Countable K} (T T' : gmap K A) : Prop :=
  ∀ i, is_Some (T !! i) → is_Some (T' !! i).
Lemma keeps_refl {K A} `{Countable K} (T : gmap K A) : keeps T T.
Proof. by intros i. Qed.
Lemma keeps_insert {K A} `{Countable K} (T : gmap K A) i x : keeps T (<[i := x]> T).
Proof. intros j Hj. apply lookup_insert_is_Some'. by right. Qed.
Hint Resolve keeps_refl keeps_insert : core.

Lemma entity_stored_keeps s s' scope id :
  keeps (projects s) (projects s') → keeps (threads s) (threads s') →
  keeps (messages s) (messages s') → keeps (automations s) (automations s') →
  entity_stored s scope id → entity_stored s' scope id.
Proof. unfold entity_stored. naive_solver. Qed.

Lemma commands_ok_record s s' c id :
  (∀ scope key r, workspace_commands s !! (scope, key) = Some r →
     entity_stored s scope (CommandRecord.entity_id r)) →
  keeps (projects s) (projects s') → keeps (threads s) (threads s') →
  keeps (messages s) (messages s') → keeps (automations s) (automations s') →
  entity_stored s' (MutationCommand.scope c) id →
  ∀ scope key r,
    <[command_key c := CommandRecord.mk (MutationCommand.fingerprint c) id]>
      (workspace_commands s) !! (scope, key) = Some r →
    entity_stored s' scope (CommandRecord.entity_id r).
Proof.
  intros H K1 K2 K3 K4 Hid scope key r [[[= <- <-] <-]|[_ Hr]]%lookup_insert_Some; [done|].
  eapply entity_stored_keeps; eauto.
Qed.

(** *** Numbering a new message *)

Lemma foldl_max_spec l a :
  a ≤ foldl Z.max a l ∧ (∀ x, x ∈ l → x ≤ foldl Z.max a l) ∧
  (foldl Z.max a l = a ∨ foldl Z.max a l ∈ l).
Proof.
  revert a. induction l as [|x l IH]; intros a; cbn.
  { split_and!; [lia|intros x Hx; by apply not_elem_of_nil in Hx|by left]. }
  destruct (IH (Z.max a x)) as (H1 & H2 & H3). split_and!.
  - lia.
  - intros y [->|Hy]%elem_of_cons; [lia|auto].
  - rewrite elem_of_cons. destruct H3 as [H3|H3]; [|tauto]. rewrite H3. lia.
Qed.

Lemma elem_of_thread_messages s t m :
  m ∈ WorkspaceMemory.thread_messages s t ↔
  Message.thread_id m = t ∧ ∃ i, messages s !! i = Some m.
Proof.
  unfold WorkspaceMemory.thread_messages. by rewrite list_elem_of_filter, elem_of_values.
Qed.
Lemma last_sequence_spec s t :
  0 ≤ WorkspaceMemory.last_sequence s t ∧
  (∀ i x, messages s !! i = Some x → Message.thread_id x = t →
     Message.sequence x ≤ WorkspaceMemory.last_sequence s t) ∧
  (WorkspaceMemory.last_sequence s t = 0 ∨
   ∃ i x, messages s !! i = Some x ∧ Message.thread_id x = t ∧
     Message.sequence x = WorkspaceMemory.last_sequence s t).
Proof.
  unfold WorkspaceMemory.last_sequence.
  destruct (foldl_max_spec (map Message.sequence (WorkspaceMemory.thread_messages s t)) 0)
    as (H1 & H2 & H3). split_and!; [done| |].
  - intros i x Hx Ht. apply H2. apply list_elem_of_fmap. exists x. split; [done|].
    apply elem_of_thread_messages. eauto.
  - destruct H3 as [H3|H3]; [by left|right]. apply list_elem_of_fmap in H3 as (x & E & Hx).
    apply elem_of_thread_messages in Hx as [Ht [i Hi]]. eauto.
Qed.

Lemma sequences_ok_create s x :
  sequences_ok (messages s) → messages s !! Message.id x = None →
  Message.sequence x = WorkspaceMemory.last_sequence s (Message.thread_id x) + 1 →
  sequences_ok (<[Message.id x := x]> (messages s)).
Proof.
  intros [H1 H2 H3] Hn Hx.
  destruct (last_sequence_spec s (Message.thread_id x)) as (L1 & L2 & L3). split.
  - intros i y [[_ <-]|[_ Hy]]%lookup_insert_Some; [lia|eauto].
  - intros i j y z [[<- <-]|[Hi Hy]]%lookup_insert_Some [[<- <-]|[Hj Hz]]%lookup_insert_Some Ht Hs;
      [done| | |eauto].
    + specialize (L2 _ _ Hz (eq_sym Ht)). lia.
    + specialize (L2 _ _ Hy Ht). lia.
  - intros i y n [[<- <-]|[Hi Hy]]%lookup_insert_Some Hr.
    + destruct (decide (n = Message.sequence x)) as [->|Hne].
      { exists (Message.id x), x. by rewrite lookup_insert_eq. }
      destruct L3 as [L3|(j & z & Hz & Ht & Hs)]; [lia|].
      destruct (H3 j z n Hz ltac:(lia)) as (j' & z' & Hz' & Ht' & <-).
      exists j', z'. rewrite lookup_insert_ne by congruence. split_and!; [done|congruence|done].
    + destruct (H3 i y n Hy Hr) as (j & z & Hz & ? & ?). exists j, z.
      by rewrite lookup_insert_ne by congruence.
Qed.

Lemma sequences_ok_edit M i x x' :
  sequences_ok M → M !! i = Some x → Message.thread_id x' = Message.thread_id x →
  Message.sequence x' = Message.sequence x → sequences_ok (<[i := x']> M).
Proof.
  intros [H1 H2 H3] Hx Ht Hs.
  assert (Hold : ∀ j y, <[i := x']> M !! j = Some y → ∃ z, M !! j = Some z ∧
    Message.thread_id y = Message.thread_id z ∧ Message.sequence y = Message.sequence z).
  { intros j y [[<- <-]|[Hj Hy]]%lookup_insert_Some; eauto. }
  split.
  - intros j y (z & Hz & _ & ->)%Hold. eauto.
  - intros j k y z (y' & Hy & -> & ->)%Hold (z' & Hz & -> & ->)%Hold. eauto.
  - intros j y n (z & Hz & -> & ->)%Hold Hn. destruct (H3 j z n Hz Hn) as (k & w & Hw & Hwt & Hws).
    destruct (decide (k = i)) as [->|Hk].
    + exists i, x'. rewrite lookup_insert_eq. split_and!; congruence.
    + exists k, w. by rewrite lookup_insert_ne.
Qed.

Lemma history_ok_push a h e :
  history_ok a h → AutomationHistoryEntry.automation_id e = a →
  find (λ e', AutomationHistoryEntry.scheduled_for e'
              =? AutomationHistoryEntry.scheduled_for e) h = None →
  history_ok a (h ++ [e <| AutomationHistoryEntry.sequence := Z.of_nat (length h) + 1 |>]).
Proof.
  intros [H1 H2] Ha Hf. split.
  - intros n e' [Hn|[Hn He]]%lookup_app_Some; [auto|].
    apply list_lookup_singleton_Some in He as [Hn' <-]. cbn. split; [lia|done].
  - rewrite map_app. apply NoDup_app. split_and!; [done| |apply NoDup_singleton].
    intros z Hz E%list_elem_of_singleton. apply list_elem_of_fmap in Hz as (e' & -> & He').
    apply list_elem_of_In in He'. pose proof (find_none _ _ Hf _ He') as Hn. cbn in E, Hn. lia.
Qed.

(** *** Every store call preserves the invariant *)

Ltac split_inv Hi := destruct Hi as [Ip It Im Ia Lt Lm La Is Ih Ic]; split; cbn; try done.

Lemma new_id_valid {k} g (i : entity_id k) : new_id g = Ok i → valid_id (as_str i).
Proof. by intros [-> ?]%new_id_Ok. Qed.

Lemma saved_keeps {k A} (T : gmap (entity_id k) A) i x expected revision T' :
  revisioned_replace T i x expected revision = Ok T' → keeps T T' ∧ is_Some (T' !! i).
Proof.
  unfold revisioned_replace. intros H. run_in H. split; [auto|]. by rewrite lookup_insert_eq.
Qed.

Lemma ws_inv_projects s h T c id :
  ws_inv s h → table_inv T (held_projects h) → keeps (projects s) T →
  MutationCommand.scope c ∈ project_scopes → is_Some (T !! mk_id id) →
  ws_inv (with_command c id (s <| projects := T |>)) h.
Proof.
  intros Hi HT Hk Hsc Hid. split_inv Hi; eauto.
  apply (commands_ok_record s); cbn; auto. by left.
Qed.
Lemma ws_inv_threads s h T c id :
  ws_inv s h → table_inv T (held_threads h) → keeps (threads s) T →
  (∀ i x, T !! i = Some x → is_Some (projects s !! Thread.project_id x)) →
  MutationCommand.scope c ∈ thread_scopes → is_Some (T !! mk_id id) →
  ws_inv (with_command c id (s <| threads := T |>)) h.
Proof.
  intros Hi HT Hk Hl Hsc Hid. split_inv Hi; eauto.
  apply (commands_ok_record s); cbn; auto. by right; left.
Qed.
Lemma ws_inv_messages s h T c id :
  ws_inv s h → table_inv T (held_messages h) → keeps (messages s) T →
  (∀ i x, T !! i = Some x → is_Some (threads s !! Message.thread_id x)) → sequences_ok T →
  MutationCommand.scope c ∈ message_scopes → is_Some (T !! mk_id id) →
  ws_inv (with_command c id (s <| messages := T |>)) h.
Proof.
  intros Hi HT Hk Hl Hs Hsc Hid. split_inv Hi; eauto.
  apply (commands_ok_record s); cbn; auto. by right; right; left.
Qed.
Lemma ws_inv_automations s h T c id :
  ws_inv s h → table_inv T (held_automations h) → keeps (automations s) T →
  (∀ i x, T !! i = Some x → is_Some (projects s !! Automation.project_id x)) →
  MutationCommand.scope c ∈ automation_scopes → is_Some (T !! mk_id id) →
  ws_inv (with_command c id (s <| automations := T |>)) h.
Proof.
  intros Hi HT Hk Hl Hsc Hid. split_inv Hi; eauto.
  - intros a l Hl'. destruct (Ih a l Hl'). auto.
  - apply (commands_ok_record s); cbn; auto. by right; right; right.
Qed.

Lemma scope_head (l : list str) x : x ∈ x :: l.
Proof. apply list_elem_of_here. Qed.
Lemma id_eta {k} (i : entity_id k) : mk_id (as_str i) = i.
Proof. by destruct i. Qed.

Lemma create_project_inv s h x c :
  ws_inv s h → allowed h (OCreateProject x c) → MutationCommand.scope c = lit "create_project" →
  projects s !! Project.id x = None →
  ws_inv (with_command c (as_str (Project.id x)) (s <| projects := <[Project.id x := x]> (projects s) |>)) h.
Proof.
  intros Hi (g & id & name & desc & now & Hg%new_id_valid & Hx) Hs Hn.
  assert (Hid : Project.id x = id) by
    (unfold Project.new in Hx; by apply result_bind_Ok in Hx as (? & _ & [= <-])).
  apply ws_inv_projects;
    [done| |auto|rewrite Hs; apply scope_head|by rewrite id_eta, lookup_insert_eq].
  refine (table_inv_create (k := KProject) (projects s) _ x _ _ _ _); [apply Hi|cbn; eauto|cbn; by rewrite Hid|done].
Qed.
Lemma create_thread_inv s h x c :
  ws_inv s h → allowed h (OCreateThread x c) → MutationCommand.scope c = lit "create_thread" →
  threads s !! Thread.id x = None → is_Some (projects s !! Thread.project_id x) →
  ws_inv (with_command c (as_str (Thread.id x)) (s <| threads := <[Thread.id x := x]> (threads s) |>)) h.
Proof.
  intros Hi (g & id & p & title & now & Hg%new_id_valid & Hx) Hs Hn Hp.
  assert (Hid : Thread.id x = id) by
    (unfold Thread.new in Hx; by apply result_bind_Ok in Hx as (? & _ & [= <-])).
  apply ws_inv_threads;
    [done| |auto| |rewrite Hs; apply scope_head|by rewrite id_eta, lookup_insert_eq].
  - refine (table_inv_create (k := KThread) (threads s) _ x _ _ _ _);
      [apply Hi|left; eauto|cbn; by rewrite Hid|done].
  - intros i y [[_ <-]|[_ Hy]]%lookup_insert_Some; [done|]. by eapply Hi.
Qed.
Lemma create_message_inv s h x c :
  ws_inv s h → allowed h (OCreateMessage x c) → MutationCommand.scope c = lit "create_message" →
  messages s !! Message.id x = None → is_Some (threads s !! Message.thread_id x) →
  ws_inv (with_command c (as_str (Message.id x))
    (s <| messages := <[Message.id x := x <| Message.sequence :=
        WorkspaceMemory.last_sequence s (Message.thread_id x) + 1 |>]> (messages s) |>)) h.
Proof.
  intros Hi (g & id & t & role & content & now & Hg%new_id_valid & Hx) Hs Hn Ht.
  assert (Hid : Message.id x = id) by
    (unfold Message.new in Hx; by apply result_bind_Ok in Hx as (? & _ & [= <-])).
  destruct (last_sequence_spec s (Message.thread_id x)) as (L1 & _ & _).
  pose (x' := x <| Message.sequence :=
    WorkspaceMemory.last_sequence s (Message.thread_id x) + 1 |>).
  apply ws_inv_messages;
    [done| |auto| | |rewrite Hs; apply scope_head|by rewrite id_eta, lookup_insert_eq].
  - refine (table_inv_create (k := KMessage) (messages s) _ x' _ _ _ _);
      [apply Hi| |cbn; by rewrite Hid|exact Hn].
    left. exists id, t, role, content, now, x. eexists. split_and!; [done| |done]. lia.
  - intros i y [[_ <-]|[_ Hy]]%lookup_insert_Some; [done|]. by eapply Hi.
  - refine (sequences_ok_create s x' _ _ _); [apply Hi|done|done].
Qed.
Lemma create_automation_inv s h x c :
  ws_inv s h → allowed h (OCreateAutomation x c) →
  MutationCommand.scope c = lit "create_automation" →
  automations s !! Automation.id x = None → is_Some (projects s !! Automation.project_id x) →
  ws_inv (with_command c (as_str (Automation.id x))
    (s <| automations := <[Automation.id x := x]> (automations s) |>)) h.
Proof.
  intros Hi (g & id & p & ti & pr & sc & tz & mi & ov & en & now & Hg%new_id_valid & Hx) Hs Hn Hp.
  assert (Hid : Automation.id x = id) by
    (unfold Automation.new in Hx; by apply result_bind_Ok in Hx as (? & _ & [= <-])).
  apply ws_inv_automations;
    [done| |auto| |rewrite Hs; apply scope_head|by rewrite id_eta, lookup_insert_eq].
  - refine (table_inv_create (k := KAutomation) (automations s) _ x _ _ _ _); [apply Hi| |cbn; by rewrite Hid|done].
    cbn. do 10 eexists. exact Hx.
  - intros i y [[_ <-]|[_ Hy]]%lookup_insert_Some; [done|]. by eapply Hi.
Qed.

Lemma save_project_inv s h x n c T :
  ws_inv s h → allowed h (OSaveProject x n c) →
  revisioned_replace (projects s) (Project.id x) x n Project.revision = Ok T →
  ws_inv (with_command c (as_str (Project.id x)) (s <| projects := T |>)) h.
Proof.
  intros Hi [(x0 & Hx0 & He & ->) Hsc] HT. destruct (saved_keeps _ _ _ _ _ _ HT) as [Hk Hid].
  destruct (table_inv_save _ _ x0 x T (inv_projects _ _ Hi) Hx0 He HT) as (_ & _ & HT').
  apply ws_inv_projects; [done..|by rewrite id_eta].
Qed.
Lemma save_thread_inv s h x n c T :
  ws_inv s h → allowed h (OSaveThread x n c) →
  revisioned_replace (threads s) (Thread.id x) x n Thread.revision = Ok T →
  ws_inv (with_command c (as_str (Thread.id x)) (s <| threads := T |>)) h.
Proof.
  intros Hi [(x0 & Hx0 & He & ->) Hsc] HT. destruct (saved_keeps _ _ _ _ _ _ HT) as [Hk Hid].
  destruct (table_inv_save _ _ x0 x T (inv_threads _ _ Hi) Hx0 He HT) as (-> & Hold & HT').
  apply ws_inv_threads; [done..| |done|by rewrite id_eta].
  destruct (thread_edit _ _ He) as (_ & Hp & _).
  intros i y [[_ <-]|[_ Hy]]%lookup_insert_Some; [rewrite Hp|]; by eapply Hi.
Qed.
Lemma save_message_inv s h x n c T :
  ws_inv s h → allowed h (OSaveMessage x n c) →
  revisioned_replace (messages s) (Message.id x) x n Message.revision = Ok T →
  ws_inv (with_command c (as_str (Message.id x)) (s <| messages := T |>)) h.
Proof.
  intros Hi [(x0 & Hx0 & He & ->) Hsc] HT. destruct (saved_keeps _ _ _ _ _ _ HT) as [Hk Hid].
  destruct (table_inv_save _ _ x0 x T (inv_messages _ _ Hi) Hx0 He HT) as (-> & Hold & HT').
  destruct (message_edit _ _ He) as (_ & Ht & Hs & _).
  apply ws_inv_messages; [done..| | |done|by rewrite id_eta].
  - intros i y [[_ <-]|[_ Hy]]%lookup_insert_Some; [rewrite Ht|]; by eapply Hi.
  - by eapply sequences_ok_edit; [apply Hi| | |].
Qed.
Lemma save_automation_inv s h x n c T :
  ws_inv s h → allowed h (OSaveAutomation x n c) →
  revisioned_replace (automations s) (Automation.id x) x n Automation.revision = Ok T →
  ws_inv (with_command c (as_str (Automation.id x)) (s <| automations := T |>)) h.
Proof.
  intros Hi [(x0 & Hx0 & He & ->) Hsc] HT. destruct (saved_keeps _ _ _ _ _ _ HT) as [Hk Hid].
  destruct (table_inv_save _ _ x0 x T (inv_automations _ _ Hi) Hx0 He HT) as (-> & Hold & HT').
  apply ws_inv_automations; [done..| |done|by rewrite id_eta].
  destruct (automation_edit _ _ He) as (_ & Hp).
  intros i y [[_ <-]|[_ Hy]]%lookup_insert_Some; [rewrite Hp|]; by eapply Hi.
Qed.

Lemma history_step_inv s h e l l' :
  ws_inv s h → is_Some (automations s !! AutomationHistoryEntry.automation_id e) →
  l = default [] (automation_history s !! AutomationHistoryEntry.automation_id e) →
  l' = l ∨ (find (λ e', AutomationHistoryEntry.scheduled_for e'
                        =? AutomationHistoryEntry.scheduled_for e) l = None ∧
            l' = l ++ [e <| AutomationHistoryEntry.sequence := Z.of_nat (length l) + 1 |>]) →
  ws_inv (s <| automation_history :=
    <[AutomationHistoryEntry.automation_id e := l']> (automation_history s) |>) h.
Proof.
  intros Hi Ha Hl Hl'. split_inv Hi.
  intros a m [[<- <-]|[_ Hm]]%lookup_insert_Some; [|auto]. split; [done|].
  assert (Hok : history_ok (AutomationHistoryEntry.automation_id e) l).
  { subst l. destruct (automation_history s !! _) eqn:E; cbn; [by apply Ih in E as [_ ?]|].
    split; [by intros n x|constructor]. }
  destruct Hl' as [->|[Hf ->]]; [done|]. by apply history_ok_push.
Qed.

Lemma ws_effect_inv s h op s' : ws_inv s h → allowed h op → ws_effect s op s' → ws_inv s' h.
Proof.
  intros Hi Ha He. destruct He; subst;
    eauto using create_project_inv, create_thread_inv, create_message_inv, create_automation_inv,
      save_project_inv, save_thread_inv, save_message_inv, save_automation_inv, history_step_inv.
Qed.

(** ** Worlds *)

Record world : Type := World { store : WS; held : snapshots }.

(** [h'] holds what [h] holds and possibly more that was read from [s]. *)
Definition reads {A k} (T : gmap (entity_id k) A) (l l' : list A) : Prop :=
  l ⊆ l' ∧ ∀ x, x ∈ l' → x ∈ l ∨ x ∈ InMemory.values T.
Definition reads_all (s : WS) (h h' : snapshots) : Prop :=
  reads (projects s) (held_projects h) (held_projects h') ∧
  reads (threads s) (held_threads h) (held_threads h') ∧
  reads (messages s) (held_messages h) (held_messages h') ∧
  reads (automations s) (held_automations h) (held_automations h').

(** The other components of the same store change the tables the workspace only reads, and
    add threads and messages of their own. *)
Definition extends {k A C} `{!Aggregate A C, !Entity k A C} (T T' : gmap (entity_id k) A) : Prop :=
  T ⊆ T' ∧ ∀ i x, T' !! i = Some x → T !! i = None →
    ent_id x = i ∧ valid_id (as_str i) ∧ ent_initial x.
Record others_write (s s' : WS) : Prop := {
  ow_projects : projects s' = projects s;
  ow_threads : extends (threads s) (threads s');
  ow_messages : extends (messages s) (messages s');
  ow_automations : automations s' = automations s;
  ow_history : automation_history s' = automation_history s;
  ow_commands : workspace_commands s' = workspace_commands s;
  ow_thread_project i x : threads s' !! i = Some x → threads s !! i = None →
    is_Some (projects s !! Thread.project_id x);
  ow_message_thread i x : messages s' !! i = Some x → messages s !! i = None →
    is_Some (threads s' !! Message.thread_id x);
  ow_sequences : sequences_ok (messages s) → sequences_ok (messages s');
}.

Inductive ws_step : world → world → Prop :=
| step_read s h h' : reads_all s h h' → ws_step (World s h) (World s h')
| step_call s h op s' r : allowed h op → ws_exec op s = (s', r) → ws_step (World s h) (World s' h)
| step_other s h s' : others_write s s' → ws_step (World s h) (World s' h).
Definition ws_reachable : world → Prop := rtc ws_step (World WorkspaceState.empty no_snapshots).

Lemma table_inv_reads {k A C} `{!Aggregate A C, !AggregateLaws A C, !Entity k A C}
    (T : gmap (entity_id k) A) l l' : table_inv T l → reads T l l' → table_inv T l'.
Proof.
  intros [H1 H2] [_ Hr]. split; [done|]. intros x [Hx|[i Hi]%elem_of_values]%Hr; [auto|].
  exists x. destruct (H1 _ _ Hi) as [-> _]. done.
Qed.

Lemma extends_keeps {k A C} `{!Aggregate A C, !Entity k A C} (T T' : gmap (entity_id k) A) :
  extends T T' → keeps T T'.
Proof. intros [Hs _] i [x Hx]. exists x. by eapply lookup_weaken. Qed.
Lemma table_inv_extends {k A C} `{!Aggregate A C, !Entity k A C} (T T' : gmap (entity_id k) A) l :
  table_inv T l → extends T T' → table_inv T' l.
Proof.
  intros [H1 H2] [Hs Hn]. split.
  - intros i x Hx. destruct (T !! i) as [y|] eqn:E.
    + pose proof (lookup_weaken _ _ _ _ E Hs) as Hy. rewrite Hx in Hy. injection Hy as <-.
      by apply H1.
    + destruct (Hn i x Hx E) as (? & ? & ?). split_and!; [done..|]. by exists x.
  - intros x Hx. destruct (H2 x Hx) as (y & Hy & Hr). exists y. split; [|done].
    by eapply lookup_weaken.
Qed.
Lemma others_write_inv s h s' : others_write s s' → ws_inv s h → ws_inv s' h.
Proof.
  intros [E1 E2 E3 E4 E5 E6 E7 E8 E9] [Ip It Im Ia Lt Lm La Is Ih Ic].
  pose proof (extends_keeps _ _ E2) as K2. pose proof (extends_keeps _ _ E3) as K3.
  split; rewrite ?E1, ?E4, ?E5, ?E6; eauto using table_inv_extends.
  - intros i x Hx. destruct (threads s !! i) as [y|] eqn:E; [|eauto].
    pose proof (lookup_weaken _ _ _ _ E (proj1 E2)) as Hy. rewrite Hx in Hy. injection Hy as <-. eauto.
  - intros i x Hx. destruct (messages s !! i) as [y|] eqn:E; [|eauto].
    pose proof (lookup_weaken _ _ _ _ E (proj1 E3)) as Hy. rewrite Hx in Hy. injection Hy as <-. eauto.
  - intros scope key r Hr. eapply entity_stored_keeps; [..|by eapply Ic]; [rewrite E1|..|rewrite E4];
      auto.
Qed.

Lemma ws_inv_empty : ws_inv WorkspaceState.empty no_snapshots.
Proof.
  split; cbn; try apply table_inv_empty; try (intros *; by rewrite lookup_empty).
  split; intros *; by rewrite lookup_empty.
Qed.

Lemma ws_step_inv w w' : ws_step w w' → ws_inv (store w) (held w) → ws_inv (store w') (held w').
Proof.
  destruct 1 as [s h h' (Rp & Rt & Rm & Ra)|s h op s' r Ha He|s h s' Hs]; cbn; intros Hi.
  - split_inv Hi; by eapply table_inv_reads.
  - apply ws_exec_effect in He. by eapply ws_effect_inv.
  - by eapply others_write_inv.
Qed.
Lemma ws_steps_inv w w' : rtc ws_step w w' → ws_inv (store w) (held w) → ws_inv (store w') (held w').
Proof. induction 1; eauto using ws_step_inv. Qed.
Lemma ws_reachable_inv w : ws_reachable w → ws_inv (store w) (held w).
Proof. intros H. by apply (ws_steps_inv _ _ H), ws_inv_empty. Qed.

(** Held snapshots are never forgotten, recorded commands never overwritten. *)
Definition held_le (h h' : snapshots) : Prop :=
  held_projects h ⊆ held_projects h' ∧ held_threads h ⊆ held_threads h' ∧
  held_messages h ⊆ held_messages h' ∧ held_automations h ⊆ held_automations h'.
Lemma ws_steps_held w w' : rtc ws_step w w' → held_le (held w) (held w').
Proof.
  induction 1 as [w|w1 w2 w3 Hs _ (H1 & H2 & H3 & H4)]; [by split_and!|].
  destruct Hs as [s h h' (Rp & Rt & Rm & Ra)| |]; cbn in *; [|done..].
  destruct Rp, Rt, Rm, Ra. split_and!; by etrans.
Qed.
Lemma ws_effect_commands s op s' k r :
  ws_effect s op s' → workspace_commands s !! k = Some r → workspace_commands s' !! k = Some r.
Proof.
  intros He Hk. destruct He; cbn; try done;
    (rewrite lookup_insert_ne; [done|]; intros <-; congruence).
Qed.
Lemma ws_steps_commands w w' k r :
  rtc ws_step w w' → workspace_commands (store w) !! k = Some r →
  workspace_commands (store w') !! k = Some r.
Proof.
  induction 1 as [w|w1 w2 w3 Hs _ IH]; [done|]. intros Hk. apply IH.
  destruct Hs as [s h h' _|s h op s' r' _ He|s h s' Hs]; cbn in *; [done| |].
  - apply ws_exec_effect in He. by eapply ws_effect_commands.
  - by rewrite (ow_commands _ _ Hs).
Qed.
End world.

(** ** Handlers are sequences of steps *)

Inductive workspace_entity : Type :=
| EProject (x : Project.t) | EThread (x : Thread.t) | EMessage (x : Message.t)
| EAutomation (x : Automation.t).

(** The mutating use cases. *)
Inductive workspace_command : Type :=
| CmdCreateProject (input : CreateProject.t)
| CmdUpdateProject (input : UpdateProject.t)
| CmdArchiveProject (id : ProjectId) (expected : Z)
| CmdCreateThread (input : CreateThread.t)
| CmdUpdateThread (input : UpdateThread.t)
| CmdArchiveThread (id : ThreadId) (expected : Z)
| CmdCreateMessage (input : CreateMessage.t)
| CmdUpdateMessage (input : UpdateMessage.t)
| CmdDeleteMessage (id : MessageId) (expected : Z)
| CmdCreateAutomation (input : CreateAutomation.t)
| CmdUpdateAutomation (input : UpdateAutomation.t)
| CmdArchiveAutomation (id : AutomationId) (expected : Z).

Section handlers.
Context {CH : Chrono} {SJ : SerdeJson} {SHA : Sha256} {UC : Unicode}.
Import WorkspaceState.

Definition as_entity {A} (f : A → workspace_entity) (m : method WS ApplicationError.t A) :
    method WS ApplicationError.t workspace_entity := x ← m; mret (f x).
Definition workspace_apply (c : workspace_command) (key : str) (now : Z) (generated : str) :
    method WS ApplicationError.t workspace_entity :=
  match c with
  | CmdCreateProject input => as_entity EProject (WorkspaceService.create_project input key now generated)
  | CmdUpdateProject input => as_entity EProject (WorkspaceService.update_project input key now)
  | CmdArchiveProject id n => as_entity EProject (WorkspaceService.archive_project id n key now)
  | CmdCreateThread input => as_entity EThread (WorkspaceService.create_thread input key now generated)
  | CmdUpdateThread input => as_entity EThread (WorkspaceService.update_thread input key now)
  | CmdArchiveThread id n => as_entity EThread (WorkspaceService.archive_thread id n key now)
  | CmdCreateMessage input => as_entity EMessage (WorkspaceService.create_message input key now generated)
  | CmdUpdateMessage input => as_entity EMessage (WorkspaceService.update_message input key now)
  | CmdDeleteMessage id n => as_entity EMessage (WorkspaceService.delete_message id n key now)
  | CmdCreateAutomation input =>
      as_entity EAutomation (WorkspaceService.create_automation input key now generated)
  | CmdUpdateAutomation input => as_entity EAutomation (WorkspaceService.update_automation input key now)
  | CmdArchiveAutomation id n => as_entity EAutomation (WorkspaceService.archive_automation id n key now)
  end.

(** The command identity of a use case, as its handler computes it. *)
Definition command_scope (c : workspace_command) : str :=
  match c with
  | CmdCreateProject _ => lit "create_project" | CmdUpdateProject _ => lit "update_project"
  | CmdArchiveProject _ _ => lit "archive_project"
  | CmdCreateThread _ => lit "create_thread" | CmdUpdateThread _ => lit "update_thread"
  | CmdArchiveThread _ _ => lit "archive_thread"
  | CmdCreateMessage _ => lit "create_message" | CmdUpdateMessage _ => lit "update_message"
  | CmdDeleteMessage _ _ => lit "delete_message"
  | CmdCreateAutomation _ => lit "create_automation"
  | CmdUpdateAutomation _ => lit "update_automation"
  | CmdArchiveAutomation _ _ => lit "archive_automation"
  end.
Definition command_parts (c : workspace_command) : list str :=
  match c with
  | CmdCreateProject i => [CreateProject.name i; CreateProject.description i]
  | CmdUpdateProject i =>
      [UpdateProject.id i; to_string (UpdateProject.expected_revision i); UpdateProject.name i;
       UpdateProject.description i]
  | CmdCreateThread i => [CreateThread.project_id i; CreateThread.title i]
  | CmdUpdateThread i =>
      [UpdateThread.id i; to_string (UpdateThread.expected_revision i); UpdateThread.title i]
  | CmdCreateMessage i =>
      [CreateMessage.thread_id i; message_role_key (CreateMessage.role i); CreateMessage.content i]
  | CmdUpdateMessage i =>
      [UpdateMessage.id i; to_string (UpdateMessage.expected_revision i); UpdateMessage.content i]
  | CmdCreateAutomation i =>
      [CreateAutomation.project_id i; CreateAutomation.title i; CreateAutomation.prompt i;
       CreateAutomation.schedule i; CreateAutomation.timezone i;
       missed_run_key (CreateAutomation.missed_run_policy i);
       overlap_key (CreateAutomation.overlap_policy i);
       bool_to_string (CreateAutomation.enabled i)]
  | CmdUpdateAutomation i =>
      [UpdateAutomation.id i; to_string (UpdateAutomation.expected_revision i);
       UpdateAutomation.title i; UpdateAutomation.prompt i; UpdateAutomation.schedule i;
       UpdateAutomation.timezone i; missed_run_key (UpdateAutomation.missed_run_policy i);
       overlap_key (UpdateAutomation.overlap_policy i);
       bool_to_string (UpdateAutomation.enabled i)]
  | CmdArchiveProject id n => [as_str id; to_string n]
  | CmdArchiveThread id n => [as_str id; to_string n]
  | CmdDeleteMessage id n => [as_str id; to_string n]
  | CmdArchiveAutomation id n => [as_str id; to_string n]
  end.
Definition command_of (c : workspace_command) (key : str) : result ApplicationError.t MutationCommand.t :=
  mutation_command (command_scope c) key (command_parts c).

Definition stored (s : WS) (e : workspace_entity) : Prop :=
  match e with
  | EProject x => projects s !! Project.id x = Some x
  | EThread x => threads s !! Thread.id x = Some x
  | EMessage x => messages s !! Message.id x = Some x
  | EAutomation x => automations s !! Automation.id x = Some x
  end.
Definition entity_str (e : workspace_entity) : str :=
  match e with
  | EProject x => as_str (Project.id x) | EThread x => as_str (Thread.id x)
  | EMessage x => as_str (Message.id x) | EAutomation x => as_str (Automation.id x)
  end.

(** What a handler does to the store: nothing, or one permitted store call; when it
    succeeds its command is recorded under the entity it returns. *)
Definition commits (s s' : WS) : Prop :=
  s' = s ∨ ∃ op r, allowed (current_snapshots s) op ∧ ws_exec op s = (s', r).
Definition answered (cmd : MutationCommand.t) (s' : WS) (e : workspace_entity) : Prop :=
  stored s' e ∧ workspace_commands s' !! command_key cmd =
    Some (CommandRecord.mk (MutationCommand.fingerprint cmd) (entity_str e)).
Definition outcome_ok (cmd : MutationCommand.t) (s s' : WS)
    (r : result ApplicationError.t workspace_entity) : Prop :=
  commits s s' ∧ ∀ e, r = Ok e → answered cmd s' e.

Lemma mutation_command_Ok scope key parts cmd :
  mutation_command scope key parts = Ok cmd →
  MutationCommand.scope cmd = scope ∧ MutationCommand.key cmd = key.
Proof.
  unfold mutation_command, mutation_command_bytes. intros H.
  by apply result_bind_Ok in H as (? & _ & [= <-]).
Qed.

#[local] Hint Resolve prior_command_readonly : methods.
Lemma parse_id_readonly {T k} v : readonly (parse_id v : method T _ (entity_id k)).
Proof. done. Qed.
Lemma get_project_readonly i : readonly (WorkspaceMemory.get_project i).
Proof. done. Qed.
Lemma get_thread_readonly i : readonly (WorkspaceMemory.get_thread i).
Proof. done. Qed.
Lemma get_message_readonly i : readonly (WorkspaceMemory.get_message i).
Proof. done. Qed.
Lemma get_automation_readonly i : readonly (WorkspaceMemory.get_automation i).
Proof. done. Qed.
#[local] Hint Resolve parse_id_readonly get_project_readonly get_thread_readonly
  get_message_readonly get_automation_readonly : methods.

(** Reads and guards of a handler end it with the store untouched or yield a value. *)
Lemma as_entity_bind {A B} (f : B → workspace_entity) (m : method WS ApplicationError.t A)
    (k : A → method WS ApplicationError.t B) cmd s s' r :
  readonly m → as_entity f (m ≫= k) s = (s', r) →
  (∀ a, m s = (s, Ok a) → as_entity f (k a) s = (s', r) → outcome_ok cmd s s' r) →
  outcome_ok cmd s s' r.
Proof.
  intros Hm H Hk. unfold as_entity, mbind, method_bind in H. specialize (Hm s).
  destruct (m s) as [s1 [a|e]] eqn:E; cbn in Hm; subst s1; [by eapply Hk|].
  injection H as <- <-. split; [by left|done].
Qed.
Ltac peel_entity H a Ha :=
  eapply as_entity_bind; [|exact H|]; [solve [auto with methods]|]; clear H; intros a Ha H.

(** The last statement of a handler: a store call, and possibly the saved entity. *)
Lemma create_tail {A} (f : A → workspace_entity) op (m : method WS StoreError A) cmd s s' r :
  as_entity f (call m) s = (s', r) →
  allowed (current_snapshots s) op → (∀ s, ws_exec op s = discard m s) →
  (∀ x s1, m s = (s1, Ok x) → answered cmd s1 (f x)) → outcome_ok cmd s s' r.
Proof.
  intros H Ha Hop Hx. unfold as_entity, call, mbind, method_bind in H.
  destruct (m s) as [s1 [x|e]] eqn:E; cbn in H; injection H as <- <-.
  - split; [|intros e [= <-]; by apply Hx]. right. exists op, (Ok tt). split; [done|].
    rewrite Hop. by eapply discard_run.
  - split; [|done]. right. exists op, (Err e). split; [done|]. rewrite Hop. by apply discard_err.
Qed.
Lemma save_tail {A} (f : A → workspace_entity) op (m : method WS StoreError unit) x cmd s s' r :
  as_entity f (_ ← call m; mret x) s = (s', r) →
  allowed (current_snapshots s) op → (∀ s, ws_exec op s = discard m s) →
  (∀ s1, m s = (s1, Ok tt) → answered cmd s1 (f x)) → outcome_ok cmd s s' r.
Proof.
  intros H Ha Hop Hx. unfold as_entity, call, mbind, method_bind in H.
  destruct (m s) as [s1 [[]|e]] eqn:E; cbn in H; injection H as <- <-.
  - split; [|intros e [= <-]; by apply Hx]. right. exists op, (Ok tt). split; [done|].
    rewrite Hop. by eapply discard_run.
  - split; [|done]. right. exists op, (Err e). split; [done|]. rewrite Hop. by apply discard_err.
Qed.

Lemma prior_unused scope cmd s :
  MutationCommand.scope cmd = scope → workspace_commands s !! command_key cmd = None →
  prior_command scope cmd s = (s, Ok None).
Proof.
  intros <- Hu. unfold prior_command, command_key in *. run_unfold.
  rewrite bool_decide_eq_true_2, Hu by done. done.
Qed.

(** The frame all mutating handlers share: identify the command, replay it when it is
    recorded, otherwise execute the body. *)
Definition command_frame {A k} scope key parts
    (get : entity_id k → method WS ApplicationError.t A)
    (body : MutationCommand.t → method WS ApplicationError.t A) :
    method WS ApplicationError.t A :=
  command ← lift (mutation_command scope key parts);
  prior ← call (resolve_mutation scope command);
  match prior with
  | Some id => id ← parse_id id; get id
  | None => body command
  end.

Definition handled (c : workspace_command) (key : str) (s s' : WS)
    (r : result ApplicationError.t workspace_entity) : Prop :=
  commits s s' ∧ ∀ e, r = Ok e → ∃ cmd, command_of c key = Ok cmd ∧ answered cmd s' e.

Lemma command_frame_ok {A k} (f : A → workspace_entity)
    (get : entity_id k → method WS StoreError A) body c key s s' r :
  as_entity f (command_frame (command_scope c) key (command_parts c) (λ i, call (get i)) body) s
    = (s', r) →
  (∀ i s1 x, get i s = (s1, Ok x) → stored s (f x) ∧ entity_str (f x) = as_str i) →
  (∀ i, readonly (get i)) →
  (∀ cmd, MutationCommand.scope cmd = command_scope c → MutationCommand.key cmd = key →
     workspace_commands s !! command_key cmd = None →
     as_entity f (body cmd) s = (s', r) → outcome_ok cmd s s' r) →
  handled c key s s' r.
Proof.
  intros H Hget Hro Hbody. unfold handled, command_of. unfold command_frame in H.
  destruct (mutation_command (command_scope c) key (command_parts c)) as [cmd|e] eqn:Hc;
    [|cbn in H; injection H as <- <-; split; [by left|done]].
  destruct (mutation_command_Ok _ _ _ _ Hc) as [Hsc Hk].
  cut (outcome_ok cmd s s' r).
  { intros [H1 H2]. split; [done|]. intros e He. exists cmd. auto. }
  assert (H' : as_entity f (prior ← call (resolve_mutation (command_scope c) cmd);
    match prior with Some id => id ← parse_id id; call (get id) | None => body cmd end) s = (s', r))
    by exact H.
  clear H. peel_entity H' prior Hp. apply call_Ok in Hp. cbn in Hp.
  destruct prior as [id|].
  - peel_entity H' i Hi. unfold parse_id in Hi. injection Hi as Hi.
    apply map_err_Ok, new_id_Ok in Hi as [-> _].
    unfold as_entity, call, mbind, method_bind in H'. specialize (Hro (mk_id id) s).
    destruct (get (mk_id id) s) as [s1 [x|e]] eqn:E; cbn in Hro, H'; subst s1;
      injection H' as <- <-; (split; [by left|]); [|done].
    intros e [= <-]. destruct (Hget _ _ _ E) as [Hst Hid]. split; [done|].
    rewrite Hid. unfold prior_command in Hp. run_in Hp. bool_facts.
    unfold command_key. rewrite Hsc.
    match goal with H : _ !! _ = Some ?t |- _ => rewrite H; destruct t; cbn in *; congruence end.
  - apply prior_command_spec in Hp as [_ Hp]. destruct (Hp eq_refl). auto.
Qed.

(** *** What the store answers to each call *)

Ltac open_store H Hs Hu :=
  apply method_bind_Ok in H as (? & ? & E & H);
  rewrite (prior_unused _ _ _ Hs Hu) in E; injection E as <- <-;
  unfold record_command in H; run_in H.

Lemma create_project_answers x cmd s s1 y :
  MutationCommand.scope cmd = lit "create_project" → workspace_commands s !! command_key cmd = None →
  WorkspaceMemory.create_project x cmd s = (s1, Ok y) → answered cmd s1 (EProject y).
Proof.
  unfold WorkspaceMemory.create_project. intros Hs Hu H. open_store H Hs Hu.
  all: split; cbn; apply lookup_insert_eq.
Qed.
Lemma create_thread_answers x cmd s s1 y :
  MutationCommand.scope cmd = lit "create_thread" → workspace_commands s !! command_key cmd = None →
  WorkspaceMemory.create_thread x cmd s = (s1, Ok y) → answered cmd s1 (EThread y).
Proof.
  unfold WorkspaceMemory.create_thread. intros Hs Hu H. open_store H Hs Hu.
  all: split; cbn; apply lookup_insert_eq.
Qed.
Lemma create_message_answers x cmd s s1 y :
  MutationCommand.scope cmd = lit "create_message" → workspace_commands s !! command_key cmd = None →
  WorkspaceMemory.create_message x cmd s = (s1, Ok y) → answered cmd s1 (EMessage y).
Proof.
  unfold WorkspaceMemory.create_message. intros Hs Hu H. open_store H Hs Hu.
  all: split; cbn; apply lookup_insert_eq.
Qed.
Lemma create_automation_answers x cmd s s1 y :
  MutationCommand.scope cmd = lit "create_automation" →
  workspace_commands s !! command_key cmd = None →
  WorkspaceMemory.create_automation x cmd s = (s1, Ok y) → answered cmd s1 (EAutomation y).
Proof.
  unfold WorkspaceMemory.create_automation. intros Hs Hu H. open_store H Hs Hu.
  all: split; cbn; apply lookup_insert_eq.
Qed.

Lemma replaced_lookup {k A} (T : gmap (entity_id k) A) i x n revision T' :
  revisioned_replace T i x n revision = Ok T' → T' !! i = Some x.
Proof. unfold revisioned_replace. intros H. run_in H. apply lookup_insert_eq. Qed.

Lemma save_project_answers x n cmd s s1 :
  workspace_commands s !! command_key cmd = None →
  WorkspaceMemory.save_project x n cmd s = (s1, Ok tt) → answered cmd s1 (EProject x).
Proof.
  unfold WorkspaceMemory.save_project. intros Hu H. open_store H (eq_refl (MutationCommand.scope cmd)) Hu.
  all: split; cbn; [by eapply replaced_lookup|apply lookup_insert_eq].
Qed.
Lemma save_thread_answers x n cmd s s1 :
  workspace_commands s !! command_key cmd = None →
  WorkspaceMemory.save_thread x n cmd s = (s1, Ok tt) → answered cmd s1 (EThread x).
Proof.
  unfold WorkspaceMemory.save_thread. intros Hu H. open_store H (eq_refl (MutationCommand.scope cmd)) Hu.
  all: split; cbn; [by eapply replaced_lookup|apply lookup_insert_eq].
Qed.
Lemma save_message_answers x n cmd s s1 :
  workspace_commands s !! command_key cmd = None →
  WorkspaceMemory.save_message x n cmd s = (s1, Ok tt) → answered cmd s1 (EMessage x).
Proof.
  unfold WorkspaceMemory.save_message. intros Hu H. open_store H (eq_refl (MutationCommand.scope cmd)) Hu.
  all: split; cbn; [by eapply replaced_lookup|apply lookup_insert_eq].
Qed.
Lemma save_automation_answers x n cmd s s1 :
  workspace_commands s !! command_key cmd = None →
  WorkspaceMemory.save_automation x n cmd s = (s1, Ok tt) → answered cmd s1 (EAutomation x).
Proof.
  unfold WorkspaceMemory.save_automation. intros Hu H. open_store H (eq_refl (MutationCommand.scope cmd)) Hu.
  all: split; cbn; [by eapply replaced_lookup|apply lookup_insert_eq].
Qed.

(** *** The bodies *)

Lemma held_current {k A} (T : gmap (entity_id k) A) i x : T !! i = Some x → x ∈ InMemory.values T.
Proof. intros H. apply elem_of_values. by exists i. Qed.

Lemma ensure_revision_Ok {T} a b (s : T) u : lift (ensure_revision a b) s = (s, Ok u) → b = a.
Proof. unfold ensure_revision. intros [= H%reject_if_Ok]. by bool_facts. Qed.

Lemma project_edit_body cmd i expected (c : project_call) now s s' r :
  workspace_commands s !! command_key cmd = None → MutationCommand.scope cmd ∈ project_scopes →
  as_entity EProject
    (x ← call (WorkspaceStore.get_project i);
     _ ← lift (ensure_revision (Project.revision x) expected);
     x ← lift (moved_copy ApplicationError.from_workspace (ag_apply c now) x);
     _ ← call (WorkspaceStore.save_project x expected cmd);
     mret x) s = (s', r) →
  outcome_ok cmd s s' r.
Proof.
  intros Hu Hsc H. peel_entity H x Hx. peel_entity H u Hn. peel_entity H x' Hx'.
  apply call_Ok in Hx. cbn in Hx. unfold WorkspaceMemory.get_project in Hx.
  injection Hx as Hx. apply ensure_revision_Ok in Hn. injection Hx' as Hx'%moved_copy_Ok.
  eapply (save_tail _ (OSaveProject x' expected cmd)); [exact H| |done|].
  - split; [|done]. exists x. split_and!; [|by exists c, now|done].
    cbn. destruct (_ !! i) eqn:Hl; [|done]. injection Hx as ->. by eapply held_current.
  - intros s1 Hs1. by eapply save_project_answers.
Qed.
Lemma thread_edit_body cmd i expected (c : thread_call) now s s' r :
  workspace_commands s !! command_key cmd = None → MutationCommand.scope cmd ∈ thread_scopes →
  as_entity EThread
    (x ← call (WorkspaceStore.get_thread i);
     _ ← lift (ensure_revision (Thread.revision x) expected);
     x ← lift (moved_copy ApplicationError.from_workspace (ag_apply c now) x);
     _ ← call (WorkspaceStore.save_thread x expected cmd);
     mret x) s = (s', r) →
  outcome_ok cmd s s' r.
Proof.
  intros Hu Hsc H. peel_entity H x Hx. peel_entity H u Hn. peel_entity H x' Hx'.
  apply call_Ok in Hx. cbn in Hx. unfold WorkspaceMemory.get_thread in Hx.
  injection Hx as Hx. apply ensure_revision_Ok in Hn. injection Hx' as Hx'%moved_copy_Ok.
  eapply (save_tail _ (OSaveThread x' expected cmd)); [exact H| |done|].
  - split; [|done]. exists x. split_and!; [|by exists c, now|done].
    cbn. destruct (_ !! i) eqn:Hl; [|done]. injection Hx as ->. by eapply held_current.
  - intros s1 Hs1. by eapply save_thread_answers.
Qed.
Lemma message_edit_body cmd i expected (c : message_call) now s s' r :
  workspace_commands s !! command_key cmd = None → MutationCommand.scope cmd ∈ message_scopes →
  as_entity EMessage
    (x ← call (WorkspaceStore.get_message i);
     _ ← lift (ensure_revision (Message.revision x) expected);
     x ← lift (moved_copy ApplicationError.from_workspace (ag_apply c now) x);
     _ ← call (WorkspaceStore.save_message x expected cmd);
     mret x) s = (s', r) →
  outcome_ok cmd s s' r.
Proof.
  intros Hu Hsc H. peel_entity H x Hx. peel_entity H u Hn. peel_entity H x' Hx'.
  apply call_Ok in Hx. cbn in Hx. unfold WorkspaceMemory.get_message in Hx.
  injection Hx as Hx. apply ensure_revision_Ok in Hn. injection Hx' as Hx'%moved_copy_Ok.
  eapply (save_tail _ (OSaveMessage x' expected cmd)); [exact H| |done|].
  - split; [|done]. exists x. split_and!; [|by exists c, now|done].
    cbn. destruct (_ !! i) eqn:Hl; [|done]. injection Hx as ->. by eapply held_current.
  - intros s1 Hs1. by eapply save_message_answers.
Qed.
Lemma automation_edit_body cmd i expected (c : automation_call) now s s' r :
  workspace_commands s !! command_key cmd = None → MutationCommand.scope cmd ∈ automation_scopes →
  as_entity EAutomation
    (x ← call (WorkspaceStore.get_automation i);
     _ ← lift (ensure_revision (Automation.revision x) expected);
     x ← lift (moved_copy ApplicationError.from_workspace (ag_apply c now) x);
     _ ← call (WorkspaceStore.save_automation x expected cmd);
     mret x) s = (s', r) →
  outcome_ok cmd s s' r.
Proof.
  intros Hu Hsc H. peel_entity H x Hx. peel_entity H u Hn. peel_entity H x' Hx'.
  apply call_Ok in Hx. cbn in Hx. unfold WorkspaceMemory.get_automation in Hx.
  injection Hx as Hx. apply ensure_revision_Ok in Hn. injection Hx' as Hx'%moved_copy_Ok.
  eapply (save_tail _ (OSaveAutomation x' expected cmd)); [exact H| |done|].
  - split; [|done]. exists x. split_and!; [|by exists c, now|done].
    cbn. destruct (_ !! i) eqn:Hl; [|done]. injection Hx as ->. by eapply held_current.
  - intros s1 Hs1. by eapply save_automation_answers.
Qed.

Lemma scope_in (l : list str) (x : str) : bool_decide (x ∈ l) = true → x ∈ l.
Proof. apply bool_decide_eq_true_1. Qed.
Ltac in_scopes Hs := rewrite Hs; apply scope_in; vm_compute; reflexivity.

Lemma get_project_stored s h i s1 x :
  ws_inv s h → WorkspaceMemory.get_project i s = (s1, Ok x) →
  stored s (EProject x) ∧ entity_str (EProject x) = as_str i.
Proof.
  intros Hi Hx. injection Hx as <- Hx. destruct (projects s !! i) eqn:E; [|done].
  injection Hx as ->. cbn. by destruct (stored_ok _ _ (inv_projects _ _ Hi) _ _ E) as [<- _].
Qed.
Lemma get_thread_stored s h i s1 x :
  ws_inv s h → WorkspaceMemory.get_thread i s = (s1, Ok x) →
  stored s (EThread x) ∧ entity_str (EThread x) = as_str i.
Proof.
  intros Hi Hx. injection Hx as <- Hx. destruct (threads s !! i) eqn:E; [|done].
  injection Hx as ->. cbn. by destruct (stored_ok _ _ (inv_threads _ _ Hi) _ _ E) as [<- _].
Qed.
Lemma get_message_stored s h i s1 x :
  ws_inv s h → WorkspaceMemory.get_message i s = (s1, Ok x) →
  stored s (EMessage x) ∧ entity_str (EMessage x) = as_str i.
Proof.
  intros Hi Hx. injection Hx as <- Hx. destruct (messages s !! i) eqn:E; [|done].
  injection Hx as ->. cbn. by destruct (stored_ok _ _ (inv_messages _ _ Hi) _ _ E) as [<- _].
Qed.
Lemma get_automation_stored s h i s1 x :
  ws_inv s h → WorkspaceMemory.get_automation i s = (s1, Ok x) →
  stored s (EAutomation x) ∧ entity_str (EAutomation x) = as_str i.
Proof.
  intros Hi Hx. injection Hx as <- Hx. destruct (automations s !! i) eqn:E; [|done].
  injection Hx as ->. cbn. by destruct (stored_ok _ _ (inv_automations _ _ Hi) _ _ E) as [<- _].
Qed.

Lemma parse_id_Ok {T k} v (s : T) (i : entity_id k) :
  parse_id v s = (s, Ok i) → new_id v = Ok i.
Proof. unfold parse_id. intros [= H]. by apply map_err_Ok in H. Qed.
Lemma checked_Ok {T A} (r : result WorkspaceError.t A) (s : T) x :
  lift (map_err ApplicationError.from_workspace r) s = (s, Ok x) → r = Ok x.
Proof. intros [= H]. by apply map_err_Ok in H. Qed.

Lemma workspace_handled c key now g s s' r h :
  ws_inv s h → workspace_apply c key now g s = (s', r) → handled c key s s' r.
Proof.
  intros Hi H. destruct c; cbn [workspace_apply] in H.
  all: eapply command_frame_ok; [exact H| | |];
    [intros *; eauto using get_project_stored, get_thread_stored, get_message_stored,
       get_automation_stored|done|clear H; intros cmd Hs Hk Hu H].
  - peel_entity H i Hi'. peel_entity H x Hx. apply parse_id_Ok in Hi'. apply checked_Ok in Hx.
    eapply (create_tail _ (OCreateProject x cmd)); [exact H|cbn; eauto 10|done|].
    intros y s1. by apply create_project_answers.
  - peel_entity H i Hi'.
    eapply (project_edit_body cmd i _ (PUpdate _ _) now); [exact Hu|in_scopes Hs|exact H].
  - eapply (project_edit_body cmd id _ PArchive now); [exact Hu|in_scopes Hs|exact H].
  - peel_entity H p Hp. peel_entity H pr Hpr. peel_entity H u Hpa. peel_entity H i Hi'.
    peel_entity H x Hx. apply parse_id_Ok in Hi'. apply checked_Ok in Hx.
    eapply (create_tail _ (OCreateThread x cmd)); [exact H|cbn; eauto 10|done|].
    intros y s1. by apply create_thread_answers.
  - peel_entity H i Hi'.
    eapply (thread_edit_body cmd i _ (TUpdate _) now); [exact Hu|in_scopes Hs|exact H].
  - eapply (thread_edit_body cmd id _ TArchive now); [exact Hu|in_scopes Hs|exact H].
  - peel_entity H tid Ht. peel_entity H th Hth. peel_entity H u Hto. peel_entity H pr Hpr.
    peel_entity H v Hpa. peel_entity H i Hi'. peel_entity H x Hx.
    apply parse_id_Ok in Hi'. apply checked_Ok in Hx.
    eapply (create_tail _ (OCreateMessage x cmd)); [exact H|cbn; eauto 10|done|].
    intros y s1. by apply create_message_answers.
  - peel_entity H i Hi'.
    eapply (message_edit_body cmd i _ (MUpdate _) now); [exact Hu|in_scopes Hs|exact H].
  - eapply (message_edit_body cmd id _ MDelete now); [exact Hu|in_scopes Hs|exact H].
  - peel_entity H p Hp. peel_entity H pr Hpr. peel_entity H u Hpa. peel_entity H i Hi'.
    peel_entity H x Hx. apply parse_id_Ok in Hi'. apply checked_Ok in Hx.
    eapply (create_tail _ (OCreateAutomation x cmd)); [exact H|cbn; eauto 20|done|].
    intros y s1. by apply create_automation_answers.
  - peel_entity H i Hi'.
    eapply (automation_edit_body cmd i _ (AuUpdate _ _ _ _ _ _ _) now);
      [exact Hu|in_scopes Hs|exact H].
  - eapply (automation_edit_body cmd id _ AuArchive now); [exact Hu|in_scopes Hs|exact H].
Qed.

(** *** A handler as steps of the world *)

Definition hold_all (s : WS) (h : snapshots) : snapshots :=
  let now := current_snapshots s in
  Snapshots (held_projects now ++ held_projects h) (held_threads now ++ held_threads h)
    (held_messages now ++ held_messages h) (held_automations now ++ held_automations h).

Lemma reads_current {k A} (T : gmap (entity_id k) A) l : reads T l (InMemory.values T ++ l).
Proof. split; [intros x Hx; apply elem_of_app; by right|]. intros x [?|?]%elem_of_app; auto. Qed.
Lemma reads_hold_all s h : reads_all s h (hold_all s h).
Proof. split_and!; apply reads_current. Qed.

Lemma allowed_mono h h' op : held_le h h' → allowed h op → allowed h' op.
Proof.
  intros (H1 & H2 & H3 & H4) Ha. destruct op; cbn in *; try done;
    destruct Ha as [(x0 & Hx0 & ?) ?]; (split; [|done]); exists x0; (split; [|done]); set_solver.
Qed.
Lemma commits_steps s s' h :
  commits s s' → rtc ws_step (World s h) (World s' (hold_all s h)).
Proof.
  intros Hc. apply rtc_l with (World s (hold_all s h)); [apply step_read, reads_hold_all|].
  destruct Hc as [->|(op & r & Ha & Hx)]; [done|]. apply rtc_once. eapply step_call; [|done].
  eapply allowed_mono; [|done]. split_and!; intros x Hx'; apply elem_of_app; by left.
Qed.

(** *** Replays *)

Definition entity_evolves (e e' : workspace_entity) : Prop :=
  match e, e' with
  | EProject x, EProject y => rtc edit x y
  | EThread x, EThread y => rtc edit x y
  | EMessage x, EMessage y => rtc edit x y
  | EAutomation x, EAutomation y => rtc edit x y
  | _, _ => False
  end.

Lemma frame_replays {A k} (f : A → workspace_entity) (get : entity_id k → method WS StoreError A)
    body c key cmd id x s :
  command_of c key = Ok cmd → valid_id id →
  workspace_commands s !! command_key cmd =
    Some (CommandRecord.mk (MutationCommand.fingerprint cmd) id) →
  get (mk_id id) s = (s, Ok x) →
  as_entity f (command_frame (command_scope c) key (command_parts c) (λ i, call (get i)) body) s
    = (s, Ok (f x)).
Proof.
  unfold command_of. intros Hc Hv Hr Hx. destruct (mutation_command_Ok _ _ _ _ Hc) as [Hs Hk].
  unfold as_entity, command_frame. rewrite Hc. unfold call. cbn.
  unfold prior_command, command_key in *. rewrite Hs in *. run_unfold.
  rewrite bool_decide_eq_true_2, Hr by done. cbn. rewrite bool_decide_eq_true_2 by done.
  unfold parse_id, lift. rewrite (proj2 (new_id_Ok id (mk_id id))) by done. cbn. by rewrite Hx.
Qed.
Lemma frame_conflicts {A k} (f : A → workspace_entity) (get : entity_id k → method WS ApplicationError.t A)
    body c key cmd rec s :
  command_of c key = Ok cmd → workspace_commands s !! command_key cmd = Some rec →
  CommandRecord.fingerprint rec ≠ MutationCommand.fingerprint cmd →
  as_entity f (command_frame (command_scope c) key (command_parts c) get body) s
    = (s, Err ApplicationError.Conflict).
Proof.
  unfold command_of. intros Hc Hr Hf. destruct (mutation_command_Ok _ _ _ _ Hc) as [Hs Hk].
  unfold as_entity, command_frame. rewrite Hc. unfold call. cbn.
  unfold prior_command, command_key in *. rewrite Hs in *. run_unfold.
  rewrite bool_decide_eq_true_2, Hr by done. cbn. by rewrite bool_decide_eq_false_2.
Qed.

Lemma scope_not_in (l : list str) (x : str) : bool_decide (x ∈ l) = false → x ∉ l.
Proof. apply bool_decide_eq_false_1. Qed.
Ltac pick_scope H :=
  destruct H as [[H ?]|[[H ?]|[[H ?]|[H ?]]]];
  try (exfalso; revert H; apply scope_not_in; vm_compute; reflexivity).

Lemma replay_current c key now g cmd id s h :
  ws_inv s h → command_of c key = Ok cmd →
  workspace_commands s !! command_key cmd =
    Some (CommandRecord.mk (MutationCommand.fingerprint cmd) id) →
  ∃ e, workspace_apply c key now g s = (s, Ok e) ∧ stored s e ∧ entity_str e = id.
Proof.
  intros Hi Hc Hr. pose proof (inv_commands _ _ Hi _ _ _ Hr) as He. cbn in He.
  destruct (mutation_command_Ok _ _ _ _ Hc) as [Hs _]. rewrite Hs in He.
  destruct c; cbn [command_scope] in He; pick_scope He;
    match goal with H : is_Some _ |- _ => destruct H as [x Hx] end.
  1,2,3: destruct (stored_ok _ _ (inv_projects _ _ Hi) _ _ Hx) as (E & Hv & _); exists (EProject x).
  4,5,6: destruct (stored_ok _ _ (inv_threads _ _ Hi) _ _ Hx) as (E & Hv & _); exists (EThread x).
  7,8,9: destruct (stored_ok _ _ (inv_messages _ _ Hi) _ _ Hx) as (E & Hv & _); exists (EMessage x).
  10,11,12: destruct (stored_ok _ _ (inv_automations _ _ Hi) _ _ Hx) as (E & Hv & _);
    exists (EAutomation x).
  all: cbn in E; split; [|cbn; by rewrite E].
  all: match goal with
    | |- workspace_apply ?c _ _ _ _ = (_, Ok (EProject _)) =>
        refine (frame_replays EProject WorkspaceMemory.get_project _ c key cmd id x s Hc Hv Hr _)
    | |- workspace_apply ?c _ _ _ _ = (_, Ok (EThread _)) =>
        refine (frame_replays EThread WorkspaceMemory.get_thread _ c key cmd id x s Hc Hv Hr _)
    | |- workspace_apply ?c _ _ _ _ = (_, Ok (EMessage _)) =>
        refine (frame_replays EMessage WorkspaceMemory.get_message _ c key cmd id x s Hc Hv Hr _)
    | |- workspace_apply ?c _ _ _ _ = (_, Ok (EAutomation _)) =>
        refine (frame_replays EAutomation WorkspaceMemory.get_automation _ c key cmd id x s Hc Hv Hr _)
    end.
  all: cbn; unfold WorkspaceMemory.get_project, WorkspaceMemory.get_thread,
    WorkspaceMemory.get_message, WorkspaceMemory.get_automation; run_unfold; by rewrite Hx.
Qed.

Lemma replay_conflict c key now g cmd rec s :
  command_of c key = Ok cmd → workspace_commands s !! command_key cmd = Some rec →
  CommandRecord.fingerprint rec ≠ MutationCommand.fingerprint cmd →
  workspace_apply c key now g s = (s, Err ApplicationError.Conflict).
Proof.
  intros Hc Hr Hf. destruct c;
    match goal with |- workspace_apply ?c _ _ _ _ = _ =>
      exact (frame_conflicts _ _ _ c key cmd rec s Hc Hr Hf) end.
Qed.

(** A stored entity that a client holds only moves by edits. *)
Lemma held_evolves s1 h1 s2 h2 e e' :
  rtc ws_step (World s1 h1) (World s2 h2) → ws_inv s1 h1 → stored s1 e → stored s2 e' →
  entity_str e' = entity_str e → match e, e' with
    | EProject x, EProject _ => x ∈ held_projects h1
    | EThread x, EThread _ => x ∈ held_threads h1
    | EMessage x, EMessage _ => x ∈ held_messages h1
    | EAutomation x, EAutomation _ => x ∈ held_automations h1
    | _, _ => False end → entity_evolves e e'.
Proof.
  intros Hst Hi1 H1 H2 Hid Hh.
  pose proof (ws_steps_held _ _ Hst) as (Le1 & Le2 & Le3 & Le4).
  pose proof (ws_steps_inv _ _ Hst Hi1) as Hi2. cbn in *.
  destruct e as [x|x|x|x], e' as [y|y|y|y]; try done; cbn in *.
  - destruct (seen_ok _ _ (inv_projects _ _ Hi2) x (Le1 _ Hh)) as (z & Hz & Hr). cbn in Hz.
    rewrite <- (id_eta (Project.id x)), <- Hid, id_eta, H2 in Hz. by injection Hz as <-.
  - destruct (seen_ok _ _ (inv_threads _ _ Hi2) x (Le2 _ Hh)) as (z & Hz & Hr). cbn in Hz.
    rewrite <- (id_eta (Thread.id x)), <- Hid, id_eta, H2 in Hz. by injection Hz as <-.
  - destruct (seen_ok _ _ (inv_messages _ _ Hi2) x (Le3 _ Hh)) as (z & Hz & Hr). cbn in Hz.
    rewrite <- (id_eta (Message.id x)), <- Hid, id_eta, H2 in Hz. by injection Hz as <-.
  - destruct (seen_ok _ _ (inv_automations _ _ Hi2) x (Le4 _ Hh)) as (z & Hz & Hr). cbn in Hz.
    rewrite <- (id_eta (Automation.id x)), <- Hid, id_eta, H2 in Hz. by injection Hz as <-.
Qed.
End handlers.

(** ** Pages tile the lists *)

(** A client follows [next_cursor] until it is absent; [None] when a request fails or the
    fuel, one unit per page, runs out. *)
Fixpoint collect {A} (fetch : option str → option (Page.t A)) (fuel : nat) (cursor : option str) :
    option (list A) :=
  match fuel with
  | O => None
  | S fuel' =>
      page ← fetch cursor;
      match Page.next_cursor page with
      | None => Some (Page.items page)
      | Some next => rest ← collect fetch fuel' (Some next); Some (Page.items page ++ rest)
      end
  end.
(** The page a handler answers with on a store. *)
Definition answer {A} (m : method WS ApplicationError.t A) (s : WS) : option A :=
  match (m s).2 with Ok a => Some a | Err _ => None end.

Section paging.
Context {A : Type} (id : A → str).

Lemma position_app (l1 l2 : list A) x :
  NoDup (map id (l1 ++ x :: l2)) →
  position (λ v, id v == id x) (l1 ++ x :: l2) = Some (length l1).
Proof.
  induction l1 as [|y l1 IH]; cbn; intros Hd; [by rewrite bool_decide_eq_true_2|].
  apply NoDup_cons in Hd as [Hy Hd]. rewrite bool_decide_eq_false_2; [by rewrite IH|].
  intros E. apply Hy. rewrite E, map_app. apply elem_of_app. right. apply list_elem_of_here.
Qed.

Lemma after_position_suffix (l1 l2 : list A) limit :
  NoDup (map id (l1 ++ l2)) →
  after_position (l1 ++ l2) (id <$> last l1) limit id = Ok (take (Z.to_nat limit) l2).
Proof.
  intros Hd. unfold after_position.
  destruct l1 as [|x l1] using rev_ind; [done|]. rewrite last_snoc, <- app_assoc in *. cbn.
  rewrite position_app by done. cbn. f_equal. f_equal.
  change (l1 ++ x :: l2) with (l1 ++ [x] ++ l2). rewrite app_assoc.
  rewrite drop_app_length'; [done|]. rewrite length_app. cbn. lia.
Qed.

Lemma collect_suffix fetch (L : list A) limit :
  1 ≤ limit →
  (∀ l1 l2, L = l1 ++ l2 →
     fetch (id <$> last l1) = Some (entity_page (take (Z.to_nat (limit + 1)) l2) limit id)) →
  ∀ fuel l1 l2, L = l1 ++ l2 → (length l2 < fuel)%nat →
    collect fetch fuel (id <$> last l1) = Some l2.
Proof.
  intros Hl Hf. induction fuel as [|fuel IH]; intros l1 l2 HL Hn; [lia|].
  cbn. rewrite (Hf _ _ HL). cbn. rewrite take_take, length_take.
  replace (Z.to_nat limit `min` Z.to_nat (limit + 1))%nat with (Z.to_nat limit) by lia.
  destruct (Z.ltb_spec limit (Z.of_nat (Z.to_nat (limit + 1) `min` length l2))) as [E|E].
  - assert (Hlen : (Z.to_nat limit < length l2)%nat) by (clear -E Hl; lia).
    destruct (last (take (Z.to_nat limit) l2)) as [y|] eqn:Ey; cbn.
    2: { apply last_None, (f_equal length) in Ey. rewrite length_take in Ey. cbn in Ey. lia. }
    apply last_Some in Ey as [t Et].
    replace (Some (id y)) with (id <$> last (l1 ++ take (Z.to_nat limit) l2))
      by (by rewrite Et, app_assoc, last_snoc).
    rewrite (IH _ (drop (Z.to_nat limit) l2)); cbn; [by rewrite take_drop| |].
    + by rewrite <- app_assoc, take_drop.
    + rewrite length_drop. lia.
  - rewrite take_ge; [done|]. clear -E Hl. lia.
Qed.
Lemma collect_all fetch (L : list A) limit :
  1 ≤ limit →
  (∀ l1 l2, L = l1 ++ l2 →
     fetch (id <$> last l1) = Some (entity_page (take (Z.to_nat (limit + 1)) l2) limit id)) →
  collect fetch (S (length L)) None = Some L.
Proof. intros Hl Hf. apply (collect_suffix fetch L limit Hl Hf _ [] L); [done|lia]. Qed.
End paging.

Section pages.
Context {CH : Chrono} {SJ : SerdeJson} {SHA : Sha256} {UC : Unicode}.
Import WorkspaceState.

Lemma values_NoDup {k A C} `{!Aggregate A C, !Entity k A C} (T : gmap (entity_id k) A) :
  (∀ i x, T !! i = Some x → ent_id x = i) →
  NoDup (map (λ x, as_str (ent_id x)) (InMemory.values T)).
Proof.
  intros HT. rewrite <- (map_map ent_id). by apply (NoDup_fmap_2 as_str), values_keys_NoDup.
Qed.

Lemma NoDup_map_perm {A B} (f : A → B) (l l' : list A) :
  l' ≡ₚ l → NoDup (map f l) → NoDup (map f l').
Proof. intros Hp Hd. by rewrite (Permutation_map f Hp). Qed.
Lemma NoDup_map_filter {A B} (f : A → B) (P : A → Prop) `{!∀ x, Decision (P x)} (l : list A) :
  NoDup (map f l) → NoDup (map f (filter P l)).
Proof.
  intros Hd. eapply sublist_NoDup; [exact Hd|]. apply (fmap_sublist f), sublist_filter.
Qed.

(** A cursor that a page returned names a stored entity. *)
Lemma parse_cursor_last {k A} (ids : A → entity_id k) (l : list A) (s : WS) :
  (∀ x, x ∈ l → valid_id (as_str (ids x))) →
  parse_cursor (S := WS) (k := k) ((λ x, as_str (ids x)) <$> last l) s =
    (s, Ok (ids <$> last l)).
Proof.
  intros Hv. destruct (last l) as [x|] eqn:E; [|done].
  apply last_Some in E as [l' ->].
  assert (Hx : valid_id (as_str (ids x))) by (apply Hv, elem_of_app; right; apply list_elem_of_here).
  cbn. unfold parse_id. run_unfold.
  by rewrite (proj2 (new_id_Ok _ (ids x))) by (split; [by destruct (ids x)|done]).
Qed.

Definition is_page_limit (limit : Z) : Prop := 1 ≤ limit ≤ MAX_PAGE_SIZE.
Lemma page_limit_ok limit : is_page_limit limit → validate_page_limit limit = Ok tt.
Proof. intros H. unfold validate_page_limit. by rewrite (proj2 (in_range_spec _ _ _) H). Qed.

(** The sorted lists the pages are taken from. *)
Definition recent_projects (s : WS) : list Project.t :=
  InMemory.sort_by_key (λ p, - Project.updated_at p) (λ p, as_str (Project.id p))
    (InMemory.values (projects s)).
Definition recent_threads (s : WS) (p : ProjectId) : list Thread.t :=
  InMemory.sort_by_key (λ t, - Thread.updated_at t) (λ t, as_str (Thread.id t))
    (filter (λ t, Thread.project_id t = p) (InMemory.values (threads s))).
Definition recent_automations (s : WS) (p : ProjectId) : list Automation.t :=
  InMemory.sort_by_key (λ a, - Automation.updated_at a) (λ a, as_str (Automation.id a))
    (filter (λ a, Automation.project_id a = p) (InMemory.values (automations s))).
Definition numbered_messages (s : WS) (t : ThreadId) : list Message.t :=
  merge_sort WorkspaceMemory.sequence_le (WorkspaceMemory.thread_messages s t).

(** Entities of an invariant table, in any order and selection, can be paged. *)
Definition pageable {k A} (ids : A → entity_id k) (L : list A) : Prop :=
  NoDup (map (λ x, as_str (ids x)) L) ∧ ∀ x, x ∈ L → valid_id (as_str (ids x)).

Lemma table_pageable {k A C} `{!Aggregate A C, !AggregateLaws A C, !Entity k A C}
    (T : gmap (entity_id k) A) h : table_inv T h → pageable ent_id (InMemory.values T).
Proof.
  intros [H1 _]. split.
  - apply values_NoDup. intros i x Hx. by destruct (H1 i x Hx).
  - intros x [i Hi]%elem_of_values. by destruct (H1 i x Hi) as (-> & ? & _).
Qed.
Lemma pageable_perm {k A} (ids : A → entity_id k) L L' : L' ≡ₚ L → pageable ids L → pageable ids L'.
Proof.
  intros Hp [Hd Hv]. split; [by eapply NoDup_map_perm|]. intros x Hx. apply Hv. by rewrite <- Hp.
Qed.
Lemma pageable_filter {k A} (ids : A → entity_id k) (P : A → Prop) `{!∀ x, Decision (P x)} L :
  pageable ids L → pageable ids (filter P L).
Proof.
  intros [Hd Hv]. split; [by apply NoDup_map_filter|]. intros x [_ Hx]%list_elem_of_filter. auto.
Qed.

Lemma pages_collect {k A} (ids : A → entity_id k) (L : list A) limit
    (fetch : option str → option (Page.t A)) (s : WS) :
  is_page_limit limit → pageable ids L →
  (∀ cursor after, parse_cursor (S := WS) (k := k) cursor s = (s, Ok after) →
     fetch cursor = match after_position L (as_str <$> after) (limit + 1) (λ x, as_str (ids x)) with
                    | Ok items => Some (entity_page items limit (λ x, as_str (ids x)))
                    | Err _ => None end) →
  collect fetch (S (length L)) None = Some L.
Proof.
  intros Hl [Hd Hv] Hf. apply (collect_all (λ x, as_str (ids x)) fetch L limit); [apply Hl|].
  intros l1 l2 HL.
  rewrite (Hf _ (ids <$> last l1)) by
    (apply parse_cursor_last; intros x Hx; apply Hv; rewrite HL; apply elem_of_app; by left).
  replace (as_str <$> (ids <$> last l1)) with ((λ x, as_str (ids x)) <$> last l1)
    by (by destruct (last l1)).
  rewrite HL, after_position_suffix by (by rewrite <- HL). done.
Qed.
End pages.

(** ** Properties *)

Section properties.
Context {CH : Chrono} {SJ : SerdeJson} {SHA : Sha256} {UC : Unicode}.
Import WorkspaceState.

Lemma edits_reachable {A C} `{!Aggregate A C, !Restorable A C} (x0 x : A) :
  ag_initial x0 → rtc edit x0 x → ag_reachable x.
Proof.
  intros H0. apply (rtc_ind_r (λ y, ag_reachable y)); [by constructor|].
  intros y z _ (c & now & H) IH. by eapply ag_reach_call.
Qed.
Lemma stored_thread T h i x :
  table_inv T h → T !! i = Some x → Thread.id x = i ∧ Thread.restore x = Ok x.
Proof.
  intros HT Hx. destruct (stored_ok _ _ HT _ _ Hx) as (Hid & _ & x0 & Hx0 & He).
  split; [done|]. refine (proj1 (ag_reachable_restores (C := thread_call) x _)).
  by eapply edits_reachable; [|exact He].
Qed.
Lemma stored_message T h i x :
  table_inv T h → T !! i = Some x → Message.id x = i ∧ Message.restore x = Ok x.
Proof.
  intros HT Hx. destruct (stored_ok _ _ HT _ _ Hx) as (Hid & _ & x0 & Hx0 & He).
  split; [done|]. refine (proj1 (ag_reachable_restores (C := message_call) x _)).
  by eapply edits_reachable; [|exact He].
Qed.
Lemma stored_automation T h i x :
  table_inv T h → T !! i = Some x → Automation.id x = i ∧ Automation.restore x = Ok x.
Proof.
  intros HT Hx. destruct (stored_ok _ _ HT _ _ Hx) as (Hid & _ & x0 & Hx0 & He).
  split; [done|]. refine (proj1 (ag_reachable_restores (C := automation_call) x _)).
  by eapply edits_reachable; [|exact He].
Qed.

(** C14. The workspace stays consistent under concurrent use. In every world reachable by
    interleaved reads, creations, saves and history records of any number of clients,
    any changes other components make to the tables the workspace only reads and any
    threads and messages they add, every entity is stored under its own identifier, belongs to a stored project or thread and
    survives a restart; message numbers of a thread are distinct and gap-free from one;
    history records each scheduled time once, numbered in order; and every recorded
    command names a stored entity. *)
Theorem workspace_consistent s h :
  ws_reachable (World s h) →
  (∀ i x, projects s !! i = Some x → Project.id x = i) ∧
  (∀ i x, threads s !! i = Some x → Thread.id x = i ∧ Thread.restore x = Ok x ∧
     is_Some (projects s !! Thread.project_id x)) ∧
  (∀ i x, messages s !! i = Some x → Message.id x = i ∧ Message.restore x = Ok x ∧
     is_Some (threads s !! Message.thread_id x)) ∧
  (∀ i x, automations s !! i = Some x → Automation.id x = i ∧ Automation.restore x = Ok x ∧
     is_Some (projects s !! Automation.project_id x)) ∧
  sequences_ok (messages s) ∧
  (∀ a l, automation_history s !! a = Some l → is_Some (automations s !! a) ∧ history_ok a l) ∧
  (∀ scope key r, workspace_commands s !! (scope, key) = Some r →
     entity_stored s scope (CommandRecord.entity_id r)).
Proof.
  intros Hi%ws_reachable_inv. destruct Hi as [Ip It Im Ia Lt Lm La Is Ih Ic]; cbn in *.
  split_and!; try done.
  - intros i x Hx. by destruct (stored_ok _ _ Ip _ _ Hx).
  - intros i x Hx. destruct (stored_thread _ _ _ _ It Hx). eauto.
  - intros i x Hx. destruct (stored_message _ _ _ _ Im Hx). eauto.
  - intros i x Hx. destruct (stored_automation _ _ _ _ Ia Hx). eauto.
Qed.

(** A save from a snapshot that is not current changes nothing. *)
Lemma stale_replace {k A C} `{!Aggregate A C, !AggregateLaws A C, !Entity k A C, !EntityLaws k A C}
    (T : gmap (entity_id k) A) h x x' T' :
  table_inv T h → x ∈ h → edit x x' → T !! ent_id x ≠ Some x →
  revisioned_replace T (ent_id x') x' (ag_revision x) ag_revision ≠ Ok T'.
Proof. intros HT Hx He Hn H. by destruct (table_inv_save _ _ _ _ _ HT Hx He H) as (_ & ? & _). Qed.

(** C13. No update is lost. Every snapshot a client ever read leads by accepted edits to
    the entity now stored, and saving an edit of a snapshot that is no longer the stored
    entity leaves the whole store as it was. *)
Theorem workspace_no_lost_update s h :
  ws_reachable (World s h) →
  (∀ x, x ∈ held_projects h → ∃ y, projects s !! Project.id x = Some y ∧ rtc edit x y) ∧
  (∀ x, x ∈ held_threads h → ∃ y, threads s !! Thread.id x = Some y ∧ rtc edit x y) ∧
  (∀ x, x ∈ held_messages h → ∃ y, messages s !! Message.id x = Some y ∧ rtc edit x y) ∧
  (∀ x, x ∈ held_automations h → ∃ y, automations s !! Automation.id x = Some y ∧ rtc edit x y) ∧
  (∀ op s' r, ws_exec op s = (s', r) →
     match op with
     | OSaveProject x' n c => ∃ x, x ∈ held_projects h ∧ edit x x' ∧ n = Project.revision x ∧
         projects s !! Project.id x ≠ Some x
     | OSaveThread x' n c => ∃ x, x ∈ held_threads h ∧ edit x x' ∧ n = Thread.revision x ∧
         threads s !! Thread.id x ≠ Some x
     | OSaveMessage x' n c => ∃ x, x ∈ held_messages h ∧ edit x x' ∧ n = Message.revision x ∧
         messages s !! Message.id x ≠ Some x
     | OSaveAutomation x' n c => ∃ x, x ∈ held_automations h ∧ edit x x' ∧
         n = Automation.revision x ∧ automations s !! Automation.id x ≠ Some x
     | _ => False
     end → s' = s).
Proof.
  intros Hi%ws_reachable_inv. destruct Hi as [Ip It Im Ia _ _ _ _ _ _]; cbn in *.
  split_and!; [apply Ip|apply It|apply Im|apply Ia|].
  intros op s' r H%ws_exec_effect Hst. destruct H; try done;
    destruct Hst as (x0 & Hx0 & He & -> & Hn); exfalso.
  - by eapply (stale_replace (projects s) _ x0 x T Ip).
  - by eapply (stale_replace (threads s) _ x0 x T It).
  - by eapply (stale_replace (messages s) _ x0 x T Im).
  - by eapply (stale_replace (automations s) _ x0 x T Ia).
Qed.

(** The entity an answered command returned is held after one more read. *)
Lemma held_evolution s s1 h e s2 h2 e' :
  ws_inv s h → commits s s1 → stored s1 e →
  rtc ws_step (World s1 (hold_all s1 (hold_all s h))) (World s2 h2) →
  stored s2 e' → entity_str e' = entity_str e →
  match e, e' with
  | EProject _, EProject _ | EThread _, EThread _ | EMessage _, EMessage _
  | EAutomation _, EAutomation _ => True
  | _, _ => False
  end → entity_evolves e e'.
Proof.
  intros Hi Hc Hst Hsteps Hst' Hid Hk.
  assert (Hi1 : ws_inv s1 (hold_all s1 (hold_all s h))).
  { refine (ws_steps_inv (World s h) (World s1 _) _ Hi).
    eapply rtc_r; [by apply commits_steps|]. apply step_read, reads_hold_all. }
  eapply held_evolves; eauto.
  destruct e, e'; try done; cbn in *; apply elem_of_app; left; by eapply held_current.
Qed.

Lemma apply_kind c key now g s s' e :
  workspace_apply c key now g s = (s', Ok e) →
  match c, e with
  | (CmdCreateProject _ | CmdUpdateProject _ | CmdArchiveProject _ _), EProject _
  | (CmdCreateThread _ | CmdUpdateThread _ | CmdArchiveThread _ _), EThread _
  | (CmdCreateMessage _ | CmdUpdateMessage _ | CmdDeleteMessage _ _), EMessage _
  | (CmdCreateAutomation _ | CmdUpdateAutomation _ | CmdArchiveAutomation _ _), EAutomation _ =>
      True
  | _, _ => False
  end.
Proof.
  intros H. destruct c; cbn [workspace_apply] in H;
    apply method_bind_Ok in H as (? & ? & _ & [= _ <-]); done.
Qed.

(** A workspace command takes effect once. A successful use case is a sequence of
    steps of the world; after it, whatever other clients do, repeating it with the same
    key and input changes nothing and returns the same entity as later accepted edits
    left it, and using its key for an input with another fingerprint is a conflict. *)
Theorem workspace_command_once c key now g s h s1 e :
  ws_reachable (World s h) → workspace_apply c key now g s = (s1, Ok e) →
  ∃ h1, rtc ws_step (World s h) (World s1 h1) ∧
    ∀ s2 h2, rtc ws_step (World s1 h1) (World s2 h2) → ∀ now' g',
      (∃ e', workspace_apply c key now' g' s2 = (s2, Ok e') ∧ entity_evolves e e') ∧
      (∀ c' cmd cmd', command_of c key = Ok cmd → command_of c' key = Ok cmd' →
         command_scope c' = command_scope c →
         MutationCommand.fingerprint cmd' ≠ MutationCommand.fingerprint cmd →
         workspace_apply c' key now' g' s2 = (s2, Err ApplicationError.Conflict)).
Proof.
  intros Hi%ws_reachable_inv H. cbn in Hi.
  destruct (workspace_handled _ _ _ _ _ _ _ _ Hi H) as [Hc Hans].
  destruct (Hans e eq_refl) as (cmd & Hcmd & Hst & Hrec).
  exists (hold_all s1 (hold_all s h)).
  assert (Hpath : rtc ws_step (World s h) (World s1 (hold_all s1 (hold_all s h)))).
  { eapply rtc_r; [by apply commits_steps|]. apply step_read, reads_hold_all. }
  split; [done|]. intros s2 h2 Hsteps now' g'.
  pose proof (ws_steps_commands _ _ _ _ Hsteps Hrec) as Hrec2. cbn in Hrec2.
  pose proof (ws_steps_inv _ _ Hsteps (ws_steps_inv _ _ Hpath Hi)) as Hi2. cbn in Hi2. split.
  - destruct (replay_current c key now' g' cmd _ s2 h2 Hi2 Hcmd Hrec2) as (e' & He' & Hst' & Hid).
    exists e'. split; [done|]. eapply (held_evolution s s1 h e s2 h2 e'); [done..|].
    pose proof (apply_kind c key now g s s1 e H) as K1.
    pose proof (apply_kind c key now' g' s2 s2 e' He') as K2.
    by destruct c, e, e'.
  - intros c' cmd0 cmd' E Hcmd' Hsc Hf. rewrite Hcmd in E. injection E as <-.
    eapply replay_conflict; [exact Hcmd'| |].
    + destruct (mutation_command_Ok _ _ _ _ Hcmd) as [S1 K1].
      destruct (mutation_command_Ok _ _ _ _ Hcmd') as [S2 K2].
      replace (command_key cmd') with (command_key cmd)
        by (unfold command_key; rewrite S1, S2, K1, K2, Hsc; done). exact Hrec2.
    + cbn. congruence.
Qed.

(** Runs a page request up to the list the store pages through. *)
Ltac page_answer Hl Ha :=
  intros cursor after Ha; unfold answer; cbn;
  unfold WorkspaceService.list_projects, WorkspaceService.list_threads,
    WorkspaceService.list_messages, WorkspaceService.list_automations;
  rewrite (page_limit_ok _ Hl); unfold mbind, method_bind, lift; rewrite Ha; unfold call; cbn.

Lemma sorted_pageable {k A} (ids : A → entity_id k) time (id : A → str) L :
  pageable ids L → pageable ids (InMemory.sort_by_key time id L).
Proof. apply pageable_perm, sort_by_key_perm. Qed.

(** C33. Pages tile the lists. On a store no one changes, a client that follows the
    cursors from the first page with any admissible page size receives, after at most
    one request per entity plus one, exactly all projects, all threads or automations of
    a project, most recently updated first, or all messages of a thread in their order,
    each once. *)
Theorem workspace_pages_tile s h limit :
  ws_reachable (World s h) → is_page_limit limit →
  collect (λ c, answer (WorkspaceService.list_projects c limit) s)
    (S (length (recent_projects s))) None = Some (recent_projects s) ∧
  (∀ p, is_Some (projects s !! p) →
     collect (λ c, answer (WorkspaceService.list_threads p c limit) s)
       (S (length (recent_threads s p))) None = Some (recent_threads s p) ∧
     collect (λ c, answer (WorkspaceService.list_automations p c limit) s)
       (S (length (recent_automations s p))) None = Some (recent_automations s p)) ∧
  (∀ t, is_Some (threads s !! t) →
     collect (λ c, answer (WorkspaceService.list_messages t c limit) s)
       (S (length (numbered_messages s t))) None = Some (numbered_messages s t)).
Proof.
  intros Hi%ws_reachable_inv Hl. cbn in Hi. destruct Hi as [Ip It Im Ia _ _ _ _ _ _].
  split_and!; [|intros p [x Hx]; split|intros t [x Hx]].
  - apply (pages_collect (k := KProject) Project.id _ limit _ s Hl).
    + apply sorted_pageable, (table_pageable _ _ Ip).
    + page_answer Hl Ha. unfold WorkspaceMemory.list_projects. run_unfold.
      unfold recent_page, recent_projects. by destruct (after_position _ _ _ _).
  - apply (pages_collect (k := KThread) Thread.id _ limit _ s Hl).
    + apply sorted_pageable, pageable_filter, (table_pageable _ _ It).
    + page_answer Hl Ha. unfold WorkspaceMemory.list_threads. run_unfold. rewrite Hx. cbn.
      unfold recent_page, recent_threads. by destruct (after_position _ _ _ _).
  - apply (pages_collect (k := KAutomation) Automation.id _ limit _ s Hl).
    + apply sorted_pageable, pageable_filter, (table_pageable _ _ Ia).
    + page_answer Hl Ha. unfold WorkspaceMemory.list_automations. run_unfold. rewrite Hx. cbn.
      unfold recent_page, recent_automations. by destruct (after_position _ _ _ _).
  - apply (pages_collect (k := KMessage) Message.id _ limit _ s Hl).
    + apply (pageable_perm _ (WorkspaceMemory.thread_messages s t)); [apply merge_sort_Permutation|].
      apply pageable_filter, (table_pageable _ _ Im).
    + page_answer Hl Ha. unfold WorkspaceMemory.list_messages. run_unfold. rewrite Hx. cbn.
      unfold numbered_messages. by destruct (after_position _ _ _ _).
Qed.
End properties.

(** ** Witnesses: a project with a thread and a message *)

(** A stand-in for the JSON parser: no value. *)
Definition demo_json : SerdeJson := {|
  Value := unit; json_from_str _ := None; as_object _ := None; as_string _ := None;
  as_u64 _ := None |}.
#[local] Existing Instance UtcCalendar.chrono.
#[local] Existing Instance demo_sha.
#[local] Existing Instance demo_json.
#[local] Existing Instance demo_unicode.

Definition demo_apply (c : workspace_command) (key : str) (now : Z) (g : str) (s : WS) : WS :=
  (workspace_apply c key now g s).1.
Definition demo_store1 : WS :=
  demo_apply (CmdCreateProject (CreateProject.mk (lit "Research") [])) (lit "key-1") 10
    (lit "project-1") WorkspaceState.empty.
Definition demo_store2 : WS :=
  demo_apply (CmdCreateThread (CreateThread.mk (lit "project-1") (lit "Plan"))) (lit "key-2") 20
    (lit "thread-1") demo_store1.
Definition demo_message_command : workspace_command :=
  CmdCreateMessage (CreateMessage.mk (lit "thread-1") MessageRole.User (lit "Hello")).
Definition demo_store3 : WS :=
  demo_apply demo_message_command (lit "key-3") 30 (lit "message-1") demo_store2.

Lemma demo_reachable c key now g s h :
  ws_reachable (World s h) → ∃ h', ws_reachable (World (demo_apply c key now g s) h').
Proof.
  intros Hr. unfold demo_apply. destruct (workspace_apply c key now g s) as [s' r] eqn:E.
  pose proof (ws_reachable_inv _ Hr) as Hi. cbn in Hi.
  destruct (workspace_handled _ _ _ _ _ _ _ _ Hi E) as [Hc _]. eexists.
  unfold ws_reachable in *. etrans; [exact Hr|]. by apply commits_steps.
Qed.
Lemma demo_store_reachable : ∃ h, ws_reachable (World demo_store3 h).
Proof.
  destruct (demo_reachable (CmdCreateProject (CreateProject.mk (lit "Research") [])) (lit "key-1")
    10 (lit "project-1") WorkspaceState.empty no_snapshots) as [h1 H1]; [apply rtc_refl|].
  destruct (demo_reachable (CmdCreateThread (CreateThread.mk (lit "project-1") (lit "Plan")))
    (lit "key-2") 20 (lit "thread-1") _ _ H1) as [h2 H2].
  exact (demo_reachable demo_message_command (lit "key-3") 30 (lit "message-1") _ _ H2).
Qed.

Lemma workspace_consistent_witness :
  sequences_ok (WorkspaceState.messages demo_store3) ∧
  Message.sequence <$> WorkspaceState.messages demo_store3 !! mk_id (lit "message-1") = Some 1.
Proof.
  split; [|vm_compute; reflexivity]. destruct demo_store_reachable as [h Hr].
  exact (proj1 (proj2 (proj2 (proj2 (proj2 (workspace_consistent _ _ Hr)))))).
Defined.

Lemma workspace_no_lost_update_witness :
  ∃ h, ws_reachable (World demo_store3 h) ∧
    ∀ x, x ∈ held_projects h →
      ∃ y, WorkspaceState.projects demo_store3 !! Project.id x = Some y ∧ rtc edit x y.
Proof.
  destruct demo_store_reachable as [h Hr]. exists h. split; [exact Hr|].
  exact (proj1 (workspace_no_lost_update _ _ Hr)).
Defined.

Lemma workspace_command_once_witness :
  ∃ e e', workspace_apply demo_message_command (lit "key-3") 99 (lit "message-2") demo_store3
    = (demo_store3, Ok e') ∧ entity_evolves e e'.
Proof.
  destruct (demo_reachable (CmdCreateProject (CreateProject.mk (lit "Research") [])) (lit "key-1")
    10 (lit "project-1") WorkspaceState.empty no_snapshots) as [h1 H1]; [apply rtc_refl|].
  destruct (demo_reachable (CmdCreateThread (CreateThread.mk (lit "project-1") (lit "Plan")))
    (lit "key-2") 20 (lit "thread-1") _ _ H1) as [h2 H2].
  destruct (workspace_apply demo_message_command (lit "key-3") 30 (lit "message-1") demo_store2)
    as [s3 r] eqn:E.
  assert (Es : s3 = demo_store3) by (unfold demo_store3, demo_apply; rewrite E; reflexivity).
  destruct r as [e|err]; [|apply (f_equal snd) in E; vm_compute in E; discriminate E].
  destruct (workspace_command_once _ _ _ _ _ _ _ _ H2 E) as (h3 & _ & Hrep).
  destruct (Hrep s3 h3 (rtc_refl _ _) 99 (lit "message-2")) as [(e' & He' & Hev) _].
  exists e, e'. rewrite <- Es. split; [exact He'|exact Hev].
Defined.

Lemma workspace_pages_tile_witness :
  collect (λ c, answer (WorkspaceService.list_messages (mk_id (lit "thread-1")) c 1) demo_store3)
    2 None = Some (numbered_messages demo_store3 (mk_id (lit "thread-1"))) ∧
  length (numbered_messages demo_store3 (mk_id (lit "thread-1"))) = 1%nat.
Proof.
  destruct demo_store_reachable as [h Hr].
  assert (Hn : length (numbered_messages demo_store3 (mk_id (lit "thread-1"))) = 1%nat)
    by (vm_compute; reflexivity).
  split; [|exact Hn].
  pose proof (proj2 (proj2 (workspace_pages_tile demo_store3 h 1 Hr
    ltac:(unfold is_page_limit, MAX_PAGE_SIZE; lia))) (mk_id (lit "thread-1"))) as Hp.
  rewrite Hn in Hp. apply Hp. vm_compute. eexists. reflexivity.
Defined.
