(* ===== verification/SchedulerStore.v ===== *)
(** * The automation scheduler journal

    The persistence port of the scheduler ([crates/grok-application/src/
    automation_scheduler.rs], [AutomationSchedulerStore]) as a class of operations, and
    its in-memory implementation ([crates/grok-memory/src/lib.rs],
    [impl AutomationSchedulerStore for InMemoryExecutionStore]) as an instance. The
    journal writes runs and their audit events, threads, messages and automation
    history as well, so its state contains the execution and the workspace state. Every
    operation holds the store's lock, so it is one atomic step. *)
From stdpp Require Import sorting.
From S2P Require Import Prelude RustText Ids Runs Approvals Effects ConversationTurns TurnEvents Schedules Scheduler Workspace ExecutionStore Commands WorkspaceStore.

Definition MAX_AUTOMATION_SCHEDULER_TICK_DEFINITIONS : Z := 100.
Definition MAX_AUTOMATION_SCHEDULER_RECOVERY_BATCH : Z := 100.
Definition AUTOMATION_SCHEDULER_LEASE_TTL_MS : Z := 30000.
Definition MAX_AUTOMATION_SCHEDULER_EVALUATION_OCCURRENCES : Z := 3.
Definition AUTOMATION_SCHEDULER_EVALUATION_WINDOW_MS : Z := 180 * 86400000.

(** ** The port *)

Module AutomationSchedulerLeaseAcquisition.
Inductive t : Type :=
| Acquired (lease : AutomationSchedulerLease.t) (continuous : bool) (continuity_started_at : Z)
| Busy (lease : AutomationSchedulerLease.t)
| ClockRegressed (durable_floor : Z).
End AutomationSchedulerLeaseAcquisition.

Module AutomationScheduleCandidate.
Record t : Type := mk {
  automation : Automation.t; cursor : option AutomationScheduleCursor.t }.
End AutomationScheduleCandidate.

Module AutomationScheduleEvaluationCommit.
Record t : Type := mk {
  lease : AutomationSchedulerLeaseToken.t;
  expected_automation_revision : Z;
  expected_cursor_revision : option Z;
  cursor : AutomationScheduleCursor.t;
  occurrences : list AutomationOccurrence.t;
  observed_at : Z;
  command : MutationCommand.t;
}.
End AutomationScheduleEvaluationCommit.

Module AutomationScheduleEvaluationResult.
Record t : Type := mk {
  cursor : AutomationScheduleCursor.t; occurrences : list AutomationOccurrence.t }.
End AutomationScheduleEvaluationResult.

Module AutomationOccurrenceClaimCompletion.
Inductive t : Type := ExpiredUnlinked | RunLinked | AttemptsExhausted | Terminalized.
#[global] Instance eq_dec : EqDecision t.
Proof. solve_decision. Defined.
End AutomationOccurrenceClaimCompletion.

Module AutomationOccurrenceClaimAttempt.
Record t : Type := mk {
  occurrence_id : AutomationOccurrenceId;
  sequence : Z;
  owner_id : AutomationSchedulerOwnerId;
  fence : Z;
  claimed_at : Z;
  expires_at : Z;
  completed_at : option Z;
  completion : option AutomationOccurrenceClaimCompletion.t;
  request_fingerprint : digest;
}.
#[global] Instance eta : Eta t := λ x,
  mk (occurrence_id x) (sequence x) (owner_id x) (fence x) (claimed_at x) (expires_at x)
     (completed_at x) (completion x) (request_fingerprint x).
End AutomationOccurrenceClaimAttempt.

Module ClaimAutomationOccurrence.
Record t : Type := mk {
  lease : AutomationSchedulerLeaseToken.t;
  occurrence_id : AutomationOccurrenceId;
  expected_revision : Z;
  claimed_at : Z;
  expires_at : Z;
  command : MutationCommand.t;
}.
End ClaimAutomationOccurrence.

Module AutomationOccurrenceDispatch.
Record t : Type := mk {
  claim : ClaimAutomationOccurrence.t; thread : Thread.t; prompt : Message.t; run : Run.t }.
End AutomationOccurrenceDispatch.

Module AutomationOccurrenceRunCompletion.
Inductive t : Type := Succeeded | Failed | InterruptedNeedsReview | Cancelled.
End AutomationOccurrenceRunCompletion.

Module AutomationSchedulerRecoverySummary.
Record t : Type := mk {
  released_unlinked : Z; interrupted_linked : Z; attempts_exhausted : Z;
  resumable_bound_queued : Z; truncated : bool }.
#[global] Instance eta : Eta t := λ x,
  mk (released_unlinked x) (interrupted_linked x) (attempts_exhausted x)
     (resumable_bound_queued x) (truncated x).
End AutomationSchedulerRecoverySummary.

Module AutomationSchedulerJournalStatus.
Record t : Type := mk {
  lease : option AutomationSchedulerLease.t; cursor_count : Z; pending_count : Z;
  queued_overlap_count : Z; claimed_count : Z; run_linked_count : Z; needs_review_count : Z }.
#[global] Instance eta : Eta t := λ x,
  mk (lease x) (cursor_count x) (pending_count x) (queued_overlap_count x) (claimed_count x)
     (run_linked_count x) (needs_review_count x).
End AutomationSchedulerJournalStatus.

Class AutomationSchedulerStore (S : Type) := {
  acquire_automation_scheduler_lease :
    AutomationSchedulerOwnerId → Z → Z →
    method S StoreError AutomationSchedulerLeaseAcquisition.t;
  list_automation_schedule_candidates :
    option AutomationId → Z → method S StoreError (list AutomationScheduleCandidate.t);
  commit_automation_schedule_evaluation :
    AutomationScheduleEvaluationCommit.t →
    method S StoreError AutomationScheduleEvaluationResult.t;
  get_automation_occurrence :
    AutomationOccurrenceId → method S StoreError AutomationOccurrence.t;
  list_automation_occurrences :
    AutomationId → option AutomationOccurrenceId → Z →
    method S StoreError (list AutomationOccurrence.t);
  claim_automation_occurrence :
    ClaimAutomationOccurrence.t → method S StoreError AutomationOccurrence.t;
  claim_and_bind_automation_occurrence :
    AutomationOccurrenceDispatch.t → method S StoreError AutomationOccurrenceDispatchResult.t;
  list_resumable_automation_dispatches :
    option AutomationOccurrenceId → Z →
    method S StoreError (list AutomationOccurrenceDispatchResult.t);
  begin_automation_occurrence_run :
    AutomationOccurrenceId → Z → RunId → Z → Z →
    method S StoreError AutomationOccurrenceDispatchResult.t;
  complete_automation_occurrence_run :
    AutomationOccurrenceId → Z → RunId → AutomationOccurrenceRunCompletion.t → Z →
    method S StoreError AutomationOccurrence.t;
  recover_automation_occurrence_claims :
    AutomationSchedulerLeaseToken.t → Z → Z →
    method S StoreError AutomationSchedulerRecoverySummary.t;
  automation_scheduler_journal_status :
    method S StoreError AutomationSchedulerJournalStatus.t;
  link_automation_occurrence_run :
    AutomationSchedulerLeaseToken.t → AutomationOccurrenceId → Z → RunId → Z →
    method S StoreError AutomationOccurrence.t;
}.

(** [automation_occurrence_is_active]. *)
Definition automation_occurrence_is_active (state : AutomationOccurrenceState.t) : bool :=
  match state with
  | AutomationOccurrenceState.Pending | AutomationOccurrenceState.Claimed
  | AutomationOccurrenceState.RunLinked => true
  | _ => false
  end.

(** ** In-memory state *)

Module AutomationScheduleEvaluationCommandRecord.
Record t : Type := mk { fingerprint : digest; outcome : AutomationScheduleEvaluationResult.t }.
End AutomationScheduleEvaluationCommandRecord.
Module AutomationOccurrenceClaimCommandRecord.
Record t : Type := mk {
  fingerprint : digest; occurrence_id : AutomationOccurrenceId;
  outcome : AutomationOccurrence.t }.
End AutomationOccurrenceClaimCommandRecord.

Definition AUTOMATION_EVALUATION_SCOPE : str := lit "automation_scheduler_evaluate_v1".
Definition AUTOMATION_CLAIM_SCOPE : str := lit "automation_scheduler_claim_v1".
Definition MAX_AUTOMATION_OCCURRENCE_PAGE_SIZE : Z := 100.
Definition AUTOMATION_SKIPPED_MISSED_SUMMARY : str := lit "Skipped by missed-run policy.".
Definition AUTOMATION_SKIPPED_OVERLAP_SUMMARY : str := lit "Skipped by overlap policy.".

(** The maps of [State] the scheduler port reads or writes: those of the execution and
    workspace ports, and its own. *)
Module SchedulerState.
Record t : Type := mk {
  execution : State.t;
  workspace : WorkspaceState.t;
  automation_scheduler_lease : option AutomationSchedulerLease.t;
  automation_schedule_evaluation_commands :
    gmap (str * str) AutomationScheduleEvaluationCommandRecord.t;
  automation_occurrences : gmap AutomationOccurrenceId AutomationOccurrence.t;
  automation_occurrence_claim_attempts :
    gmap AutomationOccurrenceId (list AutomationOccurrenceClaimAttempt.t);
  automation_occurrence_claim_commands :
    gmap (str * str) AutomationOccurrenceClaimCommandRecord.t;
}.
#[global] Instance eta : Eta t := λ s,
  mk (execution s) (workspace s) (automation_scheduler_lease s)
     (automation_schedule_evaluation_commands s) (automation_occurrences s)
     (automation_occurrence_claim_attempts s) (automation_occurrence_claim_commands s).
Definition empty : t := mk State.empty WorkspaceState.empty None ∅ ∅ ∅ ∅.
(** The maps of the two contained states the journal uses. *)
Definition runs (s : t) : gmap RunId Run.t := State.runs (execution s).
Definition projects (s : t) : gmap ProjectId Project.t := WorkspaceState.projects (workspace s).
Definition threads (s : t) : gmap ThreadId Thread.t := WorkspaceState.threads (workspace s).
Definition messages (s : t) : gmap MessageId Message.t := WorkspaceState.messages (workspace s).
Definition automations (s : t) : gmap AutomationId Automation.t :=
  WorkspaceState.automations (workspace s).
Definition automation_schedule_cursors (s : t) : gmap AutomationId AutomationScheduleCursor.t :=
  WorkspaceState.automation_schedule_cursors (workspace s).
Definition automation_history (s : t) : gmap AutomationId (list AutomationHistoryEntry.t) :=
  WorkspaceState.automation_history (workspace s).
Definition automation_occurrence_dispatches (s : t) :
    gmap AutomationOccurrenceId AutomationOccurrenceDispatchResult.t :=
  WorkspaceState.automation_occurrence_dispatches (workspace s).
End SchedulerState.

Abbreviation SS := SchedulerState.t.

(** The [insert] calls on the maps. *)
Section writes.
Import SchedulerState.
Definition put_lease (lease : AutomationSchedulerLease.t) : method SS StoreError unit :=
  assign (λ s, s <| automation_scheduler_lease := Some lease |>).
Definition put_occurrence (x : AutomationOccurrence.t) : method SS StoreError unit :=
  assign (λ s, s <| automation_occurrences :=
    <[AutomationOccurrence.id x := x]> (automation_occurrences s) |>).
Definition put_attempts (id : AutomationOccurrenceId)
    (attempts : list AutomationOccurrenceClaimAttempt.t) : method SS StoreError unit :=
  assign (λ s, s <| automation_occurrence_claim_attempts :=
    <[id := attempts]> (automation_occurrence_claim_attempts s) |>).
Definition put_claim_command (key : str * str) (record : AutomationOccurrenceClaimCommandRecord.t) :
    method SS StoreError unit :=
  assign (λ s, s <| automation_occurrence_claim_commands :=
    <[key := record]> (automation_occurrence_claim_commands s) |>).
Definition put_run (run : Run.t) : method SS StoreError unit :=
  assign (λ s, s <| execution := (execution s) <| State.runs :=
    <[Run.id run := run]> (State.runs (execution s)) |> |>).
Definition put_events (run_id : RunId) (events : list NewRunEvent.t) : method SS StoreError unit :=
  assign (λ s, s <| execution := append_events run_id events (execution s) |>).
Definition in_workspace (f : WS → WS) : method SS StoreError unit :=
  assign (λ s, s <| workspace := f (workspace s) |>).
Definition put_thread (thread : Thread.t) : method SS StoreError unit :=
  in_workspace (λ w, w <| WorkspaceState.threads :=
    <[Thread.id thread := thread]> (WorkspaceState.threads w) |>).
Definition put_message (message : Message.t) : method SS StoreError unit :=
  in_workspace (λ w, w <| WorkspaceState.messages :=
    <[Message.id message := message]> (WorkspaceState.messages w) |>).
Definition put_dispatch (id : AutomationOccurrenceId)
    (binding : AutomationOccurrenceDispatchResult.t) : method SS StoreError unit :=
  in_workspace (λ w, w <| WorkspaceState.automation_occurrence_dispatches :=
    <[id := binding]> (WorkspaceState.automation_occurrence_dispatches w) |>).
Definition put_cursor (cursor : AutomationScheduleCursor.t) (id : AutomationId) :
    method SS StoreError unit :=
  in_workspace (λ w, w <| WorkspaceState.automation_schedule_cursors :=
    <[id := cursor]> (WorkspaceState.automation_schedule_cursors w) |>).
Definition put_history (id : AutomationId) (history : list AutomationHistoryEntry.t) :
    method SS StoreError unit :=
  in_workspace (λ w, w <| WorkspaceState.automation_history :=
    <[id := history]> (WorkspaceState.automation_history w) |>).
End writes.

(** ** Checks *)

(** [invalid_automation_scheduler_journal]. *)
Definition invalid_automation_scheduler_journal : StoreError :=
  Internal (lit "invalid durable automation scheduler journal").
(** [map_err(|_| StoreError::Conflict)] and [map_err(|_| invalid_.._journal())]. *)
Definition or_conflict {E A} (r : result E A) : result StoreError A := map_err (λ _, Conflict) r.
Definition or_invalid {E A} (r : result E A) : result StoreError A :=
  map_err (λ _, invalid_automation_scheduler_journal) r.

(** The derived order on [AutomationLocalDateTime], lexicographic in its fields. *)
Definition local_ltb (x y : AutomationLocalDateTime.t) : bool :=
  let '(AutomationLocalDateTime.mk y1 m1 d1 h1 i1) := x in
  let '(AutomationLocalDateTime.mk y2 m2 d2 h2 i2) := y in
  if y1 =? y2 then if m1 =? m2 then if d1 =? d2 then if h1 =? h2 then i1 <? i2
  else h1 <? h2 else d1 <? d2 else m1 <? m2 else y1 <? y2.

(** [Iterator::max]. *)
Definition max_of (l : list Z) : option Z :=
  match l with [] => None | x :: l' => Some (foldl Z.max x l') end.

(** [a.as_str() > b.as_str()]. *)
Definition str_after (a b : str) : bool := negb (str_leb a b).

(** [validate_scheduler_command]. *)
Definition validate_scheduler_command (command : MutationCommand.t) (expected_scope : str) :
    result StoreError unit :=
  reject_if ((MutationCommand.scope command != expected_scope)
             || is_empty (MutationCommand.key command)
             || (128 <? len (MutationCommand.key command))
             || existsb is_control (MutationCommand.key command)) Conflict.
Definition command_key (command : MutationCommand.t) : str * str :=
  (MutationCommand.scope command, MutationCommand.key command).

(** [require_automation_scheduler_lease]. *)
Definition require_automation_scheduler_lease (s : SS)
    (token : AutomationSchedulerLeaseToken.t) (now : Z) :
    result StoreError AutomationSchedulerLease.t :=
  lease ← ok_or Conflict (SchedulerState.automation_scheduler_lease s);
  _ ← or_invalid (AutomationSchedulerLease.restore lease);
  _ ← reject_if ((AutomationSchedulerLease.owner_id lease
                  != AutomationSchedulerLeaseToken.owner_id token)
                 || (AutomationSchedulerLease.fence lease
                     != AutomationSchedulerLeaseToken.fence token)
                 || (now <? AutomationSchedulerLease.renewed_at lease)
                 || negb (AutomationSchedulerLease.is_valid_at lease now)) Conflict;
  Ok lease.

(** [validate_automation_history_sequence]; the index counts from [index]. *)
Fixpoint validate_automation_history_sequence_from (index : Z)
    (history : list AutomationHistoryEntry.t) : result StoreError unit :=
  match history with
  | [] => Ok tt
  | entry :: history' =>
      _ ← reject_if (AutomationHistoryEntry.sequence entry != saturating_add u64_max index 1)
            invalid_automation_scheduler_journal;
      validate_automation_history_sequence_from (index + 1) history'
  end.
Definition validate_automation_history_sequence :
    list AutomationHistoryEntry.t → result StoreError unit :=
  validate_automation_history_sequence_from 0.

(** [stage_scheduler_history]: the extended history. *)
Definition scheduler_history_entry (state : AutomationOccurrenceState.t) :
    option (AutomationHistoryStatus.t * str) :=
  match state with
  | AutomationOccurrenceState.SkippedMissed =>
      Some (AutomationHistoryStatus.SkippedMissed, AUTOMATION_SKIPPED_MISSED_SUMMARY)
  | AutomationOccurrenceState.SkippedOverlap =>
      Some (AutomationHistoryStatus.SkippedOverlap, AUTOMATION_SKIPPED_OVERLAP_SUMMARY)
  | _ => None
  end.
Definition stage_scheduler_history (history : list AutomationHistoryEntry.t)
    (occurrence : AutomationOccurrence.t) (recorded_at : Z) :
    result StoreError (list AutomationHistoryEntry.t) :=
  match scheduler_history_entry (AutomationOccurrence.state occurrence) with
  | None => Ok history
  | Some (status, summary) =>
      scheduled_for ← ok_or invalid_automation_scheduler_journal
                        (AutomationOccurrence.scheduled_for occurrence);
      match find (λ e, AutomationHistoryEntry.scheduled_for e =? scheduled_for) history with
      | Some existing =>
          if (AutomationHistoryEntry.automation_id existing
              == AutomationOccurrence.automation_id occurrence)
             && (AutomationHistoryEntry.recorded_at existing =? recorded_at)
             && (AutomationHistoryEntry.status existing == status)
             && (AutomationHistoryEntry.summary existing == summary)
          then Ok history else Err Conflict
      | None =>
          entry ← or_conflict (AutomationHistoryEntry.new
                    (AutomationOccurrence.automation_id occurrence) scheduled_for recorded_at
                    status summary);
          sequence ← ok_or invalid_automation_scheduler_journal
                       (checked_add u64_max (Z.of_nat (length history)) 1);
          Ok (history ++ [entry <| AutomationHistoryEntry.sequence := sequence |>])
      end
  end.

(** The loop of [validate_claim_attempt_sequence]: the number of open attempts. *)
Definition attempt_malformed (occurrence : AutomationOccurrence.t) (sequence : Z)
    (attempt : AutomationOccurrenceClaimAttempt.t) : bool :=
  (AutomationOccurrenceClaimAttempt.occurrence_id attempt != AutomationOccurrence.id occurrence)
  || (AutomationOccurrenceClaimAttempt.sequence attempt != sequence)
  || (MAX_AUTOMATION_OCCURRENCE_CLAIM_ATTEMPTS <? AutomationOccurrenceClaimAttempt.sequence attempt)
  || (AutomationOccurrenceClaimAttempt.fence attempt =? 0)
  || (AutomationOccurrenceClaimAttempt.expires_at attempt
      <=? AutomationOccurrenceClaimAttempt.claimed_at attempt)
  || (MAX_AUTOMATION_SCHEDULER_LEASE_MS
      <? AutomationOccurrenceClaimAttempt.expires_at attempt
         - AutomationOccurrenceClaimAttempt.claimed_at attempt)
  || negb (eqb (is_none (AutomationOccurrenceClaimAttempt.completed_at attempt))
               (is_none (AutomationOccurrenceClaimAttempt.completion attempt)))
  || match AutomationOccurrenceClaimAttempt.completed_at attempt with
     | Some completed_at => completed_at <? AutomationOccurrenceClaimAttempt.claimed_at attempt
     | None => false
     end.
Definition attempt_mismatch (occurrence : AutomationOccurrence.t)
    (attempt : AutomationOccurrenceClaimAttempt.t) : bool :=
  match AutomationOccurrence.claim_of occurrence with
  | None => true
  | Some claim =>
      (AutomationOccurrenceClaimAttempt.sequence attempt
       != AutomationOccurrence.claim_attempt_count occurrence)
      || (AutomationOccurrenceClaimAttempt.owner_id attempt != AutomationOccurrenceClaim.owner_id claim)
      || (AutomationOccurrenceClaimAttempt.fence attempt != AutomationOccurrenceClaim.fence claim)
      || (AutomationOccurrenceClaimAttempt.claimed_at attempt
          != AutomationOccurrenceClaim.claimed_at claim)
      || (AutomationOccurrenceClaimAttempt.expires_at attempt
          != AutomationOccurrenceClaim.expires_at claim)
  end.
Fixpoint open_attempts_from (occurrence : AutomationOccurrence.t) (index open_count : Z)
    (attempts : list AutomationOccurrenceClaimAttempt.t) : result StoreError Z :=
  match attempts with
  | [] => Ok open_count
  | attempt :: attempts' =>
      sequence ← ok_or invalid_automation_scheduler_journal (checked_add u32_max index 1);
      _ ← reject_if (attempt_malformed occurrence sequence attempt)
            invalid_automation_scheduler_journal;
      open_count ←
        (if is_none (AutomationOccurrenceClaimAttempt.completed_at attempt) then
           _ ← reject_if (attempt_mismatch occurrence attempt) invalid_automation_scheduler_journal;
           Ok (saturating_add usize_max open_count 1)
         else Ok open_count);
      open_attempts_from occurrence (index + 1) open_count attempts'
  end.

(** Whether the last attempt ended by linking a run. *)
Definition last_sealed (attempts : list AutomationOccurrenceClaimAttempt.t) : bool :=
  match last attempts with
  | Some attempt =>
      (AutomationOccurrenceClaimAttempt.completion attempt
       == Some AutomationOccurrenceClaimCompletion.RunLinked)
      && is_some (AutomationOccurrenceClaimAttempt.completed_at attempt)
  | None => false
  end.

(** [validate_claim_attempt_sequence]. *)
Definition validate_claim_attempt_sequence (occurrence : AutomationOccurrence.t)
    (attempts : list AutomationOccurrenceClaimAttempt.t) : result StoreError unit :=
  _ ← reject_if (Z.of_nat (length attempts) != AutomationOccurrence.claim_attempt_count occurrence)
        invalid_automation_scheduler_journal;
  open_count ← open_attempts_from occurrence 0 0 attempts;
  let claim_attempt_shape_valid :=
    match AutomationOccurrence.state occurrence with
    | AutomationOccurrenceState.Claimed => open_count =? 1
    | AutomationOccurrenceState.RunLinked =>
        (open_count =? 1) || ((open_count =? 0) && last_sealed attempts)
    | _ => open_count =? 0
    end in
  reject_if ((1 <? open_count) || negb claim_attempt_shape_valid)
    invalid_automation_scheduler_journal.

(** [complete_claim_attempt]. *)
Definition complete_claim_attempt (occurrence : AutomationOccurrence.t)
    (attempts : list AutomationOccurrenceClaimAttempt.t)
    (completion : AutomationOccurrenceClaimCompletion.t) (completed_at : Z) :
    result StoreError (list AutomationOccurrenceClaimAttempt.t) :=
  _ ← validate_claim_attempt_sequence occurrence attempts;
  attempt ← ok_or invalid_automation_scheduler_journal (last attempts);
  _ ← reject_if (is_some (AutomationOccurrenceClaimAttempt.completed_at attempt)
                 || is_some (AutomationOccurrenceClaimAttempt.completion attempt))
        invalid_automation_scheduler_journal;
  Ok (removelast attempts ++
      [attempt <| AutomationOccurrenceClaimAttempt.completed_at := Some completed_at |>
               <| AutomationOccurrenceClaimAttempt.completion := Some completion |>]).

(** [sole_queued_occurrence]. *)
Definition queued_occurrences (s : SS) (automation_id : AutomationId) :
    list AutomationOccurrence.t :=
  filter (λ x, AutomationOccurrence.automation_id x = automation_id ∧
               AutomationOccurrence.state x = AutomationOccurrenceState.QueuedOverlap)
    (InMemory.values (SchedulerState.automation_occurrences s)).
Definition sole_queued_occurrence (s : SS) (automation_id : AutomationId) :
    result StoreError (option AutomationOccurrence.t) :=
  match queued_occurrences s automation_id with
  | [] => Ok None
  | [x] => Ok (Some x)
  | _ :: _ :: _ => Err invalid_automation_scheduler_journal
  end.

(** [automation_scheduler_durable_floor]. *)
Definition automation_scheduler_durable_floor (s : SS) : option Z :=
  max_of
    (option_list (AutomationSchedulerLease.renewed_at
                  <$> SchedulerState.automation_scheduler_lease s)
     ++ flat_map (λ c, [AutomationScheduleCursor.evaluated_through c;
                        AutomationScheduleCursor.updated_at c])
          (InMemory.values (SchedulerState.automation_schedule_cursors s))
     ++ map AutomationOccurrence.updated_at
          (InMemory.values (SchedulerState.automation_occurrences s))
     ++ flat_map (λ a, AutomationOccurrenceClaimAttempt.claimed_at a
                       :: option_list (AutomationOccurrenceClaimAttempt.completed_at a))
          (concat (InMemory.values (SchedulerState.automation_occurrence_claim_attempts s)))).

Section checks.
Context {CH : Chrono} {SHA : Sha256}.

(** [automation_scheduler_snapshot]. *)
Definition automation_scheduler_snapshot (automation : Automation.t) :
    result StoreError AutomationExecutionSnapshot.t :=
  _ ← or_invalid (Automation.restore automation);
  or_invalid (AutomationExecutionSnapshot.new (Automation.revision automation)
    (Automation.project_id automation) (Automation.title automation) (Automation.prompt automation)
    (Automation.schedule automation) (Automation.timezone automation)
    (Automation.missed_run_policy automation) (Automation.overlap_policy automation)).

(** [automation_schedule_cursor_is_valid]. *)
Definition automation_schedule_cursor_is_valid (cursor : AutomationScheduleCursor.t)
    (snapshot : AutomationExecutionSnapshot.t) : bool :=
  let expected_next :=
    match AutomationSchedule.next_decision_after (AutomationExecutionSnapshot.schedule snapshot)
            (AutomationExecutionSnapshot.timezone snapshot)
            (AutomationScheduleCursor.evaluated_through cursor) with
    | Ok next => Some next
    | Err _ => None
    end in
  is_ok (AutomationScheduleCursor.restore cursor)
  && (AutomationScheduleCursor.definition_revision cursor
      =? AutomationExecutionSnapshot.definition_revision snapshot)
  && (AutomationScheduleCursor.schedule_fingerprint cursor
      == AutomationExecutionSnapshot.schedule_fingerprint snapshot)
  && (AutomationScheduleCursor.calculator_version cursor
      =? AutomationExecutionSnapshot.calculator_version snapshot)
  && (AutomationScheduleCursor.next_decision cursor == expected_next).

(** [matching_automation_schedule_cursor]. *)
Definition matching_automation_schedule_cursor (s : SS) (automation : Automation.t)
    (snapshot : AutomationExecutionSnapshot.t) :
    result StoreError (option AutomationScheduleCursor.t) :=
  match SchedulerState.automation_schedule_cursors s !! Automation.id automation with
  | None => Ok None
  | Some cursor =>
      _ ← reject_if
            ((AutomationScheduleCursor.automation_id cursor != Automation.id automation)
             || (AutomationScheduleCursor.definition_revision cursor != Automation.revision automation)
             || (AutomationScheduleCursor.schedule_fingerprint cursor
                 != AutomationExecutionSnapshot.schedule_fingerprint snapshot)
             || (AutomationScheduleCursor.calculator_version cursor
                 != AutomationExecutionSnapshot.calculator_version snapshot))
            invalid_automation_scheduler_journal;
      _ ← reject_if (negb (automation_schedule_cursor_is_valid cursor snapshot))
            invalid_automation_scheduler_journal;
      Ok (Some cursor)
  end.

(** [validate_new_automation_occurrence]. *)
Definition valid_initial_state (snapshot : AutomationExecutionSnapshot.t)
    (occurrence : AutomationOccurrence.t) : bool :=
  match AutomationOccurrence.state occurrence with
  | AutomationOccurrenceState.Pending | AutomationOccurrenceState.SkippedInvalidLocalTime =>
      AutomationOccurrence.revision occurrence =? 0
  | AutomationOccurrenceState.SkippedMissed =>
      (AutomationOccurrence.revision occurrence =? 1)
      && (AutomationExecutionSnapshot.missed_run_policy snapshot == MissedRunPolicy.Skip)
  | _ => false
  end.
Definition validate_new_automation_occurrence (occurrence : AutomationOccurrence.t)
    (automation : Automation.t) (snapshot : AutomationExecutionSnapshot.t)
    (cursor : AutomationScheduleCursor.t) (observed_at : Z) : result StoreError unit :=
  _ ← or_conflict (AutomationOccurrence.restore occurrence);
  reject_if
    (negb (valid_initial_state snapshot occurrence)
     || is_empty (as_str (AutomationOccurrence.id occurrence))
     || (AutomationOccurrence.automation_id occurrence != Automation.id automation)
     || (AutomationOccurrence.snapshot occurrence != snapshot)
     || (AutomationExecutionSnapshot.definition_revision (AutomationOccurrence.snapshot occurrence)
         != Automation.revision automation)
     || (AutomationOccurrence.created_at occurrence != observed_at)
     || (AutomationOccurrence.updated_at occurrence != observed_at)
     || (AutomationOccurrence.claim_attempt_count occurrence != 0)
     || (AutomationOccurrence.occurrence_count occurrence =? 0)
     || (MAX_AUTOMATION_SCHEDULE_DECISIONS <? AutomationOccurrence.occurrence_count occurrence)
     || match AutomationOccurrence.scheduled_for occurrence with
        | Some scheduled_for => AutomationScheduleCursor.evaluated_through cursor <? scheduled_for
        | None => false
        end
     || ((1 <? AutomationOccurrence.occurrence_count occurrence)
         && (AutomationExecutionSnapshot.missed_run_policy snapshot == MissedRunPolicy.Skip)
         && (AutomationOccurrence.state occurrence != AutomationOccurrenceState.SkippedMissed)))
    Conflict.
End checks.

(** ** The in-memory journal *)

Module SchedulerMemory.
Import SchedulerState.
Import AutomationSchedulerLeaseAcquisition.

(** [acquire_automation_scheduler_lease]. *)
Definition acquire_automation_scheduler_lease (owner_id : AutomationSchedulerOwnerId)
    (now ttl_ms : Z) : method SS StoreError AutomationSchedulerLeaseAcquisition.t :=
  _ ← throw_if ((ttl_ms =? 0) || (MAX_AUTOMATION_SCHEDULER_LEASE_MS <? ttl_ms)) Conflict;
  s ← self;
  let regressed :=
    match automation_scheduler_durable_floor s with
    | Some durable_floor => if now <? durable_floor then Some durable_floor else None
    | None => None
    end in
  match regressed, automation_scheduler_lease s with
  | Some durable_floor, _ => mret (ClockRegressed durable_floor)
  | None, None =>
      lease ← lift (or_conflict (AutomationSchedulerLease.acquire owner_id 1 now ttl_ms));
      _ ← put_lease lease;
      mret (Acquired lease false now)
  | None, Some lease =>
      _ ← lift (or_invalid (AutomationSchedulerLease.restore lease));
      if now <? AutomationSchedulerLease.renewed_at lease
      then mret (ClockRegressed (AutomationSchedulerLease.renewed_at lease))
      else if now <? AutomationSchedulerLease.expires_at lease then
        if AutomationSchedulerLease.owner_id lease != owner_id then mret (Busy lease)
        else
          let continuity_started_at := AutomationSchedulerLease.renewed_at lease in
          lease ← lift (moved_copy (λ _, Conflict)
            (AutomationSchedulerLease.renew (AutomationSchedulerLease.token lease) now ttl_ms) lease);
          _ ← put_lease lease;
          mret (Acquired lease true continuity_started_at)
      else
        next_fence ← lift (ok_or invalid_automation_scheduler_journal
                             (checked_add u64_max (AutomationSchedulerLease.fence lease) 1));
        lease ← lift (moved_copy (λ _, Conflict)
          (AutomationSchedulerLease.take_over owner_id next_fence now ttl_ms) lease);
        _ ← put_lease lease;
        mret (Acquired lease false now)
  end.

(** The enabled automations of active projects, as [list_.._candidates] selects them. *)
Definition schedulable (s : SS) (automation : Automation.t) : bool :=
  (Automation.state automation == AutomationState.Enabled)
  && WorkspaceMemory.project_active (workspace s) (Automation.project_id automation).

(** The stored occurrences of one automation. *)
Definition automation_occurrences_of (s : SS) (automation_id : AutomationId) :
    list AutomationOccurrence.t :=
  filter (λ x, AutomationOccurrence.automation_id x = automation_id)
    (InMemory.values (automation_occurrences s)).

(** [Iterator::map] to results and [collect]. *)
Fixpoint collect_results {E A B} (f : A → result E B) (l : list A) : result E (list B) :=
  match l with
  | [] => Ok []
  | x :: l' => y ← f x; ys ← collect_results f l'; Ok (y :: ys)
  end.

Section journal.
Context {CH : Chrono} {SHA : Sha256}.

(** [list_automation_schedule_candidates]. *)
Definition schedule_candidate (s : SS) (automation : Automation.t) :
    result StoreError AutomationScheduleCandidate.t :=
  snapshot ← automation_scheduler_snapshot automation;
  cursor ← matching_automation_schedule_cursor s automation snapshot;
  Ok (AutomationScheduleCandidate.mk automation cursor).
Definition schedulable_automations (s : SS) (after : option AutomationId) : list Automation.t :=
  filter (λ a, match after with
               | Some after => str_after (as_str (Automation.id a)) (as_str after)
               | None => true end = true)
    (InMemory.sort_by_key (λ _, 0) (λ a, as_str (Automation.id a))
       (filter (λ a, schedulable s a = true) (InMemory.values (automations s)))).
Definition list_automation_schedule_candidates (after : option AutomationId) (limit : Z) :
    method SS StoreError (list AutomationScheduleCandidate.t) :=
  _ ← throw_if ((limit =? 0)
                || (saturating_add usize_max MAX_AUTOMATION_SCHEDULER_TICK_DEFINITIONS 1 <? limit))
        Conflict;
  s ← self;
  lift (collect_results (schedule_candidate s)
          (take (Z.to_nat limit) (schedulable_automations s after))).

(** The counting loop of [commit_automation_schedule_evaluation]. *)
Fixpoint count_occurrences (occurrences : list AutomationOccurrence.t)
    (active_count queued_count : Z) : result StoreError (Z * Z) :=
  match occurrences with
  | [] => Ok (active_count, queued_count)
  | occurrence :: occurrences' =>
      _ ← or_invalid (AutomationOccurrence.restore occurrence);
      if automation_occurrence_is_active (AutomationOccurrence.state occurrence)
      then count_occurrences occurrences' (saturating_add usize_max active_count 1) queued_count
      else if AutomationOccurrence.state occurrence == AutomationOccurrenceState.QueuedOverlap
      then count_occurrences occurrences' active_count (saturating_add usize_max queued_count 1)
      else count_occurrences occurrences' active_count queued_count
  end.

(** What the commit checks once and its loop then uses. *)
Record evaluation_context : Type := mk_evaluation {
  ev_automation : Automation.t;
  ev_snapshot : AutomationExecutionSnapshot.t;
  ev_cursor : AutomationScheduleCursor.t;
  ev_allowed_slots : list AutomationLocalDateTime.t;
  ev_observed_at : Z;
}.

(** Overlap adjudication of one pending occurrence. *)
Definition adjudicate (observed_at active_count queued_count : Z) (actual : AutomationOccurrence.t) :
    result StoreError (AutomationOccurrence.t * Z * Z) :=
  if AutomationOccurrence.state actual == AutomationOccurrenceState.Pending then
    if active_count =? 0 then Ok (actual, 1, queued_count)
    else
      match AutomationExecutionSnapshot.overlap_policy (AutomationOccurrence.snapshot actual) with
      | OverlapPolicy.QueueOne =>
          if queued_count =? 0 then
            actual ← moved_copy (λ _, Conflict) (AutomationOccurrence.queue_overlap observed_at) actual;
            Ok (actual, active_count, 1)
          else
            actual ← moved_copy (λ _, Conflict) (AutomationOccurrence.skip_overlap observed_at) actual;
            Ok (actual, active_count, queued_count)
      | OverlapPolicy.Skip =>
          actual ← moved_copy (λ _, Conflict) (AutomationOccurrence.skip_overlap observed_at) actual;
          Ok (actual, active_count, queued_count)
      end
  else Ok (actual, active_count, queued_count).

(** The loop over the proposed occurrences. *)
Fixpoint stage_occurrences (s : SS) (ctx : evaluation_context)
    (proposals : list AutomationOccurrence.t) (active_count queued_count : Z)
    (proposed_slots : list AutomationOccurrenceSlot.t)
    (prior_local : option AutomationLocalDateTime.t) :
    result StoreError (list AutomationOccurrence.t) :=
  match proposals with
  | [] => Ok []
  | proposed :: proposals' =>
      _ ← validate_new_automation_occurrence proposed (ev_automation ctx) (ev_snapshot ctx)
            (ev_cursor ctx) (ev_observed_at ctx);
      _ ← reject_if
            (match prior_local with
             | Some prior => negb (local_ltb prior (AutomationOccurrence.nominal_local proposed))
             | None => false
             end
             || negb (bool_decide (AutomationOccurrence.nominal_local proposed
                                   ∈ ev_allowed_slots ctx))
             || bool_decide (AutomationOccurrence.slot proposed ∈ proposed_slots)
             || is_some (automation_occurrences s !! AutomationOccurrence.id proposed)
             || existsb (λ stored,
                  (AutomationOccurrence.automation_id stored
                   == AutomationOccurrence.automation_id proposed)
                  && (AutomationOccurrence.slot stored == AutomationOccurrence.slot proposed))
                  (InMemory.values (automation_occurrences s)))
            Conflict;
      '(actual, active_count, queued_count) ←
        adjudicate (ev_observed_at ctx) active_count queued_count proposed;
      staged ← stage_occurrences s ctx proposals' active_count queued_count
                 (AutomationOccurrence.slot proposed :: proposed_slots)
                 (Some (AutomationOccurrence.nominal_local proposed));
      Ok (actual :: staged)
  end.

(** The loop over the staged occurrences that extends the history. *)
Fixpoint stage_histories (history : list AutomationHistoryEntry.t)
    (occurrences : list AutomationOccurrence.t) (recorded_at : Z) :
    result StoreError (list AutomationHistoryEntry.t) :=
  match occurrences with
  | [] => Ok history
  | occurrence :: occurrences' =>
      history ← stage_scheduler_history history occurrence recorded_at;
      stage_histories history occurrences' recorded_at
  end.

(** The slots the schedule has between the stored cursor and the new one. *)
Definition evaluation_slots (snapshot : AutomationExecutionSnapshot.t)
    (prior_evaluated_through : option Z) (evaluated_through : Z) :
    result StoreError (list AutomationLocalDateTime.t) :=
  match prior_evaluated_through with
  | Some prior =>
      calculation ← or_conflict (AutomationSchedule.decisions_between
        (AutomationExecutionSnapshot.schedule snapshot)
        (AutomationExecutionSnapshot.timezone snapshot) prior evaluated_through
        MAX_AUTOMATION_SCHEDULE_DECISIONS);
      _ ← reject_if (AutomationScheduleEvaluation.truncated calculation) Conflict;
      Ok (map AutomationScheduleDecision.nominal_local
            (AutomationScheduleEvaluation.decisions calculation))
  | None => Ok []
  end.

Import AutomationScheduleEvaluationCommit.

(** The cursor the store itself computes from the stored one. *)
Definition expected_evaluation_cursor (evaluation : AutomationScheduleEvaluationCommit.t)
    (automation : Automation.t) (snapshot : AutomationExecutionSnapshot.t)
    (current_cursor : option AutomationScheduleCursor.t) :
    result StoreError AutomationScheduleCursor.t :=
  let through := AutomationScheduleCursor.evaluated_through (cursor evaluation) in
  let next := AutomationScheduleCursor.next_decision (cursor evaluation) in
  match current_cursor with
  | Some current =>
      moved_copy (λ _, Conflict)
        (AutomationScheduleCursor.advance through next (observed_at evaluation)) current
  | None =>
      or_conflict (AutomationScheduleCursor.new (Automation.id automation) snapshot through next
                     (observed_at evaluation))
  end.

(** The checks of the commit up to the staging loop. *)
Definition check_evaluation (s : SS) (evaluation : AutomationScheduleEvaluationCommit.t) :
    result StoreError evaluation_context :=
  _ ← require_automation_scheduler_lease s (lease evaluation) (observed_at evaluation);
  _ ← reject_if (MAX_AUTOMATION_SCHEDULER_EVALUATION_OCCURRENCES
                 <? Z.of_nat (length (occurrences evaluation))) Conflict;
  automation ← ok_or NotFound
    (automations s !! AutomationScheduleCursor.automation_id (cursor evaluation));
  _ ← reject_if ((Automation.state automation != AutomationState.Enabled)
                 || (Automation.revision automation != expected_automation_revision evaluation)
                 || negb (WorkspaceMemory.project_active (workspace s)
                            (Automation.project_id automation))) Conflict;
  snapshot ← automation_scheduler_snapshot automation;
  current_cursor ← matching_automation_schedule_cursor s automation snapshot;
  _ ← reject_if ((AutomationScheduleCursor.revision <$> current_cursor)
                 != expected_cursor_revision evaluation) Conflict;
  _ ← reject_if (is_none current_cursor
                 && ((AutomationScheduleCursor.evaluated_through (cursor evaluation)
                      != Automation.updated_at automation)
                     || negb (is_empty (occurrences evaluation)))) Conflict;
  expected_cursor ← expected_evaluation_cursor evaluation automation snapshot current_cursor;
  _ ← reject_if (expected_cursor != cursor evaluation) Conflict;
  _ ← reject_if (negb (automation_schedule_cursor_is_valid (cursor evaluation) snapshot)) Conflict;
  allowed_slots ← evaluation_slots snapshot
    (AutomationScheduleCursor.evaluated_through <$> current_cursor)
    (AutomationScheduleCursor.evaluated_through (cursor evaluation));
  Ok (mk_evaluation automation snapshot (cursor evaluation) allowed_slots (observed_at evaluation)).

(** [commit_automation_schedule_evaluation]. *)
Definition commit_automation_schedule_evaluation
    (evaluation : AutomationScheduleEvaluationCommit.t) :
    method SS StoreError AutomationScheduleEvaluationResult.t :=
  _ ← lift (validate_scheduler_command (command evaluation) AUTOMATION_EVALUATION_SCOPE);
  s ← self;
  match automation_schedule_evaluation_commands s !! command_key (command evaluation) with
  | Some record =>
      if (AutomationScheduleEvaluationCommandRecord.fingerprint record
          == MutationCommand.fingerprint (command evaluation))
         && (AutomationScheduleCursor.automation_id (AutomationScheduleEvaluationResult.cursor
               (AutomationScheduleEvaluationCommandRecord.outcome record))
             == AutomationScheduleCursor.automation_id (cursor evaluation))
      then mret (AutomationScheduleEvaluationCommandRecord.outcome record)
      else throw Conflict
  | None =>
      ctx ← lift (check_evaluation s evaluation);
      let automation := ev_automation ctx in
      '(active_count, queued_count) ← lift (count_occurrences
        (automation_occurrences_of s (Automation.id automation)) 0 0);
      _ ← throw_if ((1 <? active_count) || (1 <? queued_count)
                    || ((active_count =? 0) && negb (queued_count =? 0)))
            invalid_automation_scheduler_journal;
      staged_occurrences ← lift (stage_occurrences s ctx (occurrences evaluation)
                                   active_count queued_count [] None);
      let history := default [] (automation_history s !! Automation.id automation) in
      _ ← lift (validate_automation_history_sequence history);
      staged_history ← lift (stage_histories history staged_occurrences (observed_at evaluation));
      let outcome := AutomationScheduleEvaluationResult.mk (cursor evaluation) staged_occurrences in
      _ ← put_cursor (cursor evaluation) (Automation.id automation);
      _ ← assign (λ s, s <| automation_occurrences :=
            foldl (λ m x, <[AutomationOccurrence.id x := x]> m) (automation_occurrences s)
              staged_occurrences |>);
      _ ← (if is_empty staged_history then mret tt
           else put_history (Automation.id automation) staged_history);
      _ ← assign (λ s, s <| automation_schedule_evaluation_commands :=
            <[command_key (command evaluation) := AutomationScheduleEvaluationCommandRecord.mk
                (MutationCommand.fingerprint (command evaluation)) outcome]>
              (automation_schedule_evaluation_commands s) |>);
      mret outcome
  end.

(** [get_automation_occurrence]. *)
Definition get_automation_occurrence (id : AutomationOccurrenceId) :
    method SS StoreError AutomationOccurrence.t :=
  s ← self;
  occurrence ← lift (ok_or NotFound (automation_occurrences s !! id));
  lift (or_invalid (AutomationOccurrence.restore occurrence)).

(** The order of [list_automation_occurrences]. *)
Definition occurrence_leb (x y : AutomationOccurrence.t) : bool :=
  let rx := AutomationExecutionSnapshot.definition_revision (AutomationOccurrence.snapshot x) in
  let ry := AutomationExecutionSnapshot.definition_revision (AutomationOccurrence.snapshot y) in
  let nx := AutomationOccurrence.nominal_local x in
  let ny := AutomationOccurrence.nominal_local y in
  if rx =? ry then
    if nx == ny
    then str_leb (as_str (AutomationOccurrence.id x)) (as_str (AutomationOccurrence.id y))
    else local_ltb nx ny
  else rx <? ry.
Definition occurrence_le (x y : AutomationOccurrence.t) : Prop := occurrence_leb x y = true.
#[global] Instance occurrence_le_dec : RelDecision occurrence_le.
Proof. intros x y. unfold occurrence_le. apply _. Defined.

(** [list_automation_occurrences]. *)
Definition list_automation_occurrences (automation_id : AutomationId)
    (after : option AutomationOccurrenceId) (limit : Z) :
    method SS StoreError (list AutomationOccurrence.t) :=
  _ ← throw_if (negb (in_range 1 MAX_AUTOMATION_OCCURRENCE_PAGE_SIZE limit)) Conflict;
  s ← self;
  _ ← throw_if (is_none (automations s !! automation_id)) NotFound;
  let occurrences := automation_occurrences_of s automation_id in
  _ ← lift (collect_results (λ x, or_invalid (AutomationOccurrence.restore x)) occurrences);
  lift (after_position (merge_sort occurrence_le occurrences) (as_str <$> after) limit
          (λ x, as_str (AutomationOccurrence.id x))).

(** The checks [claim_.._occurrence] and [claim_and_bind_.._occurrence] share: the
    occurrence to claim and its attempts. *)
Definition check_claim (s : SS) (claim : ClaimAutomationOccurrence.t) :
    result StoreError (AutomationOccurrence.t * list AutomationOccurrenceClaimAttempt.t) :=
  lease ← require_automation_scheduler_lease s (ClaimAutomationOccurrence.lease claim)
            (ClaimAutomationOccurrence.claimed_at claim);
  _ ← reject_if
        (match checked_sub (ClaimAutomationOccurrence.expires_at claim)
                 (ClaimAutomationOccurrence.claimed_at claim) with
         | Some duration => (duration =? 0) || (MAX_AUTOMATION_SCHEDULER_LEASE_MS <? duration)
         | None => true
         end
         || (AutomationSchedulerLease.expires_at lease <? ClaimAutomationOccurrence.expires_at claim))
        Conflict;
  current ← ok_or NotFound
    (automation_occurrences s !! ClaimAutomationOccurrence.occurrence_id claim);
  _ ← or_invalid (AutomationOccurrence.restore current);
  _ ← reject_if ((AutomationOccurrence.revision current
                  != ClaimAutomationOccurrence.expected_revision claim)
                 || (AutomationOccurrence.state current != AutomationOccurrenceState.Pending)) Conflict;
  let attempts := default [] (automation_occurrence_claim_attempts s
                                !! ClaimAutomationOccurrence.occurrence_id claim) in
  _ ← validate_claim_attempt_sequence current attempts;
  _ ← reject_if (existsb (λ a, is_none (AutomationOccurrenceClaimAttempt.completed_at a)) attempts)
        invalid_automation_scheduler_journal;
  Ok (current, attempts).

(** The attempt a claim appends, with the two fields in which its users differ. *)
Definition new_attempt (claim : ClaimAutomationOccurrence.t) (claimed : AutomationOccurrence.t)
    (completed_at : option Z) (completion : option AutomationOccurrenceClaimCompletion.t) :
    AutomationOccurrenceClaimAttempt.t :=
  AutomationOccurrenceClaimAttempt.mk (AutomationOccurrence.id claimed)
    (AutomationOccurrence.claim_attempt_count claimed)
    (AutomationSchedulerLeaseToken.owner_id (ClaimAutomationOccurrence.lease claim))
    (AutomationSchedulerLeaseToken.fence (ClaimAutomationOccurrence.lease claim))
    (ClaimAutomationOccurrence.claimed_at claim) (ClaimAutomationOccurrence.expires_at claim)
    completed_at completion
    (MutationCommand.fingerprint (ClaimAutomationOccurrence.command claim)).

(** The moved occurrence of a claim, and the check of its attempt number. *)
Definition claimed_occurrence (claim : ClaimAutomationOccurrence.t)
    (current : AutomationOccurrence.t) (attempts : list AutomationOccurrenceClaimAttempt.t) :
    result StoreError AutomationOccurrence.t :=
  claimed ← moved_copy (λ _, Conflict)
    (AutomationOccurrence.claim (ClaimAutomationOccurrence.lease claim)
       (ClaimAutomationOccurrence.claimed_at claim)
       (ClaimAutomationOccurrence.expires_at claim)) current;
  _ ← reject_if (AutomationOccurrence.claim_attempt_count claimed
                 != saturating_add usize_max (Z.of_nat (length attempts)) 1)
        invalid_automation_scheduler_journal;
  Ok claimed.

(** [claim_automation_occurrence]. *)
Definition claim_automation_occurrence (claim : ClaimAutomationOccurrence.t) :
    method SS StoreError AutomationOccurrence.t :=
  let command := ClaimAutomationOccurrence.command claim in
  _ ← lift (validate_scheduler_command command AUTOMATION_CLAIM_SCOPE);
  s ← self;
  match automation_occurrence_claim_commands s !! command_key command with
  | Some record =>
      if (AutomationOccurrenceClaimCommandRecord.fingerprint record
          == MutationCommand.fingerprint command)
         && (AutomationOccurrenceClaimCommandRecord.occurrence_id record
             == ClaimAutomationOccurrence.occurrence_id claim)
      then mret (AutomationOccurrenceClaimCommandRecord.outcome record)
      else throw Conflict
  | None =>
      '(current, attempts) ← lift (check_claim s claim);
      claimed ← lift (claimed_occurrence claim current attempts);
      let attempt := new_attempt claim claimed None None in
      _ ← put_occurrence claimed;
      _ ← put_attempts (AutomationOccurrence.id claimed) (attempts ++ [attempt]);
      _ ← put_claim_command (command_key command) (AutomationOccurrenceClaimCommandRecord.mk
            (MutationCommand.fingerprint command) (AutomationOccurrence.id claimed) claimed);
      mret claimed
  end.

(** The condition on which [claim_and_bind_.._occurrence] refuses the proposed work. *)
Definition dispatch_refused (s : SS) (claim : ClaimAutomationOccurrence.t)
    (current : AutomationOccurrence.t) (thread : Thread.t) (prompt : Message.t) (run : Run.t) :
    bool :=
  let snapshot := AutomationOccurrence.snapshot current in
  let project_id := AutomationExecutionSnapshot.project_id snapshot in
  let claimed_at := ClaimAutomationOccurrence.claimed_at claim in
  negb (is_ok (Thread.restore thread))
  || negb (WorkspaceMemory.is_original_thread thread)
  || negb (is_ok (Message.restore prompt))
  || negb (ConversationMessageDerivation.is_original (Message.derivation prompt))
  || (Message.role prompt != MessageRole.User)
  || (Message.state prompt != MessageState.Active)
  || (Message.thread_id prompt != Thread.id thread)
  || (Message.content prompt != AutomationExecutionSnapshot.prompt snapshot)
  || (Thread.project_id thread != project_id)
  || (Run.project_id run != project_id)
  || (Run.thread_id run != Thread.id thread)
  || (Run.state run != RunState.Queued)
  || (Run.revision run != 0)
  || (Thread.created_at thread != claimed_at)
  || (Message.created_at prompt != claimed_at)
  || (Run.created_at run != claimed_at)
  || negb (WorkspaceMemory.project_active (workspace s) project_id)
  || is_some (threads s !! Thread.id thread)
  || is_some (messages s !! Message.id prompt)
  || is_some (runs s !! Run.id run)
  || is_some (automation_occurrence_dispatches s !! AutomationOccurrence.id current).

(** [claim_and_bind_automation_occurrence]. *)
Definition claim_and_bind_automation_occurrence (dispatch : AutomationOccurrenceDispatch.t) :
    method SS StoreError AutomationOccurrenceDispatchResult.t :=
  let claim := AutomationOccurrenceDispatch.claim dispatch in
  let command := ClaimAutomationOccurrence.command claim in
  _ ← lift (validate_scheduler_command command AUTOMATION_CLAIM_SCOPE);
  s ← self;
  match automation_occurrence_claim_commands s !! command_key command with
  | Some record =>
      _ ← throw_if ((AutomationOccurrenceClaimCommandRecord.fingerprint record
                     != MutationCommand.fingerprint command)
                    || (AutomationOccurrenceClaimCommandRecord.occurrence_id record
                        != ClaimAutomationOccurrence.occurrence_id claim)) Conflict;
      lift (ok_or invalid_automation_scheduler_journal
              (automation_occurrence_dispatches s !! ClaimAutomationOccurrence.occurrence_id claim))
  | None =>
      '(current, attempts) ← lift (check_claim s claim);
      let thread := AutomationOccurrenceDispatch.thread dispatch in
      let prompt := (AutomationOccurrenceDispatch.prompt dispatch) <| Message.sequence := 1 |> in
      let run := AutomationOccurrenceDispatch.run dispatch in
      let claimed_at := ClaimAutomationOccurrence.claimed_at claim in
      _ ← throw_if (dispatch_refused s claim current thread prompt run) Conflict;
      claimed ← lift (claimed_occurrence claim current attempts);
      let attempt := new_attempt claim claimed (Some claimed_at)
                       (Some AutomationOccurrenceClaimCompletion.RunLinked) in
      linked ← lift (moved_copy (λ _, Conflict)
        (AutomationOccurrence.link_run (ClaimAutomationOccurrence.lease claim) (Run.id run)
           claimed_at) claimed);
      let outcome := AutomationOccurrenceDispatchResult.mk linked thread prompt run in
      _ ← put_thread thread;
      _ ← put_message prompt;
      _ ← put_run run;
      _ ← put_events (Run.id run) [NewRunEvent.mk claimed_at RunCreated];
      _ ← put_occurrence linked;
      _ ← put_attempts (AutomationOccurrence.id linked) (attempts ++ [attempt]);
      _ ← put_claim_command (command_key command) (AutomationOccurrenceClaimCommandRecord.mk
            (MutationCommand.fingerprint command) (AutomationOccurrence.id linked) claimed);
      _ ← put_dispatch (AutomationOccurrence.id linked) outcome;
      mret outcome
  end.
End journal.

(** The closure and the final check of [list_resumable_automation_dispatches]. *)
Definition resumable_dispatch (s : SS) (after : option AutomationOccurrenceId)
    (binding : AutomationOccurrenceDispatchResult.t) :
    option AutomationOccurrenceDispatchResult.t :=
  occurrence ← automation_occurrences s
                 !! AutomationOccurrence.id (AutomationOccurrenceDispatchResult.occurrence binding);
  run ← runs s !! Run.id (AutomationOccurrenceDispatchResult.run binding);
  if (AutomationOccurrence.state occurrence == AutomationOccurrenceState.RunLinked)
     && (Run.state run == RunState.Queued)
     && (AutomationOccurrence.run_id occurrence == Some (Run.id run))
     && match after with
        | Some after => str_after (as_str (AutomationOccurrence.id occurrence)) (as_str after)
        | None => true
        end
  then Some (AutomationOccurrenceDispatchResult.mk occurrence
               (AutomationOccurrenceDispatchResult.thread binding)
               (AutomationOccurrenceDispatchResult.prompt binding) run)
  else None.
Definition dispatch_inconsistent (s : SS) (dispatch : AutomationOccurrenceDispatchResult.t) : bool :=
  let occurrence := AutomationOccurrenceDispatchResult.occurrence dispatch in
  let thread := AutomationOccurrenceDispatchResult.thread dispatch in
  let prompt := AutomationOccurrenceDispatchResult.prompt dispatch in
  (automation_occurrences s !! AutomationOccurrence.id occurrence != Some occurrence)
  || (threads s !! Thread.id thread != Some thread)
  || (messages s !! Message.id prompt != Some prompt)
  || (AutomationOccurrence.run_id occurrence
      != Some (Run.id (AutomationOccurrenceDispatchResult.run dispatch))).

(** [list_resumable_automation_dispatches]. *)
Definition list_resumable_automation_dispatches (after : option AutomationOccurrenceId)
    (limit : Z) : method SS StoreError (list AutomationOccurrenceDispatchResult.t) :=
  _ ← throw_if ((limit =? 0) || (MAX_AUTOMATION_SCHEDULER_TICK_DEFINITIONS <? limit)) Conflict;
  s ← self;
  let results :=
    take (Z.to_nat limit)
      (InMemory.sort_by_key (λ _, 0)
         (λ d, as_str (AutomationOccurrence.id (AutomationOccurrenceDispatchResult.occurrence d)))
         (omap (resumable_dispatch s after)
            (InMemory.values (automation_occurrence_dispatches s)))) in
  _ ← throw_if (existsb (dispatch_inconsistent s) results) invalid_automation_scheduler_journal;
  mret results.

(** [begin_automation_occurrence_run]. *)
Definition begin_automation_occurrence_run (occurrence_id : AutomationOccurrenceId)
    (expected_occurrence_revision : Z) (run_id : RunId) (expected_run_revision now : Z) :
    method SS StoreError AutomationOccurrenceDispatchResult.t :=
  s ← self;
  binding ← lift (ok_or NotFound (automation_occurrence_dispatches s !! occurrence_id));
  occurrence ← lift (ok_or NotFound (automation_occurrences s !! occurrence_id));
  run ← lift (ok_or NotFound (runs s !! run_id));
  _ ← throw_if ((Run.id (AutomationOccurrenceDispatchResult.run binding) != run_id)
                || (AutomationOccurrence.state occurrence != AutomationOccurrenceState.RunLinked)
                || (AutomationOccurrence.revision occurrence != expected_occurrence_revision)
                || (AutomationOccurrence.run_id occurrence != Some run_id)
                || (Run.state run != RunState.Queued)
                || (Run.revision run != expected_run_revision)) Conflict;
  planning ← lift (moved_copy (λ _, Conflict) (Run.transition RunState.Planning now) run);
  running ← lift (moved_copy (λ _, Conflict) (Run.transition RunState.Running now) planning);
  _ ← put_run running;
  _ ← put_events (Run.id running)
        [NewRunEvent.mk now (RunStateChanged (Run.state run) RunState.Planning);
         NewRunEvent.mk now (RunStateChanged (Run.state planning) RunState.Running)];
  _ ← put_dispatch occurrence_id (binding <| AutomationOccurrenceDispatchResult.run := running |>);
  mret (AutomationOccurrenceDispatchResult.mk occurrence
          (AutomationOccurrenceDispatchResult.thread binding)
          (AutomationOccurrenceDispatchResult.prompt binding) running).

(** The run state and the occurrence call of a completion. *)
Definition completion_run_state (completion : AutomationOccurrenceRunCompletion.t) : RunState.t :=
  match completion with
  | AutomationOccurrenceRunCompletion.Succeeded => RunState.Completed
  | AutomationOccurrenceRunCompletion.Failed => RunState.Failed
  | AutomationOccurrenceRunCompletion.InterruptedNeedsReview => RunState.InterruptedNeedsReview
  | AutomationOccurrenceRunCompletion.Cancelled => RunState.Cancelled
  end.
Definition completion_call (completion : AutomationOccurrenceRunCompletion.t) (run_id : RunId)
    (now : Z) : method AutomationOccurrence.t AutomationSchedulerError.t unit :=
  match completion with
  | AutomationOccurrenceRunCompletion.Succeeded => AutomationOccurrence.succeed run_id now
  | AutomationOccurrenceRunCompletion.Failed => AutomationOccurrence.fail run_id now
  | AutomationOccurrenceRunCompletion.InterruptedNeedsReview =>
      AutomationOccurrence.interrupt run_id now
  | AutomationOccurrenceRunCompletion.Cancelled => AutomationOccurrence.cancel now
  end.

(** The queued occurrence of an automation, moved to pending. *)
Definition promoted_queued (s : SS) (automation_id : AutomationId) (error : StoreError) (now : Z) :
    result StoreError (option AutomationOccurrence.t) :=
  queued ← sole_queued_occurrence s automation_id;
  match queued with
  | Some queued =>
      queued ← moved_copy (λ _, error) (AutomationOccurrence.promote_queued now) queued;
      Ok (Some queued)
  | None => Ok None
  end.

(** [complete_automation_occurrence_run]. *)
Definition complete_automation_occurrence_run (occurrence_id : AutomationOccurrenceId)
    (expected_revision : Z) (run_id : RunId) (completion : AutomationOccurrenceRunCompletion.t)
    (now : Z) : method SS StoreError AutomationOccurrence.t :=
  s ← self;
  run ← lift (ok_or NotFound (runs s !! run_id));
  let next_run_state := completion_run_state completion in
  occurrence ← lift (ok_or NotFound (automation_occurrences s !! occurrence_id));
  _ ← throw_if ((Run.state run != RunState.Running)
                || (AutomationOccurrence.revision occurrence != expected_revision)
                || (AutomationOccurrence.run_id occurrence != Some run_id)) Conflict;
  run ← lift (moved_copy (λ _, Conflict) (Run.transition next_run_state now) run);
  occurrence ← lift (moved_copy (λ _, Conflict) (completion_call completion run_id now) occurrence);
  promoted ← lift (promoted_queued s (AutomationOccurrence.automation_id occurrence) Conflict now);
  _ ← throw_if (is_none (automation_occurrence_dispatches s !! occurrence_id))
        invalid_automation_scheduler_journal;
  _ ← put_occurrence occurrence;
  _ ← put_run run;
  _ ← put_events (Run.id run) [NewRunEvent.mk now (RunStateChanged RunState.Running next_run_state)];
  bound ← lift (ok_or invalid_automation_scheduler_journal
                  (automation_occurrence_dispatches s !! occurrence_id));
  _ ← put_dispatch occurrence_id
        (bound <| AutomationOccurrenceDispatchResult.occurrence := occurrence |>
               <| AutomationOccurrenceDispatchResult.run := run |>);
  _ ← match promoted with Some queued => put_occurrence queued | None => mret tt end;
  mret occurrence.

(** The expired claims [recover_automation_occurrence_claims] looks at, oldest first. *)
Definition claim_expiry (x : AutomationOccurrence.t) : Z :=
  match AutomationOccurrence.claim_of x with
  | Some claim => AutomationOccurrenceClaim.expires_at claim
  | None => -1
  end.
Definition claim_expired (now : Z) (x : AutomationOccurrence.t) : bool :=
  match AutomationOccurrence.state x with
  | AutomationOccurrenceState.Claimed | AutomationOccurrenceState.RunLinked =>
      match AutomationOccurrence.claim_of x with
      | Some claim => AutomationOccurrenceClaim.expires_at claim <=? now
      | None => false
      end
  | _ => false
  end.
Definition expired_claims (s : SS) (now : Z) : list AutomationOccurrence.t :=
  InMemory.sort_by_key claim_expiry (λ x, as_str (AutomationOccurrence.id x))
    (filter (λ x, claim_expired now x = true) (InMemory.values (automation_occurrences s))).

(** The changes staged by the recovery loop. *)
Record recovery : Type := mk_recovery {
  staged_occurrences : gmap AutomationOccurrenceId AutomationOccurrence.t;
  staged_attempts : gmap AutomationOccurrenceId (list AutomationOccurrenceClaimAttempt.t);
  staged_runs : gmap RunId Run.t;
  staged_run_events : list (RunId * NewRunEvent.t);
  summary : AutomationSchedulerRecoverySummary.t;
}.
#[global] Instance recovery_eta : Eta recovery := λ x,
  mk_recovery (staged_occurrences x) (staged_attempts x) (staged_runs x) (staged_run_events x)
    (summary x).

(** The end of an iteration: promote the retained overlap when the occurrence now needs
    review, and stage the occurrence with its attempts. *)
Definition stage_recovered (s : SS) (now : Z) (occurrence : AutomationOccurrence.t)
    (attempts : list AutomationOccurrenceClaimAttempt.t) (r : recovery) :
    result StoreError recovery :=
  promoted ←
    (if AutomationOccurrence.state occurrence == AutomationOccurrenceState.InterruptedNeedsReview
     then promoted_queued s (AutomationOccurrence.automation_id occurrence)
            invalid_automation_scheduler_journal now
     else Ok None);
  let staged := match promoted with
                | Some queued => <[AutomationOccurrence.id queued := queued]> (staged_occurrences r)
                | None => staged_occurrences r
                end in
  let id := AutomationOccurrence.id occurrence in
  Ok (r <| staged_attempts := <[id := attempts]> (staged_attempts r) |>
        <| staged_occurrences := <[id := occurrence]> staged |>).

(** The arm of an unlinked claim. *)
Definition recover_claimed (s : SS) (now : Z) (current : AutomationOccurrence.t) (r : recovery) :
    result StoreError recovery :=
  occurrence ← moved_copy (λ _, invalid_automation_scheduler_journal)
                 (AutomationOccurrence.release_expired_claim now) current;
  '(occurrence, completion, tally) ←
    (if AutomationOccurrence.claim_attempt_count occurrence
        =? MAX_AUTOMATION_OCCURRENCE_CLAIM_ATTEMPTS then
       occurrence ← moved_copy (λ _, invalid_automation_scheduler_journal)
                      (AutomationOccurrence.mark_claims_exhausted now) occurrence;
       Ok (occurrence, AutomationOccurrenceClaimCompletion.AttemptsExhausted,
           (summary r) <| AutomationSchedulerRecoverySummary.attempts_exhausted :=
             saturating_add usize_max
               (AutomationSchedulerRecoverySummary.attempts_exhausted (summary r)) 1 |>)
     else
       Ok (occurrence, AutomationOccurrenceClaimCompletion.ExpiredUnlinked,
           (summary r) <| AutomationSchedulerRecoverySummary.released_unlinked :=
             saturating_add usize_max
               (AutomationSchedulerRecoverySummary.released_unlinked (summary r)) 1 |>));
  attempts ← ok_or invalid_automation_scheduler_journal
    (automation_occurrence_claim_attempts s !! AutomationOccurrence.id current);
  attempts ← complete_claim_attempt current attempts completion now;
  stage_recovered s now occurrence attempts (r <| summary := tally |>).

(** Whether a linked occurrence is bound to a run that is still queued. *)
Definition bound_queued (s : SS) (current : AutomationOccurrence.t) (run_id : RunId) : bool :=
  match automation_occurrence_dispatches s !! AutomationOccurrence.id current with
  | Some binding => Run.id (AutomationOccurrenceDispatchResult.run binding) == run_id
  | None => false
  end
  && match runs s !! run_id with
     | Some run => Run.state run == RunState.Queued
     | None => false
     end.

(** The occurrence of a linked claim after its run's state, and the run when recovery
    has to interrupt it. *)
Definition settle_linked (now : Z) (run_id : RunId) (run : Run.t)
    (occurrence : AutomationOccurrence.t) :
    result StoreError (AutomationOccurrence.t * option Run.t) :=
  let settle m := moved_copy (λ _, invalid_automation_scheduler_journal) m occurrence in
  match Run.state run with
  | RunState.Completed => x ← settle (AutomationOccurrence.succeed run_id now); Ok (x, None)
  | RunState.Failed => x ← settle (AutomationOccurrence.fail run_id now); Ok (x, None)
  | RunState.Cancelled => x ← settle (AutomationOccurrence.cancel now); Ok (x, None)
  | RunState.InterruptedNeedsReview =>
      x ← settle (AutomationOccurrence.interrupt run_id now); Ok (x, None)
  | _ =>
      run ← moved_copy (λ _, invalid_automation_scheduler_journal)
              (Run.transition RunState.InterruptedNeedsReview now) run;
      x ← settle (AutomationOccurrence.interrupt run_id now);
      Ok (x, Some run)
  end.

(** The arm of a linked claim. *)
Definition recover_linked (s : SS) (now : Z) (current : AutomationOccurrence.t) (r : recovery) :
    result StoreError recovery :=
  run_id ← ok_or invalid_automation_scheduler_journal (AutomationOccurrence.run_id current);
  if bound_queued s current run_id then
    Ok (r <| summary := (summary r)
      <| AutomationSchedulerRecoverySummary.resumable_bound_queued :=
           saturating_add usize_max
             (AutomationSchedulerRecoverySummary.resumable_bound_queued (summary r)) 1 |> |>)
  else
    run ← ok_or invalid_automation_scheduler_journal (runs s !! run_id);
    '(occurrence, interrupted) ← settle_linked now run_id run current;
    let r :=
      match interrupted with
      | Some moved =>
          r <| staged_run_events := staged_run_events r ++
                 [(run_id, NewRunEvent.mk now
                     (RunStateChanged (Run.state run) RunState.InterruptedNeedsReview))] |>
            <| staged_runs := <[run_id := moved]> (staged_runs r) |>
      | None => r
      end in
    let r :=
      if AutomationOccurrence.state occurrence == AutomationOccurrenceState.InterruptedNeedsReview
      then r <| summary := (summary r)
             <| AutomationSchedulerRecoverySummary.interrupted_linked :=
                  saturating_add usize_max
                    (AutomationSchedulerRecoverySummary.interrupted_linked (summary r)) 1 |> |>
      else r in
    attempts ← ok_or invalid_automation_scheduler_journal
      (automation_occurrence_claim_attempts s !! AutomationOccurrence.id current);
    if last_sealed attempts then stage_recovered s now occurrence attempts r
    else
      attempts ← complete_claim_attempt current attempts
                   AutomationOccurrenceClaimCompletion.RunLinked now;
      stage_recovered s now occurrence attempts r.

(** The commit of the staged changes. *)
Definition rebind_occurrences (staged : gmap AutomationOccurrenceId AutomationOccurrence.t)
    (dispatches : gmap AutomationOccurrenceId AutomationOccurrenceDispatchResult.t) :
    gmap AutomationOccurrenceId AutomationOccurrenceDispatchResult.t :=
  map_imap (λ id binding, Some
    match staged !! id with
    | Some occurrence => binding <| AutomationOccurrenceDispatchResult.occurrence := occurrence |>
    | None => binding
    end) dispatches.
Definition rebind_run (run_id : RunId) (run : Run.t)
    (dispatches : gmap AutomationOccurrenceId AutomationOccurrenceDispatchResult.t) :
    gmap AutomationOccurrenceId AutomationOccurrenceDispatchResult.t :=
  match find (λ p, Run.id (AutomationOccurrenceDispatchResult.run p.2) == run_id)
          (map_to_list dispatches) with
  | Some (id, binding) =>
      <[id := binding <| AutomationOccurrenceDispatchResult.run := run |>]> dispatches
  | None => dispatches
  end.
Definition commit_recovery (r : recovery) : method SS StoreError unit :=
  _ ← in_workspace (λ w, w <| WorkspaceState.automation_occurrence_dispatches :=
        rebind_occurrences (staged_occurrences r)
          (WorkspaceState.automation_occurrence_dispatches w) |>);
  _ ← assign (λ s, s <| automation_occurrences :=
        staged_occurrences r ∪ automation_occurrences s |>);
  _ ← in_workspace (λ w, w <| WorkspaceState.automation_occurrence_dispatches :=
        map_fold (λ id run m, rebind_run id run m)
          (WorkspaceState.automation_occurrence_dispatches w) (staged_runs r) |>);
  _ ← assign (λ s, s <| execution := (execution s) <| State.runs :=
        staged_runs r ∪ State.runs (execution s) |> |>);
  _ ← assign (λ s, s <| execution :=
        foldl (λ e p, append_events p.1 [p.2] e) (execution s) (staged_run_events r) |>);
  assign (λ s, s <| automation_occurrence_claim_attempts :=
    staged_attempts r ∪ automation_occurrence_claim_attempts s |>).

Section recovery.
Context {CH : Chrono} {SHA : Sha256}.

(** The loop over the expired claims. *)
Fixpoint recover_each (s : SS) (now : Z) (expired : list AutomationOccurrence.t) (r : recovery) :
    result StoreError recovery :=
  match expired with
  | [] => Ok r
  | current :: expired' =>
      _ ← or_invalid (AutomationOccurrence.restore current);
      r ← match AutomationOccurrence.state current with
          | AutomationOccurrenceState.Claimed => recover_claimed s now current r
          | AutomationOccurrenceState.RunLinked => recover_linked s now current r
          | _ => Err invalid_automation_scheduler_journal
          end;
      recover_each s now expired' r
  end.

(** [recover_automation_occurrence_claims]. *)
Definition recover_automation_occurrence_claims (lease : AutomationSchedulerLeaseToken.t)
    (now limit : Z) : method SS StoreError AutomationSchedulerRecoverySummary.t :=
  _ ← throw_if (negb (in_range 1 MAX_AUTOMATION_SCHEDULER_RECOVERY_BATCH limit)) Conflict;
  s ← self;
  _ ← lift (require_automation_scheduler_lease s lease now);
  let expired := expired_claims s now in
  let truncated := limit <? Z.of_nat (length expired) in
  r ← lift (recover_each s now (take (Z.to_nat limit) expired)
        (mk_recovery ∅ ∅ ∅ [] (AutomationSchedulerRecoverySummary.mk 0 0 0 0 truncated)));
  _ ← commit_recovery r;
  mret (summary r).

(** The counting loop of [automation_scheduler_journal_status]. *)
Definition tally_state (state : AutomationOccurrenceState.t)
    (status : AutomationSchedulerJournalStatus.t) : AutomationSchedulerJournalStatus.t :=
  let inc n := saturating_add u64_max n 1 in
  match state with
  | AutomationOccurrenceState.Pending =>
      status <| AutomationSchedulerJournalStatus.pending_count :=
        inc (AutomationSchedulerJournalStatus.pending_count status) |>
  | AutomationOccurrenceState.QueuedOverlap =>
      status <| AutomationSchedulerJournalStatus.queued_overlap_count :=
        inc (AutomationSchedulerJournalStatus.queued_overlap_count status) |>
  | AutomationOccurrenceState.Claimed =>
      status <| AutomationSchedulerJournalStatus.claimed_count :=
        inc (AutomationSchedulerJournalStatus.claimed_count status) |>
  | AutomationOccurrenceState.RunLinked =>
      status <| AutomationSchedulerJournalStatus.run_linked_count :=
        inc (AutomationSchedulerJournalStatus.run_linked_count status) |>
  | AutomationOccurrenceState.InterruptedNeedsReview =>
      status <| AutomationSchedulerJournalStatus.needs_review_count :=
        inc (AutomationSchedulerJournalStatus.needs_review_count status) |>
  | _ => status
  end.
Fixpoint tally_occurrences (s : SS) (occurrences : list AutomationOccurrence.t)
    (status : AutomationSchedulerJournalStatus.t) :
    result StoreError AutomationSchedulerJournalStatus.t :=
  match occurrences with
  | [] => Ok status
  | occurrence :: occurrences' =>
      _ ← or_invalid (AutomationOccurrence.restore occurrence);
      _ ← validate_claim_attempt_sequence occurrence
            (default [] (automation_occurrence_claim_attempts s
                           !! AutomationOccurrence.id occurrence));
      tally_occurrences s occurrences' (tally_state (AutomationOccurrence.state occurrence) status)
  end.

(** [automation_scheduler_journal_status]. *)
Definition automation_scheduler_journal_status :
    method SS StoreError AutomationSchedulerJournalStatus.t :=
  s ← self;
  lease ← match automation_scheduler_lease s with
          | Some lease =>
              lease ← lift (or_invalid (AutomationSchedulerLease.restore lease)); mret (Some lease)
          | None => mret None
          end;
  _ ← lift (collect_results (λ c, or_invalid (AutomationScheduleCursor.restore c))
              (InMemory.values (automation_schedule_cursors s)));
  lift (tally_occurrences s (InMemory.values (automation_occurrences s))
          (AutomationSchedulerJournalStatus.mk lease
             (Z.of_nat (size (automation_schedule_cursors s))) 0 0 0 0 0)).
End recovery.

(** [link_automation_occurrence_run]. *)
Definition link_automation_occurrence_run (lease : AutomationSchedulerLeaseToken.t)
    (occurrence_id : AutomationOccurrenceId) (expected_revision : Z) (run_id : RunId) (now : Z) :
    method SS StoreError AutomationOccurrence.t :=
  s ← self;
  _ ← lift (require_automation_scheduler_lease s lease now);
  current ← lift (ok_or NotFound (automation_occurrences s !! occurrence_id));
  _ ← throw_if (AutomationOccurrence.revision current != expected_revision) Conflict;
  _ ← throw_if (is_none (runs s !! run_id)) Conflict;
  occurrence ← lift (moved_copy (λ _, Conflict) (AutomationOccurrence.link_run lease run_id now)
                       current);
  attempts ← lift (ok_or Conflict (automation_occurrence_claim_attempts s !! occurrence_id));
  attempts ← lift (complete_claim_attempt current attempts
                     AutomationOccurrenceClaimCompletion.RunLinked now);
  _ ← assign (λ s, s <| automation_occurrences :=
        <[occurrence_id := occurrence]> (automation_occurrences s) |>);
  _ ← put_attempts occurrence_id attempts;
  mret occurrence.
End SchedulerMemory.

#[export] Instance scheduler_memory `{Chrono, Sha256} : AutomationSchedulerStore SS := {|
  acquire_automation_scheduler_lease := SchedulerMemory.acquire_automation_scheduler_lease;
  list_automation_schedule_candidates := SchedulerMemory.list_automation_schedule_candidates;
  commit_automation_schedule_evaluation := SchedulerMemory.commit_automation_schedule_evaluation;
  get_automation_occurrence := SchedulerMemory.get_automation_occurrence;
  list_automation_occurrences := SchedulerMemory.list_automation_occurrences;
  claim_automation_occurrence := SchedulerMemory.claim_automation_occurrence;
  claim_and_bind_automation_occurrence := SchedulerMemory.claim_and_bind_automation_occurrence;
  list_resumable_automation_dispatches := SchedulerMemory.list_resumable_automation_dispatches;
  begin_automation_occurrence_run := SchedulerMemory.begin_automation_occurrence_run;
  complete_automation_occurrence_run := SchedulerMemory.complete_automation_occurrence_run;
  recover_automation_occurrence_claims := SchedulerMemory.recover_automation_occurrence_claims;
  automation_scheduler_journal_status := SchedulerMemory.automation_scheduler_journal_status;
  link_automation_occurrence_run := SchedulerMemory.link_automation_occurrence_run;
|}.
