(* ===== verification/SchedulerServices.v ===== *)
(** * The automation scheduler service

    [crates/grok-application/src/automation_scheduler.rs]: [AutomationSchedulerService]
    against the [AutomationSchedulerStore] interface. One call of the service reads the
    clock and draws identifiers several times, asks whether the daemon is shutting down,
    and may hand a prompt to an isolated guest; what these answer is given by an
    [environment], and the state of a call counts the answers used so far and records
    the requests that reached the guest. *)
From stdpp Require Import sorting.
From S2P Require Import Prelude RustText Ids Runs Approvals Effects ConversationTurns TurnEvents Schedules Scheduler Workspace ExecutionStore Commands WorkspaceStore SchedulerStore.

(** ** Data *)

Module ScheduledGuestRequest.
Record t : Type := mk {
  occurrence_id : AutomationOccurrenceId; run_id : RunId; prompt : str }.
End ScheduledGuestRequest.

Module ScheduledGuestOutcome.
Inductive t : Type := Succeeded | Failed.
End ScheduledGuestOutcome.

Module ScheduledGuestDispatchError.
Inductive t : Type := Unavailable | Interrupted.
End ScheduledGuestDispatchError.

Module AutomationSchedulerTickStatus.
Inductive t : Type := Completed | LeaseBusy | ClockRegressed.
#[global] Instance eq_dec : EqDecision t.
Proof. solve_decision. Defined.
End AutomationSchedulerTickStatus.

Module AutomationSchedulerTickSummary.
Record t : Type := mk {
  status : AutomationSchedulerTickStatus.t;
  lease_continuous : bool;
  definitions_evaluated : Z;
  cursors_initialized : Z;
  occurrences_materialized : Z;
  next_definition_cursor : option AutomationId;
  durable_clock_floor : option Z;
}.
#[global] Instance eta : Eta t := λ x,
  mk (status x) (lease_continuous x) (definitions_evaluated x) (cursors_initialized x)
     (occurrences_materialized x) (next_definition_cursor x) (durable_clock_floor x).
(** [AutomationSchedulerTickSummary::inactive]. *)
Definition inactive (status : AutomationSchedulerTickStatus.t) : t :=
  mk status false 0 0 0 None None.
End AutomationSchedulerTickSummary.

Module CandidateEvaluationSummary.
Record t : Type := mk { initialized : bool; occurrences : Z }.
End CandidateEvaluationSummary.

(** ** The environment of a call *)

(** How the race between the guest, the shutdown signal and the timeout ended. *)
Inductive guest_answer : Type :=
| Answered (r : result ScheduledGuestDispatchError.t ScheduledGuestOutcome.t)
| ShutDown
| TimedOut.

Class environment := {
  clock : nat → Z;
  generate : nat → str → str;
  is_cancelled : nat → bool;
  guest : nat → ScheduledGuestRequest.t → guest_answer;
}.

Module Service.
Record t (S : Type) : Type := mk {
  store : S;
  clock_reads : nat;
  generated : nat;
  polls : nat;
  sent : list ScheduledGuestRequest.t;
}.
Arguments mk {S} store clock_reads generated polls sent.
Arguments store {S} t.
Arguments clock_reads {S} t.
Arguments generated {S} t.
Arguments polls {S} t.
Arguments sent {S} t.
#[global] Instance eta {S} : Eta (t S) := λ w,
  mk (store w) (clock_reads w) (generated w) (polls w) (sent w).
End Service.
Abbreviation svc S := (method (Service.t S) ApplicationError.t).

Section environment.
Context {S : Type} {ENV : environment}.

(** [self.clock.now()]. *)
Definition clock_now : svc S Z :=
  w ← self;
  _ ← assign (λ w, w <| Service.clock_reads := Datatypes.S (Service.clock_reads w) |>);
  mret (clock (Service.clock_reads w)).
(** [self.ids.generate(prefix)]. *)
Definition generate_id (prefix : str) : svc S str :=
  w ← self;
  _ ← assign (λ w, w <| Service.generated := Datatypes.S (Service.generated w) |>);
  mret (generate (Service.generated w) prefix).
(** [cancellation.is_cancelled()]. *)
Definition poll_cancelled : svc S bool :=
  w ← self;
  _ ← assign (λ w, w <| Service.polls := Datatypes.S (Service.polls w) |>);
  mret (is_cancelled (Service.polls w)).
(** [dispatcher.dispatch(request, ..)] in the [select!] with the shutdown signal and the
    timeout. The request counts as sent even when the shutdown wins before the guest's
    future is polled, so [sent] bounds what the guest can have received. *)
Definition ask_guest (request : ScheduledGuestRequest.t) : svc S guest_answer :=
  w ← self;
  _ ← assign (λ w, w <| Service.sent := Service.sent w ++ [request] |>);
  mret (guest (length (Service.sent w)) request).
(** [self.store.op(..).await], with its error kept. *)
Definition try_store {A} (m : method S StoreError A) : svc S (result StoreError A) := λ w,
  let '(s, r) := m (Service.store w) in (w <| Service.store := s |>, Ok r).
(** [self.store.op(..).await?]. *)
Definition on_store {A} (m : method S StoreError A) : svc S A :=
  r ← try_store m; lift (map_err ApplicationError.from_store r).
End environment.

(** ** Command parts *)

(** Big-endian bytes of a 32-bit integer, in two's complement. *)
Definition be_bytes32 (n : Z) : list Z := map (λ k, n / 2 ^ (8 * k) mod 256) [3; 2; 1; 0].

(** [push_nominal_local]. *)
Definition push_nominal_local (value : AutomationLocalDateTime.t) : list (list Z) :=
  [be_bytes32 (AutomationLocalDateTime.year value);
   [AutomationLocalDateTime.month value; AutomationLocalDateTime.day value;
    AutomationLocalDateTime.hour value; AutomationLocalDateTime.minute value]].
(** [push_optional_u64]. *)
Definition push_optional_u64 (value : option Z) : list (list Z) :=
  match value with Some value => [[1]; to_be_bytes value] | None => [[0]] end.
(** [push_schedule_decision]. *)
Definition push_schedule_decision (decision : option AutomationScheduleDecision.t) :
    list (list Z) :=
  match decision with
  | None => [[0]]
  | Some (AutomationScheduleDecision.Due nominal_local scheduled_for) =>
      [[1]] ++ push_nominal_local nominal_local ++ [to_be_bytes scheduled_for]
  | Some (AutomationScheduleDecision.SkippedNonexistentLocalTime nominal_local) =>
      [[2]] ++ push_nominal_local nominal_local
  end.
(** [missed_run_policy_key], [overlap_policy_key] and [occurrence_state_key]. *)
Definition missed_run_policy_key (value : MissedRunPolicy.t) : Z :=
  match value with MissedRunPolicy.RunOnce => 1 | MissedRunPolicy.Skip => 2 end.
Definition overlap_policy_key (value : OverlapPolicy.t) : Z :=
  match value with OverlapPolicy.QueueOne => 1 | OverlapPolicy.Skip => 2 end.
Definition occurrence_state_key (value : AutomationOccurrenceState.t) : Z :=
  match value with
  | AutomationOccurrenceState.Pending => 0
  | AutomationOccurrenceState.QueuedOverlap => 1
  | AutomationOccurrenceState.Claimed => 2
  | AutomationOccurrenceState.RunLinked => 3
  | AutomationOccurrenceState.Succeeded => 4
  | AutomationOccurrenceState.Failed => 5
  | AutomationOccurrenceState.SkippedMissed => 6
  | AutomationOccurrenceState.SkippedOverlap => 7
  | AutomationOccurrenceState.SkippedInvalidLocalTime => 8
  | AutomationOccurrenceState.InterruptedNeedsReview => 9
  | AutomationOccurrenceState.Cancelled => 10
  end.

(** The parts of one occurrence in [evaluation_command]. *)
Definition occurrence_parts (x : AutomationOccurrence.t) : list (list Z) :=
  let snapshot := AutomationOccurrence.snapshot x in
  [bytes (as_str (AutomationOccurrence.id x));
   bytes (as_str (AutomationOccurrence.automation_id x));
   bytes (as_str (AutomationExecutionSnapshot.project_id snapshot));
   to_be_bytes (AutomationExecutionSnapshot.definition_revision snapshot);
   bytes (AutomationExecutionSnapshot.title snapshot);
   bytes (AutomationExecutionSnapshot.prompt snapshot);
   bytes (AutomationExecutionSnapshot.canonical_schedule snapshot);
   bytes (AutomationExecutionSnapshot.timezone snapshot);
   [missed_run_policy_key (AutomationExecutionSnapshot.missed_run_policy snapshot)];
   [overlap_policy_key (AutomationExecutionSnapshot.overlap_policy snapshot)];
   AutomationExecutionSnapshot.schedule_fingerprint snapshot;
   be_bytes32 (AutomationExecutionSnapshot.calculator_version snapshot)]
  ++ push_nominal_local (AutomationOccurrence.nominal_local x)
  ++ push_optional_u64 (AutomationOccurrence.scheduled_for x)
  ++ [be_bytes32 (AutomationOccurrence.occurrence_count x);
      [occurrence_state_key (AutomationOccurrence.state x)];
      be_bytes32 (AutomationOccurrence.claim_attempt_count x);
      to_be_bytes (AutomationOccurrence.revision x);
      to_be_bytes (AutomationOccurrence.created_at x);
      to_be_bytes (AutomationOccurrence.updated_at x)].

(** [evaluation_command]. *)
Definition evaluation_command `{Sha256} (key : str) (lease : AutomationSchedulerLeaseToken.t)
    (automation_revision : Z) (expected_cursor_revision : option Z)
    (cursor : AutomationScheduleCursor.t) (occurrences : list AutomationOccurrence.t) :
    result ApplicationError.t MutationCommand.t :=
  mutation_command_bytes (lit "automation_scheduler_evaluate_v1") key
    ([bytes (as_str (AutomationSchedulerLeaseToken.owner_id lease));
      to_be_bytes (AutomationSchedulerLeaseToken.fence lease);
      bytes (as_str (AutomationScheduleCursor.automation_id cursor));
      to_be_bytes automation_revision]
     ++ push_optional_u64 expected_cursor_revision
     ++ [to_be_bytes (AutomationScheduleCursor.definition_revision cursor);
         AutomationScheduleCursor.schedule_fingerprint cursor;
         be_bytes32 (AutomationScheduleCursor.calculator_version cursor);
         to_be_bytes (AutomationScheduleCursor.evaluated_through cursor)]
     ++ push_schedule_decision (AutomationScheduleCursor.next_decision cursor)
     ++ [to_be_bytes (AutomationScheduleCursor.revision cursor);
         to_be_bytes (AutomationScheduleCursor.created_at cursor);
         to_be_bytes (AutomationScheduleCursor.updated_at cursor);
         to_be_bytes (Z.of_nat (length occurrences))]
     ++ flat_map occurrence_parts occurrences).

(** ** The service *)

Module AutomationSchedulerService.
Section service.
Context {S : Type} {CH : Chrono} {SHA : Sha256} {ENV : environment}
  {SS : AutomationSchedulerStore S}.

(** [occurrence_id]. *)
Definition occurrence_id : svc S AutomationOccurrenceId :=
  value ← generate_id (lit "automation-occurrence");
  lift (map_err ApplicationError.from_id (new_id value)).

(** [journal_status]. *)
Definition journal_status : svc S (result StoreError AutomationSchedulerJournalStatus.t) :=
  try_store automation_scheduler_journal_status.

(** The classifying loop of [materialize_decisions]. *)
Definition is_gap (d : AutomationScheduleDecision.t) : bool :=
  match d with
  | AutomationScheduleDecision.SkippedNonexistentLocalTime _ => true
  | AutomationScheduleDecision.Due _ _ => false
  end.
Definition is_missed (continuity_started_at : Z) (d : AutomationScheduleDecision.t) : bool :=
  match d with
  | AutomationScheduleDecision.Due _ scheduled_for => scheduled_for <? continuity_started_at
  | AutomationScheduleDecision.SkippedNonexistentLocalTime _ => false
  end.
Definition is_current (continuity_started_at : Z) (d : AutomationScheduleDecision.t) : bool :=
  negb (is_gap d) && negb (is_missed continuity_started_at d).

Fixpoint each {A B} (f : A → svc S B) (l : list A) : svc S (list B) :=
  match l with
  | [] => mret []
  | x :: l' => y ← f x; ys ← each f l'; mret (y :: ys)
  end.

(** [materialize_decisions]. *)
Definition materialize_decisions (automation : Automation.t)
    (snapshot : AutomationExecutionSnapshot.t) (decisions : list AutomationScheduleDecision.t)
    (continuity_started_at observed_at : Z) : svc S (list AutomationOccurrence.t) :=
  let gaps := filter (λ d, is_gap d = true) decisions in
  let missed := filter (λ d, is_missed continuity_started_at d = true) decisions in
  let current := filter (λ d, is_current continuity_started_at d = true) decisions in
  gap_occurrences ← each (λ gap,
    id ← occurrence_id;
    lift (map_err ApplicationError.from_scheduler (AutomationOccurrence.skipped_invalid_local_time
            id (Automation.id automation) snapshot gap observed_at))) gaps;
  missed_occurrences ←
    match last missed with
    | Some latest =>
        count ← lift (if Z.of_nat (length missed) <=? u32_max
                      then Ok (Z.of_nat (length missed))
                      else Err (ApplicationError.InvalidState
                                  (Text (lit "automation missed-run count is exhausted"))));
        id ← occurrence_id;
        occurrence ← lift (map_err ApplicationError.from_scheduler (AutomationOccurrence.pending
          id (Automation.id automation) snapshot latest count observed_at));
        occurrence ←
          (if AutomationExecutionSnapshot.missed_run_policy snapshot == MissedRunPolicy.Skip
           then lift (moved_copy ApplicationError.from_scheduler
                        (AutomationOccurrence.skip_missed observed_at) occurrence)
           else mret occurrence);
        mret [occurrence]
    | None => mret []
    end;
  current_occurrences ← each (λ decision,
    id ← occurrence_id;
    lift (map_err ApplicationError.from_scheduler (AutomationOccurrence.pending
            id (Automation.id automation) snapshot decision 1 observed_at))) current;
  mret (gap_occurrences ++ missed_occurrences ++ current_occurrences).

(** [sort_by_key] on the nominal time. *)
Definition nominal_le (x y : AutomationOccurrence.t) : Prop :=
  local_ltb (AutomationOccurrence.nominal_local y) (AutomationOccurrence.nominal_local x) = false.
#[global] Instance nominal_le_dec : RelDecision nominal_le.
Proof. intros x y. unfold nominal_le. apply _. Defined.

(** [evaluate_candidate] for a definition without a cursor. *)
Definition initialize_cursor (lease : AutomationSchedulerLeaseToken.t) (observed_at : Z)
    (automation : Automation.t) (snapshot : AutomationExecutionSnapshot.t) :
    svc S CandidateEvaluationSummary.t :=
  _ ← throw_if (observed_at <? Automation.updated_at automation)
        (ApplicationError.InvalidState
           (Text (lit "automation scheduler clock predates definition activation")));
  next ← lift (map_err ApplicationError.from_schedule (AutomationSchedule.next_decision_after
    (AutomationExecutionSnapshot.schedule snapshot) (AutomationExecutionSnapshot.timezone snapshot)
    (Automation.updated_at automation)));
  cursor ← lift (map_err ApplicationError.from_scheduler (AutomationScheduleCursor.new
    (Automation.id automation) snapshot (Automation.updated_at automation) (Some next) observed_at));
  key ← generate_id (lit "automation-evaluation");
  command ← lift (evaluation_command key lease (Automation.revision automation) None cursor []);
  _ ← on_store (commit_automation_schedule_evaluation (AutomationScheduleEvaluationCommit.mk
        lease (Automation.revision automation) None cursor [] observed_at command));
  mret (CandidateEvaluationSummary.mk true 0).

(** [evaluate_candidate] for a definition with a cursor. *)
Definition advance_cursor (lease : AutomationSchedulerLeaseToken.t)
    (continuity_started_at observed_at : Z) (automation : Automation.t)
    (snapshot : AutomationExecutionSnapshot.t) (cursor : AutomationScheduleCursor.t) :
    svc S CandidateEvaluationSummary.t :=
  _ ← throw_if
        ((AutomationScheduleCursor.automation_id cursor != Automation.id automation)
         || (AutomationScheduleCursor.definition_revision cursor != Automation.revision automation)
         || (AutomationScheduleCursor.schedule_fingerprint cursor
             != AutomationExecutionSnapshot.schedule_fingerprint snapshot)
         || (AutomationScheduleCursor.calculator_version cursor
             != AUTOMATION_SCHEDULE_CALCULATOR_VERSION))
        (ApplicationError.Integrity
           (Text (lit "automation scheduler cursor does not match its definition")));
  let expected_cursor_revision := Some (AutomationScheduleCursor.revision cursor) in
  let evaluated_through := AutomationScheduleCursor.evaluated_through cursor in
  _ ← throw_if (observed_at <? evaluated_through)
        (ApplicationError.InvalidState
           (Text (lit "automation scheduler clock predates its durable cursor")));
  if observed_at =? evaluated_through then mret (CandidateEvaluationSummary.mk false 0)
  else
    let through :=
      match checked_add u64_max evaluated_through AUTOMATION_SCHEDULER_EVALUATION_WINDOW_MS with
      | Some bounded => Z.min bounded observed_at
      | None => observed_at
      end in
    calculation ← lift (map_err ApplicationError.from_schedule (AutomationSchedule.decisions_between
      (AutomationExecutionSnapshot.schedule snapshot)
      (AutomationExecutionSnapshot.timezone snapshot) evaluated_through through
      MAX_AUTOMATION_SCHEDULE_DECISIONS));
    _ ← throw_if (AutomationScheduleEvaluation.truncated calculation)
          (ApplicationError.Unavailable
             (Text (lit "automation scheduler calculation exceeded its bounded window")));
    occurrences ← materialize_decisions automation snapshot
      (AutomationScheduleEvaluation.decisions calculation) continuity_started_at observed_at;
    _ ← throw_if (MAX_AUTOMATION_SCHEDULER_EVALUATION_OCCURRENCES <? Z.of_nat (length occurrences))
          (ApplicationError.Unavailable
             (Text (lit "automation scheduler evaluation produced too many occurrence decisions")));
    let occurrences := merge_sort nominal_le occurrences in
    next ← lift (map_err ApplicationError.from_schedule (AutomationSchedule.next_decision_after
      (AutomationExecutionSnapshot.schedule snapshot)
      (AutomationExecutionSnapshot.timezone snapshot) through));
    cursor ← lift (moved_copy ApplicationError.from_scheduler
      (AutomationScheduleCursor.advance through (Some next) observed_at) cursor);
    key ← generate_id (lit "automation-evaluation");
    command ← lift (evaluation_command key lease (Automation.revision automation)
                      expected_cursor_revision cursor occurrences);
    committed ← on_store (commit_automation_schedule_evaluation
      (AutomationScheduleEvaluationCommit.mk lease (Automation.revision automation)
         expected_cursor_revision cursor occurrences observed_at command));
    mret (CandidateEvaluationSummary.mk false
            (Z.of_nat (length (AutomationScheduleEvaluationResult.occurrences committed)))).

(** [evaluate_candidate]. *)
Definition evaluate_candidate (lease : AutomationSchedulerLeaseToken.t)
    (continuity_started_at observed_at : Z) (candidate : AutomationScheduleCandidate.t) :
    svc S CandidateEvaluationSummary.t :=
  let automation := AutomationScheduleCandidate.automation candidate in
  _ ← throw_if (Automation.state automation != AutomationState.Enabled)
        (ApplicationError.Integrity
           (Text (lit "scheduler store returned a non-enabled automation")));
  snapshot ← lift (map_err ApplicationError.from_scheduler (AutomationExecutionSnapshot.new
    (Automation.revision automation) (Automation.project_id automation)
    (Automation.title automation) (Automation.prompt automation) (Automation.schedule automation)
    (Automation.timezone automation) (Automation.missed_run_policy automation)
    (Automation.overlap_policy automation)));
  match AutomationScheduleCandidate.cursor candidate with
  | None => initialize_cursor lease observed_at automation snapshot
  | Some cursor =>
      advance_cursor lease continuity_started_at observed_at automation snapshot cursor
  end.

(** The loop of [tick]. *)
Definition add_evaluation (evaluated : CandidateEvaluationSummary.t)
    (summary : AutomationSchedulerTickSummary.t) : AutomationSchedulerTickSummary.t :=
  summary
    <| AutomationSchedulerTickSummary.definitions_evaluated := saturating_add usize_max
         (AutomationSchedulerTickSummary.definitions_evaluated summary) 1 |>
    <| AutomationSchedulerTickSummary.cursors_initialized := saturating_add usize_max
         (AutomationSchedulerTickSummary.cursors_initialized summary)
         (if CandidateEvaluationSummary.initialized evaluated then 1 else 0) |>
    <| AutomationSchedulerTickSummary.occurrences_materialized := saturating_add usize_max
         (AutomationSchedulerTickSummary.occurrences_materialized summary)
         (CandidateEvaluationSummary.occurrences evaluated) |>.
Fixpoint evaluate_each (lease : AutomationSchedulerLeaseToken.t)
    (continuity_started_at observed_at : Z) (candidates : list AutomationScheduleCandidate.t)
    (summary : AutomationSchedulerTickSummary.t) : svc S AutomationSchedulerTickSummary.t :=
  match candidates with
  | [] => mret summary
  | candidate :: candidates' =>
      evaluated ← evaluate_candidate lease continuity_started_at observed_at candidate;
      evaluate_each lease continuity_started_at observed_at candidates'
        (add_evaluation evaluated summary)
  end.

(** [tick]. *)
Definition tick (owner_id : AutomationSchedulerOwnerId) (after : option AutomationId) (limit : Z) :
    svc S AutomationSchedulerTickSummary.t :=
  _ ← throw_if (negb (in_range 1 MAX_AUTOMATION_SCHEDULER_TICK_DEFINITIONS limit))
        (ApplicationError.InvalidInput
           (Text (lit "automation scheduler tick limit is outside the supported bounds")));
  observed_at ← clock_now;
  acquisition ← on_store (acquire_automation_scheduler_lease owner_id observed_at
                            AUTOMATION_SCHEDULER_LEASE_TTL_MS);
  match acquisition with
  | AutomationSchedulerLeaseAcquisition.Busy _ =>
      mret (AutomationSchedulerTickSummary.inactive AutomationSchedulerTickStatus.LeaseBusy)
  | AutomationSchedulerLeaseAcquisition.ClockRegressed durable_floor =>
      mret ((AutomationSchedulerTickSummary.inactive AutomationSchedulerTickStatus.ClockRegressed)
              <| AutomationSchedulerTickSummary.durable_clock_floor := Some durable_floor |>)
  | AutomationSchedulerLeaseAcquisition.Acquired lease continuous continuity_started_at =>
      candidates ← on_store (list_automation_schedule_candidates after
                               (saturating_add usize_max limit 1));
      let has_more := limit <? Z.of_nat (length candidates) in
      let candidates := take (Z.to_nat limit) candidates in
      let next_definition_cursor :=
        if has_more
        then (λ c, Automation.id (AutomationScheduleCandidate.automation c)) <$> last candidates
        else None in
      evaluate_each (AutomationSchedulerLease.token lease) continuity_started_at observed_at
        candidates
        (AutomationSchedulerTickSummary.mk AutomationSchedulerTickStatus.Completed continuous 0 0 0
           next_definition_cursor None)
  end.

(** [recover_expired_claims]. *)
Definition recover_expired_claims (owner_id : AutomationSchedulerOwnerId) (limit : Z) :
    svc S AutomationSchedulerRecoverySummary.t :=
  _ ← throw_if (negb (in_range 1 MAX_AUTOMATION_SCHEDULER_RECOVERY_BATCH limit))
        (ApplicationError.InvalidInput
           (Text (lit "automation scheduler recovery limit is outside the supported bounds")));
  now ← clock_now;
  acquisition ← on_store (acquire_automation_scheduler_lease owner_id now
                            AUTOMATION_SCHEDULER_LEASE_TTL_MS);
  match acquisition with
  | AutomationSchedulerLeaseAcquisition.Acquired lease _ _ =>
      on_store (recover_automation_occurrence_claims (AutomationSchedulerLease.token lease) now limit)
  | AutomationSchedulerLeaseAcquisition.Busy _ =>
      throw (ApplicationError.Unavailable (Text (lit "automation scheduler lease is busy")))
  | AutomationSchedulerLeaseAcquisition.ClockRegressed _ =>
      throw (ApplicationError.InvalidState (Text (lit "automation scheduler clock regressed")))
  end.

(** [execute_due]: the durable work prepared for one pending occurrence. *)
Definition prepare_dispatch (lease_token : AutomationSchedulerLeaseToken.t) (observed_at : Z)
    (occurrence : AutomationOccurrence.t) : svc S AutomationOccurrenceDispatch.t :=
  let snapshot := AutomationOccurrence.snapshot occurrence in
  let project_id := AutomationExecutionSnapshot.project_id snapshot in
  thread_value ← generate_id (lit "automation-thread");
  thread_id ← lift (map_err ApplicationError.from_id (new_id thread_value));
  thread ← lift (map_err ApplicationError.from_workspace (Thread.new thread_id project_id
    (lit "Automation " ++ [183; 32] ++ AutomationExecutionSnapshot.title snapshot) observed_at));
  prompt_value ← generate_id (lit "automation-prompt");
  prompt_id ← lift (map_err ApplicationError.from_id (new_id prompt_value));
  prompt ← lift (map_err ApplicationError.from_workspace (Message.new prompt_id (Thread.id thread)
    MessageRole.User (AutomationExecutionSnapshot.prompt snapshot) observed_at));
  run_value ← generate_id (lit "automation-run");
  run_id ← lift (map_err ApplicationError.from_id (new_id run_value));
  let run := Run.queued_scheduled run_id project_id (Thread.id thread) observed_at in
  key ← generate_id (lit "automation-claim");
  command ← lift (mutation_command (lit "automation_scheduler_claim_v1") key
    [as_str (AutomationOccurrence.id occurrence); to_string (AutomationOccurrence.revision occurrence);
     as_str (AutomationSchedulerLeaseToken.owner_id lease_token);
     to_string (AutomationSchedulerLeaseToken.fence lease_token);
     as_str (Thread.id thread); as_str (Message.id prompt); as_str (Run.id run)]);
  mret (AutomationOccurrenceDispatch.mk
    (ClaimAutomationOccurrence.mk lease_token (AutomationOccurrence.id occurrence)
       (AutomationOccurrence.revision occurrence) observed_at
       (saturating_add u64_max observed_at AUTOMATION_SCHEDULER_LEASE_TTL_MS) command)
    thread prompt run).

(** The inner and the outer loop of [execute_due]. *)
Fixpoint dispatch_pending (lease_token : AutomationSchedulerLeaseToken.t) (observed_at : Z)
    (occurrences : list AutomationOccurrence.t) (dispatched : Z) : svc S Z :=
  match occurrences with
  | [] => mret dispatched
  | occurrence :: occurrences' =>
      if AutomationOccurrence.state occurrence != AutomationOccurrenceState.Pending
      then dispatch_pending lease_token observed_at occurrences' dispatched
      else
        dispatch ← prepare_dispatch lease_token observed_at occurrence;
        outcome ← try_store (claim_and_bind_automation_occurrence dispatch);
        match outcome with
        | Ok _ => dispatch_pending lease_token observed_at occurrences'
                    (saturating_add usize_max dispatched 1)
        | Err (Conflict | NotFound) =>
            dispatch_pending lease_token observed_at occurrences' dispatched
        | Err error => throw (ApplicationError.from_store error)
        end
  end.
Fixpoint dispatch_candidates (lease_token : AutomationSchedulerLeaseToken.t) (observed_at : Z)
    (candidates : list AutomationScheduleCandidate.t) (dispatched : Z) : svc S Z :=
  match candidates with
  | [] => mret dispatched
  | candidate :: candidates' =>
      occurrences ← on_store (list_automation_occurrences
        (Automation.id (AutomationScheduleCandidate.automation candidate)) None 16);
      dispatched ← dispatch_pending lease_token observed_at occurrences dispatched;
      dispatch_candidates lease_token observed_at candidates' dispatched
  end.

(** [execute_due]. *)
Definition execute_due (owner_id : AutomationSchedulerOwnerId) (limit : Z) : svc S Z :=
  first ← tick owner_id None limit;
  again ←
    (if (AutomationSchedulerTickSummary.status first == AutomationSchedulerTickStatus.Completed)
        && (0 <? AutomationSchedulerTickSummary.cursors_initialized first)
        && (AutomationSchedulerTickSummary.occurrences_materialized first =? 0)
     then tick owner_id None limit else mret first);
  if AutomationSchedulerTickSummary.status again != AutomationSchedulerTickStatus.Completed
  then mret 0
  else
    observed_at ← clock_now;
    acquisition ← on_store (acquire_automation_scheduler_lease owner_id observed_at
                              AUTOMATION_SCHEDULER_LEASE_TTL_MS);
    match acquisition with
    | AutomationSchedulerLeaseAcquisition.Acquired lease _ _ =>
        candidates ← on_store (list_automation_schedule_candidates None limit);
        dispatch_candidates (AutomationSchedulerLease.token lease) observed_at candidates 0
    | _ => mret 0
    end.

(** How a guest answer settles the run. *)
Definition answer_completion (answer : guest_answer) : AutomationOccurrenceRunCompletion.t :=
  let outcome :=
    match answer with
    | Answered outcome => outcome
    | ShutDown | TimedOut => Err ScheduledGuestDispatchError.Interrupted
    end in
  match outcome with
  | Ok ScheduledGuestOutcome.Succeeded => AutomationOccurrenceRunCompletion.Succeeded
  | Ok ScheduledGuestOutcome.Failed | Err ScheduledGuestDispatchError.Unavailable =>
      AutomationOccurrenceRunCompletion.Failed
  | Err ScheduledGuestDispatchError.Interrupted =>
      AutomationOccurrenceRunCompletion.InterruptedNeedsReview
  end.

(** The loop of [dispatch_resumable]. *)
Fixpoint dispatch_each (resumable : list AutomationOccurrenceDispatchResult.t)
    (completed_count : Z) : svc S Z :=
  match resumable with
  | [] => mret completed_count
  | bound :: resumable' =>
      stop ← poll_cancelled;
      if (stop : bool) then mret completed_count
      else
        now ← clock_now;
        begun ← try_store (begin_automation_occurrence_run
          (AutomationOccurrence.id (AutomationOccurrenceDispatchResult.occurrence bound))
          (AutomationOccurrence.revision (AutomationOccurrenceDispatchResult.occurrence bound))
          (Run.id (AutomationOccurrenceDispatchResult.run bound))
          (Run.revision (AutomationOccurrenceDispatchResult.run bound)) now);
        match begun with
        | Err (Conflict | NotFound) => dispatch_each resumable' completed_count
        | Err error => throw (ApplicationError.from_store error)
        | Ok running =>
            let occurrence := AutomationOccurrenceDispatchResult.occurrence running in
            let run := AutomationOccurrenceDispatchResult.run running in
            let request := ScheduledGuestRequest.mk (AutomationOccurrence.id occurrence) (Run.id run)
              (Message.content (AutomationOccurrenceDispatchResult.prompt running)) in
            stop ← poll_cancelled;
            completion ←
              (if (stop : bool) then mret AutomationOccurrenceRunCompletion.Cancelled
               else answer ← ask_guest request; mret (answer_completion answer));
            now ← clock_now;
            _ ← on_store (complete_automation_occurrence_run (AutomationOccurrence.id occurrence)
                  (AutomationOccurrence.revision occurrence) (Run.id run) completion now);
            dispatch_each resumable' (saturating_add usize_max completed_count 1)
        end
  end.

(** [dispatch_resumable]. *)
Definition dispatch_resumable (limit : Z) : svc S Z :=
  _ ← throw_if (negb (in_range 1 MAX_AUTOMATION_SCHEDULER_TICK_DEFINITIONS limit))
        (ApplicationError.InvalidInput
           (Text (lit "automation dispatch limit is outside the supported bounds")));
  resumable ← on_store (list_resumable_automation_dispatches None limit);
  dispatch_each resumable 0.
End service.
End AutomationSchedulerService.
