(* ===== verification/SchedulerWorld.v ===== *)
(** * The scheduler journal under concurrent owners

    What the tables of [SchedulerStore] guarantee when any number of daemons call the
    journal while the run services and the workspace services write the same store. *)
From stdpp Require Import sorting.
From S2P Require Import Prelude RustText Ids Runs Approvals Effects ConversationTurns TurnEvents Schedules Scheduler Workspace ExecutionStore Commands ExecutionServices WorkspaceStore WorkspaceServices WorkspaceWorld SchedulerStore.
Import SchedulerMemory.

(** ** Claim attempts *)

Section attempts.
Import AutomationOccurrenceClaimAttempt.
Implicit Types x : AutomationOccurrence.t.
Implicit Types a : AutomationOccurrenceClaimAttempt.t.

Definition attempt_open a : Prop := completed_at a = None.
#[global] Instance attempt_open_dec a : Decision (attempt_open a).
Proof. unfold attempt_open. apply _. Defined.

(** What the check asks of the attempt at a position. *)
Definition attempt_ok x (k : Z) a : Prop :=
  attempt_malformed x (k + 1) a = false ∧ (attempt_open a → attempt_mismatch x a = false).
Definition attempts_ok x (l : list t) : Prop :=
  Z.of_nat (length l) = AutomationOccurrence.claim_attempt_count x ∧
  ∀ k a, l !! k = Some a → attempt_ok x (Z.of_nat k) a.
Abbreviation open_count l := (Z.of_nat (length (filter attempt_open l))).

Lemma open_attempts_from_Ok x index n l m :
  0 ≤ index → index + Z.of_nat (length l) ≤ u32_max → 0 ≤ n →
  n + Z.of_nat (length l) ≤ usize_max →
  open_attempts_from x index n l = Ok m ↔
  (∀ k a, l !! k = Some a → attempt_ok x (index + Z.of_nat k) a) ∧ m = n + open_count l.
Proof.
  revert index n. induction l as [|a l IH]; intros index n Hi Hl Hn Hb; cbn [open_attempts_from].
  { split; [intros [= <-]; split; [done|cbn; lia]|intros [_ ->]; f_equal; cbn; lia]. }
  cbn in Hl, Hb. unfold checked_add. rewrite (proj2 (Z.leb_le _ _)) by lia. cbn [ok_or mbind result_bind].
  assert (Hstep : ∀ n', 0 ≤ n' → n' + Z.of_nat (length l) ≤ usize_max →
    open_attempts_from x (index + 1) n' l = Ok m ↔
    (∀ k a, l !! k = Some a → attempt_ok x (index + Z.of_nat (S k)) a) ∧ m = n' + open_count l).
  { intros n' Hn' Hb'. rewrite IH by lia.
    by setoid_rewrite (ltac:(intros; lia) : ∀ k, index + 1 + Z.of_nat k = index + Z.of_nat (S k)). }
  assert (Hall : ∀ P : nat → t → Prop,
    (∀ k a', (a :: l) !! k = Some a' → P k a') ↔ P O a ∧ ∀ k a', l !! k = Some a' → P (S k) a').
  { intros P. split.
    - intros H. split; [by apply H|]. intros k a' Hk. by apply H.
    - intros [H0 HS] [|k] a' Hk; cbn in Hk; [by simplify_eq|by apply HS]. }
  rewrite Hall, filter_cons. unfold attempt_ok at 1. rewrite Z.add_0_r. unfold reject_if.
  clear IH. generalize dependent (filter attempt_open l). intros c Hstep.
  destruct (attempt_malformed x (index + 1) a) eqn:Em; cbn; [naive_solver|].
  unfold is_none, is_some. destruct (decide (attempt_open a)) as [Ho|Ho]; unfold attempt_open in Ho.
  - rewrite Ho. cbn. destruct (attempt_mismatch x a) eqn:Ea; cbn.
    { split; [done|]. intros [[[_ H] _] _]. by specialize (H Ho). }
    unfold saturating_add. rewrite Z.min_r by (unfold usize_max in *; lia). rewrite Hstep by lia.
    split; [intros [? ->]|intros [[_ ?] ->]]; split; try done; lia.
  - destruct (completed_at a) eqn:Ec; [|done]. cbn. rewrite Hstep by lia.
    split; [intros [? ->]; split_and!; try done; intros Ho'; congruence|].
    intros [[_ ?] ->]; split; [done|lia].
Qed.

(** What the whole check asks for, by state. *)
Definition attempts_shape x (l : list t) : Prop :=
  match AutomationOccurrence.state x with
  | AutomationOccurrenceState.Claimed => open_count l = 1
  | AutomationOccurrenceState.RunLinked => open_count l = 1 ∨ (open_count l = 0 ∧ last_sealed l = true)
  | _ => open_count l = 0
  end.

Lemma validate_claim_attempt_sequence_Ok x l :
  AutomationOccurrence.claim_attempt_count x ≤ MAX_AUTOMATION_OCCURRENCE_CLAIM_ATTEMPTS →
  validate_claim_attempt_sequence x l = Ok tt ↔ attempts_ok x l ∧ attempts_shape x l.
Proof.
  intros Hc. unfold validate_claim_attempt_sequence, attempts_ok, MAX_AUTOMATION_OCCURRENCE_CLAIM_ATTEMPTS in *.
  unfold reject_if. destruct (bool_decide_reflect (Z.of_nat (length l) =
    AutomationOccurrence.claim_attempt_count x)) as [E|E]; cbn; [|naive_solver].
  destruct (open_attempts_from x 0 0 l) as [n|e] eqn:Ho; cbn.
  - apply open_attempts_from_Ok in Ho as [Hl ->]; [|unfold u32_max, usize_max, u64_max; lia..].
    match goal with |- (if ?b then Err ?e else Ok tt) = _ ↔ _ => fold (reject_if b e) end.
    rewrite reject_if_Ok, orb_false_iff, Z.ltb_ge, negb_false_iff. unfold attempts_shape.
    destruct (AutomationOccurrence.state x);
      rewrite ?orb_true_iff, ?andb_true_iff, ?Z.eqb_eq; naive_solver lia.
  - split; [done|]. intros [[_ Hl] _].
    assert (∃ m, open_attempts_from x 0 0 l = Ok m) as [m Hm]; [|congruence].
    eexists. apply open_attempts_from_Ok; [unfold u32_max, usize_max, u64_max; lia..|].
    split; [done|reflexivity].
Qed.

(** The invariant of an occurrence and its attempts: a claimed occurrence has one open
    attempt, and a linked one has the evidence of its link. *)
Record attempts_inv x (l : list t) : Prop := {
  ai_ok : attempts_ok x l;
  ai_claimed : AutomationOccurrence.state x = AutomationOccurrenceState.Claimed → open_count l = 1;
  ai_closed : AutomationOccurrence.state x ≠ AutomationOccurrenceState.Claimed → open_count l = 0;
  ai_linked : AutomationOccurrence.state x = AutomationOccurrenceState.RunLinked → last_sealed l = true;
}.

Lemma attempts_inv_validate x l :
  AutomationOccurrence.claim_attempt_count x ≤ MAX_AUTOMATION_OCCURRENCE_CLAIM_ATTEMPTS →
  attempts_inv x l → validate_claim_attempt_sequence x l = Ok tt.
Proof.
  intros Hc [Ho H1 H0 Hl]. apply validate_claim_attempt_sequence_Ok; [done|]. split; [done|].
  unfold attempts_shape. destruct (AutomationOccurrence.state x); auto.
Qed.

Lemma open_count_nil l : open_count l = 0 ↔ ∀ a, a ∈ l → ¬ attempt_open a.
Proof.
  split.
  - intros H a Ha Ho. assert (Hf : a ∈ filter attempt_open l) by (by apply list_elem_of_filter).
    destruct (filter attempt_open l); [by apply elem_of_nil in Hf|cbn in H; lia].
  - intros H. rewrite (elem_of_nil_inv (filter attempt_open l)); [done|].
    intros a [Ho Ha]%list_elem_of_filter. by apply (H a).
Qed.

(** The check of a closed attempt depends on the occurrence's identifier only. *)
Lemma attempt_ok_frame x x' k a :
  AutomationOccurrence.id x' = AutomationOccurrence.id x → ¬ attempt_open a →
  attempt_ok x k a → attempt_ok x' k a.
Proof. unfold attempt_ok, attempt_malformed. intros -> Ho [H _]. by split. Qed.

Lemma attempts_inv_frame x x' l :
  attempts_inv x l → AutomationOccurrence.state x ≠ AutomationOccurrenceState.Claimed →
  AutomationOccurrence.id x' = AutomationOccurrence.id x →
  AutomationOccurrence.claim_attempt_count x' = AutomationOccurrence.claim_attempt_count x →
  AutomationOccurrence.state x' ≠ AutomationOccurrenceState.Claimed →
  (AutomationOccurrence.state x' = AutomationOccurrenceState.RunLinked → last_sealed l = true) →
  attempts_inv x' l.
Proof.
  intros [[Hn Hok] _ H0 _] Hs Hid Hc Hs' Hl. specialize (H0 Hs). split; [|done|done|done].
  split; [congruence|]. intros k a Hk. eapply attempt_ok_frame; [done| |by apply Hok].
  apply open_count_nil with l; [done|]. by eapply list_elem_of_lookup_2.
Qed.

Lemma attempts_inv_append x x' l a :
  attempts_inv x l → AutomationOccurrence.state x ≠ AutomationOccurrenceState.Claimed →
  AutomationOccurrence.id x' = AutomationOccurrence.id x →
  AutomationOccurrence.claim_attempt_count x' = AutomationOccurrence.claim_attempt_count x + 1 →
  attempt_ok x' (AutomationOccurrence.claim_attempt_count x) a →
  (attempt_open a ↔ AutomationOccurrence.state x' = AutomationOccurrenceState.Claimed) →
  (AutomationOccurrence.state x' = AutomationOccurrenceState.RunLinked → last_sealed [a] = true) →
  attempts_inv x' (l ++ [a]).
Proof.
  intros [[Hn Hok] _ H0 _] Hs Hid Hc Ha Ho Hl. specialize (H0 Hs).
  assert (Hopen : open_count (l ++ [a]) = open_count [a]) by (rewrite filter_app, length_app; lia).
  split.
  - split; [rewrite length_app; cbn; lia|].
    intros k b [Hk|[Hk Hb]]%lookup_app_Some.
    + eapply attempt_ok_frame; [done| |by apply Hok].
      apply open_count_nil with l; [done|]. by eapply list_elem_of_lookup_2.
    + apply list_lookup_singleton_Some in Hb as [E ->].
      by replace (Z.of_nat k) with (AutomationOccurrence.claim_attempt_count x) by lia.
  - rewrite Hopen. intros Hst. rewrite filter_cons_True by (by apply Ho). done.
  - rewrite Hopen. intros Hst. rewrite filter_cons_False by (intros ?; by apply Hst, Ho). done.
  - intros Hst. unfold last_sealed. rewrite last_snoc. by apply Hl.
Qed.

(** Only the last attempt can be open. *)
Lemma attempts_open_last x l :
  attempts_inv x l → AutomationOccurrence.state x = AutomationOccurrenceState.Claimed →
  ∃ l0 a, l = l0 ++ [a] ∧ attempt_open a ∧ ∀ b, b ∈ l0 → ¬ attempt_open b.
Proof.
  intros [[Hn Hok] H1 _ _] Hs. specialize (H1 Hs).
  destruct l as [|a l _] using rev_ind; [done|]. exists l, a. split; [done|].
  assert (Hl : ∀ b, b ∈ l → ¬ attempt_open b).
  { intros b [k Hk]%list_elem_of_lookup Ho.
    destruct (Hok k b) as [Hm Hmis]; [by apply lookup_app_l_Some|]. specialize (Hmis Ho).
    unfold attempt_malformed in Hm. unfold attempt_mismatch in Hmis.
    case_match; [|done]. bool_facts. apply lookup_lt_Some in Hk. rewrite length_app in Hn. cbn in Hn.
    lia. }
  split; [|done]. rewrite filter_app, length_app in H1. apply open_count_nil in Hl.
  destruct (decide (attempt_open a)) as [?|Hno]; [done|].
  rewrite filter_cons_False in H1 by done. cbn in H1. lia.
Qed.

Lemma complete_claim_attempt_inv x x' l l' completion now :
  attempts_inv x l → AutomationOccurrence.state x = AutomationOccurrenceState.Claimed →
  complete_claim_attempt x l completion now = Ok l' →
  (∀ c, AutomationOccurrence.claim_of x = Some c → AutomationOccurrenceClaim.claimed_at c ≤ now) →
  AutomationOccurrence.id x' = AutomationOccurrence.id x →
  AutomationOccurrence.claim_attempt_count x' = AutomationOccurrence.claim_attempt_count x →
  AutomationOccurrence.state x' ≠ AutomationOccurrenceState.Claimed →
  (AutomationOccurrence.state x' = AutomationOccurrenceState.RunLinked →
     completion = AutomationOccurrenceClaimCompletion.RunLinked) →
  attempts_inv x' l'.
Proof.
  intros Hi Hs H Hnow Hid Hc Hs' Hr.
  destruct (attempts_open_last _ _ Hi Hs) as (l0 & a & -> & Ho & Hcl).
  unfold complete_claim_attempt in H. apply result_bind_Ok in H as (? & _ & H).
  rewrite last_snoc, removelast_last in H. cbn in H. apply reject_then_Ok in H as [-> Hn].
  destruct Hi as [[Hlen Hok] _ _ _]. rewrite length_app in Hlen. cbn in Hlen.
  set (a' := AutomationOccurrenceClaimAttempt.mk _ _ _ _ _ _ _ _ _).
  assert (H0 : open_count (l0 ++ [a']) = 0).
  { apply open_count_nil. intros b [Hb| ->%list_elem_of_singleton]%elem_of_app; [by apply Hcl|done]. }
  assert (Hlast : attempt_ok x (Z.of_nat (length l0)) a).
  { apply Hok. rewrite lookup_app_r by lia. by rewrite Nat.sub_diag. }
  split; [|done|done|].
  - split; [rewrite length_app; cbn; lia|]. intros k b [Hk|[Hk Hb]]%lookup_app_Some.
    + eapply attempt_ok_frame; [done| |apply Hok; by apply lookup_app_l_Some].
      apply Hcl. by eapply list_elem_of_lookup_2.
    + apply list_lookup_singleton_Some in Hb as [E <-].
      replace (Z.of_nat k) with (Z.of_nat (length l0)) by lia. split; [|done].
      destruct Hlast as [Hm Hmis]. specialize (Hmis Ho). unfold attempt_malformed in *. cbn.
      rewrite Hid. bool_facts. unfold attempt_mismatch in Hmis. case_match; [|done]. bool_facts.
      rewrite !orb_false_iff. split_and!; try done; [by apply negb_false_iff, bool_decide_eq_true..|].
      apply Z.ltb_ge. specialize (Hnow _ eq_refl). lia.
  - intros Hst. unfold last_sealed. rewrite last_snoc. cbn. by rewrite (Hr Hst).
Qed.
End attempts.

(** ** The occurrence tables *)

Section tables.
Context {CH : Chrono} {SHA : Sha256}.
Import AutomationOccurrence.
Implicit Types x y z : AutomationOccurrence.t.
Implicit Types T : gmap AutomationOccurrenceId AutomationOccurrence.t.
Implicit Types A : gmap AutomationOccurrenceId (list AutomationOccurrenceClaimAttempt.t).

Definition active x : Prop := automation_occurrence_is_active (state x) = true.
Definition queued x : Prop := state x = AutomationOccurrenceState.QueuedOverlap.
Definition attempts_of A (i : AutomationOccurrenceId) : list AutomationOccurrenceClaimAttempt.t :=
  default [] (A !! i).

(** Stored occurrences pass the restart check and agree with their attempts; a slot of
    an automation has one occurrence, and at most one is active and one retained. *)
Record journal_inv T A : Prop := {
  ji_occurrence i x : T !! i = Some x →
    id x = i ∧ occurrence_inv x ∧ attempts_inv x (attempts_of A i);
  ji_attempts i l : A !! i = Some l → is_Some (T !! i);
  ji_slot i j x y : T !! i = Some x → T !! j = Some y →
    automation_id x = automation_id y → slot x = slot y → i = j;
  ji_active i j x y : T !! i = Some x → T !! j = Some y →
    automation_id x = automation_id y → active x → active y → i = j;
  ji_queued i j x y : T !! i = Some x → T !! j = Some y →
    automation_id x = automation_id y → queued x → queued y → i = j;
}.

(** What no operation changes about an occurrence; a linked run stays linked. *)
Definition same_occurrence x x' : Prop :=
  id x' = id x ∧ automation_id x' = automation_id x ∧ snapshot x' = snapshot x ∧
  nominal_local x' = nominal_local x ∧ scheduled_for x' = scheduled_for x ∧
  (∀ r, run_id x = Some r → run_id x' = Some r).

#[global] Instance same_occurrence_refl : Reflexive same_occurrence.
Proof. intros x. unfold same_occurrence. naive_solver. Qed.
#[global] Instance same_occurrence_trans : Transitive same_occurrence.
Proof. intros x y z. unfold same_occurrence. naive_solver congruence. Qed.

(** A table moves to another one: the same occurrences, each checked again, and one
    becomes active only if it was, or was retained while the active one ended. *)
Record journal_moves T A T' A' : Prop := {
  jm_back i x' : T' !! i = Some x' → ∃ x, T !! i = Some x ∧ same_occurrence x x' ∧
    occurrence_inv x' ∧ attempts_inv x' (attempts_of A' i) ∧
    (queued x' → queued x) ∧
    (active x' → active x ∨
       queued x ∧ ∃ j z z', T !! j = Some z ∧ T' !! j = Some z' ∧
         automation_id z = automation_id x ∧ active z ∧ ¬ active z');
  jm_forth i x : T !! i = Some x → is_Some (T' !! i);
  jm_attempts i l : A' !! i = Some l → is_Some (T !! i);
}.

Lemma journal_moves_inv T A T' A' : journal_inv T A → journal_moves T A T' A' → journal_inv T' A'.
Proof.
  intros [H1 H2 H3 H4 H5] [Hb Hf Ha]. split.
  - intros i x' Hx. destruct (Hb _ _ Hx) as (x & Hi & (Hid & _) & Hinv & Hatt & _).
    destruct (H1 _ _ Hi) as [<- _]. done.
  - intros i l [x Hx]%Ha. by eapply Hf.
  - intros i j x' y' (x & Hi & (_ & Ea & Es & En & _) & _)%Hb (y & Hj & (_ & Ea' & Es' & En' & _) & _)%Hb.
    unfold slot. rewrite Ea, Ea', Es, Es', En, En'. by apply H3.
  - intros i j x' y' Hx Hy Haut Hax Hay.
    destruct (Hb _ _ Hx) as (x & Hi & (_ & Ea & _) & _ & _ & _ & Hact).
    destruct (Hb _ _ Hy) as (y & Hj & (_ & Ea' & _) & _ & _ & _ & Hact').
    rewrite Ea, Ea' in Haut.
    destruct (Hact Hax) as [?|(Hq & k & z & z' & Hz & Hz' & Eaz & Haz & Hnz)],
      (Hact' Hay) as [?|(Hq' & k' & w & w' & Hw & Hw' & Eaw & Haw & Hnw)].
    + by eapply H4.
    + assert (i = k') as -> by (eapply H4; [exact Hi|exact Hw|congruence|done|done]).
      rewrite Hx in Hw'. by simplify_eq.
    + assert (j = k) as -> by (eapply H4; [exact Hj|exact Hz|congruence|done|done]).
      rewrite Hy in Hz'. by simplify_eq.
    + by eapply H5.
  - intros i j x' y' (x & Hi & (_ & Ea & _) & _ & _ & Hq & _)%Hb
      (y & Hj & (_ & Ea' & _) & _ & _ & Hq' & _)%Hb.
    rewrite Ea, Ea'. eauto.
Qed.

(** One occurrence moves, with new attempts or the old ones. *)
Lemma journal_move_one T A A' i x x' :
  journal_inv T A → T !! i = Some x → same_occurrence x x' → occurrence_inv x' →
  attempts_inv x' (attempts_of A' i) → (∀ j, j ≠ i → A' !! j = A !! j) →
  (queued x' → queued x) → (active x' → active x) →
  journal_moves T A (<[i := x']> T) A'.
Proof.
  intros Hi Hx Hs Ho Ha Hne Hq Hact. split.
  - intros j y [[<- <-]|[Hj Hy]]%lookup_insert_Some; [exists x; eauto 10|].
    exists y. destruct (ji_occurrence _ _ Hi _ _ Hy) as (_ & ? & Hay).
    unfold attempts_of in *. rewrite Hne by done. split_and!; try done. by left.
  - intros j y Hy. destruct (decide (i = j)) as [->|]; [by rewrite lookup_insert_eq|].
    by rewrite lookup_insert_ne.
  - intros j l Hl. destruct (decide (j = i)) as [->|Hj]; [done|].
    rewrite Hne in Hl by done. by eapply ji_attempts.
Qed.

(** The active occurrence ends and the retained one, if any, takes its place. *)
Lemma journal_move_promote T A i j x x' y y' :
  journal_inv T A → T !! i = Some x → same_occurrence x x' → occurrence_inv x' →
  attempts_inv x' (attempts_of A i) → active x → ¬ active x' → ¬ queued x' →
  T !! j = Some y → queued y → automation_id y = automation_id x →
  same_occurrence y y' → occurrence_inv y' → attempts_inv y' (attempts_of A j) → ¬ queued y' →
  journal_moves T A (<[j := y']> (<[i := x']> T)) A.
Proof.
  intros Hi Hx Hs Ho Ha Hax Hax' Hqx' Hy Hqy Haut Hs' Ho' Ha' Hqy'.
  assert (Hne : j ≠ i) by (intros ->; rewrite Hx in Hy; simplify_eq; unfold active, queued in *;
                           rewrite Hqy in Hax; done).
  split.
  - intros k w [[<- <-]|[Hk [[<- <-]|[Hk' Hw]]%lookup_insert_Some]]%lookup_insert_Some.
    + exists y. split_and!; try done. intros _. right. split; [done|].
      exists i, x, x'. rewrite lookup_insert_ne, lookup_insert_eq by done. done.
    + exists x. split_and!; try done.
    + exists w. destruct (ji_occurrence _ _ Hi _ _ Hw) as (_ & ? & ?). split_and!; try done. by left.
  - intros k w Hw. rewrite lookup_insert_is_Some'. destruct (decide (k = i)) as [->|];
      [right; rewrite lookup_insert_eq; eauto|right; rewrite lookup_insert_ne by done; eauto].
  - intros k l. by apply ji_attempts.
Qed.
End tables.

(** ** What an operation may do to the journal *)

Section parts.
Context {CH : Chrono} {SHA : Sha256}.
Import SchedulerState.
Implicit Types s : SS.

Abbreviation journal s := (journal_inv (automation_occurrences s) (automation_occurrence_claim_attempts s)).
Definition bound_run (b : AutomationOccurrenceDispatchResult.t) : RunId :=
  Run.id (AutomationOccurrenceDispatchResult.run b).

(** The stored cursor of an automation passes every check against its definition. *)
Definition cursor_fits (automation : Automation.t) (c : AutomationScheduleCursor.t) : Prop :=
  ∃ snapshot, automation_scheduler_snapshot automation = Ok snapshot ∧
    AutomationScheduleCursor.automation_id c = Automation.id automation ∧
    automation_schedule_cursor_is_valid c snapshot = true.

Record sched_inv s : Prop := {
  si_lease l : automation_scheduler_lease s = Some l → lease_ok l;
  si_journal : journal s;
  si_automations a automation : automations s !! a = Some automation → Automation.id automation = a;
  si_cursors a c : automation_schedule_cursors s !! a = Some c →
    ∃ automation, automations s !! a = Some automation ∧ cursor_fits automation c;
  si_runs i r : runs s !! i = Some r → Run.id r = i ∧ run_reachable r;
  si_bindings i b : automation_occurrence_dispatches s !! i = Some b →
    ∃ x, automation_occurrences s !! i = Some x ∧ AutomationOccurrence.run_id x = Some (bound_run b);
}.

(** Nothing is lost on the way from one state to a later one. *)
Record sched_later s s' : Prop := {
  sl_lease l : automation_scheduler_lease s = Some l → ∃ l', automation_scheduler_lease s' = Some l' ∧
    AutomationSchedulerLease.fence l ≤ AutomationSchedulerLease.fence l';
  sl_occurrences i x : automation_occurrences s !! i = Some x →
    ∃ x', automation_occurrences s' !! i = Some x' ∧ same_occurrence x x';
  sl_cursors a : is_Some (automation_schedule_cursors s !! a) →
    is_Some (automation_schedule_cursors s' !! a) ∧ automations s' !! a = automations s !! a;
  sl_runs i r : runs s !! i = Some r → ∃ r', runs s' !! i = Some r' ∧ rtc run_step r r';
  sl_bindings i b : automation_occurrence_dispatches s !! i = Some b →
    ∃ b', automation_occurrence_dispatches s' !! i = Some b' ∧ bound_run b' = bound_run b;
}.
#[global] Instance sched_later_refl : Reflexive sched_later.
Proof. intros s. split; eauto 10 using rtc_refl, Z.le_refl. intros i x H. exists x. by split. Qed.
#[global] Instance sched_later_trans : Transitive sched_later.
Proof.
  intros s1 s2 s3 [A1 A2 A5 A3 A4] [B1 B2 B5 B3 B4]. split.
  - intros l (l1 & H & ?)%A1. destruct (B1 _ H) as (l2 & ? & ?). exists l2. split; [done|lia].
  - intros i x (x1 & H & ?)%A2. destruct (B2 _ _ H) as (x2 & ? & ?). exists x2. split; [done|by etrans].
  - intros a [H E]%A5. destruct (B5 _ H) as [? E']. split; [done|congruence].
  - intros i x (x1 & H & ?)%A3. destruct (B3 _ _ H) as (x2 & ? & ?). exists x2. split; [done|by etrans].
  - intros i x (x1 & H & E)%A4. destruct (B4 _ _ H) as (x2 & ? & E'). exists x2. split; [done|congruence].
Qed.

Definition sched_ok s s' : Prop := sched_inv s' ∧ sched_later s s'.

(** The parts of a step: each is about one of the tables. *)
Definition lease_part s s' : Prop :=
  automation_scheduler_lease s' = automation_scheduler_lease s ∨
  ∃ l', automation_scheduler_lease s' = Some l' ∧ lease_ok l' ∧
    ∀ l, automation_scheduler_lease s = Some l →
      AutomationSchedulerLease.fence l ≤ AutomationSchedulerLease.fence l'.
Definition table_part s s' : Prop :=
  journal s' ∧ ∀ i x, automation_occurrences s !! i = Some x →
    ∃ x', automation_occurrences s' !! i = Some x' ∧ same_occurrence x x'.
Record cursor_part s s' : Prop := {
  cp_keyed a automation : automations s' !! a = Some automation → Automation.id automation = a;
  cp_back a c : automation_schedule_cursors s' !! a = Some c →
    automation_schedule_cursors s !! a = Some c ∨
    ∃ automation, automations s' !! a = Some automation ∧ cursor_fits automation c;
  cp_kept a : is_Some (automation_schedule_cursors s !! a) →
    is_Some (automation_schedule_cursors s' !! a) ∧ automations s' !! a = automations s !! a;
}.
Definition run_part s s' : Prop :=
  ∀ i r', runs s' !! i = Some r' → runs s !! i = Some r' ∨ Run.id r' = i ∧
    ((runs s !! i = None ∧ run_reachable r') ∨ ∃ r, runs s !! i = Some r ∧ rtc run_step r r').
Definition run_kept s s' : Prop := ∀ i r, runs s !! i = Some r → is_Some (runs s' !! i).
Definition binding_part s s' : Prop :=
  (∀ i b, automation_occurrence_dispatches s !! i = Some b →
     is_Some (automation_occurrence_dispatches s' !! i)) ∧
  ∀ i b', automation_occurrence_dispatches s' !! i = Some b' →
    (∃ b, automation_occurrence_dispatches s !! i = Some b ∧ bound_run b' = bound_run b) ∨
    (automation_occurrence_dispatches s !! i = None ∧
     ∃ x', automation_occurrences s' !! i = Some x' ∧
       AutomationOccurrence.run_id x' = Some (bound_run b')).

Lemma sched_ok_intro s s' :
  sched_inv s → lease_part s s' → table_part s s' → cursor_part s s' → run_part s s' →
  run_kept s s' → binding_part s s' → sched_ok s s'.
Proof.
  intros [I1 I2 Ia I3 I4 I5] Hl [Hj Ho] [Hca Hc Hck] Hr Hk [Hb Hb']. split; split.
  - intros l. destruct Hl as [->|(l' & -> & ? & _)]; [by apply I1|]. by intros [= <-].
  - done.
  - done.
  - intros a c [Hac|?]%Hc; [|done]. destruct (I3 _ _ Hac) as (aut & Haut & ?). exists aut. split; [|done].
    destruct (Hck a) as [_ ->]; [eauto|done].
  - intros i r [H|(Hid & [[_ ?]|(r0 & H & ?)])]%Hr; [by apply I4|split; [done|]..].
    + done.
    + destruct (I4 _ _ H) as [_ (r1 & ? & ?)]. exists r1. split; [done|by etrans].
  - intros i b [(b0 & H & ->)|(_ & ?)]%Hb'; [|done].
    destruct (I5 _ _ H) as (x & Hx & Hrun). destruct (Ho _ _ Hx) as (x' & ? & (_ & _ & _ & _ & _ & Hsame)).
    eauto.
  - intros l Hl0. destruct Hl as [->|(l' & -> & _ & H)]; eauto using Z.le_refl.
  - done.
  - done.
  - intros i r H. destruct (Hk _ _ H) as [r' H']. exists r'. split; [done|].
    destruct (Hr _ _ H') as [?|(_ & [[? _]|(r0 & ? & ?)])]; by simplify_eq.
  - intros i b H. destruct (Hb _ _ H) as [b' H']. exists b'. split; [done|].
    destruct (Hb' _ _ H') as [(b0 & ? & ?)|[? _]]; congruence.
Qed.

Lemma lease_same s s' : automation_scheduler_lease s' = automation_scheduler_lease s → lease_part s s'.
Proof. by left. Qed.
Lemma table_same s s' : sched_inv s → automation_occurrences s' = automation_occurrences s →
  automation_occurrence_claim_attempts s' = automation_occurrence_claim_attempts s → table_part s s'.
Proof. intros H E E'. unfold table_part. rewrite E, E'. split; [apply H|]. intros i x Hx. by exists x. Qed.
Lemma table_moves s s' :
  journal s → journal_moves (automation_occurrences s) (automation_occurrence_claim_attempts s)
    (automation_occurrences s') (automation_occurrence_claim_attempts s') → table_part s s'.
Proof.
  intros Hj Hm. split; [by eapply journal_moves_inv|]. intros i x Hx.
  destruct (jm_forth _ _ _ _ Hm _ _ Hx) as [x' Hx']. exists x'. split; [done|].
  destruct (jm_back _ _ _ _ Hm _ _ Hx') as (x0 & ? & ? & _). by simplify_eq.
Qed.
Lemma cursor_same s s' : sched_inv s → automations s' = automations s →
  automation_schedule_cursors s' = automation_schedule_cursors s → cursor_part s s'.
Proof. intros Hs E E'. split; rewrite ?E, ?E'; [apply Hs|by left|done]. Qed.
Lemma run_same s s' : runs s' = runs s → run_part s s' ∧ run_kept s s'.
Proof. intros E. unfold run_part, run_kept. rewrite E. split; [by left|eauto]. Qed.
Lemma run_insert s s' r' :
  runs s' = <[Run.id r' := r']> (runs s) →
  (runs s !! Run.id r' = None ∧ run_reachable r') ∨
    (∃ r, runs s !! Run.id r' = Some r ∧ rtc run_step r r') →
  run_part s s' ∧ run_kept s s'.
Proof.
  intros E H. unfold run_part, run_kept. rewrite E. split.
  - intros i r [[<- <-]|[? ?]]%lookup_insert_Some; [by right|by left].
  - intros i r Hi. rewrite lookup_insert_is_Some'. eauto.
Qed.
Lemma binding_same s s' :
  automation_occurrence_dispatches s' = automation_occurrence_dispatches s → binding_part s s'.
Proof. intros E. unfold binding_part. rewrite E. split; eauto. Qed.
Lemma binding_insert s s' i b' :
  automation_occurrence_dispatches s' = <[i := b']> (automation_occurrence_dispatches s) →
  (∃ b, automation_occurrence_dispatches s !! i = Some b ∧ bound_run b' = bound_run b) ∨
    (automation_occurrence_dispatches s !! i = None ∧
     ∃ x', automation_occurrences s' !! i = Some x' ∧
       AutomationOccurrence.run_id x' = Some (bound_run b')) →
  binding_part s s'.
Proof.
  intros E H. unfold binding_part. rewrite E. split.
  - intros j b Hj. rewrite lookup_insert_is_Some'. eauto.
  - intros j b [[<- <-]|[? ?]]%lookup_insert_Some; [done|]. left. eauto.
Qed.
End parts.

(** ** The operations one by one *)

(** Peels the statement that reads the store. *)
Ltac peel_self H :=
  let s0 := fresh "s0" in let Hs0 := fresh "Hs0" in
  peel H s0 Hs0; injection Hs0 as <-.
(** Closes the parts of a step that do not change their table. *)
Ltac same_parts :=
  first [by apply lease_same | by apply cursor_same | by apply run_same
        | by apply binding_same | by apply table_same].

Section operations.
Context {CH : Chrono} {SHA : Sha256}.
Import SchedulerState.
Implicit Types s : SS.
Implicit Types x y : AutomationOccurrence.t.

(** The token is the one of the stored lease, which is live. *)
Definition holds_lease s (token : AutomationSchedulerLeaseToken.t) (now : Z) : Prop :=
  ∃ l, automation_scheduler_lease s = Some l ∧ AutomationSchedulerLease.token l = token ∧
    AutomationSchedulerLease.renewed_at l ≤ now < AutomationSchedulerLease.expires_at l.

Lemma require_lease_Ok s token now l :
  require_automation_scheduler_lease s token now = Ok l → holds_lease s token now.
Proof.
  unfold require_automation_scheduler_lease, or_invalid. intros H. run_in H. bool_facts.
  match goal with E : AutomationSchedulerLease.is_valid_at _ _ = true |- _ =>
    unfold AutomationSchedulerLease.is_valid_at in E; bool_facts end.
  exists l. destruct token. unfold AutomationSchedulerLease.token. cbn in *. subst.
  split_and!; (done || lia).
Qed.

Lemma call_same c now x :
  occurrence_inv x → accepts c now x → same_occurrence x (occurrence_moved c now x).
Proof.
  intros Hi Ha. split_and!; try done. intros r Hr. destruct c; try done. destruct Ha as ((? & _ & Hs & _) & _).
  by destruct (linked_not_claimed _ _ Hi Hr).
Qed.

Lemma inv_attempts_bound x : occurrence_inv x →
  0 ≤ AutomationOccurrence.claim_attempt_count x ≤ MAX_AUTOMATION_OCCURRENCE_CLAIM_ATTEMPTS.
Proof. intros [_ (? & _) ? _ _]. done. Qed.

(** What the shared checks of the two claims establish. *)
Lemma check_claim_Ok s c x l :
  check_claim s c = Ok (x, l) →
  holds_lease s (ClaimAutomationOccurrence.lease c) (ClaimAutomationOccurrence.claimed_at c) ∧
  automation_occurrences s !! ClaimAutomationOccurrence.occurrence_id c = Some x ∧
  AutomationOccurrence.state x = AutomationOccurrenceState.Pending ∧
  l = attempts_of (automation_occurrence_claim_attempts s) (ClaimAutomationOccurrence.occurrence_id c).
Proof.
  unfold check_claim. intros H. apply result_bind_Ok in H as (le & Hle & H).
  apply result_bind_Ok in H as ([] & _ & H). apply result_bind_Ok in H as (x0 & Hx & H).
  apply result_bind_Ok in H as (y & _ & H). apply result_bind_Ok in H as ([] & Hs & H).
  apply result_bind_Ok in H as ([] & _ & H). apply reject_then_Ok in H as [[= -> ->] _].
  apply reject_if_Ok in Hs. bool_facts. split_and!; [by eapply require_lease_Ok| |done|done].
  unfold ok_or in Hx. by case_match; simplify_eq.
Qed.

Lemma claimed_occurrence_Ok c x l x' :
  claimed_occurrence c x l = Ok x' →
  let call := OClaim (ClaimAutomationOccurrence.lease c) (ClaimAutomationOccurrence.expires_at c) in
  accepts call (ClaimAutomationOccurrence.claimed_at c) x ∧
  x' = occurrence_moved call (ClaimAutomationOccurrence.claimed_at c) x.
Proof.
  unfold claimed_occurrence. intros H. apply result_bind_Ok in H as (y & Hy & H).
  apply reject_then_Ok in H as [-> _]. rewrite moved_copy_Ok in Hy.
  by apply (occurrence_apply_accepted (OClaim _ _)) in Hy.
Qed.

(** The attempt a claim appends passes the check. *)
Lemma new_attempt_ok c x x' done_at completion :
  let call := OClaim (ClaimAutomationOccurrence.lease c) (ClaimAutomationOccurrence.expires_at c) in
  let claimed := occurrence_moved call (ClaimAutomationOccurrence.claimed_at c) x in
  occurrence_inv x → accepts call (ClaimAutomationOccurrence.claimed_at c) x →
  AutomationOccurrence.id x' = AutomationOccurrence.id x →
  AutomationOccurrence.claim_attempt_count x' = AutomationOccurrence.claim_attempt_count x + 1 →
  AutomationOccurrence.claim_of x' = AutomationOccurrence.claim_of claimed →
  is_some done_at = is_some completion →
  (∀ t, done_at = Some t → ClaimAutomationOccurrence.claimed_at c ≤ t) →
  attempt_ok x' (AutomationOccurrence.claim_attempt_count x) (new_attempt c claimed done_at completion).
Proof.
  intros call claimed Hi ((_ & _ & Hf & He & Hc) & _) Hid Hn Hcl Hd Ht.
  apply inv_attempts_bound in Hi. split.
  - unfold attempt_malformed, is_none. cbn. rewrite Hid, Hd.
    rewrite !bool_decide_eq_true_2 by done. rewrite eqb_reflx. cbn.
    unfold MAX_AUTOMATION_OCCURRENCE_CLAIM_ATTEMPTS in *.
    rewrite !orb_false_iff. split_and!; try lia; try done.
    destruct done_at as [t|]; [|done]. specialize (Ht _ eq_refl). lia.
  - intros _. unfold attempt_mismatch. rewrite Hcl. cbn. rewrite Hn.
    by rewrite !bool_decide_eq_true_2.
Qed.

Lemma put_attempts_of A i l : attempts_of (<[i := l]> A) i = l.
Proof. unfold attempts_of. by rewrite lookup_insert_eq. Qed.
Lemma claim_table s c x :
  let i := ClaimAutomationOccurrence.occurrence_id c in
  let call := OClaim (ClaimAutomationOccurrence.lease c) (ClaimAutomationOccurrence.expires_at c) in
  let claimed := occurrence_moved call (ClaimAutomationOccurrence.claimed_at c) x in
  let A := automation_occurrence_claim_attempts s in
  journal_inv (automation_occurrences s) A → holds_lease s (ClaimAutomationOccurrence.lease c)
    (ClaimAutomationOccurrence.claimed_at c) →
  (∀ l, automation_scheduler_lease s = Some l → lease_ok l) →
  automation_occurrences s !! i = Some x → accepts call (ClaimAutomationOccurrence.claimed_at c) x →
  journal_moves (automation_occurrences s) A (<[i := claimed]> (automation_occurrences s))
    (<[i := attempts_of A i ++ [new_attempt c claimed None None]]> A).
Proof.
  intros i call claimed A Hj (l & Hl & Htok & _) Hok Hx Ha.
  destruct (ji_occurrence _ _ Hj _ _ Hx) as (Hid & Hi & Hat).
  pose proof Ha as ((Hs & _) & _).
  apply (journal_move_one _ _ _ _ x); [done|done|by apply call_same| | | |done|].
  - apply occurrence_step_inv; [done| |done]. cbn. rewrite <- Htok. destruct (Hok _ Hl). cbn. lia.
  - rewrite put_attempts_of. apply (attempts_inv_append x); [done|by rewrite Hs|done|done| |done|done].
    by apply new_attempt_ok.
  - intros j Hj'. by rewrite lookup_insert_ne.
  - intros _. unfold active. by rewrite Hs.
Qed.

(** A step under a lease: nothing, or a change made by the holder of the live lease. *)
Definition fenced s s' (token : AutomationSchedulerLeaseToken.t) (now : Z) : Prop :=
  s' = s ∨ (holds_lease s token now ∧ sched_ok s s').

Lemma claim_ok s s' c r :
  sched_inv s → SchedulerMemory.claim_automation_occurrence c s = (s', r) →
  fenced s s' (ClaimAutomationOccurrence.lease c) (ClaimAutomationOccurrence.claimed_at c).
Proof.
  intros Hs H. unfold SchedulerMemory.claim_automation_occurrence in H.
  peel H u Hu. peel_self H. destruct (_ !! _) as [rec|].
  { left. by run_in H. }
  peel H p Hp. destruct p as [x l]. injection Hp as Hp.
  apply check_claim_Ok in Hp as (Hl & Hx & Hst & ->). peel H x' Hx'. injection Hx' as Hx'.
  apply claimed_occurrence_Ok in Hx' as [Ha ->]. right. split; [done|].
  destruct (ji_occurrence _ _ (si_journal _ Hs) _ _ Hx) as (Hid & _). cbn in H. injection H as <- _.
  apply sched_ok_intro; [done| | | | | |]; try same_parts.
  apply table_moves; [apply Hs|]. cbn. rewrite Hid. apply claim_table; [apply Hs|done|apply Hs|done|done].
Qed.

Lemma bind_table s c x run :
  let i := ClaimAutomationOccurrence.occurrence_id c in
  let at_ := ClaimAutomationOccurrence.claimed_at c in
  let call := OClaim (ClaimAutomationOccurrence.lease c) (ClaimAutomationOccurrence.expires_at c) in
  let claimed := occurrence_moved call at_ x in
  let link := OLinkRun (ClaimAutomationOccurrence.lease c) run in
  let linked := occurrence_moved link at_ claimed in
  let A := automation_occurrence_claim_attempts s in
  journal_inv (automation_occurrences s) A → holds_lease s (ClaimAutomationOccurrence.lease c) at_ →
  (∀ l, automation_scheduler_lease s = Some l → lease_ok l) →
  automation_occurrences s !! i = Some x → accepts call at_ x → accepts link at_ claimed →
  journal_moves (automation_occurrences s) A (<[i := linked]> (automation_occurrences s))
    (<[i := attempts_of A i ++ [new_attempt c claimed (Some at_)
        (Some AutomationOccurrenceClaimCompletion.RunLinked)]]> A).
Proof.
  intros i at_ call claimed link linked A Hj (l & Hl & Htok & _) Hok Hx Ha Hb.
  destruct (ji_occurrence _ _ Hj _ _ Hx) as (Hid & Hi & Hat).
  assert (Hi' : occurrence_inv claimed).
  { apply occurrence_step_inv; [done| |done]. cbn. rewrite <- Htok. destruct (Hok _ Hl). cbn. lia. }
  pose proof Ha as ((Hs & _) & _).
  apply (journal_move_one _ _ _ _ x); [done|done| | | | |done|].
  - etrans; [by apply call_same|]. by apply call_same.
  - by apply occurrence_step_inv.
  - rewrite put_attempts_of. apply (attempts_inv_append x); [done|by rewrite Hs|done|done| |done|done].
    apply new_attempt_ok; try done. intros t [= <-]. done.
  - intros j Hj'. by rewrite lookup_insert_ne.
  - intros _. unfold active. by rewrite Hs.
Qed.

Lemma bind_ok s s' d r :
  sched_inv s → run_created (AutomationOccurrenceDispatch.run d) →
  SchedulerMemory.claim_and_bind_automation_occurrence d s = (s', r) →
  fenced s s' (ClaimAutomationOccurrence.lease (AutomationOccurrenceDispatch.claim d))
    (ClaimAutomationOccurrence.claimed_at (AutomationOccurrenceDispatch.claim d)).
Proof.
  intros Hs Hrun H. unfold SchedulerMemory.claim_and_bind_automation_occurrence in H.
  peel H u Hu. peel_self H. destruct (automation_occurrence_claim_commands s !! _) as [rec|].
  { peel H u' Hu'. left. by injection H. }
  peel H p Hp. destruct p as [x l]. injection Hp as Hp.
  apply check_claim_Ok in Hp as (Hl & Hx & Hst & ->).
  peel H u' Href. apply throw_if_Ok in Href. unfold dispatch_refused in Href. bool_facts.
  peel H x' Hx'. injection Hx' as Hx'. apply claimed_occurrence_Ok in Hx' as [Ha ->].
  peel H x' Hx'. injection Hx' as Hx'. rewrite moved_copy_Ok in Hx'.
  apply (occurrence_apply_accepted (OLinkRun _ _)) in Hx' as [Hb ->].
  right. split; [done|].
  destruct (ji_occurrence _ _ (si_journal _ Hs) _ _ Hx) as (Hid & _). cbn in H. injection H as <- _.
  match goal with
  | H1 : is_some (runs s !! _) = false, H2 : is_some (automation_occurrence_dispatches s !! _) = false |- _ =>
      apply is_some_false in H1; apply is_some_false in H2; rename H1 into Hnr, H2 into Hnd
  end.
  destruct (run_insert s (s <| execution := (execution s) <| State.runs :=
    <[Run.id (AutomationOccurrenceDispatch.run d) := AutomationOccurrenceDispatch.run d]> (runs s) |> |>)
    (AutomationOccurrenceDispatch.run d)) as [Hr1 Hr2];
    [done|left; split; [done|by eexists]|].
  apply sched_ok_intro; [done| | | |exact Hr1|exact Hr2|]; try same_parts.
  - apply table_moves; [apply Hs|]. cbn. rewrite Hid.
    apply bind_table; [apply Hs|done|apply Hs|done|done|done].
  - eapply (binding_insert _ _ (AutomationOccurrence.id x)); [done|]. right. split; [done|].
    cbn. rewrite lookup_insert_eq. eauto.
Qed.

Lemma claim_time x c now :
  occurrence_inv x → AutomationOccurrence.claim_of x = Some c → AutomationOccurrence.updated_at x ≤ now →
  AutomationOccurrenceClaim.claimed_at c ≤ now.
Proof.
  intros [_ (_ & _ & _ & _ & _ & H) _ _ _] Hc Hn. unfold AutomationOccurrence.claim_shape in H.
  rewrite Hc in H. bool_facts. lia.
Qed.

Lemma link_ok s s' token i n run now r :
  sched_inv s → SchedulerMemory.link_automation_occurrence_run token i n run now s = (s', r) →
  fenced s s' token now.
Proof.
  intros Hs H. unfold SchedulerMemory.link_automation_occurrence_run in H. peel_self H.
  peel H held_lease Hle. injection Hle as Hle%require_lease_Ok. peel H x Hx. injection Hx as Hx.
  peel H u Hu. peel H u' Hu'. peel H x' Hx'. injection Hx' as Hx'.
  rewrite moved_copy_Ok in Hx'. apply (occurrence_apply_accepted (OLinkRun _ _)) in Hx' as [Ha ->].
  peel H l Hl. injection Hl as Hl. peel H l' Hl'. injection Hl' as Hl'.
  cbn in H. injection H as <- _. right. split; [done|].
  assert (Hx0 : automation_occurrences s !! i = Some x) by (unfold ok_or in Hx; by case_match; simplify_eq).
  assert (Hl0 : attempts_of (automation_occurrence_claim_attempts s) i = l)
    by (unfold attempts_of, ok_or in *; by case_match; simplify_eq).
  destruct (ji_occurrence _ _ (si_journal _ Hs) _ _ Hx0) as (Hid & Hi & Hat). rewrite Hl0 in Hat.
  pose proof Ha as ((c & Hc & Hst & _) & Hup & _).
  apply sched_ok_intro; [done| | | | | |]; try same_parts.
  apply table_moves; [apply Hs|]. cbn.
  apply (journal_move_one _ _ _ _ x); [apply Hs|done|by apply call_same|by apply occurrence_step_inv| | |done|].
  - rewrite put_attempts_of.
    eapply (complete_claim_attempt_inv x); [done|done|exact Hl'| |done|done|done|done].
    intros c' Hc'. by eapply claim_time.
  - intros j Hj. by rewrite lookup_insert_ne.
  - intros _. unfold active. by rewrite Hst.
Qed.

(** A linked occurrence ends; its attempts were already closed. *)
Definition settles (c : occurrence_call) : Prop :=
  match c with OSucceed _ | OFail _ | OInterrupt _ | OCancel => True | _ => False end.
Lemma settle_move x l c now :
  occurrence_inv x → attempts_inv x l → AutomationOccurrence.state x = AutomationOccurrenceState.RunLinked →
  settles c → accepts c now x →
  let x' := occurrence_moved c now x in
  same_occurrence x x' ∧ occurrence_inv x' ∧ attempts_inv x' l ∧ ¬ active x' ∧ ¬ queued x'.
Proof.
  intros Hi Hl Hs Hc Ha x'. split_and!.
  - by apply call_same.
  - apply occurrence_step_inv; [done|by destruct c|done].
  - apply (attempts_inv_frame x); [done|by rewrite Hs|done|by destruct c|by destruct c|by destruct c].
  - by destruct c.
  - by destruct c.
Qed.

Lemma run_linked_state x r :
  occurrence_inv x → AutomationOccurrence.run_id x = Some r →
  AutomationOccurrenceState.is_terminal (AutomationOccurrence.state x) = false →
  AutomationOccurrence.state x = AutomationOccurrenceState.RunLinked.
Proof.
  intros [_ (_ & _ & _ & Hl & _) _ _ _] Hr Ht. unfold AutomationOccurrence.lifecycle_shape in Hl.
  rewrite Hr in Hl. destruct (AutomationOccurrence.state x); try done;
    rewrite ?andb_false_r in Hl; done.
Qed.

Lemma promoted_queued_Ok s a e now o :
  journal_inv (automation_occurrences s) (automation_occurrence_claim_attempts s) →
  promoted_queued s a e now = Ok o →
  match o with
  | None => ∀ i y, automation_occurrences s !! i = Some y → AutomationOccurrence.automation_id y = a → ¬ queued y
  | Some y' => ∃ y, automation_occurrences s !! AutomationOccurrence.id y = Some y ∧ queued y ∧
      AutomationOccurrence.automation_id y = a ∧ y' = occurrence_moved OPromoteQueued now y ∧
      same_occurrence y y' ∧ occurrence_inv y' ∧ ¬ queued y' ∧
      attempts_inv y' (attempts_of (automation_occurrence_claim_attempts s) (AutomationOccurrence.id y))
  end.
Proof.
  intros Hj H. unfold promoted_queued, sole_queued_occurrence in H.
  assert (Hin : ∀ y, y ∈ queued_occurrences s a ↔
    (AutomationOccurrence.automation_id y = a ∧ queued y) ∧ ∃ i, automation_occurrences s !! i = Some y).
  { intros y. unfold queued_occurrences. by rewrite list_elem_of_filter, elem_of_values. }
  destruct (queued_occurrences s a) as [|y [|]]; cbn in H; [| |done].
  - injection H as <-. intros i y Hi Ha Hq. assert (Hn : y ∈ []) by (apply Hin; eauto). by apply elem_of_nil in Hn.
  - destruct (proj1 (Hin y) ltac:(constructor)) as [[Ha Hq] [i Hi]].
    destruct (ji_occurrence _ _ Hj _ _ Hi) as (<- & Hinv & Hat).
    apply result_bind_Ok in H as (y' & Hy & [= <-]). rewrite moved_copy_Ok in Hy.
    apply (occurrence_apply_accepted OPromoteQueued) in Hy as [Hacc ->].
    exists y. split_and!; try done; [by apply occurrence_step_inv|].
    apply (attempts_inv_frame y); [done|by rewrite Hq|done..].
Qed.

Lemma acquire_ok s s' owner now ttl r :
  sched_inv s → 0 ≤ ttl →
  SchedulerMemory.acquire_automation_scheduler_lease owner now ttl s = (s', r) → s' = s ∨ sched_ok s s'.
Proof.
  intros Hs Ht H. unfold SchedulerMemory.acquire_automation_scheduler_lease in H.
  peel H u Hu. peel_self H.
  assert (Hput : ∀ l', s' = s <| automation_scheduler_lease := Some l' |> → lease_ok l' →
    (∀ l, automation_scheduler_lease s = Some l →
       AutomationSchedulerLease.fence l ≤ AutomationSchedulerLease.fence l') → sched_ok s s').
  { intros l' -> Hl Hf. apply sched_ok_intro; [done| | | | | |]; try same_parts. right; eauto. }
  destruct (match automation_scheduler_durable_floor s with Some _ => _ | None => _ end).
  { left. by injection H. }
  destruct (automation_scheduler_lease s) as [l|] eqn:El.
  - pose proof (si_lease _ Hs _ El) as Hl. peel H l0 Hl0. case_match; [left; by injection H|].
    case_match; [case_match; [left; by injection H|]|]; [|peel H next Hnf; injection Hnf as Hnf].
    + peel H l' Hl'. injection Hl' as Hl'. rewrite moved_copy_Ok in Hl'. cbn in H. injection H as <- _.
      right. apply (Hput l'); [done|..].
      * by apply (lease_step_ok l), (lease_renew l (AutomationSchedulerLease.token l) now ttl).
      * intros ? [= <-]. by apply (lease_step_ok l), (lease_renew l (AutomationSchedulerLease.token l) now ttl).
    + peel H l' Hl'. injection Hl' as Hl'. rewrite moved_copy_Ok in Hl'. cbn in H. injection H as <- _.
      right. apply (Hput l'); [done|..].
      * by apply (lease_step_ok l), (lease_take_over l owner next now ttl).
      * intros ? [= <-]. by apply (lease_step_ok l), (lease_take_over l owner next now ttl).
  - peel H l' Hl'. injection Hl' as Hl'. unfold or_conflict in Hl'. rewrite map_err_Ok in Hl'.
    apply acquire_Ok in Hl' as [_ Hl']; [|lia..]. cbn in H. injection H as <- _.
    right. by apply (Hput l').
Qed.

Lemma run_moved next now (a b : Run.t) :
  moved_copy (λ _ : TransitionError, Conflict) (Run.transition next now) a = Ok b →
  run_step a b ∧ Run.state b = next ∧ Run.id b = Run.id a.
Proof.
  rewrite moved_copy_Ok. intros H. split; [by econstructor|].
  by apply run_transition_Ok in H as (_ & _ & ->).
Qed.

(** What an accepted start of a run finds and leaves. *)
Record started s s' (i : AutomationOccurrenceId) (run_id : RunId) : Prop := {
  st_binding : ∃ b, automation_occurrence_dispatches s !! i = Some b ∧ bound_run b = run_id;
  st_before : ∃ run, runs s !! run_id = Some run ∧ Run.state run = RunState.Queued;
  st_after : ∃ run, runs s' !! run_id = Some run ∧ Run.state run = RunState.Running;
}.

Lemma begin_atomic i n run_id m now :
  atomic (SchedulerMemory.begin_automation_occurrence_run i n run_id m now).
Proof.
  unfold SchedulerMemory.begin_automation_occurrence_run, put_run, put_events, put_dispatch, in_workspace.
  solve_atomic.
Qed.

Lemma begin_ok s s' i n run_id m now r :
  sched_inv s →
  SchedulerMemory.begin_automation_occurrence_run i n run_id m now s = (s', r) →
  (s' = s ∧ is_ok r = false) ∨
  (sched_ok s s' ∧ is_ok r = true ∧ started s s' i run_id).
Proof.
  intros Hs H. destruct r as [d|e].
  2:{ left. split; [by eapply begin_atomic|done]. }
  right. unfold SchedulerMemory.begin_automation_occurrence_run in H.
  peel_ok H s0 Hs0. injection Hs0 as <-. peel_ok H b Hb. injection Hb as Hb%ok_or_Ok.
  peel_ok H x Hx. peel_ok H run Hrun. injection Hrun as Hrun%ok_or_Ok. peel_ok H u Hu.
  apply throw_if_Ok in Hu. bool_facts. peel_ok H planning Hp. injection Hp as Hp%run_moved.
  peel_ok H running Hr. injection Hr as Hr%run_moved. cbn in H. injection H as <- _.
  destruct Hp as (Hp & _ & Hpi), Hr as (Hr & Hst & Hri).
  destruct (si_runs _ Hs _ _ Hrun) as [Hid _].
  assert (Hrid : Run.id running = bound_run b) by (rewrite Hri, Hpi; exact Hid).
  destruct (run_insert s (s <| execution := (execution s) <| State.runs :=
    <[Run.id running := running]> (runs s) |> |>) running) as [Hr1 Hr2]; [done| |].
  { right. exists run. rewrite Hrid. split; [done|]. by eapply rtc_l, rtc_once. }
  split_and!; [|done|].
  - apply sched_ok_intro; [done| | | |exact Hr1|exact Hr2|]; try same_parts.
    + eapply (binding_insert _ _ i); [done|]. left. exists b. by split.
  - split; [by exists b|by exists run|]. exists running. cbn. rewrite Hrid, lookup_insert_eq. done.
Qed.

Lemma completion_call_settles completion run_id now x x' :
  completion_call completion run_id now x = (x', Ok tt) →
  ∃ c, settles c ∧ accepts c now x ∧ x' = occurrence_moved c now x.
Proof.
  intros H. destruct completion.
  - apply (occurrence_apply_accepted (OSucceed run_id)) in H. by exists (OSucceed run_id).
  - apply (occurrence_apply_accepted (OFail run_id)) in H. by exists (OFail run_id).
  - apply (occurrence_apply_accepted (OInterrupt run_id)) in H. by exists (OInterrupt run_id).
  - apply (occurrence_apply_accepted OCancel) in H. by exists OCancel.
Qed.
Lemma settles_linked x c now r :
  occurrence_inv x → settles c → accepts c now x → AutomationOccurrence.run_id x = Some r →
  AutomationOccurrence.state x = AutomationOccurrenceState.RunLinked.
Proof.
  intros Hi Hc (Ha & _) Hr. destruct c; try done; try by destruct Ha.
  by eapply run_linked_state.
Qed.

(** The table after a linked occurrence ended and the retained one took over. *)
Lemma settle_table s x c now o a e :
  let T := automation_occurrences s in
  let A := automation_occurrence_claim_attempts s in
  let x' := occurrence_moved c now x in
  journal_inv T A → T !! AutomationOccurrence.id x = Some x →
  AutomationOccurrence.state x = AutomationOccurrenceState.RunLinked →
  settles c → accepts c now x → a = AutomationOccurrence.automation_id x →
  promoted_queued s a e now = Ok o →
  let T' := <[AutomationOccurrence.id x := x']> T in
  journal_moves T A (match o with Some y => <[AutomationOccurrence.id y := y]> T' | None => T' end) A.
Proof.
  intros T A x' Hj Hx Hst Hc Ha -> Hp T'.
  destruct (ji_occurrence _ _ Hj _ _ Hx) as (_ & Hi & Hat).
  destruct (settle_move x _ c now Hi Hat Hst Hc Ha) as (Hs & Hi' & Hat' & Hna & Hnq).
  assert (active x) by (unfold active; by rewrite Hst).
  apply promoted_queued_Ok in Hp; [|done]. destruct o as [y'|].
  - destruct Hp as (y & Hy & Hq & Haut & -> & Hsy & Hiy & Hqy & Haty).
    by apply (journal_move_promote _ _ _ _ x x' y).
  - by apply (journal_move_one _ _ _ _ x).
Qed.

Lemma complete_ok s s' i n run_id completion now r :
  sched_inv s →
  SchedulerMemory.complete_automation_occurrence_run i n run_id completion now s = (s', r) →
  s' = s ∨ sched_ok s s'.
Proof.
  intros Hs H. unfold SchedulerMemory.complete_automation_occurrence_run in H. peel_self H.
  peel H run Hrun. injection Hrun as Hrun%ok_or_Ok. peel H x Hx. injection Hx as Hx%ok_or_Ok.
  peel H u Hu. apply throw_if_Ok in Hu. bool_facts.
  peel H run' Hrun'. injection Hrun' as (Hstep & _ & Hrid)%run_moved.
  peel H x' Hx'. injection Hx' as Hx'. rewrite moved_copy_Ok in Hx'.
  apply completion_call_settles in Hx' as (c & Hc & Ha & ->).
  peel H o Ho. injection Ho as Ho. peel H u2 Hb. apply throw_if_Ok in Hb.
  destruct (automation_occurrence_dispatches s !! i) as [b|] eqn:Eb; [|done].
  destruct (ji_occurrence _ _ (si_journal _ Hs) _ _ Hx) as (<- & Hi & _).
  destruct (si_runs _ Hs _ _ Hrun) as [Hid _].
  assert (Hlinked : AutomationOccurrence.state x = AutomationOccurrenceState.RunLinked)
    by (by eapply settles_linked).
  destruct (si_bindings _ Hs _ _ Eb) as (x0 & Hx0 & Hr0). simplify_eq.
  destruct (run_insert s (s <| execution := (execution s) <| State.runs :=
    <[Run.id run' := run']> (runs s) |> |>) run') as [Hr1 Hr2]; [done| |].
  { right. exists run. rewrite Hrid. split; [done|]. by apply rtc_once. }
  pose proof (settle_table s x c now o _ _ (si_journal _ Hs) Hx Hlinked Hc Ha eq_refl Ho) as Hmove.
  right. destruct o as [y|]; cbn in H; injection H as <- _.
  all: apply sched_ok_intro; [done| | | |exact Hr1|exact Hr2|]; try same_parts.
  all: try (by apply table_moves; [apply Hs|]).
  all: eapply (binding_insert _ _ (AutomationOccurrence.id x)); [done|]; left; exists b; split; [done|].
  all: unfold bound_run in *; cbn; congruence.
Qed.
End operations.

(** ** Materializing occurrences *)

Section evaluation.
Context {CH : Chrono} {SHA : Sha256}.
Import SchedulerState.
Implicit Types s : SS.
Implicit Types x y : AutomationOccurrence.t.

(** A new occurrence: checked, never claimed, with no stored occurrence of its
    identifier or slot. *)
Record fresh s (a : AutomationId) x : Prop := {
  fr_inv : occurrence_inv x;
  fr_count : AutomationOccurrence.claim_attempt_count x = 0;
  fr_state : AutomationOccurrence.state x ≠ AutomationOccurrenceState.Claimed ∧
             AutomationOccurrence.state x ≠ AutomationOccurrenceState.RunLinked;
  fr_automation : AutomationOccurrence.automation_id x = a;
  fr_id : automation_occurrences s !! AutomationOccurrence.id x = None;
  fr_slot i y : automation_occurrences s !! i = Some y →
    AutomationOccurrence.automation_id y = a → AutomationOccurrence.slot y ≠ AutomationOccurrence.slot x;
}.

Lemma validate_new_Ok x aut snap cur now :
  validate_new_automation_occurrence x aut snap cur now = Ok tt →
  occurrence_inv x ∧ AutomationOccurrence.claim_attempt_count x = 0 ∧
  AutomationOccurrence.automation_id x = Automation.id aut ∧
  match AutomationOccurrence.state x with
  | AutomationOccurrenceState.Pending | AutomationOccurrenceState.SkippedInvalidLocalTime
  | AutomationOccurrenceState.SkippedMissed => True
  | _ => False
  end.
Proof.
  unfold validate_new_automation_occurrence, or_conflict. intros H.
  apply result_bind_Ok in H as (x' & Hx & H). rewrite map_err_Ok in Hx.
  apply occurrence_restore_Ok in Hx as (-> & Hid & Hsh). apply reject_if_Ok in H.
  rewrite !orb_false_iff, !negb_false_iff, !bool_decide_eq_true in H.
  destruct H as (((((((((((Hs & _) & Ha) & _) & _) & _) & _) & Hn) & _) & _) & _) & _).
  unfold valid_initial_state in Hs.
  assert (0 ≤ AutomationOccurrence.revision x)
    by (destruct (AutomationOccurrence.state x); bool_facts; lia || done).
  split_and!; [|done|done|by destruct (AutomationOccurrence.state x)].
  split; try done; [lia|]. intros E. by rewrite E in Hs.
Qed.

(** Overlap adjudication keeps the slot; it takes the active place only when it is
    free, and the retained place only when that is free. *)
Lemma adjudicate_Ok now ac qc x x' ac' qc' :
  occurrence_inv x → AutomationOccurrence.claim_attempt_count x = 0 →
  match AutomationOccurrence.state x with
  | AutomationOccurrenceState.Pending | AutomationOccurrenceState.SkippedInvalidLocalTime
  | AutomationOccurrenceState.SkippedMissed => True
  | _ => False
  end →
  adjudicate now ac qc x = Ok (x', ac', qc') →
  same_occurrence x x' ∧ occurrence_inv x' ∧ AutomationOccurrence.claim_attempt_count x' = 0 ∧
  AutomationOccurrence.state x' ≠ AutomationOccurrenceState.Claimed ∧
  AutomationOccurrence.state x' ≠ AutomationOccurrenceState.RunLinked ∧
  (active x' → ac = 0 ∧ ac' ≠ 0) ∧ (queued x' → qc = 0 ∧ qc' ≠ 0) ∧
  (ac ≠ 0 → ac' ≠ 0) ∧ (qc ≠ 0 → qc' ≠ 0).
Proof.
  intros Hi Hn Hs H. unfold adjudicate in H.
  destruct (bool_decide_reflect (AutomationOccurrence.state x = AutomationOccurrenceState.Pending)) as [Hp|Hp].
  2:{ injection H as <- <- <-. unfold active, queued.
      destruct (AutomationOccurrence.state x); try done; split_and!; done. }
  destruct (Z.eqb_spec ac 0) as [E|E].
  { injection H as <- <- <-. unfold active, queued. rewrite Hp. split_and!; try done. }
  assert (Hskip : ∀ y, moved_copy (λ _, Conflict) (AutomationOccurrence.skip_overlap now) x = Ok y →
    same_occurrence x y ∧ occurrence_inv y ∧ AutomationOccurrence.claim_attempt_count y = 0 ∧
    AutomationOccurrence.state y = AutomationOccurrenceState.SkippedOverlap).
  { intros y. rewrite moved_copy_Ok. intros [Ha ->]%(occurrence_apply_accepted OSkipOverlap).
    split_and!; [by apply call_same|by apply occurrence_step_inv|done|done]. }
  destruct (AutomationExecutionSnapshot.overlap_policy _).
  1: destruct (Z.eqb_spec qc 0) as [E'|E'].
  1:{ apply result_bind_Ok in H as (y & Hy & [= <- <- <-]). rewrite moved_copy_Ok in Hy.
      apply (occurrence_apply_accepted OQueueOverlap) in Hy as [Ha ->].
      split_and!; try done. by apply occurrence_step_inv. }
  all: apply result_bind_Ok in H as (y & (? & ? & ? & Hy)%Hskip & [= <- <- <-]);
    unfold active, queued; rewrite Hy; split_and!; done.
Qed.

Lemma slot_same x x' : same_occurrence x x' → AutomationOccurrence.slot x' = AutomationOccurrence.slot x.
Proof. intros (_ & _ & E & E' & _). unfold AutomationOccurrence.slot. by rewrite E, E'. Qed.

Record staged_ok s (a : AutomationId) (ac qc : Z) (slots : list AutomationOccurrenceSlot.t)
    (l : list AutomationOccurrence.t) : Prop := {
  sg_fresh x : x ∈ l → fresh s a x ∧ AutomationOccurrence.slot x ∉ slots;
  sg_slots x y : x ∈ l → y ∈ l → AutomationOccurrence.slot x = AutomationOccurrence.slot y → x = y;
  sg_active x y : x ∈ l → y ∈ l → active x → active y → x = y;
  sg_active_free x : x ∈ l → active x → ac = 0;
  sg_queued x y : x ∈ l → y ∈ l → queued x → queued y → x = y;
  sg_queued_free x : x ∈ l → queued x → qc = 0;
}.

Lemma staged_ok_cons s a ac qc ac' qc' slots x l :
  fresh s a x → AutomationOccurrence.slot x ∉ slots →
  (active x → ac = 0 ∧ ac' ≠ 0) → (queued x → qc = 0 ∧ qc' ≠ 0) →
  (ac ≠ 0 → ac' ≠ 0) → (qc ≠ 0 → qc' ≠ 0) →
  staged_ok s a ac' qc' (AutomationOccurrence.slot x :: slots) l → staged_ok s a ac qc slots (x :: l).
Proof.
  intros Hf Hn Ha Hq Hm Hm' [S1 S2 S3 S4 S5 S6].
  assert (∀ y, y ∈ l → AutomationOccurrence.slot y ≠ AutomationOccurrence.slot x ∧
    AutomationOccurrence.slot y ∉ slots) as Hsl by (intros y [_ Hy]%S1; by rewrite not_elem_of_cons in Hy).
  split.
  - intros y [->|Hy]%elem_of_cons; [done|]. split; [by apply S1|by apply Hsl].
  - intros y z [->|Hy]%elem_of_cons [->|Hz]%elem_of_cons E; [done|..|by apply S2];
      [destruct (Hsl _ Hz) as [? _]|destruct (Hsl _ Hy) as [? _]]; congruence.
  - intros y z [->|Hy]%elem_of_cons [->|Hz]%elem_of_cons Hay Haz; [done|..|by apply S3];
      [destruct (Ha Hay); by destruct (S4 z)|destruct (Ha Haz); by destruct (S4 y)].
  - intros y [->|Hy]%elem_of_cons Hay; [by apply Ha|]. destruct (decide (ac = 0)) as [|Hne]; [done|].
    destruct (Hm Hne). by eapply S4.
  - intros y z [->|Hy]%elem_of_cons [->|Hz]%elem_of_cons Hay Haz; [done|..|by apply S5];
      [destruct (Hq Hay); by destruct (S6 z)|destruct (Hq Haz); by destruct (S6 y)].
  - intros y [->|Hy]%elem_of_cons Hay; [by apply Hq|]. destruct (decide (qc = 0)) as [|Hne]; [done|].
    destruct (Hm' Hne). by eapply S6.
Qed.

Lemma stage_occurrences_ok s ctx ps ac qc slots prior l :
  stage_occurrences s ctx ps ac qc slots prior = Ok l →
  staged_ok s (Automation.id (ev_automation ctx)) ac qc slots l.
Proof.
  revert ac qc slots prior l. induction ps as [|p ps IH]; intros ac qc slots prior l H; cbn in H.
  { injection H as <-. split; intros x; repeat first [by intros ?%elem_of_nil|intros ?]. }
  apply result_bind_Ok in H as ([] & Hv & H). apply result_bind_Ok in H as ([] & Hr & H).
  apply result_bind_Ok in H as ([[x ac'] qc'] & Hadj & H).
  apply result_bind_Ok in H as (l' & Hl & [= <-]).
  apply validate_new_Ok in Hv as (Hi & Hn & Ha & Hst).
  apply adjudicate_Ok in Hadj as (Hsame & Hi' & Hn' & Hc & Hl' & Hact & Hq & Hm & Hm'); [|done..].
  apply reject_if_Ok in Hr. rewrite !orb_false_iff in Hr.
  destruct Hr as ((((_ & _) & Hslot) & Hid) & Hstored).
  apply bool_decide_eq_false in Hslot. apply is_some_false in Hid.
  pose proof (slot_same _ _ Hsame) as Es. pose proof Hsame as (Eid & Eaut & _).
  apply (staged_ok_cons _ _ _ _ ac' qc'); try done; [|by rewrite Es|rewrite Es; by eapply IH].
  split; try done; [congruence|by rewrite Eid|].
  intros i y Hy Hay Heq. rewrite Es in Heq.
  assert (Ht : existsb (λ stored, (AutomationOccurrence.automation_id stored
      == AutomationOccurrence.automation_id p)
    && (AutomationOccurrence.slot stored == AutomationOccurrence.slot p))
    (InMemory.values (automation_occurrences s)) = true); [|by rewrite Ht in Hstored].
  apply existsb_exists. exists y. rewrite <- list_elem_of_In, elem_of_values. split; [eauto|].
  rewrite !bool_decide_eq_true_2; [done|done|congruence].
Qed.

Lemma count_occurrences_zero l ac qc ac' qc' :
  0 ≤ ac → 0 ≤ qc → count_occurrences l ac qc = Ok (ac', qc') →
  0 ≤ ac' ∧ 0 ≤ qc' ∧ (ac' = 0 → ac = 0 ∧ ∀ x, x ∈ l → ¬ active x) ∧
  (qc' = 0 → qc = 0 ∧ ∀ x, x ∈ l → ¬ queued x).
Proof.
  revert ac qc. induction l as [|x l IH]; intros ac qc Ha Hq H; cbn [count_occurrences] in H.
  { injection H as <- <-. split_and!; try done; intros ->; (split; [done|]); by intros x ?%elem_of_nil. }
  apply result_bind_Ok in H as (x0 & _ & H). setoid_rewrite elem_of_cons. unfold active, queued in *.
  destruct (automation_occurrence_is_active _) eqn:Ex; [|case_bool_decide as Eq].
  - apply IH in H as (? & ? & Hac & Hqc); [|ints..]. split_and!; [done..| |].
    + intros E. destruct (Hac E). exfalso. ints.
    + intros E. destruct (Hqc E) as [? Hall]. split; [done|]. intros y [->|Hy]; [|by apply Hall].
      intros E'. by rewrite E' in Ex.
  - apply IH in H as (? & ? & Hac & Hqc); [|ints..]. split_and!; [done..| |].
    + intros E. destruct (Hac E) as [? Hall]. split; [done|]. intros y [->|Hy]; [|by apply Hall].
      by rewrite Ex.
    + intros E. destruct (Hqc E). exfalso. ints.
  - apply IH in H as (? & ? & Hac & Hqc); [|ints..]. split_and!; [done..| |].
    + intros E. destruct (Hac E) as [? Hall]. split; [done|]. intros y [->|Hy]; [|by apply Hall].
      by rewrite Ex.
    + intros E. destruct (Hqc E) as [? Hall]. split; [done|]. intros y [->|Hy]; [done|by apply Hall].
Qed.

(** The table with the staged occurrences inserted. *)
Abbreviation stored T l := (foldl (λ m x, <[AutomationOccurrence.id x := x]> m) T l).
Lemma stored_lookup (T : gmap AutomationOccurrenceId AutomationOccurrence.t) l i x :
  stored T l !! i = Some x → (x ∈ l ∧ AutomationOccurrence.id x = i) ∨ T !! i = Some x.
Proof.
  revert T. induction l as [|y l IH]; intros T; cbn; [by right|].
  intros [[? ?]|[[<- <-]|[_ ?]]%lookup_insert_Some]%IH; [left|left|by right]; split; try done.
  - by apply elem_of_cons; right.
  - by apply elem_of_cons; left.
Qed.
Lemma stored_keeps (T : gmap AutomationOccurrenceId AutomationOccurrence.t) l i x :
  T !! i = Some x → (∀ y, y ∈ l → AutomationOccurrence.id y ≠ i) → stored T l !! i = Some x.
Proof.
  revert T. induction l as [|y l IH]; intros T HT Hl; cbn; [done|].
  apply IH; [|intros z Hz; apply Hl; by apply elem_of_cons; right].
  rewrite lookup_insert_ne; [done|]. apply Hl. by apply elem_of_cons; left.
Qed.

Lemma attempts_inv_new x :
  AutomationOccurrence.claim_attempt_count x = 0 →
  AutomationOccurrence.state x ≠ AutomationOccurrenceState.Claimed →
  AutomationOccurrence.state x ≠ AutomationOccurrenceState.RunLinked → attempts_inv x [].
Proof. intros Hn Hc Hl. split; done. Qed.

Lemma commit_table s a ac qc l :
  journal_inv (automation_occurrences s) (automation_occurrence_claim_attempts s) →
  staged_ok s a ac qc [] l →
  (ac = 0 → ∀ i x, automation_occurrences s !! i = Some x → AutomationOccurrence.automation_id x = a → ¬ active x) →
  (qc = 0 → ∀ i x, automation_occurrences s !! i = Some x → AutomationOccurrence.automation_id x = a → ¬ queued x) →
  journal_inv (stored (automation_occurrences s) l) (automation_occurrence_claim_attempts s) ∧
  ∀ i x, automation_occurrences s !! i = Some x → stored (automation_occurrences s) l !! i = Some x.
Proof.
  intros [J1 J2 J3 J4 J5] [S1 S2 S3 S4 S5 S6] Hac Hqc.
  assert (Hkeep : ∀ i x, automation_occurrences s !! i = Some x →
    stored (automation_occurrences s) l !! i = Some x).
  { intros i x Hx. apply stored_keeps; [done|]. intros y [Hf _]%S1 <-.
    by rewrite (fr_id _ _ _ Hf) in Hx. }
  assert (Haut : ∀ x, x ∈ l → AutomationOccurrence.automation_id x = a)
    by (intros x [Hf _]%S1; apply Hf).
  split; [|done]. split.
  - intros i x [[Hx <-]|Hx]%stored_lookup; [|by apply J1]. destruct (S1 _ Hx) as [[Hi Hn [Hc Hl] _ Hid _] _].
    split_and!; [done..|]. replace (attempts_of _ _) with (@nil AutomationOccurrenceClaimAttempt.t);
      [by apply attempts_inv_new|]. unfold attempts_of.
    destruct (automation_occurrence_claim_attempts s !! _) eqn:E; [|done].
    apply J2 in E as [? E]. by rewrite Hid in E.
  - intros i k [x Hx]%J2. by apply Hkeep in Hx as ->.
  - intros i j x y [[Hx <-]|Hx]%stored_lookup [[Hy <-]|Hy]%stored_lookup Ha Hs.
    + f_equal. by apply S2.
    + destruct (S1 _ Hx) as [Hf _]. destruct (fr_slot _ _ _ Hf _ _ Hy); [|done]. rewrite <- Ha. by apply Haut.
    + destruct (S1 _ Hy) as [Hf _]. destruct (fr_slot _ _ _ Hf _ _ Hx); [|done]. rewrite Ha. by apply Haut.
    + by eapply J3.
  - intros i j x y [[Hx <-]|Hx]%stored_lookup [[Hy <-]|Hy]%stored_lookup Ha Hax Hay.
    + f_equal. by apply S3.
    + destruct (Hac (S4 _ Hx Hax) _ _ Hy); [|done]. rewrite <- Ha. by apply Haut.
    + destruct (Hac (S4 _ Hy Hay) _ _ Hx); [|done]. rewrite Ha. by apply Haut.
    + by eapply J4.
  - intros i j x y [[Hx <-]|Hx]%stored_lookup [[Hy <-]|Hy]%stored_lookup Ha Hax Hay.
    + f_equal. by apply S5.
    + destruct (Hqc (S6 _ Hx Hax) _ _ Hy); [|done]. rewrite <- Ha. by apply Haut.
    + destruct (Hqc (S6 _ Hy Hay) _ _ Hx); [|done]. rewrite Ha. by apply Haut.
    + by eapply J5.
Qed.

Lemma check_evaluation_Ok s e ctx :
  sched_inv s → check_evaluation s e = Ok ctx →
  holds_lease s (AutomationScheduleEvaluationCommit.lease e)
    (AutomationScheduleEvaluationCommit.observed_at e) ∧
  automations s !! Automation.id (ev_automation ctx) = Some (ev_automation ctx) ∧
  cursor_fits (ev_automation ctx) (AutomationScheduleEvaluationCommit.cursor e).
Proof.
  unfold check_evaluation. intros Hs H. apply result_bind_Ok in H as (l & Hl & H).
  apply result_bind_Ok in H as ([] & _ & H). apply result_bind_Ok in H as (aut & Haut%ok_or_Ok & H).
  apply result_bind_Ok in H as ([] & _ & H). apply result_bind_Ok in H as (snap & Hsnap & H).
  split_binds H. injection H as <-. cbn.
  pose proof (si_automations _ Hs _ _ Haut) as Hid. split; [by eapply require_lease_Ok|].
  split; [by rewrite Hid|]. exists snap. split_and!; [done|done|].
  match goal with E : reject_if (negb (automation_schedule_cursor_is_valid _ _)) _ = _ |- _ =>
    apply reject_if_Ok in E; by rewrite negb_false_iff in E end.
Qed.

Lemma put_cursor_part s a automation c :
  sched_inv s → automations s !! a = Some automation → cursor_fits automation c →
  cursor_part s (s <| workspace := (workspace s)
    <| WorkspaceState.automation_schedule_cursors := <[a := c]> (automation_schedule_cursors s) |> |>).
Proof.
  intros Hs Ha Hc. split; [apply Hs| |].
  - intros b d. cbn. intros [[<- <-]|[_ ?]]%lookup_insert_Some; [right; eauto|by left].
  - intros b Hb. split; [|done]. cbn. rewrite lookup_insert_is_Some'. by right.
Qed.

Lemma commit_ok s s' e r :
  sched_inv s → SchedulerMemory.commit_automation_schedule_evaluation e s = (s', r) →
  fenced s s' (AutomationScheduleEvaluationCommit.lease e)
    (AutomationScheduleEvaluationCommit.observed_at e).
Proof.
  intros Hs H. unfold SchedulerMemory.commit_automation_schedule_evaluation in H.
  peel H u Hu. peel_self H.
  destruct (automation_schedule_evaluation_commands s !! _) as [rec|].
  { left. by run_in H. }
  peel H ctx Hctx. injection Hctx as (Hl & Haut & Hcur)%check_evaluation_Ok; [|done].
  peel H counts Hcount. destruct counts as [ac qc]. injection Hcount as Hcount.
  apply count_occurrences_zero in Hcount as (_ & _ & Hac & Hqc); [|done..].
  peel H u2 Hu2. peel H l Hst. injection Hst as Hst%stage_occurrences_ok.
  peel H u3 Hu3. peel H h Hh. right. split; [done|].
  destruct (commit_table s (Automation.id (ev_automation ctx)) ac qc l) as [Hj Hkeep];
    [apply Hs|done| | |].
  { intros E i x Hx Ha. apply Hac; [done|]. unfold automation_occurrences_of.
    rewrite list_elem_of_filter, elem_of_values. eauto. }
  { intros E i x Hx Ha. apply Hqc; [done|]. unfold automation_occurrences_of.
    rewrite list_elem_of_filter, elem_of_values. eauto. }
  pose proof (put_cursor_part _ _ _ _ Hs Haut Hcur) as [Hput1 Hput2 Hput3].
  destruct (is_empty h); cbn in H; injection H as <- _.
  all: apply sched_ok_intro; [done| | |by split| | |]; try same_parts.
  all: split; [done|]; intros i x Hx; exists x; split; [by apply Hkeep|done].
Qed.
End evaluation.

(** ** Recovery *)

Section recovery.
Context {CH : Chrono} {SHA : Sha256}.
Import SchedulerState.
Implicit Types s : SS.
Implicit Types x y z : AutomationOccurrence.t.
Implicit Types r : recovery.

Abbreviation aid := AutomationOccurrence.id.

(** The staged changes, while [rest] is still to be looked at: each entry is a checked
    move of a stored occurrence, and a retained one was staged only together with the
    end of the active one. *)
Definition entry_ok s (staged : gmap AutomationOccurrenceId AutomationOccurrence.t)
    (B : gmap AutomationOccurrenceId (list AutomationOccurrenceClaimAttempt.t))
    (i : AutomationOccurrenceId) x' : Prop :=
  ∃ x, automation_occurrences s !! i = Some x ∧ same_occurrence x x' ∧ occurrence_inv x' ∧
    attempts_inv x' (attempts_of (B ∪ automation_occurrence_claim_attempts s) i) ∧ ¬ queued x' ∧
    (active x' → active x ∨ queued x ∧ ∃ j z z', automation_occurrences s !! j = Some z ∧
       staged !! j = Some z' ∧
       AutomationOccurrence.automation_id z = AutomationOccurrence.automation_id x ∧
       active z ∧ ¬ active z').
Record rec_ok s (rest : list AutomationOccurrence.t) r : Prop := {
  ro_occurrence i x' : staged_occurrences r !! i = Some x' →
    entry_ok s (staged_occurrences r) (staged_attempts r) i x';
  ro_attempts i l : staged_attempts r !! i = Some l → is_Some (staged_occurrences r !! i) ∧
    ∃ x, automation_occurrences s !! i = Some x ∧ active x;
  ro_rest x : x ∈ rest → staged_occurrences r !! aid x = None;
  ro_runs i run' : staged_runs r !! i = Some run' → ∃ run, runs s !! i = Some run ∧ run_step run run';
}.

(** The occurrences still to be looked at are stored and active. *)
Definition rest_ok s (rest : list AutomationOccurrence.t) : Prop :=
  NoDup (map aid rest) ∧ ∀ x, x ∈ rest → automation_occurrences s !! aid x = Some x ∧ active x.

Lemma rec_ok_summary s rest r f : rec_ok s rest r → rec_ok s rest (r <| summary := f |>).
Proof. by intros [H1 H2 H3 H4]. Qed.

Lemma attempts_of_union A B i l : B !! i = Some l → attempts_of (B ∪ A) i = l.
Proof. intros H. unfold attempts_of. by rewrite (lookup_union_Some_l _ _ _ _ H). Qed.
Lemma attempts_of_union_r A B i : B !! i = None → attempts_of (B ∪ A) i = attempts_of A i.
Proof. intros H. unfold attempts_of. by rewrite lookup_union_r. Qed.
Lemma attempts_of_union_ne A B i j l : i ≠ j → attempts_of (<[j := l]> B ∪ A) i = attempts_of (B ∪ A) i.
Proof. intros H. unfold attempts_of. by rewrite !lookup_union, lookup_insert_ne. Qed.

Lemma not_active_queued x : active x → queued x → False.
Proof. unfold active, queued. intros Ha Hq. by rewrite Hq in Ha. Qed.

Lemma entry_ok_mono s staged staged' B B' i x' :
  entry_ok s staged B i x' →
  attempts_of (B' ∪ automation_occurrence_claim_attempts s) i =
    attempts_of (B ∪ automation_occurrence_claim_attempts s) i →
  (∀ j z z', automation_occurrences s !! j = Some z → active z → staged !! j = Some z' →
     staged' !! j = Some z') →
  entry_ok s staged' B' i x'.
Proof.
  intros (x & H1 & H2 & H3 & H4 & H5 & H6) E Hs. exists x. rewrite E. split_and!; try done.
  intros [?|(Hq & j & z & z' & Hz & Hz' & ?)]%H6; [by left|right]. split; [done|].
  exists j, z, z'. split_and!; [done| |naive_solver..]. eapply Hs; [done|naive_solver|done].
Qed.

(** The retained occurrence of the automation of [x], moved to pending. *)
Definition promotion s x y' : Prop :=
  ∃ y, automation_occurrences s !! aid y = Some y ∧ aid y' = aid y ∧ queued y ∧
    AutomationOccurrence.automation_id y = AutomationOccurrence.automation_id x ∧
    same_occurrence y y' ∧ occurrence_inv y' ∧ ¬ queued y' ∧
    attempts_inv y' (attempts_of (automation_occurrence_claim_attempts s) (aid y)).

Lemma stage_recovered_Ok s now x x' l' r r' :
  journal_inv (automation_occurrences s) (automation_occurrence_claim_attempts s) →
  same_occurrence x x' → stage_recovered s now x' l' r = Ok r' →
  ∃ staged, r' = r <| staged_attempts := <[aid x := l']> (staged_attempts r) |>
                   <| staged_occurrences := <[aid x := x']> staged |> ∧
    (staged = staged_occurrences r ∨
     ¬ active x' ∧ ∃ y', promotion s x y' ∧ staged = <[aid y' := y']> (staged_occurrences r)).
Proof.
  intros Hj (Hid & Haut & _) H. unfold stage_recovered in H.
  apply result_bind_Ok in H as (o & Ho & [= <-]). rewrite Hid. eexists. split; [done|].
  case_bool_decide as Hst; [|injection Ho as <-; by left].
  apply promoted_queued_Ok in Ho; [|done]. destruct o as [y'|]; [right|by left].
  split; [by unfold active; rewrite Hst|]. destruct Ho as (y & Hy & Hq & Ha & _ & Hs & Hi & Hnq & Hat).
  exists y'. split; [|done]. exists y. split_and!; try done; [apply Hs|congruence].
Qed.

Lemma stage_recovered_ok s now x x' l' rest r r' :
  journal_inv (automation_occurrences s) (automation_occurrence_claim_attempts s) →
  rest_ok s (x :: rest) → rec_ok s (x :: rest) r →
  same_occurrence x x' → occurrence_inv x' → attempts_inv x' l' → ¬ queued x' →
  stage_recovered s now x' l' r = Ok r' → rec_ok s rest r'.
Proof.
  intros Hj [Hnd Hrest] [R1 R2 R3 R4] Hs Hi Hat Hq (staged & -> & Hst)%(stage_recovered_Ok _ _ x); [|done..].
  destruct (Hrest x) as [Hx Hax]; [by apply elem_of_cons; left|].
  pose proof (R3 x ltac:(by apply elem_of_cons; left)) as Hnx.
  assert (Hkeep : ∀ j z, automation_occurrences s !! j = Some z → active z → j ≠ aid x →
    <[aid x := x']> staged !! j = staged_occurrences r !! j).
  { intros j z Hz Haz Hne. rewrite lookup_insert_ne by done. destruct Hst as [->|(_ & y' & Hp & ->)]; [done|].
    destruct Hp as (y & Hy & -> & Hqy & _). rewrite lookup_insert_ne; [done|].
    intros <-. simplify_eq. by eapply not_active_queued. }
  split; cbn; [| | |done].
  - assert (Hold : ∀ i w', i ≠ aid x → staged_occurrences r !! i = Some w' →
      entry_ok s (<[aid x := x']> staged) (<[aid x := l']> (staged_attempts r)) i w').
    { intros i w' Hne Hw%R1. apply (entry_ok_mono _ _ _ _ _ _ _ Hw); [by apply attempts_of_union_ne|].
      intros j z z' Hz Haz Hz'. rewrite (Hkeep j z); [done..|]. intros ->. congruence. }
    intros i w' [[<- <-]|[Hne Hw]]%lookup_insert_Some.
    { exists x. rewrite (attempts_of_union _ _ _ l') by apply lookup_insert_eq. split_and!; try done. by left. }
    destruct Hst as [->|(Hna & y' & (y & Hy & Hid & Hqy & Hay & Hsy & Hiy & Hnq & Haty) & ->)]; [by apply Hold|].
    apply lookup_insert_Some in Hw as [[<- <-]|[? ?]]; [|by apply Hold].
    rewrite Hid in *. exists y. rewrite attempts_of_union_ne, attempts_of_union_r; [|..|done].
    + split_and!; try done. intros _. right. split; [done|]. exists (aid x), x, x'.
      rewrite lookup_insert_eq. split_and!; done.
    + destruct (staged_attempts r !! aid y) eqn:E; [|done]. apply R2 in E as (_ & w & ? & ?). simplify_eq.
      by destruct (not_active_queued y).
  - intros i l Hl. rewrite lookup_insert_is_Some'.
    apply lookup_insert_Some in Hl as [[<- <-]|[_ Hl]]; [split; [by left|by exists x]|].
    destruct (R2 _ _ Hl) as [Hso ?]. split; [right|done].
    destruct Hst as [->|(_ & y' & _ & ->)]; [done|]. rewrite lookup_insert_is_Some'. by right.
  - intros w Hw. destruct (Hrest w) as [HTw Haw]; [by apply elem_of_cons; right|].
    rewrite (Hkeep _ w) by (try done; intros E; cbn in Hnd; apply NoDup_cons in Hnd as [Hn _];
      apply Hn; rewrite <- E; apply list_elem_of_fmap; by exists w).
    apply R3. by apply elem_of_cons; right.
Qed.

Lemma recover_claimed_ok s now x rest r r' :
  journal_inv (automation_occurrences s) (automation_occurrence_claim_attempts s) →
  rest_ok s (x :: rest) → rec_ok s (x :: rest) r →
  AutomationOccurrence.state x = AutomationOccurrenceState.Claimed →
  recover_claimed s now x r = Ok r' → rec_ok s rest r'.
Proof.
  intros Hj Hrest Hr Hst H. unfold recover_claimed in H.
  apply result_bind_Ok in H as (x1 & Hx1 & H). rewrite moved_copy_Ok in Hx1.
  apply (occurrence_apply_accepted OReleaseExpired) in Hx1 as [Ha ->].
  apply result_bind_Ok in H as ([[x' completion] tally] & Hx' & H).
  apply result_bind_Ok in H as (l & Hl%ok_or_Ok & H). apply result_bind_Ok in H as (l' & Hl' & H).
  destruct (proj2 Hrest x) as [Hx Hax]; [by apply elem_of_cons; left|].
  destruct (ji_occurrence _ _ Hj _ _ Hx) as (_ & Hi & Hat).
  unfold attempts_of in Hat. rewrite Hl in Hat. cbn in Hat.
  pose proof (occurrence_step_inv OReleaseExpired now x Hi I Ha) as Hi1. pose proof (call_same _ _ _ Hi Ha) as Hs1.
  assert (Hmove : same_occurrence x x' ∧ occurrence_inv x' ∧ ¬ queued x' ∧
    AutomationOccurrence.claim_attempt_count x' = AutomationOccurrence.claim_attempt_count x ∧
    AutomationOccurrence.state x' ≠ AutomationOccurrenceState.Claimed ∧
    AutomationOccurrence.state x' ≠ AutomationOccurrenceState.RunLinked).
  { case_match; [|by injection Hx' as <- _ _].
    apply result_bind_Ok in Hx' as (x2 & Hx2 & [= <- _ _]). rewrite moved_copy_Ok in Hx2.
    apply (occurrence_apply_accepted OClaimsExhausted) in Hx2 as [Ha2 ->].
    split_and!; try done. by apply occurrence_step_inv. }
  destruct Hmove as (Hs & Hi' & Hq & Hn & Hc & Hnl).
  apply (stage_recovered_ok s now x x' l' rest (r <| summary := tally |>)); try done.
  - by apply rec_ok_summary.
  - eapply (complete_claim_attempt_inv x); [done|done|exact Hl'| |apply Hs|done|done|done].
    intros c Hcl. apply (claim_time x c now Hi Hcl). apply Ha.
Qed.

Lemma settle_linked_Ok now run_id run x x' o :
  settle_linked now run_id run x = Ok (x', o) →
  (∃ c, settles c ∧ accepts c now x ∧ x' = occurrence_moved c now x) ∧
  ∀ run', o = Some run' → run_step run run'.
Proof.
  intros H. unfold settle_linked in H.
  assert (Hset : ∀ c y, settles c → moved_copy (λ _, invalid_automation_scheduler_journal) (occurrence_apply c now) x = Ok y →
    ∃ c, settles c ∧ accepts c now x ∧ y = occurrence_moved c now x).
  { intros c y Hc. rewrite moved_copy_Ok. intros [? ->]%occurrence_apply_accepted. by exists c. }
  destruct (Run.state run).
  1-5: apply result_bind_Ok in H as (run' & Hrun & H); apply result_bind_Ok in H as (y & Hy & [= <- <-]);
    rewrite moved_copy_Ok in Hrun; split; [by apply (Hset (OInterrupt run_id))|];
    intros ? [= <-]; by econstructor.
  all: apply result_bind_Ok in H as (y & Hy & [= <- <-]); split; [|done].
  - by apply (Hset (OSucceed run_id)).
  - by apply (Hset (OFail run_id)).
  - by apply (Hset OCancel).
  - by apply (Hset (OInterrupt run_id)).
Qed.

Lemma recover_linked_ok s now x rest r r' :
  journal_inv (automation_occurrences s) (automation_occurrence_claim_attempts s) →
  rest_ok s (x :: rest) → rec_ok s (x :: rest) r →
  AutomationOccurrence.state x = AutomationOccurrenceState.RunLinked →
  recover_linked s now x r = Ok r' → rec_ok s rest r'.
Proof.
  intros Hj Hrest Hr Hst H. unfold recover_linked in H.
  apply result_bind_Ok in H as (run_id & Hrun_id%ok_or_Ok & H). destruct (bound_queued _ _ _).
  { injection H as <-. apply rec_ok_summary. destruct Hr as [R1 R2 R3 R4]. split; try done.
    intros y Hy. apply R3. by apply elem_of_cons; right. }
  apply result_bind_Ok in H as (run & Hrun%ok_or_Ok & H).
  apply result_bind_Ok in H as ([x' o] & Hset & H). apply result_bind_Ok in H as (l & Hl%ok_or_Ok & H).
  apply settle_linked_Ok in Hset as [(c & Hc & Ha & ->) Hstep].
  destruct (proj2 Hrest x) as [Hx Hax]; [by apply elem_of_cons; left|].
  destruct (ji_occurrence _ _ Hj _ _ Hx) as (_ & Hi & Hat).
  unfold attempts_of in Hat. rewrite Hl in Hat. cbn in Hat.
  rewrite (ai_linked _ _ Hat Hst) in H.
  destruct (settle_move x l c now) as (Hs & Hi' & Hat' & _ & Hnq); [done..|].
  eapply (stage_recovered_ok s now x); [done|done| |exact Hs|done|exact Hat'|done|exact H].
  assert (Hr' : rec_ok s (x :: rest)
    match o with
    | Some moved =>
        r <| staged_run_events := staged_run_events r ++
               [(run_id, NewRunEvent.mk now
                   (RunStateChanged (Run.state run) RunState.InterruptedNeedsReview))] |>
          <| staged_runs := <[run_id := moved]> (staged_runs r) |>
    | None => r
    end).
  { destruct o as [moved|]; [|done]. destruct Hr as [R1 R2 R3 R4]. split; try done.
    cbn. intros i run' [[<- <-]|[_ ?]]%lookup_insert_Some; [|by apply R4]. exists run. eauto. }
  destruct (_ == _); [by apply rec_ok_summary|done].
Qed.

Lemma recover_each_ok s now l r r' :
  journal_inv (automation_occurrences s) (automation_occurrence_claim_attempts s) →
  rest_ok s l → rec_ok s l r → recover_each s now l r = Ok r' → rec_ok s [] r'.
Proof.
  intros Hj. revert r. induction l as [|x l IH]; intros r Hl Hr H; cbn in H; [by injection H as <-|].
  apply result_bind_Ok in H as (x0 & _ & H). apply result_bind_Ok in H as (r1 & Hr1 & H).
  assert (Hrest : rest_ok s l).
  { destruct Hl as [Hnd Hin]. cbn in Hnd. apply NoDup_cons in Hnd as [_ ?]. split; [done|].
    intros y Hy. apply Hin. by apply elem_of_cons; right. }
  eapply IH; [done| |done].
  destruct (AutomationOccurrence.state x) eqn:Hst; try done;
    [by eapply recover_claimed_ok|by eapply recover_linked_ok].
Qed.

Lemma expired_rest_ok s now n :
  journal_inv (automation_occurrences s) (automation_occurrence_claim_attempts s) →
  rest_ok s (take n (expired_claims s now)).
Proof.
  intros Hj. assert (Hin : ∀ x, x ∈ expired_claims s now →
    automation_occurrences s !! aid x = Some x ∧ active x).
  { intros x. unfold expired_claims. rewrite sort_by_key_perm, list_elem_of_filter, elem_of_values.
    intros [He [i Hi]]. destruct (ji_occurrence _ _ Hj _ _ Hi) as (<- & _). split; [done|].
    unfold claim_expired in He. unfold active. by destruct (AutomationOccurrence.state x). }
  split; [|intros x [k Hk]%list_elem_of_lookup; apply Hin, list_elem_of_lookup; exists k;
           by apply lookup_take_Some in Hk as [? _]].
  eapply sublist_NoDup; [|apply fmap_sublist, sublist_take].
  unfold expired_claims. rewrite (sort_by_key_perm _ _ _).
  eapply sublist_NoDup; [|apply fmap_sublist, sublist_filter].
  apply values_keys_NoDup. intros i x Hx. by destruct (ji_occurrence _ _ Hj _ _ Hx).
Qed.

(** The bindings after the staged changes were copied into them. *)
Definition same_bindings
    (D D' : gmap AutomationOccurrenceId AutomationOccurrenceDispatchResult.t) : Prop :=
  ∀ i, bound_run <$> D' !! i = bound_run <$> D !! i.
#[local] Instance same_bindings_trans : Transitive same_bindings.
Proof. intros D1 D2 D3 H1 H2 i. by rewrite H2. Qed.

Lemma rebind_occurrences_same staged D : same_bindings D (rebind_occurrences staged D).
Proof.
  intros i. unfold rebind_occurrences. rewrite map_lookup_imap. destruct (D !! i) as [b|]; [|done].
  cbn. by destruct (staged !! i).
Qed.
Lemma rebind_run_same run D : same_bindings D (rebind_run (Run.id run) run D).
Proof.
  intros i. unfold rebind_run. destruct (find _ _) as [[j b]|] eqn:E; [|done].
  apply find_some in E as [Hin Hb]. apply list_elem_of_In, elem_of_map_to_list in Hin.
  apply bool_decide_eq_true in Hb. cbn in Hb.
  destruct (decide (j = i)) as [->|]; [|by rewrite lookup_insert_ne].
  rewrite lookup_insert_eq, Hin. cbn. unfold bound_run. cbn. by rewrite Hb.
Qed.
Lemma rebind_runs_same (R : gmap RunId Run.t) D :
  (∀ i run, R !! i = Some run → Run.id run = i) →
  same_bindings D (map_fold (λ id run m, rebind_run id run m) D R).
Proof.
  apply (map_fold_weak_ind (λ D' R, (∀ i run, R !! i = Some run → Run.id run = i) → same_bindings D D')).
  - done.
  - intros i run R' D' Hi IH Hk. etrans; [apply IH|].
    + intros j run' Hj. apply Hk. rewrite lookup_insert_ne; [done|congruence].
    + rewrite <- (Hk i run) by apply lookup_insert_eq. apply rebind_run_same.
Qed.
Lemma binding_rebound s s' :
  same_bindings (automation_occurrence_dispatches s) (automation_occurrence_dispatches s') →
  binding_part s s'.
Proof.
  intros H. split; intros i b Hb; specialize (H i); rewrite Hb in H.
  - by destruct (automation_occurrence_dispatches s' !! i).
  - left. destruct (automation_occurrence_dispatches s !! i) as [b0|]; [|done]. cbn in H.
    injection H as H. by exists b0.
Qed.

Lemma append_each_runs l e :
  State.runs (foldl (λ e p, append_events p.1 [p.2] e) e l) = State.runs e.
Proof. revert e. induction l as [|p l IH]; intros e; [done|]. cbn. by rewrite IH. Qed.

Lemma recovery_table s r :
  journal_inv (automation_occurrences s) (automation_occurrence_claim_attempts s) → rec_ok s [] r →
  journal_moves (automation_occurrences s) (automation_occurrence_claim_attempts s)
    (staged_occurrences r ∪ automation_occurrences s)
    (staged_attempts r ∪ automation_occurrence_claim_attempts s).
Proof.
  intros Hj [R1 R2 _ _]. split.
  - intros i x'. rewrite lookup_union_Some_raw. intros [Hx|[Hn Hx]].
    + destruct (R1 _ _ Hx) as (x & H1 & H2 & H3 & H4 & H5 & H6). exists x. split_and!; try done.
      intros [?|(Hq & j & z & z' & Hz & Hz' & ?)]%H6; [by left|right]. split; [done|].
      exists j, z, z'. split_and!; [done| |naive_solver..]. rewrite lookup_union_Some_raw. by left.
    + exists x'. destruct (ji_occurrence _ _ Hj _ _ Hx) as (_ & Hi & Ha).
      rewrite attempts_of_union_r; [split_and!; try done; by left|].
      destruct (staged_attempts r !! i) as [l|] eqn:El; [|done].
      destruct (R2 _ _ El) as [[? E] _]. by rewrite Hn in E.
  - intros i x Hx. rewrite lookup_union_is_Some. right. eauto.
  - intros i l. rewrite lookup_union_Some_raw. intros [Hl|[_ Hl]].
    + destruct (R2 _ _ Hl) as (_ & x & ? & _). eauto.
    + by eapply ji_attempts.
Qed.

Lemma recover_ok s s' token now limit res :
  sched_inv s → SchedulerMemory.recover_automation_occurrence_claims token now limit s = (s', res) →
  fenced s s' token now.
Proof.
  intros Hs H. unfold SchedulerMemory.recover_automation_occurrence_claims in H.
  peel H u Hu. peel_self H. peel H held_lease Hle. injection Hle as Hle%require_lease_Ok.
  peel H r Hr. injection Hr as Hr. right. split; [done|].
  pose proof (si_journal _ Hs) as Hj.
  apply recover_each_ok in Hr; [|done|by apply expired_rest_ok|by split; intros ? ? ?%lookup_empty_Some || done].
  pose proof (recovery_table _ _ Hj Hr) as Hmoves. destruct Hr as [_ _ _ R4].
  assert (Hids : ∀ i run, staged_runs r !! i = Some run → Run.id run = i).
  { intros i run (run0 & H0 & [-> _]%run_step_same)%R4. by apply (si_runs _ Hs). }
  cbn in H. injection H as <- _. apply sched_ok_intro; [done| | | | | |]; try same_parts.
  - by apply table_moves.
  - intros i run'. unfold runs. cbn. rewrite append_each_runs. cbn. rewrite lookup_union_Some_raw.
    intros [Hrun|[_ ?]]; [right|by left]. split; [by apply Hids|]. right.
    destruct (R4 _ _ Hrun) as (run & ? & ?). exists run. split; [done|]. by apply rtc_once.
  - intros i run Hrun. unfold runs. cbn. rewrite append_each_runs. cbn.
    rewrite lookup_union_is_Some. right. eauto.
  - apply binding_rebound. cbn. etrans; [apply (rebind_occurrences_same (staged_occurrences r))|].
    by apply rebind_runs_same.
Qed.
End recovery.

(** ** The store under any number of clients *)

Section world.
Context {CH : Chrono} {SHA : Sha256} {SJ : SerdeJson}.
Import SchedulerState.
Implicit Types s : SS.

(** The operations of the journal that write. *)
Inductive sched_op : Type :=
| OpAcquire (owner : AutomationSchedulerOwnerId) (now ttl : Z)
| OpCommit (evaluation : AutomationScheduleEvaluationCommit.t)
| OpClaim (claim : ClaimAutomationOccurrence.t)
| OpBind (dispatch : AutomationOccurrenceDispatch.t)
| OpBegin (id : AutomationOccurrenceId) (expected : Z) (run : RunId) (expected_run now : Z)
| OpComplete (id : AutomationOccurrenceId) (expected : Z) (run : RunId)
    (completion : AutomationOccurrenceRunCompletion.t) (now : Z)
| OpRecover (token : AutomationSchedulerLeaseToken.t) (now limit : Z)
| OpLink (token : AutomationSchedulerLeaseToken.t) (id : AutomationOccurrenceId) (expected : Z)
    (run : RunId) (now : Z).

Definition sched_exec (op : sched_op) : method SS StoreError unit :=
  match op with
  | OpAcquire owner now ttl =>
      discard (SchedulerMemory.acquire_automation_scheduler_lease owner now ttl)
  | OpCommit e => discard (SchedulerMemory.commit_automation_schedule_evaluation e)
  | OpClaim c => discard (SchedulerMemory.claim_automation_occurrence c)
  | OpBind d => discard (SchedulerMemory.claim_and_bind_automation_occurrence d)
  | OpBegin i n r m now =>
      discard (SchedulerMemory.begin_automation_occurrence_run i n r m now)
  | OpComplete i n r c now =>
      discard (SchedulerMemory.complete_automation_occurrence_run i n r c now)
  | OpRecover tok now limit =>
      discard (SchedulerMemory.recover_automation_occurrence_claims tok now limit)
  | OpLink tok i n r now => discard (SchedulerMemory.link_automation_occurrence_run tok i n r now)
  end.

(** Arguments are unsigned, and the run of a dispatch is a new one. *)
Definition op_typed (op : sched_op) : Prop :=
  match op with
  | OpAcquire _ _ ttl => 0 ≤ ttl
  | OpBind d => run_created (AutomationOccurrenceDispatch.run d)
  | _ => True
  end.
(** The lease an operation acts under, and when. *)
Definition op_token (op : sched_op) : option (AutomationSchedulerLeaseToken.t * Z) :=
  match op with
  | OpCommit e => Some (AutomationScheduleEvaluationCommit.lease e,
                        AutomationScheduleEvaluationCommit.observed_at e)
  | OpClaim c => Some (ClaimAutomationOccurrence.lease c, ClaimAutomationOccurrence.claimed_at c)
  | OpBind d => let c := AutomationOccurrenceDispatch.claim d in
      Some (ClaimAutomationOccurrence.lease c, ClaimAutomationOccurrence.claimed_at c)
  | OpRecover tok now _ => Some (tok, now)
  | OpLink tok _ _ _ now => Some (tok, now)
  | _ => None
  end.
(** The run an accepted operation started. *)
Definition op_started (op : sched_op) (res : result StoreError unit) :
    list (AutomationOccurrenceId * RunId) :=
  match op, res with OpBegin i _ r _ _, Ok _ => [(i, r)] | _, _ => [] end.

(** What an operation guarantees. *)
Record op_effect (op : sched_op) (res : result StoreError unit) s s' : Prop := {
  oe_ok : s' = s ∨ sched_ok s s';
  oe_started i r : (i, r) ∈ op_started op res → started s s' i r;
  oe_fenced tok now : op_token op = Some (tok, now) → s' = s ∨ holds_lease s tok now;
}.

Lemma fenced_effect op res s s' tok now :
  op_token op = Some (tok, now) → fenced s s' tok now → op_effect op res s s'.
Proof.
  intros Ht Hf. assert (op_started op res = []) as E by (by destruct op).
  split; rewrite ?E, ?Ht; [destruct Hf as [->|[_ ?]]; auto|by intros i r ?%elem_of_nil|].
  intros ? ? [= <- <-]. destruct Hf as [->|[? _]]; auto.
Qed.
Lemma unfenced_effect op res s s' :
  op_token op = None → op_started op res = [] → s' = s ∨ sched_ok s s' → op_effect op res s s'.
Proof. intros Ht E H. split; rewrite ?E, ?Ht; [done|by intros i r ?%elem_of_nil|done]. Qed.

Lemma sched_exec_effect op s s' res :
  sched_inv s → op_typed op → sched_exec op s = (s', res) → op_effect op res s s'.
Proof.
  intros Hs Ht H. destruct op as [| | | |i n run_id m now| | |].
  5:{ destruct (SchedulerMemory.begin_automation_occurrence_run i n run_id m now s) as [s1 r] eqn:E.
      cbn [sched_exec] in H. pose proof E as E'. apply begin_ok in E' as [[-> Hr]|(Hok & Hr & Hst)]; [..|done];
        destruct r as [d|e]; try done.
      - rewrite (discard_err _ _ _ _ E) in H. injection H as <- <-. apply unfenced_effect; auto.
      - rewrite (discard_run _ _ _ _ E) in H. injection H as <- <-. split; [by right| |done].
        by intros ? ? [= -> ->]%list_elem_of_singleton. }
  all: cbn [sched_exec] in H; apply discard_state in H as [r' H].
  - apply unfenced_effect; [done..|]. by eapply acquire_ok.
  - eapply fenced_effect; [done|]. by eapply commit_ok.
  - eapply fenced_effect; [done|]. by eapply claim_ok.
  - eapply fenced_effect; [done|]. by eapply bind_ok.
  - apply unfenced_effect; [done..|]. by eapply complete_ok.
  - eapply fenced_effect; [done|]. by eapply recover_ok.
  - eapply fenced_effect; [done|]. by eapply link_ok.
Qed.

(** The store, every run any client read, and every start that was accepted. *)
Record sched_world : Type := SchedWorld {
  sched : SS;
  read_runs : list Run.t;
  begun : list (AutomationOccurrenceId * RunId);
}.

(** A step of any client: an operation of the journal, an operation of the run
    services, or a write of the workspace services. *)
Inductive sched_step : sched_world → sched_world → Prop :=
| step_journal s rs b op s' res :
    op_typed op → sched_exec op s = (s', res) →
    sched_step (SchedWorld s rs b) (SchedWorld s' rs (b ++ op_started op res))
| step_execution s rs b e' rs' :
    ExecutionStore.world_step (ExecutionStore.mk_world (execution s) rs)
      (ExecutionStore.mk_world e' rs') →
    sched_step (SchedWorld s rs b) (SchedWorld (s <| execution := e' |>) rs' b)
| step_workspace s rs b op w' res :
    ws_exec op (workspace s) = (w', res) →
    sched_step (SchedWorld s rs b) (SchedWorld (s <| workspace := w' |>) rs b).

Definition sched_reachable : sched_world → Prop :=
  rtc sched_step (SchedWorld SchedulerState.empty [] []).

(** A workspace write neither touches the bindings nor an automation with a cursor. *)
Lemma workspace_write_ok s op w' res :
  sched_inv s → ws_exec op (workspace s) = (w', res) → sched_ok s (s <| workspace := w' |>).
Proof.
  intros Hs H%ws_exec_effect.
  assert (Hb : WorkspaceState.automation_occurrence_dispatches w' = automation_occurrence_dispatches s ∧
    WorkspaceState.automation_schedule_cursors w' = automation_schedule_cursors s) by (by destruct H).
  destruct Hb as [Hb Hc].
  assert (Ha : WorkspaceState.automations w' = automations s ∨
    ∃ x, WorkspaceState.automations w' = <[Automation.id x := x]> (automations s) ∧
      automation_schedule_cursors s !! Automation.id x = None).
  { destruct H; try (by left); right.
    - exists x. split; [done|]. destruct (automation_schedule_cursors s !! Automation.id x) eqn:E; [|done].
      apply (si_cursors _ Hs) in E as (? & E & _). unfold automations in E. congruence.
    - exists x. split; [|done]. cbn. match goal with E : revisioned_replace _ _ _ _ _ = Ok T |- _ =>
        unfold revisioned_replace in E; by run_in E end. }
  apply sched_ok_intro; [done| | | | | |]; try same_parts.
  change (automations (s <| workspace := w' |>) = automations s ∨
    ∃ x, automations (s <| workspace := w' |>) = <[Automation.id x := x]> (automations s) ∧
      automation_schedule_cursors s !! Automation.id x = None) in Ha.
  change (automation_schedule_cursors (s <| workspace := w' |>) = automation_schedule_cursors s) in Hc.
  split; rewrite ?Hc; [|by left|].
  - intros a aut. destruct Ha as [->|(x & -> & _)]; [apply Hs|].
    intros [[<- <-]|[_ ?]]%lookup_insert_Some; [done|by apply Hs].
  - intros a Hac. split; [done|]. destruct Ha as [->|(x & -> & Hn)]; [done|].
    rewrite lookup_insert_ne; [done|]. intros <-. rewrite Hn in Hac. by destruct Hac.
Qed.

Lemma not_queued_stays r r' :
  rtc run_step r r' → Run.state r ≠ RunState.Queued → Run.state r' ≠ RunState.Queued.
Proof.
  induction 1 as [|r1 r2 r3 Hs _ IH]; [done|]. intros _. apply IH.
  destruct Hs as [next now ?? (Hp & _ & ->)%run_transition_Ok]. cbn. intros ->.
  by destruct (Run.state r).
Qed.

(** What was started stays started. *)
Record begun_inv s (b : list (AutomationOccurrenceId * RunId)) : Prop := {
  bi_occurrences : NoDup b.*1;
  bi_runs : NoDup b.*2;
  bi_bound i r : (i, r) ∈ b → ∃ d, automation_occurrence_dispatches s !! i = Some d ∧ bound_run d = r;
  bi_run i r : (i, r) ∈ b → ∃ run, runs s !! r = Some run ∧ Run.state run ≠ RunState.Queued;
}.

Lemma begun_later s s' b : begun_inv s b → sched_later s s' → begun_inv s' b.
Proof.
  intros [B1 B2 B3 B4] Hl. split; [done|done| |].
  - intros i r (d & Hd & <-)%B3. by apply (sl_bindings _ _ Hl).
  - intros i r (run & Hr & Hq)%B4. destruct (sl_runs _ _ Hl _ _ Hr) as (run' & ? & ?).
    exists run'. split; [done|]. by eapply not_queued_stays.
Qed.

Lemma begun_start s s' b i r :
  begun_inv s b → sched_later s s' → started s s' i r → begun_inv s' (b ++ [(i, r)]).
Proof.
  intros Hb Hl [(d & Hd & Hdr) (run & Hrun & Hq) (run' & Hrun' & Hst)].
  pose proof Hb as [B1 B2 B3 B4].
  assert (Hfresh : ∀ j, (j, r) ∉ b).
  { intros j (run0 & ? & ?)%B4. congruence. }
  destruct (begun_later _ _ _ Hb Hl) as [_ _ B3' B4']. split.
  - rewrite fmap_app. apply NoDup_app. split_and!; [done| |apply NoDup_singleton].
    intros j ([? r'] & -> & Hin)%list_elem_of_fmap [= ->]%list_elem_of_singleton.
    destruct (B3 _ _ Hin) as (d' & Hd' & Er). cbn in *. simplify_eq. by apply (Hfresh i).
  - rewrite fmap_app. apply NoDup_app. split_and!; [done| |apply NoDup_singleton].
    intros r' ([j ?] & -> & Hin)%list_elem_of_fmap [= ->]%list_elem_of_singleton.
    by apply (Hfresh j).
  - intros j r' [?|[= -> ->]%list_elem_of_singleton]%elem_of_app; [by apply B3'|].
    destruct (sl_bindings _ _ Hl _ _ Hd) as (d' & ? & ?). exists d'. split; [done|congruence].
  - intros j r' [?|[= -> ->]%list_elem_of_singleton]%elem_of_app; [by eapply B4'|].
    exists run'. split; [done|]. by rewrite Hst.
Qed.

(** Runs read earlier are past versions of the stored ones. *)
Definition reads_ok s (rs : list Run.t) : Prop :=
  ∀ r0, r0 ∈ rs → ∃ r, runs s !! Run.id r0 = Some r ∧ run_reachable r0 ∧ rtc run_step r0 r.

Definition world_ok (w : sched_world) : Prop :=
  sched_inv (sched w) ∧ reads_ok (sched w) (read_runs w) ∧ begun_inv (sched w) (begun w).

Lemma reads_later s s' rs : reads_ok s rs → sched_later s s' → reads_ok s' rs.
Proof.
  intros H Hl r0 (r & Hr & ? & ?)%H. destruct (sl_runs _ _ Hl _ _ Hr) as (r' & ? & ?).
  exists r'. split_and!; [done|done|by etrans].
Qed.

Lemma execution_step_ok s rs e' rs' :
  sched_inv s → reads_ok s rs →
  ExecutionStore.world_step (ExecutionStore.mk_world (execution s) rs)
    (ExecutionStore.mk_world e' rs') →
  sched_ok s (s <| execution := e' |>) ∧ reads_ok (s <| execution := e' |>) rs'.
Proof.
  intros Hs Hr Hstep.
  (* every stored run counts as read, so the store of runs only moves forward *)
  assert (Hstep' : ∃ all', ExecutionStore.world_step
      (ExecutionStore.mk_world (execution s) (rs ++ InMemory.values (runs s)))
      (ExecutionStore.mk_world e' all') ∧ rs' ++ InMemory.values (runs s) ⊆ all').
  { inversion Hstep; subst; eexists; (split; [|reflexivity]).
    - by eapply (ExecutionStore.world_read _ _ i).
    - by eapply ExecutionStore.world_create.
    - eapply ExecutionStore.world_commit; [|done..]. apply elem_of_app. by left.
    - by eapply ExecutionStore.world_other. }
  destruct Hstep' as (all' & Hstep' & Hsub).
  apply world_inv_step in Hstep'.
  2:{ split; cbn; [apply Hs|]. intros r0 [?|[i Hi]%elem_of_values]%elem_of_app; [by apply Hr|].
      destruct (si_runs _ Hs _ _ Hi) as [<- ?]. by exists r0. }
  destruct Hstep' as [H1 H2]. cbn in H1, H2. split.
  2:{ intros r0 Hin. apply H2, Hsub, elem_of_app. by left. }
  apply sched_ok_intro; [done| | | | | |]; try same_parts.
  - intros i r' Hr'. destruct (H1 _ _ Hr') as [<- Hreach].
    destruct (runs s !! Run.id r') as [r|] eqn:E.
    + right. split; [done|]. right. exists r. split; [done|].
      destruct (H2 r) as (r1 & Hr1 & _ & ?).
      { apply Hsub, elem_of_app. right. apply elem_of_values. eauto. }
      destruct (si_runs _ Hs _ _ E) as [Eid _]. rewrite Eid in Hr1. unfold runs in Hr'. cbn in Hr'. congruence.
    + right. split; [done|]. by left.
  - intros i r Hi. destruct (H2 r) as (r1 & Hr1 & _).
    { apply Hsub, elem_of_app. right. apply elem_of_values. eauto. }
    destruct (si_runs _ Hs _ _ Hi) as [Eid _]. rewrite Eid in Hr1. by exists r1.
Qed.

Lemma sched_step_ok w w' :
  sched_step w w' → world_ok w → world_ok w' ∧ sched_later (sched w) (sched w').
Proof.
  intros Hstep (Hs & Hr & Hb). destruct Hstep as [s rs b op s' res Ht H|s rs b e' rs' H|s rs b op w' res H];
    unfold world_ok; cbn in *.
  - apply sched_exec_effect in H as [Hok Hst _]; [|done..].
    assert (Hs' : sched_inv s' ∧ sched_later s s') by (destruct Hok as [->|?]; done).
    destruct Hs' as [Hs' Hl]. split_and!; [done|by eapply reads_later| |done].
    destruct (op_started op res) as [|[i r] l] eqn:E.
    + rewrite app_nil_r. by eapply begun_later.
    + assert (l = []) as -> by (destruct op, res; by simplify_eq/=).
      eapply begun_start; [done..|]. apply Hst. apply list_elem_of_here.
  - apply execution_step_ok in H as [[Hs' Hl] Hr']; [|done..].
    split_and!; [done|done|by eapply begun_later|done].
  - apply workspace_write_ok in H as [Hs' Hl]; [|done].
    split_and!; [done|by eapply reads_later|by eapply begun_later|done].
Qed.

Lemma sched_steps_ok w w' :
  rtc sched_step w w' → world_ok w → world_ok w' ∧ sched_later (sched w) (sched w').
Proof.
  induction 1 as [w|w w1 w' Hs _ IH]; intros Hw; [done|].
  apply sched_step_ok in Hs as [Hw1 Hl]; [|done]. destruct (IH Hw1) as [? ?]. split; [done|by etrans].
Qed.
Lemma world_ok_empty : world_ok (SchedWorld SchedulerState.empty [] []).
Proof.
  split_and!; [|by intros r ?%elem_of_nil|].
  - split; done.
  - split; cbn; try (apply NoDup_nil_2); by intros i r ?%elem_of_nil.
Qed.
Lemma sched_reachable_ok w : sched_reachable w → world_ok w.
Proof. intros H. by apply sched_steps_ok in H as [? _]; [|apply world_ok_empty]. Qed.

(** ** Reading the journal *)

Lemma collect_results_Ok {E A B} (f : A → result E B) (l : list A) :
  (∀ x, x ∈ l → is_ok (f x) = true) → ∃ ys, collect_results f l = Ok ys.
Proof.
  induction l as [|x l IH]; intros H; cbn; [by exists []|].
  pose proof (H x (list_elem_of_here _ _)) as Hx. destruct (f x) as [y|]; [|done]. cbn.
  destruct IH as [ys ->]; [intros z Hz; apply H; by apply elem_of_cons; right|]. cbn. eauto.
Qed.

Lemma tally_occurrences_Ok s l st :
  (∀ x, x ∈ l → occurrence_inv x ∧
     attempts_inv x (attempts_of (automation_occurrence_claim_attempts s) (AutomationOccurrence.id x))) →
  ∃ st', tally_occurrences s l st = Ok st'.
Proof.
  revert st. induction l as [|x l IH]; intros st H; cbn; [eauto|].
  destruct (H x (list_elem_of_here _ _)) as [Hi Ha].
  assert (AutomationOccurrence.restore x = Ok x) as -> by (apply occurrence_restore_Ok; split_and!; [done|apply Hi..]).
  cbn. rewrite (attempts_inv_validate x) by (try done; apply inv_attempts_bound, Hi). cbn.
  apply IH. intros y Hy. apply H. by apply elem_of_cons; right.
Qed.

Lemma journal_status_Ok s :
  sched_inv s → ∃ status, SchedulerMemory.automation_scheduler_journal_status s = (s, Ok status).
Proof.
  intros Hs. unfold SchedulerMemory.automation_scheduler_journal_status. run_unfold.
  destruct (collect_results_Ok (λ c, or_invalid (AutomationScheduleCursor.restore c))
    (InMemory.values (automation_schedule_cursors s))) as [cs Hcs].
  { intros c [a Ha]%elem_of_values. destruct (si_cursors _ Hs _ _ Ha) as (? & _ & ? & _ & _ & Hv).
    unfold automation_schedule_cursor_is_valid in Hv. rewrite !andb_true_iff in Hv.
    destruct Hv as ((((Hv & _) & _) & _) & _). by destruct (AutomationScheduleCursor.restore c). }
  assert (Htally : ∀ st, ∃ st', tally_occurrences s (InMemory.values (automation_occurrences s)) st = Ok st').
  { intros st. apply tally_occurrences_Ok. intros x [i Hi]%elem_of_values.
    by destruct (ji_occurrence _ _ (si_journal _ Hs) _ _ Hi) as (<- & ? & ?). }
  destruct (automation_scheduler_lease s) as [l|] eqn:El.
  - assert (AutomationSchedulerLease.restore l = Ok l) as ->.
    { pose proof (si_lease _ Hs _ El) as Hl. apply lease_restore_Ok; [destruct Hl; lia|done]. }
    cbn. rewrite Hcs. destruct (Htally (AutomationSchedulerJournalStatus.mk (Some l)
      (Z.of_nat (size (automation_schedule_cursors s))) 0 0 0 0 0)) as [st ->]. eauto.
  - cbn. rewrite Hcs. destruct (Htally (AutomationSchedulerJournalStatus.mk None
      (Z.of_nat (size (automation_schedule_cursors s))) 0 0 0 0 0)) as [st ->]. eauto.
Qed.

Lemma schedule_candidate_Ok s automation c :
  cursor_fits automation c → automation_schedule_cursors s !! Automation.id automation = Some c →
  schedule_candidate s automation = Ok (AutomationScheduleCandidate.mk automation (Some c)).
Proof.
  intros (snap & Hsnap & Hid & Hv) Hc. unfold schedule_candidate. rewrite Hsnap. cbn.
  unfold matching_automation_schedule_cursor. rewrite Hc, Hv, Hid.
  assert (Hrev : AutomationExecutionSnapshot.definition_revision snap = Automation.revision automation).
  { unfold automation_scheduler_snapshot in Hsnap. apply result_bind_Ok in Hsnap as (? & _ & Hsnap).
    unfold or_invalid in Hsnap. rewrite map_err_Ok in Hsnap.
    apply snapshot_new_Ok in Hsnap as (z & _ & _ & _ & _ & ->). done. }
  unfold automation_schedule_cursor_is_valid in Hv. bool_facts.
  rewrite Hrev in *. rewrite !bool_decide_eq_true_2 by (done || lia). done.
Qed.
End world.
