(* ===== verification/SchedulerSafety.v ===== *)
(** * The scheduler services on a shared journal

    The services of [SchedulerServices] run against the in-memory journal while other
    clients use it: [client] is a store whose every operation is preceded by whatever the
    other clients did in the meantime. The properties of the journal and of the services
    follow, with a concrete automation that is evaluated, dispatched and recovered. *)
From stdpp Require Import sorting.
From S2P Require Import Prelude RustText Ids Runs Approvals Effects ConversationTurns TurnEvents Schedules Scheduler Workspace ExecutionStore Commands ExecutionServices WorkspaceStore WorkspaceServices WorkspaceWorld SchedulerStore SchedulerServices SchedulerWorld.

(** ** One client among others *)

Record client : Type := Client {
  world : sched_world;
  calls : nat;
  own : list (AutomationOccurrenceId * RunId);
  others : list (AutomationOccurrenceId * RunId);
}.
#[global] Instance client_eta : Eta client := λ c, Client (world c) (calls c) (own c) (others c).
#[global] Instance sched_world_eta : Eta sched_world := λ w, SchedWorld (sched w) (read_runs w) (begun w).

Section client.
Context {CH : Chrono} {SHA : Sha256} {SJ : SerdeJson}.
(** What the other clients do before the [n]th call. *)
Context (others_do : nat → sched_world → sched_world).

Definition others_move (c : client) : client :=
  let w := others_do (calls c) (world c) in
  Client w (S (calls c)) (own c) (others c ++ drop (length (begun (world c))) (begun w)).

(** A call of this client, after the others moved. *)
Definition client_call {A} (m : method SS StoreError A) : method client StoreError A := λ c,
  let c := others_move c in
  let '(s, r) := m (sched (world c)) in
  (c <| world := (world c) <| sched := s |> |>, r).
(** The same for the call that starts a run, which is noted when it is accepted. *)
Definition client_begin {A} (key : AutomationOccurrenceId * RunId) (m : method SS StoreError A) :
    method client StoreError A := λ c,
  let '(c, r) := client_call m c in
  let new := if is_ok r then [key] else [] in
  (c <| world := (world c) <| begun := begun (world c) ++ new |> |> <| own := own c ++ new |>, r).

Definition client_store : AutomationSchedulerStore client := {|
  acquire_automation_scheduler_lease owner now ttl :=
    client_call (SchedulerMemory.acquire_automation_scheduler_lease owner now ttl);
  list_automation_schedule_candidates after limit :=
    client_call (SchedulerMemory.list_automation_schedule_candidates after limit);
  commit_automation_schedule_evaluation e :=
    client_call (SchedulerMemory.commit_automation_schedule_evaluation e);
  get_automation_occurrence i := client_call (SchedulerMemory.get_automation_occurrence i);
  list_automation_occurrences a after limit :=
    client_call (SchedulerMemory.list_automation_occurrences a after limit);
  claim_automation_occurrence c := client_call (SchedulerMemory.claim_automation_occurrence c);
  claim_and_bind_automation_occurrence d :=
    client_call (SchedulerMemory.claim_and_bind_automation_occurrence d);
  list_resumable_automation_dispatches after limit :=
    client_call (SchedulerMemory.list_resumable_automation_dispatches after limit);
  begin_automation_occurrence_run i n r m now :=
    client_begin (i, r) (SchedulerMemory.begin_automation_occurrence_run i n r m now);
  complete_automation_occurrence_run i n r completion now :=
    client_call (SchedulerMemory.complete_automation_occurrence_run i n r completion now);
  recover_automation_occurrence_claims tok now limit :=
    client_call (SchedulerMemory.recover_automation_occurrence_claims tok now limit);
  automation_scheduler_journal_status :=
    client_call SchedulerMemory.automation_scheduler_journal_status;
  link_automation_occurrence_run tok i n r now :=
    client_call (SchedulerMemory.link_automation_occurrence_run tok i n r now);
|}.

(** The others only take steps of the world. *)
Context (Hothers : ∀ n w, rtc sched_step w (others_do n w)).

(** From one state of the client to a later one: steps of the world, and every accepted
    start is in one of the two lists. *)
Definition client_later (c c' : client) (mine : list (AutomationOccurrenceId * RunId)) : Prop :=
  rtc sched_step (world c) (world c') ∧ own c' = own c ++ mine ∧ others c ⊆ others c' ∧
  (begun (world c) ≡ₚ own c ++ others c → begun (world c') ≡ₚ own c' ++ others c').

Lemma client_later_refl c : client_later c c [].
Proof. split_and!; [done|by rewrite app_nil_r|done|done]. Qed.
Lemma client_later_trans c1 c2 c3 l1 l2 :
  client_later c1 c2 l1 → client_later c2 c3 l2 → client_later c1 c3 (l1 ++ l2).
Proof.
  intros (A1 & A2 & A4 & A3) (B1 & B2 & B4 & B3).
  split_and!; [by etrans|by rewrite B2, A2, app_assoc|by etrans|by intros ?%A3%B3].
Qed.

Lemma sched_steps_begun w w' : rtc sched_step w w' → ∃ l, begun w' = begun w ++ l.
Proof.
  induction 1 as [w|w w1 w' Hs _ [l IH]]; [exists []; by rewrite app_nil_r|].
  destruct Hs; cbn in *; rewrite IH; rewrite <- ?app_assoc; eauto.
Qed.

Lemma others_move_later c : client_later c (others_move c) [].
Proof.
  split_and!; [apply Hothers|by rewrite app_nil_r|intros k Hk; apply elem_of_app; by left|]. intros Hp. cbn.
  destruct (sched_steps_begun _ _ (Hothers (calls c) (world c))) as [l ->].
  rewrite drop_app_length, Hp. by rewrite app_assoc.
Qed.

Lemma client_call_reads {A} (m : method SS StoreError A) c c' r :
  readonly m → client_call m c = (c', r) → client_later c c' [].
Proof.
  intros Hm H. unfold client_call in H. specialize (Hm (sched (world (others_move c)))).
  destruct (m _) as [s r'] eqn:E. cbn in Hm. injection H as <- _.
  pose proof (others_move_later c) as Hl. rewrite Hm. clear -Hl. unfold others_move in *. cbn in *.
  by destruct (others_do (calls c) (world c)).
Qed.

Lemma client_call_writes {A} (m : method SS StoreError A) op c c' r :
  sched_exec op = discard m → op_typed op → (∀ res, op_started op res = []) →
  client_call m c = (c', r) → client_later c c' [].
Proof.
  intros Hop Ht Hst H. unfold client_call in H. destruct (m _) as [s r'] eqn:E. injection H as <- _.
  eapply (client_later_trans _ (others_move c) _ [] []); [apply others_move_later|].
  split_and!; [|by rewrite app_nil_r|done|done]. apply rtc_once.
  destruct (discard m (sched (world (others_move c)))) as [s1 res] eqn:Ed.
  assert (s1 = s) as ->.
  { destruct r'; [rewrite (discard_run _ _ _ _ E) in Ed|rewrite (discard_err _ _ _ _ E) in Ed]; congruence. }
  pose proof (step_journal _ (read_runs (world (others_move c))) (begun (world (others_move c))) op s res Ht
    ltac:(rewrite Hop; exact Ed)) as Hstep.
  rewrite Hst, app_nil_r in Hstep. revert Hstep. clear. unfold others_move. cbn.
  by destruct (others_do (calls c) (world c)).
Qed.

Lemma perm_note {A} (b o t n : list A) : b ≡ₚ o ++ t → b ++ n ≡ₚ (o ++ n) ++ t.
Proof. intros ->. rewrite <- !app_assoc. apply Permutation_app_head, Permutation_app_comm. Qed.

(** An accepted start is noted, with the data it was asked for. *)
Lemma client_begin_later i n run_id m now c c' r :
  world_ok (world c) →
  client_begin (i, run_id) (SchedulerMemory.begin_automation_occurrence_run i n run_id m now) c = (c', r) →
  client_later c c' (if is_ok r then [(i, run_id)] else []) ∧
  ∀ d, r = Ok d → AutomationOccurrence.id (AutomationOccurrenceDispatchResult.occurrence d) = i ∧
    Run.id (AutomationOccurrenceDispatchResult.run d) = run_id.
Proof.
  intros Hw H. unfold client_begin, client_call in H.
  set (op := SchedulerMemory.begin_automation_occurrence_run i n run_id m now) in *.
  pose proof (others_move_later c) as Hl.
  assert (Hw1 : world_ok (world (others_move c))) by (by apply (sched_steps_ok _ _ (proj1 Hl))).
  destruct (op (sched (world (others_move c)))) as [s r'] eqn:E. injection H as <- <-. cbn.
  set (new := if is_ok r' then [(i, run_id)] else []). split.
  - change new with ([] ++ new). eapply client_later_trans; [exact Hl|]. split_and!; [|done|done|].
    + apply rtc_once. cbn.
      assert (Ed : sched_exec (OpBegin i n run_id m now) (sched (world (others_move c))) =
        (s, match r' with Ok _ => Ok tt | Err e => Err e end)).
      { cbn [sched_exec]. fold op. destruct r'; [by apply (discard_run _ _ _ _ E)|by apply (discard_err _ _ _ _ E)]. }
      pose proof (step_journal _ (read_runs (world (others_move c))) (begun (world (others_move c)))
        _ _ _ (I : op_typed (OpBegin i n run_id m now)) Ed) as Hstep.
      replace (op_started _ _) with new in Hstep by (unfold new; by destruct r').
      revert Hstep. clear. unfold others_move. cbn. by destruct (others_do (calls c) (world c)).
    + apply perm_note.
  - intros d ->. unfold op, SchedulerMemory.begin_automation_occurrence_run in E.
    destruct Hw1 as (Hs & _). set (s0 := sched (world (others_move c))) in *.
    peel_ok E s1 Hs1. injection Hs1 as <-. peel_ok E b Hb. peel_ok E x Hx. injection Hx as Hx%ok_or_Ok.
    peel_ok E run Hrun. injection Hrun as Hrun%ok_or_Ok. peel_ok E u Hu.
    peel_ok E planning Hp. injection Hp as (_ & _ & Hpi)%run_moved.
    peel_ok E running Hr. injection Hr as (_ & _ & Hri)%run_moved. cbn in E. injection E as _ <-. cbn.
    split; [by apply (ji_occurrence _ _ (si_journal _ Hs) _ _ Hx)|].
    rewrite Hri, Hpi. by apply (si_runs _ Hs _ _ Hrun).
Qed.
End client.

(** ** The services only take steps of the world *)

Create HintDb services.

Section services.
Context {CH : Chrono} {SHA : Sha256} {SJ : SerdeJson} {ENV : environment}.
Context (others_do : nat → sched_world → sched_world).
Context (Hothers : ∀ n w, rtc sched_step w (others_do n w)).
#[local] Instance shared : AutomationSchedulerStore client := client_store others_do.
Abbreviation caller := (Service.t client).
Implicit Types v : caller.

Definition request_key (request : ScheduledGuestRequest.t) : AutomationOccurrenceId * RunId :=
  (ScheduledGuestRequest.occurrence_id request, ScheduledGuestRequest.run_id request).

(** Every request to the guest belongs to a start this client was granted. *)
Definition svc_later v v' : Prop :=
  ∃ mine l, client_later (Service.store v) (Service.store v') mine ∧
    Service.sent v' = Service.sent v ++ l ∧ (request_key <$> l) `sublist_of` mine.

Lemma svc_later_refl v : svc_later v v.
Proof. exists [], []. split_and!; [apply client_later_refl|by rewrite app_nil_r|done]. Qed.
Lemma svc_later_trans v1 v2 v3 : svc_later v1 v2 → svc_later v2 v3 → svc_later v1 v3.
Proof.
  intros (m1 & l1 & A1 & A2 & A3) (m2 & l2 & B1 & B2 & B3). exists (m1 ++ m2), (l1 ++ l2).
  split_and!; [by eapply client_later_trans|by rewrite B2, A2, app_assoc|].
  rewrite fmap_app. by apply sublist_app.
Qed.
Lemma svc_later_ok v v' :
  svc_later v v' → world_ok (world (Service.store v)) → world_ok (world (Service.store v')).
Proof. intros (m & l & (Hs & _) & _) Hw. by apply (sched_steps_ok _ _ Hs). Qed.
(** A change of the counters only. *)
Lemma svc_later_same v v' :
  Service.store v' = Service.store v → Service.sent v' = Service.sent v → svc_later v v'.
Proof.
  intros E E'. exists [], []. rewrite E, E'.
  split_and!; [apply client_later_refl|by rewrite app_nil_r|done].
Qed.

(** A service function: it moves the world by steps, and what it returns satisfies [Q]. *)
Definition safe {A} (m : svc client A) (Q : A → Prop) : Prop := ∀ v v' r,
  world_ok (world (Service.store v)) → m v = (v', r) →
  svc_later v v' ∧ ∀ a, r = Ok a → Q a.

Lemma safe_weaken {A} (m : svc client A) (P Q : A → Prop) :
  safe m P → (∀ a, P a → Q a) → safe m Q.
Proof. intros Hm HPQ v v' r Hw H. destruct (Hm _ _ _ Hw H). split; [done|eauto]. Qed.
Lemma safe_bind {A B} (m : svc client A) (k : A → svc client B) P Q :
  safe m P → (∀ a, P a → safe (k a) Q) → safe (m ≫= k) Q.
Proof.
  intros Hm Hk v v' r Hw H. unfold mbind, method_bind in H.
  destruct (m v) as [v1 [a|e]] eqn:E; destruct (Hm _ _ _ Hw E) as [Hl HP].
  - destruct (Hk a (HP _ eq_refl) _ _ _ (svc_later_ok _ _ Hl Hw) H) as [Hl' HQ].
    split; [by eapply svc_later_trans|done].
  - injection H as <- <-. done.
Qed.
Lemma safe_ret {A} (a : A) : safe (mret a) (λ b, b = a).
Proof. intros v v' r Hw [= <- <-]. split; [apply svc_later_refl|]. by intros ? [= <-]. Qed.
Lemma safe_lift {A} (x : result _ A) : safe (lift x) (λ a, x = Ok a).
Proof. intros v v' r Hw [= <- <-]. split; [apply svc_later_refl|done]. Qed.
Lemma safe_throw {A} e Q : safe (throw e : svc client A) Q.
Proof. intros v v' r Hw [= <- <-]. split; [apply svc_later_refl|done]. Qed.
Lemma safe_throw_if b e : safe (throw_if b e) (λ _, b = false).
Proof. intros v v' r Hw [= <- <-]. split; [apply svc_later_refl|]. by destruct b. Qed.
Lemma safe_clock : safe clock_now (λ _, True).
Proof. intros v v' r Hw [= <- <-]. split; [by apply svc_later_same|done]. Qed.
Lemma safe_generate p : safe (generate_id p) (λ _, True).
Proof. intros v v' r Hw [= <- <-]. split; [by apply svc_later_same|done]. Qed.
Lemma safe_poll : safe poll_cancelled (λ _, True).
Proof. intros v v' r Hw [= <- <-]. split; [by apply svc_later_same|done]. Qed.

Lemma safe_try {A} (m : method client StoreError A) :
  (∀ c c' r, m c = (c', r) → client_later c c' []) → safe (try_store m) (λ _, True).
Proof.
  intros Hm v v' r Hw H. unfold try_store in H. destruct (m _) as [c r'] eqn:E. injection H as <- <-.
  split; [|done]. exists [], []. split_and!; [by eapply Hm|by rewrite app_nil_r|done].
Qed.
Lemma safe_store {A} (m : method client StoreError A) :
  (∀ c c' r, m c = (c', r) → client_later c c' []) → safe (on_store m) (λ _, True).
Proof.
  intros Hm. eapply safe_bind; [by apply safe_try|]. intros a _. by eapply safe_weaken; [apply safe_lift|].
Qed.
Lemma safe_read {A} (m : method SS StoreError A) :
  readonly m → safe (on_store (client_call others_do m)) (λ _, True).
Proof. intros Hm. apply safe_store. intros c c' r. by apply client_call_reads. Qed.
Lemma safe_write {A} (m : method SS StoreError A) op :
  sched_exec op = discard m → op_typed op → (∀ res, op_started op res = []) →
  safe (on_store (client_call others_do m)) (λ _, True).
Proof. intros H1 H2 H3. apply safe_store. intros c c' r. by apply (client_call_writes others_do Hothers m op). Qed.

(** Statement by statement, through branches. *)
Ltac atom := first [apply safe_clock | apply safe_generate | apply safe_poll | apply safe_lift
  | apply safe_throw_if | apply safe_ret | apply safe_throw | by eauto with services].
Ltac services :=
  repeat lazymatch goal with
  | |- safe ((if ?b then _ else _) ≫= _) _ => destruct b
  | |- safe (_ ≫= _) _ => eapply safe_bind; [atom|cbv beta; intros ? ?]
  | |- safe (if ?b then _ else _) _ => destruct b
  | |- safe (match ?x with _ => _ end) _ => destruct x
  end; try (eapply safe_weaken; [atom|done]).

Lemma list_candidates_readonly after limit :
  readonly (SchedulerMemory.list_automation_schedule_candidates after limit).
Proof. unfold SchedulerMemory.list_automation_schedule_candidates. solve_readonly. Qed.
Lemma list_occurrences_readonly a after limit :
  readonly (SchedulerMemory.list_automation_occurrences a after limit).
Proof. unfold SchedulerMemory.list_automation_occurrences. solve_readonly. Qed.
Lemma list_resumable_readonly after limit :
  readonly (SchedulerMemory.list_resumable_automation_dispatches after limit).
Proof. unfold SchedulerMemory.list_resumable_automation_dispatches. solve_readonly. Qed.

Lemma acquire_safe owner now :
  safe (on_store (acquire_automation_scheduler_lease owner now AUTOMATION_SCHEDULER_LEASE_TTL_MS)) (λ _, True).
Proof. by apply (safe_write _ (OpAcquire owner now AUTOMATION_SCHEDULER_LEASE_TTL_MS)). Qed.
Lemma commit_safe e : safe (on_store (commit_automation_schedule_evaluation e)) (λ _, True).
Proof. by apply (safe_write _ (OpCommit e)). Qed.
Lemma candidates_safe after limit :
  safe (on_store (list_automation_schedule_candidates after limit)) (λ _, True).
Proof. apply safe_read, list_candidates_readonly. Qed.
Lemma occurrences_safe a after limit :
  safe (on_store (list_automation_occurrences a after limit)) (λ _, True).
Proof. apply safe_read, list_occurrences_readonly. Qed.
Lemma resumable_safe after limit :
  safe (on_store (list_resumable_automation_dispatches after limit)) (λ _, True).
Proof. apply safe_read, list_resumable_readonly. Qed.
Lemma recover_safe tok now limit :
  safe (on_store (recover_automation_occurrence_claims tok now limit)) (λ _, True).
Proof. by apply (safe_write _ (OpRecover tok now limit)). Qed.
Lemma complete_safe i n r completion now :
  safe (on_store (complete_automation_occurrence_run i n r completion now)) (λ _, True).
Proof. by apply (safe_write _ (OpComplete i n r completion now)). Qed.
Lemma bind_safe d :
  run_created (AutomationOccurrenceDispatch.run d) →
  safe (try_store (claim_and_bind_automation_occurrence d)) (λ _, True).
Proof.
  intros Hd. apply safe_try. intros c c' r. by apply (client_call_writes others_do Hothers _ (OpBind d)).
Qed.
#[local] Hint Resolve acquire_safe commit_safe candidates_safe occurrences_safe resumable_safe
  recover_safe complete_safe bind_safe : services.

Lemma occurrence_id_safe : safe AutomationSchedulerService.occurrence_id (λ _, True).
Proof. unfold AutomationSchedulerService.occurrence_id. services. Qed.
#[local] Hint Resolve occurrence_id_safe : services.
Lemma each_safe {A B} (f : A → svc client B) l :
  (∀ x, safe (f x) (λ _, True)) → safe (AutomationSchedulerService.each f l) (λ _, True).
Proof. intros Hf. induction l as [|x l IH]; cbn [AutomationSchedulerService.each]; services. Qed.
Lemma materialize_safe automation snapshot ds started now :
  safe (AutomationSchedulerService.materialize_decisions automation snapshot ds started now) (λ _, True).
Proof.
  unfold AutomationSchedulerService.materialize_decisions.
  eapply safe_bind; [apply each_safe; intros; services|intros ? _].
  eapply (safe_bind _ _ (λ _, True)); [services|intros ? _].
  eapply safe_bind; [apply each_safe; intros; services|intros ? _]. services.
Qed.
#[local] Hint Resolve materialize_safe : services.
Lemma evaluate_safe lease started now candidate :
  safe (AutomationSchedulerService.evaluate_candidate lease started now candidate) (λ _, True).
Proof.
  unfold AutomationSchedulerService.evaluate_candidate, AutomationSchedulerService.initialize_cursor,
    AutomationSchedulerService.advance_cursor. services.
Qed.
#[local] Hint Resolve evaluate_safe : services.
Lemma evaluate_each_safe lease started now cs summary :
  safe (AutomationSchedulerService.evaluate_each lease started now cs summary) (λ _, True).
Proof. revert summary. induction cs; intros summary; cbn [AutomationSchedulerService.evaluate_each]; services. Qed.
#[local] Hint Resolve evaluate_each_safe : services.
Lemma tick_safe owner after limit : safe (AutomationSchedulerService.tick owner after limit) (λ _, True).
Proof. unfold AutomationSchedulerService.tick. services. Qed.
Lemma recover_expired_safe owner limit :
  safe (AutomationSchedulerService.recover_expired_claims owner limit) (λ _, True).
Proof. unfold AutomationSchedulerService.recover_expired_claims. services. Qed.
#[local] Hint Resolve tick_safe recover_expired_safe : services.

Lemma prepare_dispatch_safe tok now x :
  safe (AutomationSchedulerService.prepare_dispatch tok now x)
    (λ d, run_created (AutomationOccurrenceDispatch.run d)).
Proof.
  unfold AutomationSchedulerService.prepare_dispatch. services.
  eapply safe_weaken; [apply safe_ret|]. intros d ->. constructor.
Qed.
Lemma dispatch_pending_safe tok now xs n :
  safe (AutomationSchedulerService.dispatch_pending tok now xs n) (λ _, True).
Proof.
  revert n. induction xs as [|x xs IH]; intros n; cbn [AutomationSchedulerService.dispatch_pending]; [services|].
  destruct (_ != _); [by apply IH|].
  eapply safe_bind; [apply prepare_dispatch_safe|intros d Hd].
  eapply safe_bind; [by apply bind_safe|intros [o|[]] _]; try apply IH; apply safe_throw.
Qed.
#[local] Hint Resolve dispatch_pending_safe : services.
Lemma dispatch_candidates_safe tok now cs n :
  safe (AutomationSchedulerService.dispatch_candidates tok now cs n) (λ _, True).
Proof.
  revert n. induction cs as [|c cs IH]; intros n; cbn [AutomationSchedulerService.dispatch_candidates]; services.
Qed.
#[local] Hint Resolve dispatch_candidates_safe : services.
Lemma execute_due_safe owner limit :
  safe (AutomationSchedulerService.execute_due owner limit) (λ _, True).
Proof. unfold AutomationSchedulerService.execute_due. services. Qed.

(** The guest is asked with the key of the start that was just granted. *)
Lemma begin_then_ask i n run_id m now (k : result StoreError AutomationOccurrenceDispatchResult.t → svc client Z)
    (Q : Z → Prop) :
  (∀ e, safe (k (Err e)) Q) →
  (∀ d v v' r, world_ok (world (Service.store v)) →
     AutomationOccurrence.id (AutomationOccurrenceDispatchResult.occurrence d) = i →
     Run.id (AutomationOccurrenceDispatchResult.run d) = run_id →
     k (Ok d) v = (v', r) →
     (∃ mine l l0, client_later (Service.store v) (Service.store v') mine ∧
        Service.sent v' = Service.sent v ++ l0 ++ l ∧ (request_key <$> l) `sublist_of` mine ∧
        (l0 = [] ∨ request_key <$> l0 = [(i, run_id)])) ∧ ∀ a, r = Ok a → Q a) →
  safe (try_store (begin_automation_occurrence_run i n run_id m now) ≫= k) Q.
Proof.
  intros He Hk v v' r Hw H. unfold mbind, method_bind, try_store in H.
  destruct (begin_automation_occurrence_run i n run_id m now (Service.store v)) as [c res] eqn:E.
  apply (client_begin_later others_do Hothers) in E as [Hl Hids]; [|done].
  set (v1 := v <| Service.store := c |>) in *.
  assert (Hw1 : world_ok (world (Service.store v1))) by (by apply (sched_steps_ok _ _ (proj1 Hl))).
  destruct res as [d|e].
  - destruct (Hids d eq_refl) as [Hi Hr].
    destruct (Hk d v1 v' r Hw1 Hi Hr H) as [(mine & l & l0 & Hl' & Hsent & Hsub & H0) HQ].
    split; [|done]. exists ([(i, run_id)] ++ mine), (l0 ++ l).
    split_and!; [by eapply client_later_trans|done|]. rewrite fmap_app. apply sublist_app; [|done].
    destruct H0 as [->| ->]; [apply sublist_nil_l|done].
  - destruct (He e v1 v' r Hw1 H) as [Hl' HQ]. split; [|done]. eapply svc_later_trans; [|exact Hl'].
    exists [], []. split_and!; [done|by rewrite app_nil_r|done].
Qed.

Lemma ask_once request (rest : AutomationOccurrenceRunCompletion.t → svc client Z) v v' r
    (k : guest_answer → AutomationOccurrenceRunCompletion.t) (Q : Z → Prop) :
  world_ok (world (Service.store v)) →
  (stop ← poll_cancelled;
   completion ← (if (stop : bool) then mret AutomationOccurrenceRunCompletion.Cancelled
                 else answer ← ask_guest request; mret (k answer));
   rest completion) v = (v', r) →
  (∀ completion, safe (rest completion) Q) →
  (∃ mine l l0, client_later (Service.store v) (Service.store v') mine ∧
     Service.sent v' = Service.sent v ++ l0 ++ l ∧ (request_key <$> l) `sublist_of` mine ∧
     (l0 = [] ∨ request_key <$> l0 = [request_key request])) ∧ ∀ a, r = Ok a → Q a.
Proof.
  intros Hw H Hrest. unfold poll_cancelled, ask_guest in H. run_unfold in H.
  destruct (is_cancelled _).
  - apply Hrest in H; [|exact Hw]. destruct H as [(mine & l & Hl & Hs & Hsub) HQ]. split; [|done].
    exists mine, l, []. split_and!; [done|done|done|by left].
  - apply Hrest in H; [|exact Hw]. destruct H as [(mine & l & Hl & Hs & Hsub) HQ]. split; [|done].
    exists mine, l, [request]. cbn in Hs. rewrite <- app_assoc in Hs. split_and!; [done|done|done|by right].
Qed.

Lemma dispatch_each_safe ds n : safe (AutomationSchedulerService.dispatch_each ds n) (λ _, True).
Proof.
  revert n. induction ds as [|b ds IH]; intros n; cbn [AutomationSchedulerService.dispatch_each]; [services|].
  eapply safe_bind; [apply safe_poll|intros [] _]; [services|].
  eapply safe_bind; [apply safe_clock|intros now _].
  apply begin_then_ask; [intros []; try apply IH; apply safe_throw|].
  intros d v v' r Hw Hi Hr H. rewrite <- Hi, <- Hr. apply (ask_once _ _ _ _ _ _ (λ _, True) Hw) in H; [done|].
  intros completion. services.
Qed.
Lemma dispatch_resumable_safe limit :
  safe (AutomationSchedulerService.dispatch_resumable limit) (λ _, True).
Proof.
  unfold AutomationSchedulerService.dispatch_resumable. services. apply dispatch_each_safe.
Qed.
End services.

(** A daemon: the scheduler services it calls, one after the other. *)
Inductive daemon_call : Type :=
| Tick (owner : AutomationSchedulerOwnerId) (after : option AutomationId) (limit : Z)
| RecoverExpired (owner : AutomationSchedulerOwnerId) (limit : Z)
| ExecuteDue (owner : AutomationSchedulerOwnerId) (limit : Z)
| DispatchResumable (limit : Z).

Section daemon.
Context {S : Type} {CH : Chrono} {SHA : Sha256} {ENV : environment} {ST : AutomationSchedulerStore S}.

Definition daemon_apply (call : daemon_call) : svc S unit :=
  match call with
  | Tick owner after limit => discard (AutomationSchedulerService.tick owner after limit)
  | RecoverExpired owner limit =>
      discard (AutomationSchedulerService.recover_expired_claims owner limit)
  | ExecuteDue owner limit => discard (AutomationSchedulerService.execute_due owner limit)
  | DispatchResumable limit => discard (AutomationSchedulerService.dispatch_resumable limit)
  end.
(** A failed call does not stop the daemon. *)
Definition daemon_run (calls : list daemon_call) (v : Service.t S) : Service.t S :=
  foldl (λ v call, (daemon_apply call v).1) v calls.
End daemon.

Section daemon_steps.
Context {CH : Chrono} {SHA : Sha256} {SJ : SerdeJson} {ENV : environment}.
Context (others_do : nat → sched_world → sched_world).
Context (Hothers : ∀ n w, rtc sched_step w (others_do n w)).
#[local] Existing Instance shared.

Lemma discard_safe {A} (m : svc client A) Q : safe m Q → safe (discard m) (λ _, True).
Proof. intros Hm. eapply safe_bind; [exact Hm|intros a _]. by eapply safe_weaken; [apply safe_ret|]. Qed.

Lemma daemon_apply_safe call : safe (daemon_apply (ST := client_store others_do) call) (λ _, True).
Proof.
  destruct call; eapply discard_safe;
    [apply tick_safe|apply recover_expired_safe|apply execute_due_safe|apply dispatch_resumable_safe]; done.
Qed.

Lemma daemon_run_later calls v :
  world_ok (world (Service.store v)) →
  svc_later v (daemon_run (ST := client_store others_do) calls v).
Proof.
  revert v. induction calls as [|call calls IH]; intros v Hw; [apply svc_later_refl|]. cbn.
  destruct (daemon_apply call v) as [v1 r] eqn:E. cbn.
  apply daemon_apply_safe in E as [Hl _]; [|done].
  eapply svc_later_trans; [exact Hl|]. apply IH. by eapply svc_later_ok.
Qed.
End daemon_steps.

(** ** What an evaluation materializes *)

Section materialization.
Context {S : Type} {CH : Chrono} {CL : ChronoLaws} {SHA : Sha256} {ENV : environment}.
Import AutomationSchedulerService.
Implicit Types x : AutomationOccurrence.t.
Implicit Types d : AutomationScheduleDecision.t.




Context (Hids : ∀ n, is_ok (new_id (k := KAutomationOccurrence)
  (generate n (lit "automation-occurrence"))) = true).


Context (automation : Automation.t) (snapshot : AutomationExecutionSnapshot.t).
Context (Hsnap : snapshot_ok snapshot) (now : Z).
(** The decision is the one of its slot. *)
Abbreviation decided d := (AutomationSchedule.decision_for_nominal
  (AutomationExecutionSnapshot.schedule snapshot) (AutomationExecutionSnapshot.timezone snapshot)
  (AutomationScheduleDecision.nominal_local d) = Ok d).





Abbreviation total xs := (foldr (λ x n, AutomationOccurrence.occurrence_count x + n) 0 xs).



End materialization.

(** ** Properties *)

Section properties.
Context {CH : Chrono} {SHA : Sha256} {SJ : SerdeJson}.
Import SchedulerState.




(** C7. The guest is asked at most once per run. A daemon calls the scheduler services
    in any order, while other clients of the journal take any steps before each of its
    store calls. Then its calls are steps of the shared journal; the requests it sends
    concern pairwise distinct runs, each of which it was itself granted to start; and no
    start granted to another client, before or during its calls, is one of them. *)
Theorem guest_asked_at_most_once {ENV : environment} others_do calls c v' :
  (∀ n w, rtc sched_step w (others_do n w)) →
  sched_reachable (world c) → begun (world c) ≡ₚ own c ++ others c →
  daemon_run (ST := client_store others_do) calls (Service.mk c 0 0 0 []) = v' →
  let c' := Service.store v' in
  let asked := request_key <$> Service.sent v' in
  rtc sched_step (world c) (world c') ∧
  NoDup asked.*2 ∧ NoDup asked.*1 ∧
  (∀ k, k ∈ asked → k ∈ begun (world c') ∧ k ∉ begun (world c)) ∧
  (∀ i r i' r', (i, r) ∈ asked → (i', r') ∈ others c' → i ≠ i' ∧ r ≠ r').
Proof.
  intros Hothers Hreach Hperm <- c' asked. pose proof (sched_reachable_ok _ Hreach) as Hw.
  destruct (daemon_run_later others_do Hothers calls (Service.mk c 0 0 0 []) Hw)
    as (mine & l & (Hs & Hown & Hoth & Hp) & Hsent & Hsub). cbn in Hs, Hown, Hoth, Hp, Hsent.
  fold c' in Hs, Hown, Hoth, Hp. subst l. fold asked in Hsub. specialize (Hp Hperm).
  destruct (sched_steps_ok _ _ Hs Hw) as [(_ & _ & [N1 N2 _ _]) _]. rewrite Hp, Hown, !fmap_app in N1.
  rewrite Hp, Hown, !fmap_app in N2.
  assert (Hin : ∀ k, k ∈ asked → k ∈ mine) by (intros k Hk; by eapply elem_of_sublist).
  apply NoDup_app in N1 as (N1 & D1 & _). apply NoDup_app in N1 as (_ & D1' & N1).
  apply NoDup_app in N2 as (N2 & D2 & _). apply NoDup_app in N2 as (_ & D2' & N2).
  split_and!; [done|..].
  - eapply sublist_NoDup; [exact N2|]. by apply fmap_sublist.
  - eapply sublist_NoDup; [exact N1|]. by apply fmap_sublist.
  - intros k Hk%Hin. split; [rewrite Hp, Hown, !elem_of_app; auto|].
    rewrite Hperm, elem_of_app. intros [Hk'|Hk'%Hoth].
    + apply (D1' k.1); apply list_elem_of_fmap; eauto.
    + apply (D1 k.1); [apply elem_of_app; right|]; apply list_elem_of_fmap; eauto.
  - intros i r i' r' Hk%Hin Ho. split; intros <-.
    + apply (D1 i); [apply elem_of_app; right|]; apply list_elem_of_fmap; [by exists (i, r)|by exists (i, r')].
    + apply (D2 r); [apply elem_of_app; right|]; apply list_elem_of_fmap; [by exists (i, r)|by exists (i', r)].
Qed.
End properties.


(** ** A daily automation *)

#[local] Existing Instance UtcCalendar.chrono.
#[local] Existing Instance UtcCalendar.laws.
#[local] Existing Instance demo_sha.
#[local] Existing Instance demo_json.

Definition half_past_nine : Z := (9 * 60 + 30) * 60000.
(** A clock that stands at [now], numbered identifiers, and a guest that succeeds. *)
Definition demo_environment (now : Z) : environment := {|
  clock _ := now;
  generate n prefix := prefix ++ lit "-" ++ to_string (Z.of_nat n);
  is_cancelled _ := false;
  guest _ _ := Answered (Ok ScheduledGuestOutcome.Succeeded);
|}.
Definition alone : nat → sched_world → sched_world := λ _ w, w.
Definition daemon_1 : AutomationSchedulerOwnerId := mk_id (lit "daemon-1").

(** A project and automations due at half past nine on weekdays. *)
Definition demo_projects : ws_op :=
  OCreateProject (Project.mk (mk_id (lit "project-1")) (lit "Research") [] ProjectState.Active 0 0 0)
    (MutationCommand.mk (lit "create_project") (lit "key-1") []).
Definition demo_create (id title : str) : ws_op :=
  OCreateAutomation
    (Automation.mk (mk_id id) (mk_id (lit "project-1")) title (lit "Summarize") (lit "v1;weekdays;09:30")
       (lit "UTC") MissedRunPolicy.RunOnce OverlapPolicy.QueueOne AutomationState.Enabled 0 0 0)
    (MutationCommand.mk (lit "create_automation") id []).
Definition write_workspace (op : ws_op) (c : client) : client :=
  let s := sched (world c) in
  c <| world := (world c) <| sched := s <| SchedulerState.workspace :=
    (ws_exec op (SchedulerState.workspace s)).1 |> |> |>.
Definition no_automations : client :=
  write_workspace demo_projects (Client (SchedWorld SchedulerState.empty [] []) 0 [] []).
Definition report_only : client :=
  write_workspace (demo_create (lit "automation-1") (lit "Daily report")) no_automations.
Definition calling (c : client) : Service.t client := Service.mk c 0 0 0 [].
Definition at_time (now : Z) (calls : list daemon_call) (v : Service.t client) : Service.t client :=
  daemon_run (ENV := demo_environment now) (ST := client_store alone) calls v.

Lemma write_reachable op c : sched_reachable (world c) → sched_reachable (world (write_workspace op c)).
Proof.
  intros H. eapply rtc_r; [exact H|]. unfold write_workspace. destruct c as [[s rs b] n o o']. cbn.
  eapply step_workspace. apply surjective_pairing.
Qed.
Lemma no_automations_reachable : sched_reachable (world no_automations).
Proof. apply write_reachable. constructor. Qed.
Lemma report_only_reachable : sched_reachable (world report_only).
Proof. apply write_reachable, no_automations_reachable. Qed.

(** The first slot is bound to a run, which the same pass then starts and completes. *)
Definition first_morning : Z := half_past_nine + 5000.
Definition bound_once : Service.t client := at_time first_morning [ExecuteDue daemon_1 10] (calling report_only).
Definition run_once : Service.t client := at_time first_morning [DispatchResumable 10] bound_once.





Lemma guest_asked_at_most_once_witness :
  length (Service.sent run_once) = 1%nat ∧
  NoDup (request_key <$> Service.sent
    (daemon_run (ENV := demo_environment first_morning) (ST := client_store alone)
       [ExecuteDue daemon_1 10; DispatchResumable 10] (calling report_only))).*2.
Proof.
  split; [vm_compute; reflexivity|].
  refine (proj1 (proj2 (guest_asked_at_most_once (ENV := demo_environment first_morning) alone _ report_only _
    (λ _ _, rtc_refl _ _) report_only_reachable _ eq_refl))).
  vm_compute. constructor.
Defined.

#[local] Instance prefix_environment : environment := {|
  clock _ := demo_through; generate _ prefix := prefix; is_cancelled _ := false;
  guest _ _ := Answered (Ok ScheduledGuestOutcome.Succeeded) |}.

(** ** Where the scheduler goes wrong *)












