(* ===== verification/Settings.v ===== *)
(** * Settings services

    The stores of the three singleton settings and their use cases: desktop preferences
    ([crates/grok-application/src/preferences.rs]), the default Chat model with the live
    catalog it is chosen from ([chat_models.rs]) and the Host Tools enrollment, with the
    in-memory ports of [crates/grok-memory/src/lib.rs]. Each store keeps the current
    value and the exact outcome of every recorded command. What the credential and
    provider calls of model discovery yield is the argument [listing]. *)
From S2P Require Import Prelude RustText Ids Runs Approvals Effects Preferences ExecutionStore Commands.

(** ** Ports *)

Class DesktopPreferencesStore (S : Type) := {
  resolve_desktop_preferences_mutation :
    MutationCommand.t → method S StoreError (option DesktopPreferences.t);
  get_desktop_preferences : method S StoreError DesktopPreferences.t;
  save_desktop_preferences : DesktopPreferences.t → Z → MutationCommand.t →
    method S StoreError DesktopPreferences.t;
}.
Class ChatModelPreferenceStore (S : Type) := {
  resolve_chat_model_preference_mutation :
    MutationCommand.t → method S StoreError (option ChatModelPreference.t);
  get_chat_model_preference : method S StoreError ChatModelPreference.t;
  save_chat_model_preference : ChatModelPreference.t → Z → MutationCommand.t →
    method S StoreError ChatModelPreference.t;
}.
Class HostExecutionPolicyStore (S : Type) := {
  get_host_execution_policy : method S StoreError HostExecutionPolicy.t;
  resolve_host_execution_policy_mutation :
    MutationCommand.t → method S StoreError (option HostExecutionPolicy.t);
  replace_host_execution_policy : HostExecutionPolicy.t → Z → MutationCommand.t →
    method S StoreError HostExecutionPolicy.t;
}.

(** ** In-memory state *)

(** [DesktopPreferenceCommandRecord], [ChatModelPreferenceCommandRecord] and
    [HostExecutionCommandRecord]. *)
Module OutcomeRecord.
Record t (A : Type) : Type := mk { fingerprint : digest; outcome : A }.
Arguments mk {A} fingerprint outcome.
Arguments fingerprint {A} _.
Arguments outcome {A} _.
End OutcomeRecord.
Abbreviation outcomes A := (gmap (str * str) (OutcomeRecord.t A)).

Module SettingsState.
Record t : Type := mk {
  desktop_preferences : DesktopPreferences.t;
  desktop_preference_commands : outcomes DesktopPreferences.t;
  chat_model_preference : ChatModelPreference.t;
  chat_model_preference_commands : outcomes ChatModelPreference.t;
  host_execution_policy : option HostExecutionPolicy.t;
  host_execution_commands : outcomes HostExecutionPolicy.t;
}.
#[global] Instance eta : Eta t := λ s,
  mk (desktop_preferences s) (desktop_preference_commands s) (chat_model_preference s)
     (chat_model_preference_commands s) (host_execution_policy s) (host_execution_commands s).
(** [State::default]. *)
Definition initial : t := mk DesktopPreferences.default ∅ ChatModelPreference.default ∅ None ∅.
End SettingsState.

Definition setting_key (command : MutationCommand.t) : str * str :=
  (MutationCommand.scope command, MutationCommand.key command).

(** The lookup the three [resolve_..] operations share. *)
Definition resolve_outcome {S A} (table : S → outcomes A) (command : MutationCommand.t) :
    method S StoreError (option A) :=
  s ← self;
  match table s !! setting_key command with
  | Some record =>
      if OutcomeRecord.fingerprint record == MutationCommand.fingerprint command
      then mret (Some (OutcomeRecord.outcome record)) else throw Conflict
  | None => mret None
  end.

(** [inactive_host_execution_policy]. *)
Definition inactive_host_execution_policy : HostExecutionPolicy.t :=
  HostExecutionPolicy.mk 0 false 0 0 (HostToolClasses.mk false false false) [] false 0.

Module SettingsMemory.
Import SettingsState.
Abbreviation ST := SettingsState.t.

(** [save_desktop_preferences]. *)
Definition save_desktop_preferences (preferences : DesktopPreferences.t) (expected_revision : Z)
    (command : MutationCommand.t) : method ST StoreError DesktopPreferences.t :=
  prior ← resolve_outcome desktop_preference_commands command;
  match prior with
  | Some outcome => mret outcome
  | None =>
      s ← self;
      _ ← throw_if ((MutationCommand.scope command != lit "update_desktop_preferences")
                    || (DesktopPreferences.revision (desktop_preferences s) != expected_revision))
            Conflict;
      next ← lift (ok_or Conflict (checked_add u64_max expected_revision 1));
      _ ← throw_if (DesktopPreferences.revision preferences != next) Conflict;
      _ ← assign (λ s, s <| desktop_preferences := preferences |>);
      _ ← assign (λ s, s <| desktop_preference_commands :=
            <[setting_key command := OutcomeRecord.mk (MutationCommand.fingerprint command)
                                       preferences]> (desktop_preference_commands s) |>);
      mret preferences
  end.

(** [save_chat_model_preference]. *)
Definition save_chat_model_preference (preference : ChatModelPreference.t)
    (expected_revision : Z) (command : MutationCommand.t) :
    method ST StoreError ChatModelPreference.t :=
  prior ← resolve_outcome chat_model_preference_commands command;
  match prior with
  | Some outcome => mret outcome
  | None =>
      s ← self;
      _ ← throw_if ((MutationCommand.scope command != lit "select_chat_model")
                    || (ChatModelPreference.revision (chat_model_preference s)
                        != expected_revision)) Conflict;
      next ← lift (ok_or Conflict (checked_add u64_max expected_revision 1));
      _ ← throw_if (ChatModelPreference.revision preference != next) Conflict;
      _ ← assign (λ s, s <| chat_model_preference := preference |>);
      _ ← assign (λ s, s <| chat_model_preference_commands :=
            <[setting_key command := OutcomeRecord.mk (MutationCommand.fingerprint command)
                                       preference]> (chat_model_preference_commands s) |>);
      mret preference
  end.

(** [replace_host_execution_policy]. *)
Definition replace_host_execution_policy (policy : HostExecutionPolicy.t)
    (expected_revision : Z) (command : MutationCommand.t) :
    method ST StoreError HostExecutionPolicy.t :=
  prior ← resolve_outcome host_execution_commands command;
  match prior with
  | Some outcome => mret outcome
  | None =>
      s ← self;
      let current := match host_execution_policy s with
                     | Some current => HostExecutionPolicy.revision current
                     | None => 0
                     end in
      _ ← throw_if ((current != expected_revision)
                    || (HostExecutionPolicy.revision policy
                        != saturating_add u64_max expected_revision 1)) Conflict;
      _ ← assign (λ s, s <| host_execution_policy := Some policy |>);
      _ ← assign (λ s, s <| host_execution_commands :=
            <[setting_key command := OutcomeRecord.mk (MutationCommand.fingerprint command)
                                       policy]> (host_execution_commands s) |>);
      mret policy
  end.

(** [get_host_execution_policy]. *)
Definition get_host_execution_policy : method ST StoreError HostExecutionPolicy.t :=
  s ← self; mret (default inactive_host_execution_policy (host_execution_policy s)).

End SettingsMemory.

#[export] Instance desktop_store : DesktopPreferencesStore SettingsState.t := {|
  resolve_desktop_preferences_mutation :=
    resolve_outcome SettingsState.desktop_preference_commands;
  get_desktop_preferences := (s ← self; mret (SettingsState.desktop_preferences s));
  save_desktop_preferences := SettingsMemory.save_desktop_preferences;
|}.
#[export] Instance chat_model_store : ChatModelPreferenceStore SettingsState.t := {|
  resolve_chat_model_preference_mutation :=
    resolve_outcome SettingsState.chat_model_preference_commands;
  get_chat_model_preference := (s ← self; mret (SettingsState.chat_model_preference s));
  save_chat_model_preference := SettingsMemory.save_chat_model_preference;
|}.
#[export] Instance host_policy_store : HostExecutionPolicyStore SettingsState.t := {|
  get_host_execution_policy := SettingsMemory.get_host_execution_policy;
  resolve_host_execution_policy_mutation := resolve_outcome SettingsState.host_execution_commands;
  replace_host_execution_policy := SettingsMemory.replace_host_execution_policy;
|}.

(** ** Model catalog *)

Definition MAX_DISCOVERED_MODELS : Z := 256.
Definition MAX_MODEL_ID_BYTES : Z := 512.
Definition MAX_MODEL_ALIASES : Z := 64.
Definition MAX_MODEL_MODALITIES : Z := 16.
Definition MAX_MODALITY_BYTES : Z := 64.

Module ModelDescriptor.
Record t : Type := mk {
  id : str; aliases : list str; input_modalities : list str; output_modalities : list str }.
#[global] Instance eq_dec : EqDecision t.
Proof. solve_decision. Defined.
End ModelDescriptor.

Module ChatModelCatalogEntry.
Record t : Type := mk {
  id : str; aliases : list str; input_modalities : list str; output_modalities : list str;
  text_conversation_ready : bool }.
#[global] Instance eq_dec : EqDecision t.
Proof. solve_decision. Defined.
End ChatModelCatalogEntry.

Module ChatModelCatalog.
Record t : Type := mk {
  models : list ChatModelCatalogEntry.t; preference : ChatModelPreference.t;
  default_model_id : str; selected_model_ready : bool; default_model_ready : bool }.
End ChatModelCatalog.

(** [validate_identifier]. *)
Definition validate_identifier (value : str) (maximum_bytes : Z) (field : str) :
    result ApplicationError.t unit :=
  reject_if (is_empty value || (maximum_bytes <? len value) || (trim value != value)
             || existsb is_control value)
    (ApplicationError.InvalidInput (Text (field ++ lit " is invalid"))).

(** [is_imagine_media_model_id]. *)
Definition is_imagine_media_model_id (id : str) : bool :=
  starts_with (lit "grok-imagine-") (to_ascii_lowercase (trim id)).

(** [supports_text_conversation]. *)
Definition supports_text_conversation (model : ModelDescriptor.t) : bool :=
  if is_imagine_media_model_id (ModelDescriptor.id model)
     || existsb is_imagine_media_model_id (ModelDescriptor.aliases model)
  then false
  else (is_empty (ModelDescriptor.input_modalities model)
        || existsb (λ v, v == lit "text") (ModelDescriptor.input_modalities model))
       && (is_empty (ModelDescriptor.output_modalities model)
           || existsb (λ v, v == lit "text") (ModelDescriptor.output_modalities model)).

Definition unavailable_text (text : str) : ApplicationError.t :=
  ApplicationError.Unavailable (Text text).

(** The loop over [values] that validates each identifier and inserts it, refusing one
    that is already there. *)
Fixpoint insert_all (values : list str) (field : str) (duplicate : ApplicationError.t)
    (seen : gset str) : result ApplicationError.t (gset str) :=
  match values with
  | [] => Ok seen
  | value :: values' =>
      _ ← validate_identifier value MAX_MODEL_ID_BYTES field;
      _ ← reject_if (bool_decide (value ∈ seen)) duplicate;
      insert_all values' field duplicate ({[value]} ∪ seen)
  end.
Fixpoint validate_each (values : list str) (maximum_bytes : Z) (field : str) :
    result ApplicationError.t unit :=
  match values with
  | [] => Ok tt
  | value :: values' =>
      _ ← validate_identifier value maximum_bytes field; validate_each values' maximum_bytes field
  end.

(** The second loop of [validate_catalog]. *)
Fixpoint catalog_entries (models : list ModelDescriptor.t) (advertised : gset str) :
    result ApplicationError.t (list ChatModelCatalogEntry.t) :=
  match models with
  | [] => Ok []
  | model :: models' =>
      _ ← reject_if ((MAX_MODEL_ALIASES <? Z.of_nat (length (ModelDescriptor.aliases model)))
                     || (MAX_MODEL_MODALITIES
                         <? Z.of_nat (length (ModelDescriptor.input_modalities model)))
                     || (MAX_MODEL_MODALITIES
                         <? Z.of_nat (length (ModelDescriptor.output_modalities model))))
            (unavailable_text (lit "xAI returned an oversized model descriptor"));
      advertised ← insert_all (ModelDescriptor.aliases model) (lit "model alias")
                     (unavailable_text (lit "xAI returned an ambiguous model alias")) advertised;
      _ ← validate_each (ModelDescriptor.input_modalities model
                         ++ ModelDescriptor.output_modalities model)
            MAX_MODALITY_BYTES (lit "model modality");
      entries ← catalog_entries models' advertised;
      Ok (ChatModelCatalogEntry.mk (ModelDescriptor.id model) (ModelDescriptor.aliases model)
            (ModelDescriptor.input_modalities model) (ModelDescriptor.output_modalities model)
            (supports_text_conversation model) :: entries)
  end.

(** [validate_catalog]. *)
Definition validate_catalog (models : list ModelDescriptor.t) :
    result ApplicationError.t (list ChatModelCatalogEntry.t) :=
  _ ← reject_if (MAX_DISCOVERED_MODELS <? Z.of_nat (length models))
        (unavailable_text (lit "xAI returned too many model descriptors"));
  identifiers ← insert_all (map ModelDescriptor.id models) (lit "model identifier")
                  (unavailable_text (lit "xAI returned duplicate model identifiers")) ∅;
  catalog_entries models identifiers.

(** [require_text_model]. *)
Definition require_text_model (model : ChatModelCatalogEntry.t) : result ApplicationError.t str :=
  _ ← reject_if (negb (ChatModelCatalogEntry.text_conversation_ready model))
        (unavailable_text (lit "the selected xAI model does not advertise text conversation"));
  Ok (ChatModelCatalogEntry.id model).

(** [canonical_text_model_id]. *)
Definition canonical_text_model_id (requested : str) (models : list ChatModelCatalogEntry.t) :
    result ApplicationError.t str :=
  match find (λ model, ChatModelCatalogEntry.id model == requested) models with
  | Some model => require_text_model model
  | None =>
      match List.filter (λ model, existsb (λ alias, alias == requested)
                                    (ChatModelCatalogEntry.aliases model)) models with
      | [] => Err (unavailable_text
                     (lit "the selected xAI model is unavailable to this API key"))
      | [model] => require_text_model model
      | _ :: _ :: _ => Err (unavailable_text (lit "xAI returned an ambiguous model alias"))
      end
  end.

(** [catalog_snapshot]. *)
Definition catalog_snapshot (preference : ChatModelPreference.t)
    (models : list ChatModelCatalogEntry.t) : ChatModelCatalog.t :=
  ChatModelCatalog.mk models preference DEFAULT_XAI_CHAT_MODEL_ID
    (match canonical_text_model_id (ChatModelPreference.selected_model_id preference) models with
     | Ok canonical => (ChatModelPreference.revision preference =? 0)
                       || (canonical == ChatModelPreference.selected_model_id preference)
     | Err _ => false
     end)
    (is_ok (canonical_text_model_id DEFAULT_XAI_CHAT_MODEL_ID models)).

(** ** Services *)

Module UpdateDesktopPreferences.
Record t : Type := mk {
  expected_revision : Z; keep_running_in_notification_area : bool;
  update_channel : DesktopUpdateChannel.t }.
End UpdateDesktopPreferences.
Module SelectChatModel.
Record t : Type := mk { expected_revision : Z; model_id : str }.
End SelectChatModel.

Module DesktopPreferencesService.
Section service.
Context {S : Type} {DS : DesktopPreferencesStore S} {SHA : Sha256}.
(** [get]. *)
Definition get : method S ApplicationError.t DesktopPreferences.t := call get_desktop_preferences.
(** The hashed parts of an update. *)
Definition parts (input : UpdateDesktopPreferences.t) : list (list Z) :=
  [to_be_bytes (UpdateDesktopPreferences.expected_revision input);
   [if UpdateDesktopPreferences.keep_running_in_notification_area input then 1 else 0];
   [match UpdateDesktopPreferences.update_channel input with
    | DesktopUpdateChannel.Stable => 0 | DesktopUpdateChannel.Beta => 1 end]].
(** [update]. *)
Definition update (input : UpdateDesktopPreferences.t) (key : str) (now : Z) :
    method S ApplicationError.t DesktopPreferences.t :=
  command ← lift (mutation_command_bytes (lit "update_desktop_preferences") key (parts input));
  prior ← call (resolve_desktop_preferences_mutation command);
  match prior with
  | Some preferences => mret preferences
  | None =>
      preferences ← call get_desktop_preferences;
      _ ← throw_if (DesktopPreferences.revision preferences
                    != UpdateDesktopPreferences.expected_revision input) ApplicationError.Conflict;
      preferences ← lift (moved_copy ApplicationError.from_desktop_preferences
        (DesktopPreferences.update (UpdateDesktopPreferences.keep_running_in_notification_area input)
           (UpdateDesktopPreferences.update_channel input) now) preferences);
      call (save_desktop_preferences preferences
              (UpdateDesktopPreferences.expected_revision input) command)
  end.
End service.
End DesktopPreferencesService.

Module ChatModelService.
Section service.
Context {S : Type} {CS : ChatModelPreferenceStore S} {SHA : Sha256}.
(** What loading the credential and asking the provider yield, at most once per call. *)
Abbreviation listing := (result ApplicationError.t (list ModelDescriptor.t)).

(** [discover], after the provider answered. *)
Definition discover (models : listing) : result ApplicationError.t (list ChatModelCatalogEntry.t) :=
  models ← models; validate_catalog models.

(** [preference] and [catalog]. *)
Definition preference : method S ApplicationError.t ChatModelPreference.t :=
  call get_chat_model_preference.
Definition catalog (models : listing) : method S ApplicationError.t ChatModelCatalog.t :=
  preference ← call get_chat_model_preference;
  models ← lift (discover models);
  mret (catalog_snapshot preference models).

(** The hashed parts of a selection. *)
Definition parts (input : SelectChatModel.t) : list (list Z) :=
  [to_be_bytes (SelectChatModel.expected_revision input); bytes (SelectChatModel.model_id input)].

(** [select]. *)
Definition select (input : SelectChatModel.t) (key : str) (models : listing) (now : Z) :
    method S ApplicationError.t ChatModelPreference.t :=
  _ ← lift (validate_identifier (SelectChatModel.model_id input) MAX_MODEL_ID_BYTES
              (lit "selected model identifier"));
  command ← lift (mutation_command_bytes (lit "select_chat_model") key (parts input));
  prior ← call (resolve_chat_model_preference_mutation command);
  match prior with
  | Some preference => mret preference
  | None =>
      models ← lift (discover models);
      canonical_model_id ← lift (canonical_text_model_id (SelectChatModel.model_id input) models);
      preference ← call get_chat_model_preference;
      _ ← throw_if (ChatModelPreference.revision preference
                    != SelectChatModel.expected_revision input) ApplicationError.Conflict;
      preference ← lift (moved_copy ApplicationError.from_chat_model_preference
        (ChatModelPreference.select_model canonical_model_id now) preference);
      call (save_chat_model_preference preference (SelectChatModel.expected_revision input) command)
  end.
End service.
End ChatModelService.

(** ** Every setting has one linear history *)

(** The recorded outcomes are the revisions one to the current one, each exactly once. *)
Record linear {A} (revision : A → Z) (current : A) (table : outcomes A) : Prop := {
  linear_nonneg : 0 ≤ revision current;
  linear_range k r : table !! k = Some r → 1 ≤ revision (OutcomeRecord.outcome r) ≤ revision current;
  linear_inj k1 k2 r1 r2 : table !! k1 = Some r1 → table !! k2 = Some r2 →
    revision (OutcomeRecord.outcome r1) = revision (OutcomeRecord.outcome r2) → k1 = k2;
  linear_dense n : 1 ≤ n ≤ revision current →
    ∃ k r, table !! k = Some r ∧ revision (OutcomeRecord.outcome r) = n;
}.

Lemma linear_insert {A} (revision : A → Z) current table k fp next :
  linear revision current table → table !! k = None → revision next = revision current + 1 →
  linear revision next (<[k := OutcomeRecord.mk fp next]> table).
Proof.
  intros [H0 H1 H2 H3] Hk Hn. split; [lia| | |].
  - intros k' r [[_ <-]|[_ Hr]]%lookup_insert_Some; cbn; [lia|]. specialize (H1 _ _ Hr). lia.
  - intros k1 k2 r1 r2 [[<- <-]|[N1 R1]]%lookup_insert_Some [[<- <-]|[N2 R2]]%lookup_insert_Some;
      cbn; intros E; [done| | |by eapply H2].
    + specialize (H1 _ _ R2). lia.
    + specialize (H1 _ _ R1). lia.
  - intros n Hr. destruct (decide (n = revision next)) as [->|Hne].
    + exists k. eexists. by rewrite lookup_insert_eq.
    + destruct (H3 n ltac:(lia)) as (k' & r & Hr' & E). exists k', r.
      by rewrite lookup_insert_ne by congruence.
Qed.

Section settings.
Import SettingsState.
Abbreviation ST := SettingsState.t.

(** The store calls that write. *)
Inductive settings_op : Type :=
| SaveDesktop (x : DesktopPreferences.t) (expected : Z) (c : MutationCommand.t)
| SaveChatModel (x : ChatModelPreference.t) (expected : Z) (c : MutationCommand.t)
| ReplaceHostPolicy (x : HostExecutionPolicy.t) (expected : Z) (c : MutationCommand.t).
Definition settings_exec (op : settings_op) : method ST StoreError unit :=
  match op with
  | SaveDesktop x n c => discard (SettingsMemory.save_desktop_preferences x n c)
  | SaveChatModel x n c => discard (SettingsMemory.save_chat_model_preference x n c)
  | ReplaceHostPolicy x n c => discard (SettingsMemory.replace_host_execution_policy x n c)
  end.
Definition settings_step (s s' : ST) : Prop := ∃ op r, settings_exec op s = (s', r).

Lemma resolve_outcome_readonly {S A} (table : S → outcomes A) c : readonly (resolve_outcome table c).
Proof. intros s. unfold resolve_outcome. run_unfold. repeat case_match; done. Qed.
#[local] Hint Resolve resolve_outcome_readonly : methods.

Lemma resolve_outcome_Ok {S A} (table : S → outcomes A) c s o :
  resolve_outcome table c s = (s, Ok o) ↔
  match o with
  | Some x => ∃ r, table s !! setting_key c = Some r ∧
      OutcomeRecord.fingerprint r = MutationCommand.fingerprint c ∧ OutcomeRecord.outcome r = x
  | None => table s !! setting_key c = None
  end.
Proof.
  unfold resolve_outcome. run_unfold. destruct (table s !! setting_key c) as [r|] eqn:E.
  - destruct (bool_decide _) eqn:F; bool_facts; destruct o; naive_solver.
  - destruct o; naive_solver.
Qed.

(** The effect of a store call: nothing, or one setting moves to its next revision and
    the outcome is recorded under an unused key. *)
Inductive settings_effect (s : ST) : settings_op → ST → Prop :=
| set_none op : settings_effect s op s
| set_desktop x c :
    desktop_preference_commands s !! setting_key c = None →
    DesktopPreferences.revision x = DesktopPreferences.revision (desktop_preferences s) + 1 →
    settings_effect s (SaveDesktop x (DesktopPreferences.revision (desktop_preferences s)) c)
      (s <| desktop_preferences := x |> <| desktop_preference_commands :=
         <[setting_key c := OutcomeRecord.mk (MutationCommand.fingerprint c) x]>
           (desktop_preference_commands s) |>)
| set_chat x c :
    chat_model_preference_commands s !! setting_key c = None →
    ChatModelPreference.revision x = ChatModelPreference.revision (chat_model_preference s) + 1 →
    settings_effect s (SaveChatModel x (ChatModelPreference.revision (chat_model_preference s)) c)
      (s <| chat_model_preference := x |> <| chat_model_preference_commands :=
         <[setting_key c := OutcomeRecord.mk (MutationCommand.fingerprint c) x]>
           (chat_model_preference_commands s) |>)
| set_host x n c :
    host_execution_commands s !! setting_key c = None →
    n = HostExecutionPolicy.revision (default inactive_host_execution_policy (host_execution_policy s)) →
    HostExecutionPolicy.revision x = saturating_add u64_max n 1 →
    settings_effect s (ReplaceHostPolicy x n c)
      (s <| host_execution_policy := Some x |> <| host_execution_commands :=
         <[setting_key c := OutcomeRecord.mk (MutationCommand.fingerprint c) x]>
           (host_execution_commands s) |>).

Lemma settings_exec_effect op s s' r : settings_exec op s = (s', r) → settings_effect s op s'.
Proof.
  intros H. destruct op; cbn [settings_exec] in H; apply discard_state in H as [r' H].
  all: apply readonly_bind_inv in H as [->|(prior & Hp & H)];
    [constructor| |apply resolve_outcome_readonly].
  all: apply resolve_outcome_Ok in Hp; destruct prior as [x'|]; [by injection H as <- _; constructor|].
  all: run_in H; bool_facts; int_facts; try by constructor.
  all: try (apply set_desktop; [done|lia]); try (apply set_chat; [done|lia]).
  all: apply set_host; [done| |done];
    match goal with H : host_execution_policy _ = _ |- _ => by rewrite H end.
Qed.

(** Both revisioned settings are linear, the enrollment until its counter saturates. *)
Definition settings_inv (s : ST) : Prop :=
  linear DesktopPreferences.revision (desktop_preferences s) (desktop_preference_commands s) ∧
  linear ChatModelPreference.revision (chat_model_preference s) (chat_model_preference_commands s) ∧
  let policy := default inactive_host_execution_policy (host_execution_policy s) in
  HostExecutionPolicy.revision policy ≤ u64_max ∧
  (HostExecutionPolicy.revision policy < u64_max →
     linear HostExecutionPolicy.revision policy (host_execution_commands s)).

Lemma linear_initial {A} (revision : A → Z) x : revision x = 0 → linear revision x ∅.
Proof. intros E. split; [lia|intros *; by rewrite lookup_empty..|lia]. Qed.

Lemma settings_inv_initial : settings_inv SettingsState.initial.
Proof.
  unfold settings_inv. split; [by apply linear_initial|]. split; [by apply linear_initial|].
  split; [done|]. intros _. by apply linear_initial.
Qed.

Lemma settings_step_inv s s' : settings_step s s' → settings_inv s → settings_inv s'.
Proof.
  intros (op & r & H%settings_exec_effect) (Hd & Hc & Hm & Hh).
  destruct H as [op|x c Hu Hx|x c Hu Hx|x n c Hu Hn Hx]; cbn in *; split_and!; try done.
  - by eapply linear_insert.
  - by eapply linear_insert.
  - cbn. split; [ints|]. intros Hlt. subst n.
    assert (E : HostExecutionPolicy.revision x = HostExecutionPolicy.revision
      (default inactive_host_execution_policy (host_execution_policy s)) + 1) by ints.
    eapply linear_insert; [apply Hh; lia|done|done].
Qed.

Lemma settings_steps_inv s s' : rtc settings_step s s' → settings_inv s → settings_inv s'.
Proof. induction 1; eauto using settings_step_inv. Qed.

(** C35. Every setting has one linear history. Whatever clients submit, the outcomes
    recorded for the desktop preferences and for the Chat model are exactly the
    revisions from one to the current one, each accepted under one key; for the Host
    Tools enrollment the same holds while its revision is below the largest [u64]. A call
    never moves a setting it does not address, and moves the addressed one by exactly
    one accepted revision or not at all. *)
Theorem settings_linear_history s :
  rtc settings_step SettingsState.initial s →
  settings_inv s ∧
  (∀ op s' r, settings_exec op s = (s', r) → settings_effect s op s').
Proof.
  intros H. split; [|intros op s' r; apply settings_exec_effect].
  eapply settings_steps_inv; [exact H|apply settings_inv_initial].
Qed.

(** ** Exact replay *)

Lemma settings_effect_kept s op s' :
  settings_effect s op s' →
  (∀ k r, desktop_preference_commands s !! k = Some r → desktop_preference_commands s' !! k = Some r) ∧
  (∀ k r, chat_model_preference_commands s !! k = Some r →
     chat_model_preference_commands s' !! k = Some r).
Proof.
  intros H. destruct H; cbn; split; intros k r Hr; try done;
    (rewrite lookup_insert_ne; [done|congruence]).
Qed.
Lemma settings_steps_kept s s' :
  rtc settings_step s s' →
  (∀ k r, desktop_preference_commands s !! k = Some r → desktop_preference_commands s' !! k = Some r) ∧
  (∀ k r, chat_model_preference_commands s !! k = Some r →
     chat_model_preference_commands s' !! k = Some r).
Proof.
  induction 1 as [|s s1 s2 (op & r & H%settings_exec_effect%settings_effect_kept) _ IH]; [done|].
  naive_solver.
Qed.

Context {SHA : Sha256}.

Lemma get_desktop_readonly : readonly (get_desktop_preferences (S := ST)).
Proof. done. Qed.
Lemma get_chat_model_readonly : readonly (get_chat_model_preference (S := ST)).
Proof. done. Qed.
Lemma resolve_desktop_readonly c : readonly (resolve_desktop_preferences_mutation (S := ST) c).
Proof. apply resolve_outcome_readonly. Qed.
Lemma resolve_chat_model_readonly c : readonly (resolve_chat_model_preference_mutation (S := ST) c).
Proof. apply resolve_outcome_readonly. Qed.
#[local] Hint Resolve get_desktop_readonly get_chat_model_readonly resolve_desktop_readonly
  resolve_chat_model_readonly : methods.

Lemma desktop_update_records input key now s s1 p :
  DesktopPreferencesService.update input key now s = (s1, Ok p) →
  ∃ c, mutation_command_bytes (lit "update_desktop_preferences") key
         (DesktopPreferencesService.parts input) = Ok c ∧
    desktop_preference_commands s1 !! setting_key c =
      Some (OutcomeRecord.mk (MutationCommand.fingerprint c) p).
Proof.
  unfold DesktopPreferencesService.update. intros H.
  peel_ok H c Hc. injection Hc as Hc. peel_ok H prior Hp. apply call_Ok, resolve_outcome_Ok in Hp.
  exists c. split; [done|]. destruct prior as [x|].
  - injection H as <- <-. destruct Hp as ([fp o] & Hr & Hf & Ho). cbn in *. congruence.
  - peel_ok H x Hx. peel_ok H u Hu. peel_ok H x' Hx'. apply call_Ok in H. cbn in H.
    unfold SettingsMemory.save_desktop_preferences in H.
    apply readonly_bind_Ok in H as (prior & Hp' & H); [|apply resolve_outcome_readonly].
    apply resolve_outcome_Ok in Hp'. destruct prior as [y|]; [destruct Hp' as (r & Hr & _); congruence|].
    run_in H. apply lookup_insert_eq.
Qed.
Lemma chat_select_records input key models now s s1 p :
  ChatModelService.select input key models now s = (s1, Ok p) →
  validate_identifier (SelectChatModel.model_id input) MAX_MODEL_ID_BYTES
    (lit "selected model identifier") = Ok tt ∧
  ∃ c, mutation_command_bytes (lit "select_chat_model") key (ChatModelService.parts input) = Ok c ∧
    chat_model_preference_commands s1 !! setting_key c =
      Some (OutcomeRecord.mk (MutationCommand.fingerprint c) p).
Proof.
  unfold ChatModelService.select. intros H. peel_ok H v Hv. injection Hv as Hv. destruct v.
  split; [done|]. clear Hv.
  peel_ok H c Hc. injection Hc as Hc. peel_ok H prior Hp. apply call_Ok, resolve_outcome_Ok in Hp.
  exists c. split; [done|]. destruct prior as [x|].
  - injection H as <- <-. destruct Hp as ([fp o] & Hr & Hf & Ho). cbn in *. congruence.
  - peel_ok H ms Hms. peel_ok H m Hm. peel_ok H x Hx. peel_ok H u Hu. peel_ok H x' Hx'.
    apply call_Ok in H. cbn in H. unfold SettingsMemory.save_chat_model_preference in H.
    apply readonly_bind_Ok in H as (prior & Hp' & H); [|apply resolve_outcome_readonly].
    apply resolve_outcome_Ok in Hp'. destruct prior as [y|]; [destruct Hp' as (r & Hr & _); congruence|].
    run_in H. apply lookup_insert_eq.
Qed.

Lemma call_resolve_recorded {S A} (table : S → outcomes A) c s x :
  table s !! setting_key c = Some (OutcomeRecord.mk (MutationCommand.fingerprint c) x) →
  call (resolve_outcome table c) s = (s, Ok (Some x)).
Proof. intros H. apply call_run, resolve_outcome_Ok. by eexists. Qed.

(** Settings commands replay exactly. After a successful update of the desktop
    preferences or selection of a Chat model, repeating it with the same key and input at
    any later time, however the setting moved since, returns the outcome recorded then
    and changes nothing; for the selection this does not depend on what the provider
    answers, or whether it answers at all. *)
Theorem settings_replay_exact :
  (∀ input key now s s1 p s2 now',
     DesktopPreferencesService.update input key now s = (s1, Ok p) → rtc settings_step s1 s2 →
     DesktopPreferencesService.update input key now' s2 = (s2, Ok p)) ∧
  (∀ input key models now s s1 p s2 models' now',
     ChatModelService.select input key models now s = (s1, Ok p) → rtc settings_step s1 s2 →
     ChatModelService.select input key models' now' s2 = (s2, Ok p)).
Proof.
  split.
  - intros input key now s s1 p s2 now' (c & Hc & Hr)%desktop_update_records
      [Hk _]%settings_steps_kept.
    apply Hk in Hr. unfold DesktopPreferencesService.update. rewrite Hc. cbn.
    unfold mbind, method_bind, lift. by rewrite (call_resolve_recorded _ _ _ _ Hr).
  - intros input key models now s s1 p s2 models' now' (Hv & c & Hc & Hr)%chat_select_records
      [_ Hk]%settings_steps_kept.
    apply Hk in Hr. unfold ChatModelService.select. rewrite Hv, Hc. cbn.
    unfold mbind, method_bind, lift. by rewrite (call_resolve_recorded _ _ _ _ Hr).
Qed.
End settings.

(** A first save of the desktop preferences is accepted from the initial state. *)
Lemma settings_linear_history_witness :
  let c := MutationCommand.mk (lit "update_desktop_preferences") (lit "k") (lit "f") in
  let p := DesktopPreferences.default <| DesktopPreferences.revision := 1 |> in
  let out := settings_exec (SaveDesktop p 0 c) SettingsState.initial in
  out.2 = Ok tt ∧ settings_inv out.1.
Proof.
  cbn zeta. split; [reflexivity|]. apply settings_linear_history. apply rtc_once.
  eexists _, _. apply surjective_pairing.
Defined.

(** ** The model catalog names one model at most once *)

Definition model_names (e : ChatModelCatalogEntry.t) : list str :=
  ChatModelCatalogEntry.id e :: ChatModelCatalogEntry.aliases e.

Lemma insert_all_Ok values field dup seen seen' :
  insert_all values field dup seen = Ok seen' →
  NoDup values ∧ (∀ v, v ∈ values → v ∉ seen) ∧ seen' = list_to_set values ∪ seen.
Proof.
  revert seen. induction values as [|v vs IH]; intros seen; cbn.
  { intros [= <-]. split; [constructor|]. split; [set_solver|set_solver]. }
  destruct (validate_identifier _ _ _); [|done]. cbn. unfold reject_if.
  destruct (bool_decide_reflect (v ∈ seen)) as [|Hv]; [done|]. cbn.
  intros (Hn & Hd & ->)%IH. split; [|split; [|set_solver]].
  - constructor; [|done]. intros Hin. specialize (Hd _ Hin). set_solver.
  - intros w [->|Hw]%elem_of_cons; [done|]. specialize (Hd _ Hw). set_solver.
Qed.

Lemma catalog_entries_Ok models adv es :
  catalog_entries models adv = Ok es →
  map ChatModelCatalogEntry.id es = map ModelDescriptor.id models ∧
  NoDup (es ≫= ChatModelCatalogEntry.aliases) ∧
  (∀ a, a ∈ es ≫= ChatModelCatalogEntry.aliases → a ∉ adv).
Proof.
  revert adv es. induction models as [|m ms IH]; intros adv es; cbn.
  { intros [= <-]. split; [done|]. split; [constructor|set_solver]. }
  unfold reject_if. destruct (_ || _); [done|]. cbn.
  destruct (insert_all _ _ _ _) as [adv'|] eqn:Hi; [|done]. cbn.
  destruct (validate_each _ _ _) as [[]|]; [|done]. cbn.
  destruct (catalog_entries ms adv') as [es'|] eqn:He; [|done]. cbn. intros [= <-].
  apply insert_all_Ok in Hi as (Hn & Hd & ->). apply IH in He as (E & Hn' & Hd'). cbn.
  split; [by f_equal|]. split.
  - apply NoDup_app. split; [done|]. split; [|done]. intros a Ha Hb. specialize (Hd' _ Hb).
    set_solver.
  - intros a [Ha|Ha]%elem_of_app; [by apply Hd|]. specialize (Hd' _ Ha). set_solver.
Qed.

Lemma validate_catalog_NoDup models es :
  validate_catalog models = Ok es →
  NoDup (map ChatModelCatalogEntry.id es ++ (es ≫= ChatModelCatalogEntry.aliases)).
Proof.
  unfold validate_catalog, reject_if. destruct (_ <? _); [done|]. cbn.
  destruct (insert_all _ _ _ _) as [adv|] eqn:Hi; [|done]. cbn.
  apply insert_all_Ok in Hi as (Hn & _ & ->). intros (-> & Hn' & Hd)%catalog_entries_Ok.
  apply NoDup_app. split; [done|]. split; [|done]. intros a Ha Hb. specialize (Hd _ Hb). set_solver.
Qed.

Lemma bind_NoDup_unique {A B} (f : A → list B) l x y a :
  NoDup (l ≫= f) → x ∈ l → y ∈ l → a ∈ f x → a ∈ f y → x = y.
Proof.
  induction l as [|z l IH]; [set_solver|]. cbn. intros (_ & Hd & Hn)%NoDup_app.
  intros [->|Hx]%elem_of_cons [->|Hy]%elem_of_cons Ha Hb; [done| | |by apply IH].
  - destruct (Hd a Ha). apply list_elem_of_bind. eauto.
  - destruct (Hd a Hb). apply list_elem_of_bind. eauto.
Qed.

Section catalog.
Context (models : list ModelDescriptor.t) (es : list ChatModelCatalogEntry.t).
Hypothesis Hes : validate_catalog models = Ok es.

Lemma catalog_unique x y r :
  x ∈ es → y ∈ es → r ∈ model_names x → r ∈ model_names y → x = y.
Proof.
  pose proof (validate_catalog_NoDup _ _ Hes) as (Hi & Hd & Ha)%NoDup_app.
  assert (Hids : ∀ x y, x ∈ es → y ∈ es →
    ChatModelCatalogEntry.id x = ChatModelCatalogEntry.id y → x = y).
  { intros u v Hu Hv E. apply (bind_NoDup_unique (λ e, [ChatModelCatalogEntry.id e]) es u v
      (ChatModelCatalogEntry.id u)); [|done|done|set_solver|set_solver].
    clear -Hi. induction es as [|e l IH]; cbn in *; [done|].
    apply NoDup_cons in Hi as [H1 H2]. apply NoDup_cons. split; [|by apply IH].
    intros (w & Hw & Hin)%list_elem_of_bind. apply H1, list_elem_of_fmap. set_solver. }
  intros Hx Hy [->|Hrx]%elem_of_cons [E|Hry]%elem_of_cons.
  - by apply Hids.
  - destruct (Hd (ChatModelCatalogEntry.id x)); [apply list_elem_of_fmap; eauto|].
    apply list_elem_of_bind. eauto.
  - subst r. destruct (Hd (ChatModelCatalogEntry.id y)); [apply list_elem_of_fmap; eauto|].
    apply list_elem_of_bind. eauto.
  - by apply (bind_NoDup_unique ChatModelCatalogEntry.aliases es x y r).
Qed.

Lemma catalog_entries_distinct : NoDup es.
Proof.
  pose proof (validate_catalog_NoDup _ _ Hes) as (Hi & _ & _)%NoDup_app.
  by apply (NoDup_fmap_1 ChatModelCatalogEntry.id).
Qed.

Lemma require_text_model_Ok e c :
  require_text_model e = Ok c ↔
  ChatModelCatalogEntry.text_conversation_ready e = true ∧ ChatModelCatalogEntry.id e = c.
Proof.
  unfold require_text_model, reject_if. destruct (ChatModelCatalogEntry.text_conversation_ready e); cbn.
  - split; [intros [= <-]; done|by intros [_ <-]].
  - split; [done|by intros [? _]].
Qed.

Lemma require_text_model_Err e x :
  require_text_model e = Err x →
  x ≠ unavailable_text (lit "xAI returned an ambiguous model alias").
Proof.
  unfold require_text_model, reject_if.
  destruct (ChatModelCatalogEntry.text_conversation_ready e); cbn; [done|]. by intros [= <-].
Qed.

(** The entry [canonical_text_model_id] settles on. *)
Lemma canonical_text_model_id_entry r :
  match canonical_text_model_id r es with
  | Ok c => ∃ e, e ∈ es ∧ r ∈ model_names e ∧ require_text_model e = Ok c
  | Err x => (∀ e, e ∈ es → r ∈ model_names e → require_text_model e = Err x) ∧
      x ≠ unavailable_text (lit "xAI returned an ambiguous model alias")
  end.
Proof.
  unfold canonical_text_model_id. set (p := λ model, existsb _ _).
  destruct (find _ es) as [m|] eqn:Hf.
  { apply find_some in Hf as [Hm%list_elem_of_In E%bool_decide_eq_true]. 
    assert (Hr : r ∈ model_names m) by (subst r; apply list_elem_of_here).
    destruct (require_text_model m) as [c|x] eqn:E'; [by exists m|].
    split; [intros e He Hr'; by rewrite (catalog_unique e m r)|by eapply require_text_model_Err]. }
  assert (Hno : ∀ e, e ∈ es → r ∈ model_names e → e ∈ List.filter p es).
  { intros e He [->|Ha]%elem_of_cons.
    - exfalso. apply list_elem_of_In in He. pose proof (find_none _ _ Hf _ He) as E. cbn in E.
      by apply bool_decide_eq_false in E.
    - apply list_elem_of_In, filter_In. split; [by apply list_elem_of_In|].
      apply existsb_exists. exists r. split; [by apply list_elem_of_In|]. by apply bool_decide_eq_true. }
  assert (Hyes : ∀ e, e ∈ List.filter p es → e ∈ es ∧ r ∈ model_names e).
  { intros e [He%list_elem_of_In (a & Ha%list_elem_of_In & E%bool_decide_eq_true)%existsb_exists]%list_elem_of_In%filter_In.
    subst a. split; [done|]. by apply list_elem_of_further. }
  assert (Hd : NoDup (List.filter p es)).
  { apply NoDup_ListNoDup, List.NoDup_filter, NoDup_ListNoDup, catalog_entries_distinct. }
  destruct (List.filter p es) as [|m [|m' l]].
  - split; [|done]. intros e He Hr. specialize (Hno e He Hr). set_solver.
  - destruct (Hyes m) as [Hm Hr]; [set_solver|].
    destruct (require_text_model m) as [c|x] eqn:E'; [by exists m|].
    split; [intros e He Hr'; by rewrite (catalog_unique e m r)|by eapply require_text_model_Err].
  - exfalso. destruct (Hyes m) as [Hm Hr]; [set_solver|]. destruct (Hyes m') as [Hm' Hr']; [set_solver|].
    apply NoDup_cons in Hd as [Hd _]. apply Hd. rewrite (catalog_unique m m' r); set_solver.
Qed.
End catalog.

(** Resolving a model name is exact. In a catalog that passed validation every name,
    identifier or alias, belongs to one model at most, and a requested name resolves to
    a canonical identifier exactly when the model that carries the name is ready for text
    conversation and has that identifier; so the answer that an alias is ambiguous is
    never given for a validated catalog. *)
Theorem canonical_model_exact models es r :
  validate_catalog models = Ok es →
  (∀ x y, x ∈ es → y ∈ es → r ∈ model_names x → r ∈ model_names y → x = y) ∧
  (∀ c, canonical_text_model_id r es = Ok c ↔
     ∃ e, e ∈ es ∧ r ∈ model_names e ∧
       ChatModelCatalogEntry.text_conversation_ready e = true ∧ ChatModelCatalogEntry.id e = c) ∧
  canonical_text_model_id r es ≠
    Err (unavailable_text (lit "xAI returned an ambiguous model alias")).
Proof.
  intros Hes. split; [intros x y; apply (catalog_unique _ _ Hes)|].
  pose proof (canonical_text_model_id_entry _ _ Hes r) as H. split.
  - intros c. destruct (canonical_text_model_id r es) as [c'|x].
    + destruct H as (e & He & Hr & Hq). split.
      * intros [= <-]. exists e. by rewrite require_text_model_Ok in Hq.
      * intros (e' & He' & Hr' & Hq'). rewrite <-require_text_model_Ok in Hq'.
        rewrite (catalog_unique _ _ Hes e' e r) in Hq' by done. congruence.
    + split; [done|]. intros (e & He & Hr & Hq). rewrite <-require_text_model_Ok in Hq.
      destruct H as [H _]. rewrite (H e He Hr) in Hq. done.
  - intros E. rewrite E in H. by destruct H.
Qed.

Lemma canonical_model_exact_witness :
  let m := ModelDescriptor.mk (lit "grok-4") [lit "grok-latest"] [lit "text"] [lit "text"] in
  let e := ChatModelCatalogEntry.mk (lit "grok-4") [lit "grok-latest"] [lit "text"] [lit "text"] true in
  validate_catalog [m] = Ok [e] ∧ canonical_text_model_id (lit "grok-latest") [e] = Ok (lit "grok-4").
Proof.
  cbn zeta. pose (m := ModelDescriptor.mk (lit "grok-4") [lit "grok-latest"] [lit "text"] [lit "text"]).
  assert (H : validate_catalog [m] = Ok [ChatModelCatalogEntry.mk (lit "grok-4") [lit "grok-latest"]
    [lit "text"] [lit "text"] true]) by (vm_compute; reflexivity).
  split; [exact H|]. apply (canonical_model_exact _ _ (lit "grok-latest") H).
  eexists. split; [apply list_elem_of_here|]. split; [|done].
  apply list_elem_of_further, list_elem_of_here.
Defined.
