(* ===== verification/ConversationStore.v ===== *)
(** * The conversation store

    The persistence port of direct conversations ([crates/grok-application/src/
    conversation.rs], [ConversationTurnStore]) and its in-memory implementation
    ([crates/grok-memory/src/lib.rs], [impl ConversationTurnStore for
    InMemoryExecutionStore]): reservation of a turn with its immutable context, the
    compound commits around one provider call, the streamed text, cancellation and
    retry. A commit writes messages, runs, effects and audit events as well, so the state
    contains the execution and the workspace state. Every operation holds the store's
    lock, so it is one atomic step. *)
From stdpp Require Import sorting.
From S2P Require Import Prelude RustText Ids Runs Approvals Effects ConversationTurns TurnEvents Schedules Scheduler Workspace ExecutionStore Commands WorkspaceStore.

Definition MAX_CONVERSATION_CONTEXT_MESSAGES : Z := 1000.
Definition MAX_CONVERSATION_CONTEXT_BYTES : Z := 2 * 1024 * 1024.
Definition MAX_CONVERSATION_EVENT_BATCH : Z := 100.

#[global] Instance NewRunEvent_eq_dec : EqDecision NewRunEvent.t.
Proof. solve_decision. Defined.

(** ** The port *)

Module ConversationTurnSnapshot.
Record t : Type := mk {
  turn : ConversationTurn.t;
  user_message : Message.t;
  assistant_message : option Message.t;
  run : Run.t;
  effect : option SideEffect.t;
  lineage : ConversationTurnLineage.t;
}.
#[global] Instance eq_dec : EqDecision t.
Proof. solve_decision. Defined.
End ConversationTurnSnapshot.

Module ConversationTurnReservation.
Record t : Type := mk {
  snapshot : ConversationTurnSnapshot.t;
  context : list Message.t;
  created : bool;
}.
End ConversationTurnReservation.

Module ConversationTurnReservationSource.
Inductive t : Type :=
| CurrentThread
| Retry (source_turn_id : ConversationTurnId) (expected_source_revision : Z).
End ConversationTurnReservationSource.

Module ConversationThreadCredentialBinding.
Inductive t : Type := UnboundEmpty | Bound (binding : str) | LegacyUnbound.
End ConversationThreadCredentialBinding.

Module ConversationThreadModelBinding.
Inductive t : Type := UnboundEmpty | Bound (model : str) | LegacyUnbound.
End ConversationThreadModelBinding.

Module ConversationTurnEventPage.
Record t : Type := mk { events : list ConversationTurnEvent.t; has_more : bool }.
End ConversationTurnEventPage.

Module ProviderStartCommit.
Record t : Type := mk {
  turn : ConversationTurn.t;
  expected_turn_revision : Z;
  run : Run.t;
  expected_run_revision : Z;
  effect : SideEffect.t;
  events : list NewRunEvent.t;
  turn_event : ConversationTurnEventKind.t;
}.
End ProviderStartCommit.

Module TerminalTurnCommit.
Record t : Type := mk {
  turn : ConversationTurn.t;
  expected_turn_revision : Z;
  run : Run.t;
  expected_run_revision : Z;
  effect : option SideEffect.t;
  expected_effect_revision : option Z;
  assistant_message : option Message.t;
  events : list NewRunEvent.t;
  turn_event : ConversationTurnEventKind.t;
}.
End TerminalTurnCommit.

Module CancelConversationTurnCommit.
Record t : Type := mk {
  command : MutationCommand.t;
  turn_id : ConversationTurnId;
  expected_turn_revision : Z;
  terminal : option TerminalTurnCommit.t;
}.
End CancelConversationTurnCommit.

Module ConversationForkDeliveryState.
Inductive t : Type := Pending | Acknowledged.
#[global] Instance eq_dec : EqDecision t.
Proof. solve_decision. Defined.
End ConversationForkDeliveryState.

(** Usage summaries ([crates/grok-application/src/usage_summary.rs]). *)
Definition DAY_MS : Z := 86400000.
Definition LAST_7_DAYS_MS : Z := 7 * DAY_MS.
Definition LAST_30_DAYS_MS : Z := 30 * DAY_MS.

Module UsageScope.
Inductive t : Type := Workspace | Project (id : ProjectId) | Thread (id : ThreadId).
End UsageScope.

Module UsageWindow.
Inductive t : Type := Last7Days | Last30Days | AllTime.
End UsageWindow.

Module UsageSummary.
Record t : Type := mk {
  input_tokens : Z;
  output_tokens : Z;
  cost_in_usd_ticks : Z;
  turn_count : Z;
  scope : UsageScope.t;
  window : UsageWindow.t;
  as_of : Z;
}.
End UsageSummary.

(** [window_lower_bound]. *)
Definition window_lower_bound (window : UsageWindow.t) (as_of : Z) : option Z :=
  match window with
  | UsageWindow.AllTime => None
  | UsageWindow.Last7Days => Some (saturating_sub as_of LAST_7_DAYS_MS)
  | UsageWindow.Last30Days => Some (saturating_sub as_of LAST_30_DAYS_MS)
  end.

(** ** In-memory state *)

Module ConversationCancelCommandRecord.
Record t : Type := mk {
  fingerprint : digest;
  turn_id : ConversationTurnId;
  outcome_state : ConversationTurnState.t;
  outcome_revision : Z;
}.
End ConversationCancelCommandRecord.

Module ConversationForkCommandRecord.
Record t : Type := mk {
  fingerprint : digest;
  child_thread_id : ThreadId;
  started_turn_id : option ConversationTurnId;
  canonical : bool;
}.
#[global] Instance eta : Eta t := λ r,
  mk (fingerprint r) (child_thread_id r) (started_turn_id r) (canonical r).
End ConversationForkCommandRecord.

Module ConversationForkDeliveryRecord.
Record t : Type := mk {
  scope : str;
  request_fingerprint : digest;
  state : ConversationForkDeliveryState.t;
  revision : Z;
}.
#[global] Instance eta : Eta t := λ d,
  mk (scope d) (request_fingerprint d) (state d) (revision d).
End ConversationForkDeliveryRecord.

Module ConversationForkDeliveryAckCommandRecord.
Record t : Type := mk {
  fingerprint : digest;
  child_thread_id : ThreadId;
  expected_revision : Z;
  outcome_revision : Z;
}.
End ConversationForkDeliveryAckCommandRecord.

(** The maps of [State] the conversation port reads or writes: those of the execution and
    workspace ports, and its own. The turns and their contexts, which the workspace port
    reads, are part of the workspace state. *)
Module ConversationState.
Record t : Type := mk {
  execution : State.t;
  workspace : WorkspaceState.t;
  conversation_lineages : gmap ConversationTurnId ConversationTurnLineage.t;
  conversation_thread_bindings : gmap ThreadId str;
  conversation_thread_models : gmap ThreadId str;
  conversation_turn_keys : gmap str ConversationTurnId;
  conversation_events : gmap ConversationTurnId (list ConversationTurnEvent.t);
  conversation_cancel_commands : gmap (str * str) ConversationCancelCommandRecord.t;
  conversation_fork_commands : gmap (str * str) ConversationForkCommandRecord.t;
  conversation_fork_deliveries : gmap ThreadId ConversationForkDeliveryRecord.t;
  conversation_fork_delivery_ack_commands :
    gmap (str * str) ConversationForkDeliveryAckCommandRecord.t;
  conversation_inherited_outcomes : gmap MessageId ConversationTurnId;
}.
#[global] Instance eta : Eta t := λ s,
  mk (execution s) (workspace s) (conversation_lineages s) (conversation_thread_bindings s)
     (conversation_thread_models s) (conversation_turn_keys s) (conversation_events s)
     (conversation_cancel_commands s) (conversation_fork_commands s)
     (conversation_fork_deliveries s) (conversation_fork_delivery_ack_commands s)
     (conversation_inherited_outcomes s).
Definition empty : t := mk State.empty WorkspaceState.empty ∅ ∅ ∅ ∅ ∅ ∅ ∅ ∅ ∅ ∅.
(** The maps of the two contained states the port uses. *)
Definition runs (s : t) : gmap RunId Run.t := State.runs (execution s).
Definition effects (s : t) : gmap EffectId SideEffect.t := State.effects (execution s).
Definition projects (s : t) : gmap ProjectId Project.t := WorkspaceState.projects (workspace s).
Definition threads (s : t) : gmap ThreadId Thread.t := WorkspaceState.threads (workspace s).
Definition messages (s : t) : gmap MessageId Message.t := WorkspaceState.messages (workspace s).
Definition conversation_turns (s : t) : gmap ConversationTurnId ConversationTurn.t :=
  WorkspaceState.conversation_turns (workspace s).
Definition conversation_contexts (s : t) : gmap ConversationTurnId (list Message.t) :=
  WorkspaceState.conversation_contexts (workspace s).
End ConversationState.

Abbreviation CS := ConversationState.t.

(** The [insert] calls on the maps. *)
Section writes.
Import ConversationState.
Definition in_execution (f : State.t → State.t) : method CS StoreError unit :=
  assign (λ s, s <| execution := f (execution s) |>).
Definition in_workspace (f : WS → WS) : method CS StoreError unit :=
  assign (λ s, s <| workspace := f (workspace s) |>).
Definition put_run (run : Run.t) : method CS StoreError unit :=
  in_execution (λ e, e <| State.runs := <[Run.id run := run]> (State.runs e) |>).
Definition put_effect (effect : SideEffect.t) : method CS StoreError unit :=
  in_execution (λ e, e <| State.effects := <[SideEffect.id effect := effect]> (State.effects e) |>).
Definition put_run_events (run_id : RunId) (events : list NewRunEvent.t) :
    method CS StoreError unit :=
  in_execution (append_events run_id events).
Definition put_message (message : Message.t) : method CS StoreError unit :=
  in_workspace (λ w, w <| WorkspaceState.messages :=
    <[Message.id message := message]> (WorkspaceState.messages w) |>).
Definition put_turn (turn : ConversationTurn.t) : method CS StoreError unit :=
  in_workspace (λ w, w <| WorkspaceState.conversation_turns :=
    <[ConversationTurn.id turn := turn]> (WorkspaceState.conversation_turns w) |>).
Definition put_context (id : ConversationTurnId) (context : list Message.t) :
    method CS StoreError unit :=
  in_workspace (λ w, w <| WorkspaceState.conversation_contexts :=
    <[id := context]> (WorkspaceState.conversation_contexts w) |>).
Definition put_lineage (id : ConversationTurnId) (lineage : ConversationTurnLineage.t) :
    method CS StoreError unit :=
  assign (λ s, s <| conversation_lineages := <[id := lineage]> (conversation_lineages s) |>).
Definition put_binding (id : ThreadId) (binding : str) : method CS StoreError unit :=
  assign (λ s, s <| conversation_thread_bindings :=
    <[id := binding]> (conversation_thread_bindings s) |>).
Definition put_model (id : ThreadId) (model : str) : method CS StoreError unit :=
  assign (λ s, s <| conversation_thread_models :=
    <[id := model]> (conversation_thread_models s) |>).
Definition put_turn_key (key : str) (id : ConversationTurnId) : method CS StoreError unit :=
  assign (λ s, s <| conversation_turn_keys := <[key := id]> (conversation_turn_keys s) |>).
Definition put_turn_events (id : ConversationTurnId) (events : list ConversationTurnEvent.t) :
    method CS StoreError unit :=
  assign (λ s, s <| conversation_events := <[id := events]> (conversation_events s) |>).
(** [get_mut(&turn_id).ok_or(..)?.extend(events)]. *)
Definition extend_turn_events (id : ConversationTurnId) (new : list ConversationTurnEvent.t) :
    method CS StoreError unit :=
  s ← self;
  events ← lift (ok_or (Internal (lit "conversation turn lost its event log"))
                   (conversation_events s !! id));
  put_turn_events id (events ++ new).
Definition put_cancel_command (key : str * str) (record : ConversationCancelCommandRecord.t) :
    method CS StoreError unit :=
  assign (λ s, s <| conversation_cancel_commands :=
    <[key := record]> (conversation_cancel_commands s) |>).
Definition put_thread (thread : Thread.t) : method CS StoreError unit :=
  in_workspace (λ w, w <| WorkspaceState.threads :=
    <[Thread.id thread := thread]> (WorkspaceState.threads w) |>).
Definition put_inherited (id : MessageId) (turn_id : ConversationTurnId) :
    method CS StoreError unit :=
  assign (λ s, s <| conversation_inherited_outcomes :=
    <[id := turn_id]> (conversation_inherited_outcomes s) |>).
Definition put_delivery (id : ThreadId) (delivery : ConversationForkDeliveryRecord.t) :
    method CS StoreError unit :=
  assign (λ s, s <| conversation_fork_deliveries :=
    <[id := delivery]> (conversation_fork_deliveries s) |>).
Definition put_fork_command (key : str * str) (record : ConversationForkCommandRecord.t) :
    method CS StoreError unit :=
  assign (λ s, s <| conversation_fork_commands :=
    <[key := record]> (conversation_fork_commands s) |>).
Definition put_ack_command (key : str * str)
    (record : ConversationForkDeliveryAckCommandRecord.t) : method CS StoreError unit :=
  assign (λ s, s <| conversation_fork_delivery_ack_commands :=
    <[key := record]> (conversation_fork_delivery_ack_commands s) |>).
End writes.

(** ** Canonical values *)

(** [x.call(..).is_ok() && x == y] on a copy [x]. *)
Definition moves_to {T E} `{EqDecision T} (m : method T E unit) (x y : T) : bool :=
  match m x with (x', Ok _) => x' == y | (_, Err _) => false end.
(** [x.call(..).ok()?; Some(x)] on a copy [x]. *)
Definition moved {T E} (m : method T E unit) (x : T) : option T :=
  match m x with (x', Ok _) => Some x' | (_, Err _) => None end.

(** [is_canonical_message]. *)
Definition is_canonical_message (message : Message.t) (role : MessageRole.t)
    (created_at sequence : Z) : bool :=
  match Message.new (Message.id message) (Message.thread_id message) role
          (Message.content message) created_at with
  | Ok canonical => (canonical <| Message.sequence := sequence |>) == message
  | Err _ => false
  end.

(** [is_reachable_turn_message]. *)
Definition is_reachable_turn_message (message : Message.t) (role : MessageRole.t)
    (created_at sequence : Z) : bool :=
  (Message.role message == role) && (Message.created_at message =? created_at)
  && (Message.sequence message =? sequence) && (Message.state message == MessageState.Active)
  && is_ok (Message.restore message).

(** [terminal_run_state]. *)
Definition terminal_run_state (state : ConversationTurnState.t) : option RunState.t :=
  match state with
  | ConversationTurnState.Completed => Some RunState.Completed
  | ConversationTurnState.Failed => Some RunState.Failed
  | ConversationTurnState.Cancelled => Some RunState.Cancelled
  | ConversationTurnState.InterruptedNeedsReview => Some RunState.InterruptedNeedsReview
  | ConversationTurnState.Reserved | ConversationTurnState.ProviderStarted => None
  end.

(** The two transitions of a provider start. *)
Definition run_started (now : Z) : method Run.t TransitionError unit :=
  _ ← Run.transition RunState.Planning now; Run.transition RunState.Running now.

(** The target [format!("official xAI Responses API model {}", model_id)]. *)
Definition provider_target (model_id : str) : str :=
  lit "official xAI Responses API model " ++ model_id.
Definition provider_effect (id : EffectId) (run_id : RunId) (model_id : str) (now : Z) :
    SideEffect.t :=
  SideEffect.prepare id run_id EffectKind.ExternalMutation (provider_target model_id)
    Idempotency.NonIdempotent now.

Section canonical.
Context `{UrlParser}.
Import ConversationTurnSnapshot.

(** [is_canonical_reservation_input]. *)
Definition is_canonical_reservation_input (turn : ConversationTurn.t) (user_message : Message.t)
    (run : Run.t) (event : NewRunEvent.t) : bool :=
  (ConversationTurn.state turn == ConversationTurnState.Reserved)
  && is_ok (ConversationTurn.restore turn)
  && (ConversationTurn.user_message_id turn == Message.id user_message)
  && (ConversationTurn.thread_id turn == Message.thread_id user_message)
  && (ConversationTurn.run_id turn == Run.id run)
  && (ConversationTurn.project_id turn == Run.project_id run)
  && (ConversationTurn.thread_id turn == Run.thread_id run)
  && is_canonical_message user_message MessageRole.User (ConversationTurn.created_at turn) 0
  && (run == Run.queued (ConversationTurn.run_id turn) (ConversationTurn.project_id turn)
               (ConversationTurn.thread_id turn) (ConversationTurn.created_at turn))
  && (event == NewRunEvent.mk (ConversationTurn.created_at turn) RunCreated).

(** [canonical_run_for_snapshot]. *)
Definition canonical_run_for_snapshot (snapshot : t) : option Run.t :=
  let turn := turn snapshot in
  let queued := Run.queued (ConversationTurn.run_id turn) (ConversationTurn.project_id turn)
                  (ConversationTurn.thread_id turn) (ConversationTurn.created_at turn) in
  expected_run ←
    match ConversationTurn.state turn with
    | ConversationTurnState.Reserved | ConversationTurnState.Cancelled => Some queued
    | _ =>
        effect ← effect snapshot;
        expected_run ← moved (run_started (SideEffect.created_at effect)) queued;
        if (ConversationTurn.state turn == ConversationTurnState.ProviderStarted)
           && (ConversationTurn.updated_at turn != SideEffect.created_at effect)
        then None else Some expected_run
    end;
  match terminal_run_state (ConversationTurn.state turn) with
  | Some state => moved (Run.transition state (ConversationTurn.updated_at turn)) expected_run
  | None => Some expected_run
  end.

(** The effect calls of a provider turn in [is_canonical_provider_effect]. *)
Definition provider_effect_calls (turn : ConversationTurn.t) (created_at : Z) :
    method SideEffect.t EffectTransitionError unit :=
  _ ← SideEffect.start created_at;
  match ConversationTurn.state turn with
  | ConversationTurnState.Completed => SideEffect.finish true (ConversationTurn.updated_at turn)
  | ConversationTurnState.Failed => SideEffect.finish false (ConversationTurn.updated_at turn)
  | ConversationTurnState.InterruptedNeedsReview =>
      SideEffect.interrupt (ConversationTurn.updated_at turn)
  | _ => mret tt
  end.

(** [is_canonical_provider_effect]. *)
Definition is_canonical_provider_effect (snapshot : t) : bool :=
  let turn := turn snapshot in
  match ConversationTurn.state turn with
  | ConversationTurnState.Reserved | ConversationTurnState.Cancelled => is_none (effect snapshot)
  | _ =>
      match effect snapshot with
      | None => false
      | Some effect =>
          moves_to (provider_effect_calls turn (SideEffect.created_at effect))
            (provider_effect (SideEffect.id effect) (ConversationTurn.run_id turn)
               (ConversationTurn.model_id turn) (SideEffect.created_at effect)) effect
          && (ConversationTurn.effect_id turn == Some (SideEffect.id effect))
      end
  end.

(** [is_canonical_assistant_message]. *)
Definition is_canonical_assistant_message (snapshot : t) : bool :=
  let turn := turn snapshot in
  match ConversationTurn.state turn, assistant_message snapshot with
  | ConversationTurnState.Completed, Some assistant =>
      (ConversationTurn.assistant_message_id turn == Some (Message.id assistant))
      && (Message.thread_id assistant == ConversationTurn.thread_id turn)
      && (Message.sequence (user_message snapshot) <? Message.sequence assistant)
      && is_canonical_message assistant MessageRole.Assistant (ConversationTurn.updated_at turn)
           (Message.sequence assistant)
  | ConversationTurnState.Completed, None | _, Some _ => false
  | _, None => true
  end.

(** [is_canonical_conversation_snapshot]. *)
Definition is_canonical_conversation_snapshot (snapshot : t) : bool :=
  let turn := turn snapshot in
  let user := user_message snapshot in
  if negb (is_ok (ConversationTurn.restore turn))
     || negb (is_ok (ConversationTurnLineage.restore (lineage snapshot) (ConversationTurn.id turn)))
     || (ConversationTurn.user_message_id turn != Message.id user)
     || (ConversationTurn.thread_id turn != Message.thread_id user)
     || (Message.sequence user =? 0)
     || negb (is_reachable_turn_message user MessageRole.User (ConversationTurn.created_at turn)
                (Message.sequence user))
  then false
  else (canonical_run_for_snapshot snapshot == Some (run snapshot))
       && is_canonical_provider_effect snapshot
       && is_canonical_assistant_message snapshot.

(** ** Exact transitions *)

(** [is_exact_provider_start]. *)
Definition is_exact_provider_start (current : t) (commit : ProviderStartCommit.t) : bool :=
  let turn := turn current in
  let next := ProviderStartCommit.turn commit in
  let effect' := ProviderStartCommit.effect commit in
  let transition_at := ConversationTurn.updated_at next in
  if (ConversationTurn.state turn != ConversationTurnState.Reserved)
     || is_some (effect current) || is_some (assistant_message current)
     || (ProviderStartCommit.expected_turn_revision commit != ConversationTurn.revision turn)
     || (ProviderStartCommit.expected_run_revision commit != Run.revision (run current))
  then false
  else match ConversationTurn.provider_request_fingerprint next with
  | None => false
  | Some provider_fingerprint =>
      moves_to (ConversationTurn.start_provider (SideEffect.id effect') provider_fingerprint
                  transition_at) turn next
      && moves_to (run_started transition_at) (run current) (ProviderStartCommit.run commit)
      && moves_to (SideEffect.start transition_at)
           (provider_effect (SideEffect.id effect') (Run.id (run current))
              (ConversationTurn.model_id turn) transition_at) effect'
      && (ProviderStartCommit.events commit ==
          [NewRunEvent.mk transition_at (RunStateChanged RunState.Queued RunState.Planning);
           NewRunEvent.mk transition_at (RunStateChanged RunState.Planning RunState.Running);
           NewRunEvent.mk transition_at (RunEffectPrepared (SideEffect.id effect'))])
  end.

(** [is_exact_terminal_turn_transition]. *)
Definition is_exact_terminal_turn_transition (current : t) (commit : TerminalTurnCommit.t) : bool :=
  let next := TerminalTurnCommit.turn commit in
  let transition_at := ConversationTurn.updated_at next in
  let assistant := TerminalTurnCommit.assistant_message commit in
  match ConversationTurn.state next with
  | ConversationTurnState.Completed =>
      match assistant with
      | None => false
      | Some assistant =>
          is_canonical_message assistant MessageRole.Assistant transition_at 0
          && moves_to (ConversationTurn.complete (Message.id assistant)
                         (ConversationTurn.provider_response_id next)
                         (ConversationTurn.citations next) (ConversationTurn.usage next)
                         (ConversationTurn.zero_data_retention next) transition_at)
               (turn current) next
      end
  | ConversationTurnState.Failed =>
      is_none assistant
      && match ConversationTurn.failure next with
         | None => false
         | Some failure => moves_to (ConversationTurn.fail failure transition_at) (turn current) next
         end
  | ConversationTurnState.Cancelled =>
      is_none assistant && moves_to (ConversationTurn.cancel transition_at) (turn current) next
  | ConversationTurnState.InterruptedNeedsReview =>
      is_none assistant && moves_to (ConversationTurn.interrupt transition_at) (turn current) next
  | ConversationTurnState.Reserved | ConversationTurnState.ProviderStarted => false
  end.

(** [expected_terminal_events]. *)
Definition expected_terminal_events (current : t) (turn_state : ConversationTurnState.t)
    (occurred_at : Z) (run_state : RunState.t) : option (list NewRunEvent.t) :=
  review ←
    (if turn_state == ConversationTurnState.InterruptedNeedsReview then
       effect ← effect current;
       Some [NewRunEvent.mk occurred_at (RunEffectNeedsReview (SideEffect.id effect))]
     else Some []);
  Some (review ++ [NewRunEvent.mk occurred_at (RunStateChanged (Run.state (run current)) run_state)]).

(** [is_exact_terminal_effect_transition]. *)
Definition is_exact_terminal_effect_transition (current : t) (commit : TerminalTurnCommit.t)
    (transition_at : Z) : bool :=
  let next := TerminalTurnCommit.turn commit in
  match ConversationTurn.state (turn current), effect current, TerminalTurnCommit.effect commit,
        TerminalTurnCommit.expected_effect_revision commit with
  | ConversationTurnState.Reserved, None, None, None =>
      ConversationTurn.state next == ConversationTurnState.Cancelled
  | ConversationTurnState.ProviderStarted, Some current_effect, Some next_effect,
    Some expected_revision =>
      (expected_revision =? SideEffect.revision current_effect)
      && match ConversationTurn.state next with
         | ConversationTurnState.Completed =>
             moves_to (SideEffect.finish true transition_at) current_effect next_effect
         | ConversationTurnState.Failed =>
             moves_to (SideEffect.finish false transition_at) current_effect next_effect
         | ConversationTurnState.InterruptedNeedsReview =>
             moves_to (SideEffect.interrupt transition_at) current_effect next_effect
         | _ => false
         end
  | _, _, _, _ => false
  end.

(** [is_exact_terminal_transition]. *)
Definition is_exact_terminal_transition (current : t) (commit : TerminalTurnCommit.t) : bool :=
  let next := TerminalTurnCommit.turn commit in
  let transition_at := ConversationTurn.updated_at next in
  if (TerminalTurnCommit.expected_turn_revision commit != ConversationTurn.revision (turn current))
     || (TerminalTurnCommit.expected_run_revision commit != Run.revision (run current))
     || negb (is_exact_terminal_turn_transition current commit)
  then false
  else match terminal_run_state (ConversationTurn.state next) with
  | None => false
  | Some expected_run_state =>
      moves_to (Run.transition expected_run_state transition_at) (run current)
        (TerminalTurnCommit.run commit)
      && (expected_terminal_events current (ConversationTurn.state next) transition_at
            expected_run_state == Some (TerminalTurnCommit.events commit))
      && is_exact_terminal_effect_transition current commit transition_at
  end.
End canonical.

(** [is_exact_cancellation_edge]. *)
Definition is_exact_cancellation_edge (from to : ConversationTurnState.t) : bool :=
  match from, to with
  | ConversationTurnState.Reserved, ConversationTurnState.Cancelled
  | ConversationTurnState.ProviderStarted, ConversationTurnState.InterruptedNeedsReview => true
  | _, _ => false
  end.

(** ** Context *)

Section context.
Import ConversationState.

(** [validate_context]: the bytes are added up with [checked_add]. *)
Fixpoint context_bytes (total : Z) (context : list Message.t) : option Z :=
  match context with
  | [] => Some total
  | message :: context' =>
      total ← checked_add usize_max total (len (Message.content message));
      context_bytes total context'
  end.
Definition validate_context (context : list Message.t) : result StoreError unit :=
  _ ← reject_if (is_empty context
                 || (MAX_CONVERSATION_CONTEXT_MESSAGES <? Z.of_nat (length context))) Conflict;
  bytes ← ok_or Conflict (context_bytes 0 context);
  reject_if (MAX_CONVERSATION_CONTEXT_BYTES <? bytes) Conflict.

(** A prompt whose turn is not completed is left out of the context. *)
Definition unresolved_prompt (s : CS) (thread_id : ThreadId) (message : Message.t) : bool :=
  existsb (λ existing, (ConversationTurn.thread_id existing == thread_id)
                       && (ConversationTurn.user_message_id existing == Message.id message)
                       && (ConversationTurn.state existing != ConversationTurnState.Completed))
    (InMemory.values (conversation_turns s)).

(** The loop of [capture_conversation_context] over the active messages. *)
Fixpoint capture_messages (s : CS) (thread_id : ThreadId) (candidates context : list Message.t)
    (context_bytes : Z) : result StoreError (list Message.t) :=
  match candidates with
  | [] => Ok context
  | message :: candidates' =>
      if unresolved_prompt s thread_id message
      then capture_messages s thread_id candidates' context context_bytes
      else
        _ ← reject_if (MAX_CONVERSATION_CONTEXT_MESSAGES - 1 <=? Z.of_nat (length context)) Conflict;
        context_bytes ← ok_or Conflict
          (checked_add usize_max context_bytes (len (Message.content message)));
        _ ← reject_if (MAX_CONVERSATION_CONTEXT_BYTES <? context_bytes) Conflict;
        capture_messages s thread_id candidates' (context ++ [message]) context_bytes
  end.

(** The active messages of a thread. *)
Definition active_messages (s : CS) (thread_id : ThreadId) : list Message.t :=
  filter (λ m, Message.thread_id m = thread_id ∧ Message.state m = MessageState.Active)
    (InMemory.values (messages s)).

(** [capture_conversation_context]. *)
Definition capture_conversation_context (s : CS) (turn : ConversationTurn.t)
    (user_message : Message.t) : result StoreError (Message.t * list Message.t) :=
  let thread_id := ConversationTurn.thread_id turn in
  sequence ← ok_or Conflict
    (checked_add u64_max (WorkspaceMemory.last_sequence (workspace s) thread_id) 1);
  let user_message := user_message <| Message.sequence := sequence |> in
  context ← capture_messages s thread_id (active_messages s thread_id) []
              (len (Message.content user_message));
  let context := merge_sort WorkspaceMemory.sequence_le context ++ [user_message] in
  _ ← validate_context context;
  Ok (user_message, context).

(** [reservation_source_matches_lineage]. *)
Definition reservation_source_matches_lineage (source : ConversationTurnReservationSource.t)
    (lineage : ConversationTurnLineage.t) : bool :=
  match source, ConversationTurnLineage.origin lineage with
  | ConversationTurnReservationSource.CurrentThread, ConversationTurnOrigin.Original => true
  | ConversationTurnReservationSource.Retry source_turn_id _,
    ConversationTurnOrigin.Retry lineage_source => source_turn_id == lineage_source
  | _, _ => false
  end.

(** The states a turn can be retried from. *)
Definition retry_eligible (turn : ConversationTurn.t) : bool :=
  (ConversationTurn.state turn == ConversationTurnState.Cancelled)
  || ((ConversationTurn.state turn == ConversationTurnState.Failed)
      && match ConversationTurn.failure turn with
         | Some failure => ConversationFailure.retryable failure
         | None => false
         end).

Definition retries (source_turn_id : ConversationTurnId) (lineage : ConversationTurnLineage.t) :
    bool :=
  match ConversationTurnLineage.origin lineage with
  | ConversationTurnOrigin.Retry source => source == source_turn_id
  | _ => false
  end.
Definition has_retry_child (s : CS) (source_turn_id : ConversationTurnId) : bool :=
  existsb (retries source_turn_id) (InMemory.values (conversation_lineages s)).

(** [Iterator::max] of the sequences of a thread. *)
Definition newest_sequence (s : CS) (thread_id : ThreadId) : option Z :=
  match WorkspaceMemory.thread_messages (workspace s) thread_id with
  | [] => None
  | m :: l => Some (foldl Z.max (Message.sequence m) (map Message.sequence l))
  end.

(** [capture_retry_context]. *)
Definition capture_retry_context (s : CS) (turn : ConversationTurn.t)
    (lineage : ConversationTurnLineage.t) (source_turn_id : ConversationTurnId)
    (expected_source_revision : Z) (user_message : Message.t) :
    result StoreError (Message.t * list Message.t) :=
  source_turn ← ok_or NotFound (conversation_turns s !! source_turn_id);
  source_lineage ← ok_or (Internal (lit "retry source lost its lineage"))
    (conversation_lineages s !! source_turn_id);
  source_user ← ok_or (Internal (lit "retry source lost its user message"))
    (messages s !! ConversationTurn.user_message_id source_turn);
  let expected_source_depth :=
    depth ← checked_add u8_max (ConversationTurnLineage.retry_depth source_lineage) 1;
    if depth <=? 64 then Some depth else None in
  _ ← reject_if
        ((ConversationTurn.revision source_turn != expected_source_revision)
         || negb (retry_eligible source_turn)
         || (ConversationTurn.thread_id source_turn != ConversationTurn.thread_id turn)
         || (ConversationTurn.project_id source_turn != ConversationTurn.project_id turn)
         || (ConversationTurn.model_id source_turn != ConversationTurn.model_id turn)
         || (newest_sequence s (ConversationTurn.thread_id source_turn)
             != Some (Message.sequence source_user))
         || has_retry_child s source_turn_id
         || is_none (ConversationTurnLineage.credential_binding_id source_lineage)
         || (ConversationTurnLineage.credential_binding_id source_lineage
             != ConversationTurnLineage.credential_binding_id lineage)
         || (ConversationTurnLineage.rail source_lineage != ConversationTurnLineage.rail lineage)
         || (expected_source_depth != Some (ConversationTurnLineage.retry_depth lineage))
         || (Message.content user_message != Message.content source_user)) Conflict;
  sequence ← ok_or Conflict (checked_add u64_max (Message.sequence source_user) 1);
  let user_message := user_message <| Message.sequence := sequence |> in
  context ← ok_or (Internal (lit "retry source lost its immutable context"))
    (conversation_contexts s !! source_turn_id);
  _ ← reject_if (last context != Some source_user)
        (Internal (lit "retry source context is internally inconsistent"));
  let context := removelast context ++ [user_message] in
  _ ← validate_context context;
  Ok (user_message, context).
End context.

(** ** Event logs and streamed text *)

(** The text of an event error. *)
Definition turn_state_name (state : ConversationTurnState.t) : str :=
  match state with
  | ConversationTurnState.Reserved => lit "Reserved"
  | ConversationTurnState.ProviderStarted => lit "ProviderStarted"
  | ConversationTurnState.Completed => lit "Completed"
  | ConversationTurnState.Failed => lit "Failed"
  | ConversationTurnState.Cancelled => lit "Cancelled"
  | ConversationTurnState.InterruptedNeedsReview => lit "InterruptedNeedsReview"
  end.
Definition event_error_text (e : ConversationTurnEventError.t) : str :=
  match e with
  | ConversationTurnEventError.InvalidSequence => lit "invalid conversation turn event sequence"
  | ConversationTurnEventError.WrongTurn =>
      lit "conversation turn event owner does not match the stream"
  | ConversationTurnEventError.InvalidOrder => lit "invalid conversation turn event order"
  | ConversationTurnEventError.InvalidTransition from to =>
      lit "invalid conversation turn event transition from " ++ turn_state_name from
      ++ lit " to " ++ turn_state_name to
  | ConversationTurnEventError.InvalidText => lit "invalid conversation turn event text"
  | ConversationTurnEventError.InvalidTextOffset =>
      lit "invalid conversation turn event UTF-8 offset"
  | ConversationTurnEventError.TextLimitExceeded =>
      lit "conversation turn event text exceeds the message limit"
  | ConversationTurnEventError.EventLimitExceeded =>
      lit "conversation turn event stream contains too many text events"
  | ConversationTurnEventError.SnapshotMismatch =>
      lit "conversation turn event stream does not match the turn snapshot"
  end.

(** [conversation_event_log]. *)
Definition conversation_event_log (s : CS) (turn_id : ConversationTurnId) :
    result StoreError ConversationTurnEventLog.t :=
  events ← ok_or (Internal (lit "conversation turn lost its event log"))
    (ConversationState.conversation_events s !! turn_id);
  map_err (λ e, Internal (lit "conversation event log is invalid: " ++ event_error_text e))
    (ConversationTurnEventLog.restore turn_id events).

(** [split_conversation_text]: the longest prefixes of whole characters within the chunk
    limit. A chunk holds at least one character, so the length of the text is enough
    fuel. *)
Fixpoint split_chunks (fuel : nat) (remaining : str) : list str :=
  match fuel with
  | O => []
  | S fuel' =>
      if is_empty remaining then []
      else let chunk := floor_prefix (Z.min (len remaining) MAX_CONVERSATION_TEXT_CHUNK_BYTES)
                          remaining in
           chunk :: split_chunks fuel' (drop (length chunk) remaining)
  end.
Definition split_conversation_text (text : str) : list str := split_chunks (length text) text.

(** [replayed_text_append]. *)
Fixpoint replay_scan (events : list ConversationTurnEvent.t) (start_utf8_offset : Z)
    (expected_text : str) (found_start : bool) (replay : list ConversationTurnEvent.t)
    (actual : str) (expected_offset : Z) : option (bool * str * list ConversationTurnEvent.t) :=
  match events with
  | [] => Some (found_start, actual, replay)
  | event :: events' =>
      match ConversationTurnEvent.kind event with
      | ConversationTurnEventKind.TextAppended event_offset text =>
          if negb found_start && (event_offset != start_utf8_offset)
          then replay_scan events' start_utf8_offset expected_text found_start replay actual
                 expected_offset
          else if (event_offset != expected_offset) || (len expected_text <=? len actual) then None
          else
            let actual := actual ++ text in
            expected_offset ← checked_add u64_max expected_offset (len text);
            let replay := replay ++ [event] in
            if len expected_text <=? len actual then Some (true, actual, replay)
            else replay_scan events' start_utf8_offset expected_text true replay actual
                   expected_offset
      | _ =>
          if found_start then Some (found_start, actual, replay)
          else replay_scan events' start_utf8_offset expected_text found_start replay actual
                 expected_offset
      end
  end.
Definition replayed_text_append (events : list ConversationTurnEvent.t) (start_utf8_offset : Z)
    (expected_text : str) : option (list ConversationTurnEvent.t) :=
  '(found_start, actual, replay) ←
    replay_scan events start_utf8_offset expected_text false [] [] start_utf8_offset;
  if found_start && (actual == expected_text) then Some replay else None.

(** ** Loading a turn *)

Section snapshots.
Context `{UrlParser}.
Import ConversationState.

(** [ensure_fork_source_state]. *)
Definition ensure_fork_source_state (kind : ConversationForkKind.t)
    (source : ConversationTurnSnapshot.t) : result StoreError unit :=
  let state := ConversationTurn.state (ConversationTurnSnapshot.turn source) in
  let eligible :=
    match kind with
    | ConversationForkKind.Branch | ConversationForkKind.Regenerate =>
        state == ConversationTurnState.Completed
    | ConversationForkKind.EditAndBranch =>
        (state == ConversationTurnState.Completed) || (state == ConversationTurnState.Cancelled)
        || (state == ConversationTurnState.Failed)
    end in
  if eligible then Ok tt else Err Conflict.

(** The message a fork of the given kind starts from. *)
Definition fork_source_message (kind : ConversationForkKind.t)
    (source : ConversationTurnSnapshot.t) : option Message.t :=
  match kind with
  | ConversationForkKind.EditAndBranch => Some (ConversationTurnSnapshot.user_message source)
  | ConversationForkKind.Branch | ConversationForkKind.Regenerate =>
      ConversationTurnSnapshot.assistant_message source
  end.

(** An identifier a turn may hold, resolved in its table. *)
Definition linked {K A} `{Countable K} (table : gmap K A) (id : option K) (e : StoreError) :
    result StoreError (option A) :=
  match id with
  | None => Ok None
  | Some id => x ← ok_or e (table !! id); Ok (Some x)
  end.

(** The entities a turn is linked to, as [conversation_snapshot] collects them. *)
Definition collect_snapshot (s : CS) (turn : ConversationTurn.t) :
    result StoreError ConversationTurnSnapshot.t :=
  user_message ← ok_or (Internal (lit "conversation turn lost its user message"))
    (messages s !! ConversationTurn.user_message_id turn);
  assistant_message ← linked (messages s) (ConversationTurn.assistant_message_id turn)
    (Internal (lit "conversation turn lost its assistant message"));
  run ← ok_or (Internal (lit "conversation turn lost its run"))
    (runs s !! ConversationTurn.run_id turn);
  effect ← linked (effects s) (ConversationTurn.effect_id turn)
    (Internal (lit "conversation turn lost its provider effect"));
  lineage ← ok_or (Internal (lit "conversation turn lost its lineage"))
    (conversation_lineages s !! ConversationTurn.id turn);
  lineage ← map_err (λ _, Internal (lit "conversation turn lineage is invalid"))
    (ConversationTurnLineage.restore lineage (ConversationTurn.id turn));
  Ok (ConversationTurnSnapshot.mk turn user_message assistant_message run effect lineage).

(** [conversation_snapshot], with the lineage check it calls. *)
Definition snapshot_with (lineage_check : Thread.t → result StoreError unit) (s : CS)
    (turn : ConversationTurn.t) : result StoreError ConversationTurnSnapshot.t :=
  snapshot ← collect_snapshot s turn;
  thread ← ok_or (Internal (lit "conversation turn lost its thread"))
    (threads s !! ConversationTurn.thread_id turn);
  _ ← reject_if ((Thread.project_id thread != ConversationTurn.project_id turn)
                 || is_none (projects s !! ConversationTurn.project_id turn)
                 || negb (is_ok (Thread.restore thread))
                 || negb (is_ok (lineage_check thread))
                 || negb (is_canonical_conversation_snapshot snapshot))
        (Internal (lit "conversation snapshot is internally inconsistent"));
  event_log ← conversation_event_log s (ConversationTurn.id turn);
  _ ← map_err
        (λ e, Internal (lit "conversation event log is inconsistent: " ++ event_error_text e))
        (ConversationTurnEventLog.validate_snapshot event_log turn
           (Message.content <$> ConversationTurnSnapshot.assistant_message snapshot));
  Ok snapshot.

(** [validate_persisted_thread_lineage], with the snapshot function it calls. *)
Definition lineage_with
    (snapshot : ConversationTurn.t → result StoreError ConversationTurnSnapshot.t) (s : CS)
    (thread : Thread.t) : result StoreError unit :=
  let lineage := Thread.lineage thread in
  match ConversationThreadLineage.origin lineage with
  | ConversationThreadOrigin.Original =>
      reject_if ((ConversationThreadLineage.root_thread_id lineage != Thread.id thread)
                 || (ConversationThreadLineage.fork_depth lineage != 0))
        (Internal (lit "original conversation thread lineage is invalid"))
  | ConversationThreadOrigin.Fork parent_thread_id source_turn_id source_message_id kind =>
      parent ← ok_or (Internal (lit "conversation fork lineage lost its parent"))
        (threads s !! parent_thread_id);
      source_turn ← ok_or (Internal (lit "conversation fork lineage lost its source turn"))
        (conversation_turns s !! source_turn_id);
      source ← snapshot source_turn;
      _ ← map_err (λ _, Internal (lit "conversation fork source lifecycle is invalid"))
            (ensure_fork_source_state kind source);
      expected_source_message ←
        ok_or (Internal (lit "conversation fork lineage lost its source assistant"))
          (fork_source_message kind source);
      let parent_lineage := Thread.lineage parent in
      reject_if
        ((ConversationTurn.thread_id (ConversationTurnSnapshot.turn source) != Thread.id parent)
         || (Thread.project_id parent != Thread.project_id thread)
         || (ConversationThreadLineage.root_thread_id parent_lineage
             != ConversationThreadLineage.root_thread_id lineage)
         || (checked_add u8_max (ConversationThreadLineage.fork_depth parent_lineage) 1
             != Some (ConversationThreadLineage.fork_depth lineage))
         || (Message.id expected_source_message != source_message_id)
         || (ConversationForkKind.source_message_role kind
             != Message.role expected_source_message)
         || match conversation_thread_bindings s !! Thread.id thread,
                  conversation_thread_bindings s !! Thread.id parent with
            | Some child, Some parent => child != parent
            | _, _ => true
            end)
        (Internal (lit "conversation fork lineage is inconsistent"))
  end.

(** The two functions call each other along the ancestors of a thread. A stored thread has
    at most 64 of them, so the fuel is never used up on a store the operations built. *)
Fixpoint persisted_lineage (fuel : nat) (s : CS) (thread : Thread.t) : result StoreError unit :=
  match fuel with
  | O => Err (Internal (lit "conversation fork lineage does not end"))
  | S fuel' => lineage_with (snapshot_with (persisted_lineage fuel' s) s) s thread
  end.
Definition lineage_fuel : nat := 65.
Definition validate_persisted_thread_lineage : CS → Thread.t → result StoreError unit :=
  persisted_lineage lineage_fuel.
Definition conversation_snapshot (s : CS) (turn : ConversationTurn.t) :
    result StoreError ConversationTurnSnapshot.t :=
  snapshot_with (validate_persisted_thread_lineage s) s turn.

(** [get(id).ok_or(NotFound).and_then(|turn| conversation_snapshot(state, turn))]. *)
Definition stored_snapshot (s : CS) (id : ConversationTurnId) :
    result StoreError ConversationTurnSnapshot.t :=
  turn ← ok_or NotFound (conversation_turns s !! id);
  conversation_snapshot s turn.
End snapshots.

(** ** The operations *)

Module ConversationMemory.
Section operations.
Context `{UrlParser}.
Import ConversationState.

(** [reserve_turn], the answer to a key that was used before. *)
Definition replay_reservation (s : CS) (turn : ConversationTurn.t)
    (lineage : ConversationTurnLineage.t) (id : ConversationTurnId) :
    result StoreError ConversationTurnReservation.t :=
  existing ← ok_or (Internal (lit "conversation command lost its turn"))
    (conversation_turns s !! id);
  _ ← reject_if (ConversationTurn.request_fingerprint existing
                 != ConversationTurn.request_fingerprint turn) Conflict;
  _ ← reject_if (conversation_lineages s !! id != Some lineage) Conflict;
  snapshot ← conversation_snapshot s existing;
  context ← ok_or (Internal (lit "conversation turn lost its immutable context"))
    (conversation_contexts s !! id);
  Ok (ConversationTurnReservation.mk snapshot context false).

Definition is_retry (source : ConversationTurnReservationSource.t) : bool :=
  match source with ConversationTurnReservationSource.Retry _ _ => true | _ => false end.
Definition thread_has_turn (s : CS) (thread_id : ThreadId) : bool :=
  existsb (λ existing, ConversationTurn.thread_id existing == thread_id)
    (InMemory.values (conversation_turns s)).
Definition thread_is_busy (s : CS) (thread_id : ThreadId) : bool :=
  existsb (λ existing, (ConversationTurn.thread_id existing == thread_id)
                       && ((ConversationTurn.state existing == ConversationTurnState.Reserved)
                           || (ConversationTurn.state existing
                               == ConversationTurnState.ProviderStarted)))
    (InMemory.values (conversation_turns s)).

(** Whether a reservation binds its thread to the value, or is refused. *)
Definition binds_thread (s : CS) (thread_id : ThreadId) (source : ConversationTurnReservationSource.t)
    (bound : option str) (value : str) : result StoreError bool :=
  match bound with
  | Some existing => if existing == value then Ok false else Err Conflict
  | None => if is_retry source || thread_has_turn s thread_id then Err Conflict else Ok true
  end.

(** The checks of [reserve_turn] on the stored thread and project. *)
Definition check_reservation (s : CS) (turn : ConversationTurn.t) (user_message : Message.t)
    (run : Run.t) : result StoreError unit :=
  _ ← reject_if (thread_is_busy s (ConversationTurn.thread_id turn)) Conflict;
  thread ← ok_or NotFound (threads s !! ConversationTurn.thread_id turn);
  project ← ok_or NotFound (projects s !! Thread.project_id thread);
  reject_if ((Thread.state thread != ThreadState.Open)
             || (Project.state project != ProjectState.Active)
             || (ConversationTurn.project_id turn != Thread.project_id thread)
             || (Message.thread_id user_message != ConversationTurn.thread_id turn)
             || (Message.id user_message != ConversationTurn.user_message_id turn)
             || (Message.role user_message != MessageRole.User)
             || (Run.id run != ConversationTurn.run_id turn)
             || (Run.thread_id run != ConversationTurn.thread_id turn)
             || (Run.project_id run != ConversationTurn.project_id turn)
             || is_some (messages s !! Message.id user_message)
             || is_some (runs s !! Run.id run)
             || is_some (conversation_turns s !! ConversationTurn.id turn)) Conflict.

(** [reserve_turn]. *)
Definition reserve_turn (turn : ConversationTurn.t) (lineage : ConversationTurnLineage.t)
    (source : ConversationTurnReservationSource.t) (user_message : Message.t) (run : Run.t)
    (event : NewRunEvent.t) (turn_event : ConversationTurnEventKind.t) :
    method CS StoreError ConversationTurnReservation.t :=
  let id := ConversationTurn.id turn in
  let thread_id := ConversationTurn.thread_id turn in
  _ ← throw_if (negb (is_canonical_reservation_input turn user_message run event)
                || negb (is_ok (ConversationTurnLineage.restore lineage id))
                || negb (reservation_source_matches_lineage source lineage)
                || (turn_event != ConversationTurnEventKind.Created)) Conflict;
  s ← self;
  match conversation_turn_keys s !! ConversationTurn.idempotency_key turn with
  | Some existing => lift (replay_reservation s turn lineage existing)
  | None =>
      _ ← lift (check_reservation s turn user_message run);
      credential_binding ← lift (ok_or Conflict
                                   (ConversationTurnLineage.credential_binding_id lineage));
      bind_thread ← lift (binds_thread s thread_id source
                            (conversation_thread_bindings s !! thread_id) credential_binding);
      bind_model ← lift (binds_thread s thread_id source
                           (conversation_thread_models s !! thread_id)
                           (ConversationTurn.model_id turn));
      '(user_message, context) ← lift
        match source with
        | ConversationTurnReservationSource.CurrentThread =>
            capture_conversation_context s turn user_message
        | ConversationTurnReservationSource.Retry source_turn_id expected_source_revision =>
            capture_retry_context s turn lineage source_turn_id expected_source_revision
              user_message
        end;
      _ ← throw_if (negb (is_canonical_conversation_snapshot
             (ConversationTurnSnapshot.mk turn user_message None run None lineage))) Conflict;
      let '(turn_event_log, appended) :=
        ConversationTurnEventLog.append_kind turn_event (ConversationTurnEventLog.new id) in
      persisted_turn_event ← lift (map_err (λ _, Conflict) appended);
      _ ← lift (map_err (λ _, Conflict)
             (ConversationTurnEventLog.validate_snapshot turn_event_log turn None));
      _ ← if (bind_thread : bool) then put_binding thread_id credential_binding else mret tt;
      _ ← if (bind_model : bool) then put_model thread_id (ConversationTurn.model_id turn)
          else mret tt;
      _ ← put_message user_message;
      _ ← put_run run;
      _ ← put_run_events (Run.id run) [event];
      _ ← put_turn_key (ConversationTurn.idempotency_key turn) id;
      _ ← put_lineage id lineage;
      _ ← put_context id context;
      _ ← put_turn_events id [persisted_turn_event];
      _ ← put_turn turn;
      s ← self;
      persisted_turn ← lift (ok_or (Internal (lit "conversation reservation was not stored"))
                               (conversation_turns s !! id));
      snapshot ← lift (conversation_snapshot s persisted_turn);
      mret (ConversationTurnReservation.mk snapshot context true)
  end.

(** The scopes of commands that start a turn, and the origin each belongs to. *)
Definition turn_scope_supported (scope : str) : bool :=
  (scope == lit "execute_conversation_turn") || (scope == lit "retry_conversation_turn")
  || (scope == lit "edit_and_branch_conversation_turn")
  || (scope == lit "regenerate_conversation_turn").
Definition turn_scope_matches (origin : ConversationTurnOrigin.t) (scope : str) : bool :=
  match origin with
  | ConversationTurnOrigin.Original => scope == lit "execute_conversation_turn"
  | ConversationTurnOrigin.Retry _ => scope == lit "retry_conversation_turn"
  | ConversationTurnOrigin.EditAndBranch _ => scope == lit "edit_and_branch_conversation_turn"
  | ConversationTurnOrigin.Regenerate _ => scope == lit "regenerate_conversation_turn"
  end.

(** [load_turn_by_command]. *)
Definition load_turn_by_command (command : MutationCommand.t) :
    method CS StoreError (option ConversationTurnSnapshot.t) :=
  if negb (turn_scope_supported (MutationCommand.scope command)) then mret None
  else
    s ← self;
    match conversation_turn_keys s !! MutationCommand.key command with
    | None => mret None
    | Some id =>
        turn ← lift (ok_or (Internal (lit "conversation command lost its turn"))
                       (conversation_turns s !! id));
        _ ← throw_if (ConversationTurn.request_fingerprint turn
                      != MutationCommand.fingerprint command) Conflict;
        lineage ← lift (ok_or (Internal (lit "conversation command lost its lineage"))
                          (conversation_lineages s !! id));
        _ ← throw_if (negb (turn_scope_matches (ConversationTurnLineage.origin lineage)
                              (MutationCommand.scope command))) Conflict;
        snapshot ← lift (conversation_snapshot s turn);
        mret (Some snapshot)
    end.

(** [load_turn]. *)
Definition load_turn (id : ConversationTurnId) :
    method CS StoreError (option ConversationTurnSnapshot.t) :=
  s ← self;
  match conversation_turns s !! id with
  | None => mret None
  | Some turn => snapshot ← lift (conversation_snapshot s turn); mret (Some snapshot)
  end.

(** [load_turn_context]. *)
Definition load_turn_context (id : ConversationTurnId) : method CS StoreError (list Message.t) :=
  s ← self;
  lift (ok_or NotFound (conversation_contexts s !! id)).

(** [commit_provider_start]. *)
Definition commit_provider_start (commit : ProviderStartCommit.t) :
    method CS StoreError ConversationTurnSnapshot.t :=
  let turn := ProviderStartCommit.turn commit in
  let effect := ProviderStartCommit.effect commit in
  let run := ProviderStartCommit.run commit in
  let id := ConversationTurn.id turn in
  s ← self;
  current ← lift (stored_snapshot s id);
  _ ← throw_if (is_some (effects s !! SideEffect.id effect)
                || negb (is_exact_provider_start current commit)) Conflict;
  _ ← throw_if (negb (is_canonical_conversation_snapshot
         (ConversationTurnSnapshot.mk turn (ConversationTurnSnapshot.user_message current) None run
            (Some effect) (ConversationTurnSnapshot.lineage current)))) Conflict;
  turn_event_log ← lift (conversation_event_log s id);
  let '(turn_event_log, appended) :=
    ConversationTurnEventLog.append_kind (ProviderStartCommit.turn_event commit) turn_event_log in
  persisted_turn_event ← lift (map_err (λ _, Conflict) appended);
  _ ← lift (map_err (λ _, Conflict)
         (ConversationTurnEventLog.validate_snapshot turn_event_log turn None));
  _ ← put_turn turn;
  _ ← put_run run;
  _ ← put_effect effect;
  _ ← extend_turn_events id [persisted_turn_event];
  _ ← put_run_events (Run.id run) (ProviderStartCommit.events commit);
  s ← self;
  lift (stored_snapshot s id).

(** The assistant message of a terminal commit, numbered by the store. *)
Definition number_assistant (s : CS) (assistant : option Message.t) :
    result StoreError (option Message.t) :=
  match assistant with
  | None => Ok None
  | Some assistant =>
      _ ← reject_if (is_some (messages s !! Message.id assistant)) Conflict;
      sequence ← ok_or Conflict
        (checked_add u64_max
           (WorkspaceMemory.last_sequence (workspace s) (Message.thread_id assistant)) 1);
      Ok (Some (assistant <| Message.sequence := sequence |>))
  end.

(** [commit_conversation_terminal], [commit_terminal]. *)
Definition commit_conversation_terminal (commit : TerminalTurnCommit.t) :
    method CS StoreError ConversationTurnSnapshot.t :=
  let turn := TerminalTurnCommit.turn commit in
  let run := TerminalTurnCommit.run commit in
  let id := ConversationTurn.id turn in
  s ← self;
  current ← lift (stored_snapshot s id);
  _ ← throw_if (negb (is_exact_terminal_transition current commit)) Conflict;
  persisted_assistant ← lift (number_assistant s (TerminalTurnCommit.assistant_message commit));
  _ ← throw_if (negb (is_canonical_conversation_snapshot
         (ConversationTurnSnapshot.mk turn (ConversationTurnSnapshot.user_message current)
            persisted_assistant run (TerminalTurnCommit.effect commit)
            (ConversationTurnSnapshot.lineage current)))) Conflict;
  turn_event_log ← lift (conversation_event_log s id);
  let '(turn_event_log, appended) :=
    ConversationTurnEventLog.append_kind (TerminalTurnCommit.turn_event commit) turn_event_log in
  persisted_turn_event ← lift (map_err (λ _, Conflict) appended);
  _ ← lift (map_err (λ _, Conflict)
         (ConversationTurnEventLog.validate_snapshot turn_event_log turn
            (Message.content <$> persisted_assistant)));
  _ ← match persisted_assistant with Some assistant => put_message assistant | None => mret tt end;
  _ ← match TerminalTurnCommit.effect commit with
      | Some effect => put_effect effect | None => mret tt end;
  _ ← put_run run;
  _ ← put_turn turn;
  _ ← extend_turn_events id [persisted_turn_event];
  _ ← put_run_events (Run.id run) (TerminalTurnCommit.events commit);
  s ← self;
  lift (stored_snapshot s id).
Definition commit_terminal : TerminalTurnCommit.t → method CS StoreError ConversationTurnSnapshot.t :=
  commit_conversation_terminal.

(** [commit_conversation_cancellation], the answer to a recorded command. *)
Definition replay_cancellation (s : CS) (record : ConversationCancelCommandRecord.t)
    (commit : CancelConversationTurnCommit.t) : result StoreError ConversationTurnSnapshot.t :=
  let command := CancelConversationTurnCommit.command commit in
  _ ← reject_if ((ConversationCancelCommandRecord.fingerprint record
                  != MutationCommand.fingerprint command)
                 || (ConversationCancelCommandRecord.turn_id record
                     != CancelConversationTurnCommit.turn_id commit)) Conflict;
  turn ← ok_or (Internal (lit "cancel command lost its turn"))
    (conversation_turns s !! ConversationCancelCommandRecord.turn_id record);
  snapshot ← conversation_snapshot s turn;
  let turn := ConversationTurnSnapshot.turn snapshot in
  _ ← reject_if (negb (ConversationTurnState.is_terminal (ConversationTurn.state turn))
                 || (ConversationTurn.state turn
                     != ConversationCancelCommandRecord.outcome_state record)
                 || (ConversationTurn.revision turn
                     != ConversationCancelCommandRecord.outcome_revision record))
        (Internal (lit "cancel command outcome binding is invalid"));
  Ok snapshot.

(** [commit_conversation_cancellation]. *)
Definition commit_conversation_cancellation (commit : CancelConversationTurnCommit.t)
    (expected_scope : str) : method CS StoreError ConversationTurnSnapshot.t :=
  let command := CancelConversationTurnCommit.command commit in
  let turn_id := CancelConversationTurnCommit.turn_id commit in
  let expected_revision := CancelConversationTurnCommit.expected_turn_revision commit in
  _ ← throw_if (MutationCommand.scope command != expected_scope) Conflict;
  let record_key := (MutationCommand.scope command, MutationCommand.key command) in
  s ← self;
  match conversation_cancel_commands s !! record_key with
  | Some record => lift (replay_cancellation s record commit)
  | None =>
      current ← lift (stored_snapshot s turn_id);
      let turn := ConversationTurnSnapshot.turn current in
      outcome ←
        (if ConversationTurnState.is_terminal (ConversationTurn.state turn) then
           _ ← throw_if (checked_add u64_max expected_revision 1
                         != Some (ConversationTurn.revision turn)) Conflict;
           mret current
         else
           _ ← throw_if (ConversationTurn.revision turn != expected_revision) Conflict;
           terminal ← lift (ok_or Conflict (CancelConversationTurnCommit.terminal commit));
           _ ← throw_if
                 ((ConversationTurn.id (TerminalTurnCommit.turn terminal) != turn_id)
                  || (TerminalTurnCommit.expected_turn_revision terminal != expected_revision)
                  || negb (is_exact_cancellation_edge (ConversationTurn.state turn)
                             (ConversationTurn.state (TerminalTurnCommit.turn terminal)))) Conflict;
           commit_conversation_terminal terminal);
      let turn := ConversationTurnSnapshot.turn outcome in
      _ ← put_cancel_command record_key
            (ConversationCancelCommandRecord.mk (MutationCommand.fingerprint command) turn_id
               (ConversationTurn.state turn) (ConversationTurn.revision turn));
      mret outcome
  end.

(** [commit_cancellation] and [commit_dispatch_exit_reconciliation]. *)
Definition commit_cancellation (commit : CancelConversationTurnCommit.t) :=
  commit_conversation_cancellation commit (lit "cancel_conversation_turn").
Definition commit_dispatch_exit_reconciliation (commit : CancelConversationTurnCommit.t) :=
  commit_conversation_cancellation commit (lit "reconcile_conversation_dispatch_exit").

(** The loop of [append_turn_text] over the chunks. *)
Fixpoint append_chunks (chunks : list str) :
    method ConversationTurnEventLog.t ConversationTurnEventError.t (list ConversationTurnEvent.t) :=
  match chunks with
  | [] => mret []
  | chunk :: chunks' =>
      log ← self;
      event ← ConversationTurnEventLog.append_kind
        (ConversationTurnEventKind.TextAppended (ConversationTurnEventLog.next_utf8_offset log)
           chunk);
      appended ← append_chunks chunks';
      mret (event :: appended)
  end.

(** [append_turn_text]. *)
Definition append_turn_text (turn_id : ConversationTurnId) (expected_turn_revision : Z)
    (start_utf8_offset : Z) (text : str) :
    method CS StoreError (list ConversationTurnEvent.t) :=
  _ ← throw_if (is_empty text) Conflict;
  s ← self;
  turn ← lift (ok_or NotFound (conversation_turns s !! turn_id));
  _ ← throw_if ((ConversationTurn.revision turn != expected_turn_revision)
                || (ConversationTurn.state turn != ConversationTurnState.ProviderStarted)) Conflict;
  current_log ← lift (conversation_event_log s turn_id);
  _ ← lift (map_err (λ _, Conflict)
         (ConversationTurnEventLog.validate_snapshot current_log turn None));
  let current_offset := ConversationTurnEventLog.next_utf8_offset current_log in
  if start_utf8_offset <? current_offset then
    events ← lift (ok_or (Internal (lit "conversation turn lost its event log"))
                     (conversation_events s !! turn_id));
    lift (ok_or Conflict (replayed_text_append events start_utf8_offset text))
  else
    _ ← throw_if (start_utf8_offset != current_offset) Conflict;
    appended ← lift (map_err (λ _, Conflict)
                       (append_chunks (split_conversation_text text) current_log).2);
    _ ← throw_if (is_empty appended) Conflict;
    _ ← extend_turn_events turn_id appended;
    mret appended.

(** [list_turn_events_since]. *)
Definition list_turn_events_since (turn_id : ConversationTurnId) (after_sequence limit : Z) :
    method CS StoreError ConversationTurnEventPage.t :=
  _ ← throw_if (negb (in_range 1 MAX_CONVERSATION_EVENT_BATCH limit)) Conflict;
  s ← self;
  turn ← lift (ok_or NotFound (conversation_turns s !! turn_id));
  log ← lift (conversation_event_log s turn_id);
  let assistant_text :=
    id ← ConversationTurn.assistant_message_id turn;
    message ← messages s !! id;
    Some (Message.content message) in
  _ ← lift (map_err (λ e, Internal (lit "invalid conversation event log: " ++ event_error_text e))
         (ConversationTurnEventLog.validate_snapshot log turn assistant_text));
  events ← lift (ok_or (Internal (lit "conversation turn lost its event log"))
                   (conversation_events s !! turn_id));
  let events := take (Z.to_nat (saturating_add usize_max limit 1))
    (filter (λ e, after_sequence < ConversationTurnEvent.sequence e) events) in
  mret (ConversationTurnEventPage.mk (take (Z.to_nat limit) events)
          (limit <? Z.of_nat (length events))).

(** [collect] of results. *)
Fixpoint collect_results {A B} (f : A → result StoreError B) (l : list A) :
    result StoreError (list B) :=
  match l with
  | [] => Ok []
  | x :: l' => y ← f x; ys ← collect_results f l'; Ok (y :: ys)
  end.

Definition sort_turns (turns : list ConversationTurn.t) : list ConversationTurn.t :=
  InMemory.sort_by_key ConversationTurn.created_at (λ t, as_str (ConversationTurn.id t)) turns.

(** [list_incomplete_turns_for_recovery]. *)
Definition list_incomplete_turns_for_recovery (limit : Z) :
    method CS StoreError (list ConversationTurnSnapshot.t) :=
  s ← self;
  lift (collect_results (conversation_snapshot s)
    (take (Z.to_nat limit) (sort_turns
       (filter (λ t, ConversationTurnState.is_terminal (ConversationTurn.state t) = false)
          (InMemory.values (conversation_turns s)))))).

(** [list_thread_turns]. *)
Definition list_thread_turns (thread_id : ThreadId) (after : option ConversationTurnId)
    (limit : Z) : method CS StoreError (list ConversationTurnSnapshot.t) :=
  s ← self;
  _ ← throw_if (is_none (threads s !! thread_id)) NotFound;
  page ← lift (after_position
    (sort_turns (filter (λ t, ConversationTurn.thread_id t = thread_id)
       (InMemory.values (conversation_turns s))))
    (as_str <$> after) limit (λ t, as_str (ConversationTurn.id t)));
  lift (collect_results (conversation_snapshot s) page).

(** The turns a usage summary counts. *)
Definition usage_counts (scope : UsageScope.t) (lower : option Z) (as_of : Z)
    (turn : ConversationTurn.t) : bool :=
  (ConversationTurn.state turn == ConversationTurnState.Completed)
  && (ConversationTurn.created_at turn <=? as_of)
  && match lower with Some since => since <=? ConversationTurn.created_at turn | None => true end
  && match scope with
     | UsageScope.Workspace => true
     | UsageScope.Project project_id => ConversationTurn.project_id turn == project_id
     | UsageScope.Thread thread_id => ConversationTurn.thread_id turn == thread_id
     end.

(** One round of the loop of [summarize_usage]. *)
Definition add_usage (total : Z * Z * Z * Z) (turn : ConversationTurn.t) : Z * Z * Z * Z :=
  let '(input_tokens, output_tokens, cost_in_usd_ticks, turn_count) := total in
  let usage := ConversationTurn.usage turn in
  (saturating_add u64_max input_tokens (ConversationUsage.input_tokens usage),
   saturating_add u64_max output_tokens (ConversationUsage.output_tokens usage),
   saturating_add u64_max cost_in_usd_ticks (ConversationUsage.cost_in_usd_ticks usage),
   saturating_add u64_max turn_count 1).

(** [summarize_usage]. *)
Definition summarize_usage (scope : UsageScope.t) (window : UsageWindow.t) (as_of : Z) :
    method CS StoreError UsageSummary.t :=
  s ← self;
  _ ← throw_if match scope with
               | UsageScope.Workspace => false
               | UsageScope.Project project_id => is_none (projects s !! project_id)
               | UsageScope.Thread thread_id => is_none (threads s !! thread_id)
               end NotFound;
  let lower := window_lower_bound window as_of in
  let '(input_tokens, output_tokens, cost_in_usd_ticks, turn_count) :=
    foldl (λ total turn, if usage_counts scope lower as_of turn then add_usage total turn else total)
      (0, 0, 0, 0) (InMemory.values (conversation_turns s)) in
  mret (UsageSummary.mk input_tokens output_tokens cost_in_usd_ticks turn_count scope window as_of).

(** [retry_source_is_latest]. *)
Definition retry_source_is_latest (id : ConversationTurnId) : method CS StoreError bool :=
  s ← self;
  turn ← lift (ok_or NotFound (conversation_turns s !! id));
  _ ← lift (conversation_snapshot s turn);
  user ← lift (ok_or (Internal (lit "retry source lost its user message"))
                 (messages s !! ConversationTurn.user_message_id turn));
  mret ((newest_sequence s (ConversationTurn.thread_id turn) == Some (Message.sequence user))
        && negb (has_retry_child s id)).

(** [thread_credential_binding] and [thread_model_binding]. *)
Definition thread_credential_binding (thread_id : ThreadId) :
    method CS StoreError ConversationThreadCredentialBinding.t :=
  s ← self;
  _ ← throw_if (is_none (threads s !! thread_id)) NotFound;
  mret match conversation_thread_bindings s !! thread_id with
       | Some binding => ConversationThreadCredentialBinding.Bound binding
       | None => if thread_has_turn s thread_id
                 then ConversationThreadCredentialBinding.LegacyUnbound
                 else ConversationThreadCredentialBinding.UnboundEmpty
       end.
Definition thread_model_binding (thread_id : ThreadId) :
    method CS StoreError ConversationThreadModelBinding.t :=
  s ← self;
  _ ← throw_if (is_none (threads s !! thread_id)) NotFound;
  mret match conversation_thread_models s !! thread_id with
       | Some model => ConversationThreadModelBinding.Bound model
       | None => if thread_has_turn s thread_id
                 then ConversationThreadModelBinding.LegacyUnbound
                 else ConversationThreadModelBinding.UnboundEmpty
       end.
End operations.
End ConversationMemory.

(** ** The usage service ([UsageSummaryService]) *)

Module UsageSummaryService.
(** [map_store]. *)
Definition map_store (error : StoreError) : ApplicationError.t :=
  match error with
  | NotFound => ApplicationError.NotFound
  | Conflict => ApplicationError.Conflict
  | Unavailable message => ApplicationError.Unavailable (Text message)
  | Internal message => ApplicationError.Storage (Text message)
  end.

(** [summarize]: [now] is the reading of the clock. *)
Definition summarize (now : Z) (scope : UsageScope.t) (window : UsageWindow.t) :
    method CS ApplicationError.t UsageSummary.t :=
  λ s, let '(s', r) := ConversationMemory.summarize_usage scope window now s in
       (s', map_err map_store r).
End UsageSummaryService.
