(* ===== verification/ForkStore.v ===== *)
(** * Conversation forks

    Forking a conversation ([crates/grok-application/src/conversation.rs], the fork part of
    [ConversationTurnStore], and its in-memory implementation in
    [crates/grok-memory/src/lib.rs]): a child thread that copies the context of a finished
    turn, the commands that lead to a child, the journal of its delivery to the user
    interface, and the bounded metadata of a family of threads. *)
From stdpp Require Import sorting.
From S2P Require Import Prelude RustText Ids Runs Approvals Effects ConversationTurns TurnEvents Schedules Scheduler Workspace ExecutionStore Commands WorkspaceStore ConversationStore.

Definition MAX_CONVERSATION_FORK_DIRECT_CHILDREN : Z := 64.
Definition MAX_CONVERSATION_FORK_FAMILY_THREADS : Z := 256.
Definition MAX_CONVERSATION_FORK_DELIVERY_ALIASES : Z := 64.
Definition MAX_CONVERSATION_FORK_INHERITED_OUTCOMES : Z := 256.
Definition MAX_CONVERSATION_FORK_METADATA_BYTES : Z := 3 * 1024 * 1024.

Definition CONVERSATION_BRANCH_COMMAND_SCOPE : str := lit "branch_conversation_thread".
Definition CONVERSATION_EDIT_BRANCH_COMMAND_SCOPE : str := lit "edit_and_branch_conversation_turn".
Definition CONVERSATION_REGENERATE_COMMAND_SCOPE : str := lit "regenerate_conversation_turn".
Definition ACK_SCOPE : str := lit "acknowledge_conversation_fork_delivery".

(** ** The port *)

Module ConversationForkDelivery.
Record t : Type := mk {
  child_thread_id : ThreadId;
  state : ConversationForkDeliveryState.t;
  revision : Z;
}.
End ConversationForkDelivery.

Module ConversationInheritedAssistantOutcome.
Record t : Type := mk {
  child_assistant_message_id : MessageId;
  source_turn_id : ConversationTurnId;
  model_id : str;
  citations : list ConversationCitation.t;
  usage : ConversationUsage.t;
  zero_data_retention : option bool;
}.
End ConversationInheritedAssistantOutcome.

Module ConversationForkMetadata.
Record t : Type := mk {
  lineage : ConversationThreadLineage.t;
  inherited_assistant_outcomes : list ConversationInheritedAssistantOutcome.t;
  family_threads : list Thread.t;
}.
End ConversationForkMetadata.

Module ConversationForkSnapshot.
Record t : Type := mk {
  child_thread : Thread.t;
  messages : list Message.t;
  started_turn : option ConversationTurnSnapshot.t;
  delivery : ConversationForkDelivery.t;
}.
End ConversationForkSnapshot.

Module ConversationForkCommandResolution.
Record t : Type := mk {
  snapshot : ConversationForkSnapshot.t;
  reconciled_pending_delivery : bool;
}.
End ConversationForkCommandResolution.

Module ConversationForkReservation.
Record t : Type := mk {
  snapshot : ConversationForkSnapshot.t;
  context : option (list Message.t);
  created : bool;
  reconciled_pending_delivery : bool;
}.
End ConversationForkReservation.

Module ConversationForkTurnPlan.
Record t : Type := mk {
  turn : ConversationTurn.t;
  lineage : ConversationTurnLineage.t;
  run : Run.t;
  run_event : NewRunEvent.t;
  turn_event : ConversationTurnEventKind.t;
}.
End ConversationForkTurnPlan.

Module ConversationForkPlan.
Record t : Type := mk {
  command : MutationCommand.t;
  source_turn_id : ConversationTurnId;
  expected_source_revision : Z;
  child_thread : Thread.t;
  messages : list Message.t;
  started_turn : option ConversationForkTurnPlan.t;
}.
End ConversationForkPlan.

(** ** The size of fork metadata *)

Section metadata_bytes.
Definition METADATA_OVERHEAD : Z := 256.
Definition LINEAGE_OVERHEAD : Z := 96.
Definition THREAD_OVERHEAD : Z := 192.
Definition OUTCOME_OVERHEAD : Z := 192.
Definition CITATION_OVERHEAD : Z := 32.

(** [add], several times in a row. *)
Fixpoint add_all (values : list Z) (total : Z) : option Z :=
  match values with
  | [] => Some total
  | value :: values' => total ← checked_add usize_max total value; add_all values' total
  end.
(** A [for] loop that adds for each item. *)
Fixpoint add_each {A} (add : A → Z → option Z) (items : list A) (total : Z) : option Z :=
  match items with
  | [] => Some total
  | item :: items' => total ← add item total; add_each add items' total
  end.

Definition add_lineage (lineage : ConversationThreadLineage.t) (total : Z) : option Z :=
  total ← add_all [LINEAGE_OVERHEAD;
                   len (as_str (ConversationThreadLineage.root_thread_id lineage))] total;
  match ConversationThreadLineage.origin lineage with
  | ConversationThreadOrigin.Fork parent_thread_id source_turn_id source_message_id _ =>
      add_all [len (as_str parent_thread_id); len (as_str source_turn_id);
               len (as_str source_message_id)] total
  | ConversationThreadOrigin.Original => Some total
  end.
Definition add_thread (thread : Thread.t) (total : Z) : option Z :=
  total ← add_all [THREAD_OVERHEAD; len (as_str (Thread.id thread));
                   len (as_str (Thread.project_id thread)); len (Thread.title thread)] total;
  add_lineage (Thread.lineage thread) total.
Definition add_citation (citation : ConversationCitation.t) : Z → option Z :=
  add_all [CITATION_OVERHEAD; len (ConversationCitation.url citation);
           match ConversationCitation.title citation with Some title => len title | None => 0 end].
Definition add_outcome (outcome : ConversationInheritedAssistantOutcome.t) (total : Z) :
    option Z :=
  total ← add_all
    [OUTCOME_OVERHEAD;
     len (as_str (ConversationInheritedAssistantOutcome.child_assistant_message_id outcome));
     len (as_str (ConversationInheritedAssistantOutcome.source_turn_id outcome));
     len (ConversationInheritedAssistantOutcome.model_id outcome)] total;
  add_each add_citation (ConversationInheritedAssistantOutcome.citations outcome) total.

(** [conversation_fork_metadata_estimated_bytes]. *)
Definition conversation_fork_metadata_estimated_bytes (metadata : ConversationForkMetadata.t) :
    option Z :=
  total ← add_lineage (ConversationForkMetadata.lineage metadata) METADATA_OVERHEAD;
  total ← add_each add_thread (ConversationForkMetadata.family_threads metadata) total;
  add_each add_outcome (ConversationForkMetadata.inherited_assistant_outcomes metadata) total.

(** [conversation_fork_metadata_is_within_bounds]. *)
Definition conversation_fork_metadata_is_within_bounds (metadata : ConversationForkMetadata.t) :
    bool :=
  let threads := ConversationForkMetadata.family_threads metadata in
  let outcomes := ConversationForkMetadata.inherited_assistant_outcomes metadata in
  negb (is_empty threads)
  && (Z.of_nat (length threads) <=? MAX_CONVERSATION_FORK_FAMILY_THREADS)
  && (Z.of_nat (length outcomes) <=? MAX_CONVERSATION_FORK_INHERITED_OUTCOMES)
  && match conversation_fork_metadata_estimated_bytes metadata with
     | Some bytes => bytes <=? MAX_CONVERSATION_FORK_METADATA_BYTES
     | None => false
     end.
End metadata_bytes.

(** ** Commands and their kinds *)

(** [conversation_fork_scope_is_supported]. *)
Definition conversation_fork_scope_is_supported (scope : str) : bool :=
  (scope == CONVERSATION_BRANCH_COMMAND_SCOPE)
  || (scope == CONVERSATION_EDIT_BRANCH_COMMAND_SCOPE)
  || (scope == CONVERSATION_REGENERATE_COMMAND_SCOPE).

(** [conversation_fork_scope_matches]. *)
Definition conversation_fork_scope_matches (scope : str) (kind : ConversationForkKind.t) : bool :=
  match kind with
  | ConversationForkKind.Branch => scope == CONVERSATION_BRANCH_COMMAND_SCOPE
  | ConversationForkKind.EditAndBranch => scope == CONVERSATION_EDIT_BRANCH_COMMAND_SCOPE
  | ConversationForkKind.Regenerate => scope == CONVERSATION_REGENERATE_COMMAND_SCOPE
  end.

(** [conversation_fork_kind]. *)
Definition conversation_fork_kind (thread : Thread.t) : result StoreError ConversationForkKind.t :=
  match ConversationThreadLineage.origin (Thread.lineage thread) with
  | ConversationThreadOrigin.Fork _ _ _ kind => Ok kind
  | ConversationThreadOrigin.Original => Err Conflict
  end.

Definition fork_command_key (command : MutationCommand.t) : str * str :=
  (MutationCommand.scope command, MutationCommand.key command).

(** ** Where a copied answer comes from *)

Section forks.
Context `{UrlParser}.
Import ConversationState.

Definition provenance_invalid : StoreError :=
  Internal (lit "inherited assistant provenance is invalid").

(** The loop of [validate_inherited_assistant_provenance]; its fuel is the bound of the
    loop. *)
Fixpoint provenance_walk (rounds : nat) (s : CS) (source_assistant : Message.t)
    (source_turn_id : ConversationTurnId) (visited : list MessageId) (current : Message.t) :
    result StoreError unit :=
  match rounds with
  | O => Err (Internal (lit "inherited assistant provenance exceeds its bound"))
  | S rounds' =>
      _ ← reject_if ((Message.role current != MessageRole.Assistant)
                     || (Message.state current != MessageState.Active)
                     || (Message.content current != Message.content source_assistant)
                     || bool_decide (Message.id current ∈ visited)) provenance_invalid;
      if Message.id current == Message.id source_assistant then Ok tt
      else
        _ ← reject_if (conversation_inherited_outcomes s !! Message.id current
                       != Some source_turn_id) provenance_invalid;
        match Message.derivation current with
        | ConversationMessageDerivation.Original => Err provenance_invalid
        | ConversationMessageDerivation.Fork kind source_message_id
            derivation_source_turn_id _ =>
            _ ← reject_if
                  ((kind == ConversationMessageDerivationKind.EditedUser)
                   || ((kind == ConversationMessageDerivationKind.SourceAssistantCopy)
                       && (derivation_source_turn_id != source_turn_id))) provenance_invalid;
            next ← ok_or (Internal (lit "inherited assistant provenance lost its source"))
              (messages s !! source_message_id);
            provenance_walk rounds' s source_assistant source_turn_id
              (Message.id current :: visited) next
        end
  end.

(** [validate_inherited_assistant_provenance]. *)
Definition validate_inherited_assistant_provenance (s : CS) (message source_assistant : Message.t)
    (source_turn_id : ConversationTurnId) : result StoreError unit :=
  provenance_walk (Z.to_nat (MAX_CONVERSATION_FORK_FAMILY_THREADS + 1)) s source_assistant
    source_turn_id [] message.

Definition outcome_inconsistent : StoreError :=
  Internal (lit "inherited assistant outcome is inconsistent").

(** The turns a message is the answer of. *)
Definition answered_turns (s : CS) (message_id : MessageId) : list ConversationTurnId :=
  map ConversationTurn.id
    (filter (λ turn, ConversationTurn.assistant_message_id turn = Some message_id)
       (InMemory.values (conversation_turns s))).

(** [inherited_source_turn]. *)
Definition inherited_source_turn (s : CS) (source_message : Message.t) :
    result StoreError ConversationTurnId :=
  source_turn_id ←
    match answered_turns s (Message.id source_message),
          conversation_inherited_outcomes s !! Message.id source_message with
    | [turn_id], None => Ok turn_id
    | [], Some turn_id => Ok turn_id
    | _, _ => Err (Internal (lit "copied assistant has ambiguous or missing outcome lineage"))
    end;
  source_turn ← ok_or (Internal (lit "inherited outcome lost its source turn"))
    (conversation_turns s !! source_turn_id);
  snapshot ← conversation_snapshot s source_turn;
  source_assistant ← ok_or outcome_inconsistent
    (ConversationTurnSnapshot.assistant_message snapshot);
  _ ← reject_if
        ((ConversationTurn.state (ConversationTurnSnapshot.turn snapshot)
          != ConversationTurnState.Completed)
         || (Message.content source_assistant != Message.content source_message)
         || negb (is_ok (validate_inherited_assistant_provenance s source_message
                           source_assistant source_turn_id))) outcome_inconsistent;
  Ok source_turn_id.

(** ** Checking a plan *)

(** [validate_fork_source_context]: the loop, then the last message. *)
Definition source_context_invalid : StoreError :=
  Internal (lit "conversation fork source context is invalid").
Fixpoint source_context_ordered (thread_id : ThreadId) (previous_sequence : Z)
    (ids : list MessageId) (context : list Message.t) : result StoreError unit :=
  match context with
  | [] => Ok tt
  | message :: context' =>
      _ ← reject_if (negb (is_ok (Message.restore message))
                     || (Message.thread_id message != thread_id)
                     || (Message.state message != MessageState.Active)
                     || (Message.sequence message <=? previous_sequence)
                     || bool_decide (Message.id message ∈ ids)) source_context_invalid;
      source_context_ordered thread_id (Message.sequence message) (Message.id message :: ids)
        context'
  end.
Definition validate_fork_source_context (source : ConversationTurnSnapshot.t)
    (context : list Message.t) : result StoreError unit :=
  _ ← map_err (λ _, source_context_invalid) (validate_context context);
  _ ← source_context_ordered (ConversationTurn.thread_id (ConversationTurnSnapshot.turn source))
        0 [] context;
  reject_if (last context != Some (ConversationTurnSnapshot.user_message source))
    (Internal (lit "conversation fork source context has an invalid final user message")).

(** [validate_new_fork_message]: the identifiers used so far are returned. *)
Definition validate_new_fork_message (s : CS) (ids : list MessageId)
    (actual expected : Message.t) : result StoreError (list MessageId) :=
  _ ← reject_if ((actual != expected) || is_some (messages s !! Message.id actual)
                 || bool_decide (Message.id actual ∈ ids)) Conflict;
  Ok (Message.id actual :: ids).

(** The copy of one message of the source context, at the given position. *)
Definition context_copy (plan : ConversationForkPlan.t) (turn_id : ConversationTurnId)
    (position : Z) (message source_message : Message.t) : result StoreError Message.t :=
  let child := ConversationForkPlan.child_thread plan in
  _ ← reject_if (u32_max <? position) Conflict;
  map_err (λ _, Conflict)
    (Message.new_derived (Message.id message) (Thread.id child) position
       (Message.role source_message) (Message.content source_message) (Message.id source_message)
       turn_id (Some position) ConversationMessageDerivationKind.ContextCopy
       (Thread.created_at child)).

(** The loop of [validate_fork_messages] over the copied messages. *)
Fixpoint validate_context_copies (s : CS) (plan : ConversationForkPlan.t)
    (turn_id : ConversationTurnId) (position : Z) (ids : list MessageId)
    (inherited : list (MessageId * ConversationTurnId)) (copies : list (Message.t * Message.t)) :
    result StoreError (list MessageId * list (MessageId * ConversationTurnId)) :=
  match copies with
  | [] => Ok (ids, inherited)
  | (message, source_message) :: copies' =>
      expected ← context_copy plan turn_id position message source_message;
      ids ← validate_new_fork_message s ids message expected;
      inherited ←
        if Message.role source_message == MessageRole.Assistant then
          source ← inherited_source_turn s source_message;
          Ok (inherited ++ [(Message.id message, source)])
        else Ok inherited;
      validate_context_copies s plan turn_id (position + 1) ids inherited copies'
  end.

(** [validate_fork_messages]: the number of messages a plan of the kind has. *)
Definition context_copy_count (kind : ConversationForkKind.t) (source_context : list Message.t) :
    option nat :=
  match kind with
  | ConversationForkKind.EditAndBranch =>
      match length source_context with O => None | S n => Some n end
  | _ => Some (length source_context)
  end.
Definition extra_message_count (kind : ConversationForkKind.t) : nat :=
  match kind with
  | ConversationForkKind.Branch | ConversationForkKind.EditAndBranch => 1
  | ConversationForkKind.Regenerate => 0
  end.

(** The messages a branch and an edit add to the copied context. *)
Definition branch_copy (plan : ConversationForkPlan.t) (turn_id : ConversationTurnId)
    (message source_assistant : Message.t) : result StoreError Message.t :=
  let child := ConversationForkPlan.child_thread plan in
  map_err (λ _, Conflict)
    (Message.new_derived (Message.id message) (Thread.id child)
       (Z.of_nat (length (ConversationForkPlan.messages plan))) MessageRole.Assistant
       (Message.content source_assistant) (Message.id source_assistant) turn_id None
       ConversationMessageDerivationKind.SourceAssistantCopy (Thread.created_at child)).
Definition edited_prompt (plan : ConversationForkPlan.t) (turn_id : ConversationTurnId)
    (source_context : list Message.t) (message source_user : Message.t) :
    result StoreError Message.t :=
  let child := ConversationForkPlan.child_thread plan in
  let position := Z.of_nat (length source_context) in
  _ ← reject_if (u32_max <? position) Conflict;
  map_err (λ _, Conflict)
    (Message.new_derived (Message.id message) (Thread.id child)
       (Z.of_nat (length (ConversationForkPlan.messages plan))) MessageRole.User
       (Message.content message) (Message.id source_user) turn_id (Some position)
       ConversationMessageDerivationKind.EditedUser (Thread.created_at child)).

(** [validate_fork_messages]. *)
Definition validate_fork_messages (s : CS) (plan : ConversationForkPlan.t)
    (source : ConversationTurnSnapshot.t) (source_context : list Message.t)
    (kind : ConversationForkKind.t) :
    result StoreError (list (MessageId * ConversationTurnId) * option (list Message.t)) :=
  let planned := ConversationForkPlan.messages plan in
  let turn_id := ConversationTurn.id (ConversationTurnSnapshot.turn source) in
  copied ← ok_or Conflict (context_copy_count kind source_context);
  _ ← reject_if (negb (Nat.eqb (length planned) (copied + extra_message_count kind))
                 || is_empty planned) Conflict;
  '(ids, inherited) ← validate_context_copies s plan turn_id 1 [] []
                        (zip (take copied planned) source_context);
  match kind with
  | ConversationForkKind.Branch =>
      source_assistant ← ok_or Conflict (ConversationTurnSnapshot.assistant_message source);
      message ← ok_or Conflict (last planned);
      expected ← branch_copy plan turn_id message source_assistant;
      _ ← validate_new_fork_message s ids message expected;
      Ok (inherited ++ [(Message.id message, turn_id)], None)
  | ConversationForkKind.EditAndBranch =>
      message ← ok_or Conflict (last planned);
      _ ← reject_if (Message.content message
                     == Message.content (ConversationTurnSnapshot.user_message source)) Conflict;
      expected ← edited_prompt plan turn_id source_context message
                   (ConversationTurnSnapshot.user_message source);
      _ ← validate_new_fork_message s ids message expected;
      _ ← validate_context planned;
      Ok (inherited, Some planned)
  | ConversationForkKind.Regenerate =>
      _ ← validate_context planned;
      Ok (inherited, Some planned)
  end.

(** The turn a plan starts, as [validate_fork_turn_plan] expects it. *)
Definition fork_origin (kind : ConversationForkKind.t) (source_turn_id : ConversationTurnId) :
    result StoreError ConversationTurnOrigin.t :=
  match kind with
  | ConversationForkKind.EditAndBranch => Ok (ConversationTurnOrigin.EditAndBranch source_turn_id)
  | ConversationForkKind.Regenerate => Ok (ConversationTurnOrigin.Regenerate source_turn_id)
  | ConversationForkKind.Branch => Err Conflict
  end.
Definition fork_turn_refused (s : CS) (plan : ConversationForkPlan.t)
    (turn_plan : ConversationForkTurnPlan.t) (source : ConversationTurnSnapshot.t)
    (credential_binding_id : str) (user_message : Message.t)
    (expected_origin : ConversationTurnOrigin.t) : bool :=
  let turn := ConversationForkTurnPlan.turn turn_plan in
  let lineage := ConversationForkTurnPlan.lineage turn_plan in
  let child := ConversationForkPlan.child_thread plan in
  (ConversationTurnLineage.origin lineage != expected_origin)
  || (ConversationTurnLineage.credential_binding_id lineage != Some credential_binding_id)
  || (ConversationTurnLineage.retry_depth lineage != 0)
  || negb (is_ok (ConversationTurnLineage.restore lineage (ConversationTurn.id turn)))
  || (ConversationTurn.idempotency_key turn
      != MutationCommand.key (ConversationForkPlan.command plan))
  || (ConversationTurn.request_fingerprint turn
      != MutationCommand.fingerprint (ConversationForkPlan.command plan))
  || (ConversationTurn.project_id turn != Thread.project_id child)
  || (ConversationTurn.thread_id turn != Thread.id child)
  || (ConversationTurn.user_message_id turn != Message.id user_message)
  || (ConversationTurn.model_id turn
      != ConversationTurn.model_id (ConversationTurnSnapshot.turn source))
  || (ConversationTurn.created_at turn != Thread.created_at child)
  || (ConversationTurn.state turn != ConversationTurnState.Reserved)
  || (ConversationTurn.revision turn != 0)
  || (Message.role user_message != MessageRole.User)
  || is_some (conversation_turns s !! ConversationTurn.id turn)
  || is_some (runs s !! Run.id (ConversationForkTurnPlan.run turn_plan))
  || is_some (conversation_turn_keys s !! ConversationTurn.idempotency_key turn).

(** [validate_fork_turn_plan]. *)
Definition validate_fork_turn_plan (s : CS) (plan : ConversationForkPlan.t)
    (source : ConversationTurnSnapshot.t) (credential_binding_id : str)
    (context : option (list Message.t)) (kind : ConversationForkKind.t) :
    result StoreError (option ConversationTurnEvent.t) :=
  match kind with
  | ConversationForkKind.Branch =>
      _ ← reject_if (negb (is_none (ConversationForkPlan.started_turn plan) && is_none context))
            Conflict;
      Ok None
  | _ =>
      turn_plan ← ok_or Conflict (ConversationForkPlan.started_turn plan);
      context ← ok_or Conflict context;
      user_message ← ok_or Conflict (last context);
      let turn := ConversationForkTurnPlan.turn turn_plan in
      let run := ConversationForkTurnPlan.run turn_plan in
      let child := ConversationForkPlan.child_thread plan in
      expected_origin ← fork_origin kind
                          (ConversationTurn.id (ConversationTurnSnapshot.turn source));
      _ ← reject_if (fork_turn_refused s plan turn_plan source credential_binding_id
                       user_message expected_origin) Conflict;
      _ ← reject_if
            ((run != Run.queued (Run.id run) (Thread.project_id child) (Thread.id child)
                       (Thread.created_at child))
             || (Run.id run != ConversationTurn.run_id turn)
             || (ConversationForkTurnPlan.run_event turn_plan
                 != NewRunEvent.mk (Thread.created_at child) RunCreated)
             || (ConversationForkTurnPlan.turn_event turn_plan
                 != ConversationTurnEventKind.Created)) Conflict;
      _ ← reject_if (negb (is_canonical_conversation_snapshot
             (ConversationTurnSnapshot.mk turn user_message None run None
                (ConversationForkTurnPlan.lineage turn_plan)))) Conflict;
      let '(event_log, appended) :=
        ConversationTurnEventLog.append_kind ConversationTurnEventKind.Created
          (ConversationTurnEventLog.new (ConversationTurn.id turn)) in
      event ← map_err (λ _, Conflict) appended;
      _ ← map_err (λ _, Conflict)
            (ConversationTurnEventLog.validate_snapshot event_log turn None);
      Ok (Some event)
  end.

(** The outcome a copied answer shows. *)
Definition inherited_outcome (message_id : MessageId) (source_turn_id : ConversationTurnId)
    (turn : ConversationTurn.t) : ConversationInheritedAssistantOutcome.t :=
  ConversationInheritedAssistantOutcome.mk message_id source_turn_id
    (ConversationTurn.model_id turn) (ConversationTurn.citations turn)
    (ConversationTurn.usage turn) (ConversationTurn.zero_data_retention turn).
(** Whether the turn completed with the content of the message. *)
Definition completed_with (source : ConversationTurnSnapshot.t) (content : str) : bool :=
  (ConversationTurn.state (ConversationTurnSnapshot.turn source)
   == ConversationTurnState.Completed)
  && match ConversationTurnSnapshot.assistant_message source with
     | Some assistant => Message.content assistant == content
     | None => false
     end.

(** The threads of a family. *)
Definition family (s : CS) (root_thread_id : ThreadId) : list Thread.t :=
  filter (λ thread, ConversationThreadLineage.root_thread_id (Thread.lineage thread)
                    = root_thread_id) (InMemory.values (threads s)).
Definition forked_from (parent : ThreadId) (thread : Thread.t) : bool :=
  match ConversationThreadLineage.origin (Thread.lineage thread) with
  | ConversationThreadOrigin.Fork parent_thread_id _ _ _ => parent_thread_id == parent
  | ConversationThreadOrigin.Original => false
  end.
Definition direct_children (s : CS) (parent : ThreadId) : list Thread.t :=
  filter (λ thread, forked_from parent thread = true) (InMemory.values (threads s)).

(** [validate_projected_fork_metadata_budget]. *)
Definition projected_outcome (s : CS) (plan : ConversationForkPlan.t)
    (entry : MessageId * ConversationTurnId) :
    result StoreError ConversationInheritedAssistantOutcome.t :=
  let '(child_message_id, source_turn_id) := entry in
  child_message ← ok_or Conflict
    (head (filter (λ m, Message.id m = child_message_id) (ConversationForkPlan.messages plan)));
  source_turn ← ok_or Conflict (conversation_turns s !! source_turn_id);
  source ← conversation_snapshot s source_turn;
  _ ← reject_if (negb (completed_with source (Message.content child_message))) Conflict;
  Ok (inherited_outcome child_message_id source_turn_id (ConversationTurnSnapshot.turn source)).
Definition validate_projected_fork_metadata_budget (s : CS) (plan : ConversationForkPlan.t)
    (inherited_outcomes : list (MessageId * ConversationTurnId)) : result StoreError unit :=
  let child := ConversationForkPlan.child_thread plan in
  _ ← reject_if (MAX_CONVERSATION_FORK_INHERITED_OUTCOMES
                 <? Z.of_nat (length inherited_outcomes)) Conflict;
  let family_threads :=
    family s (ConversationThreadLineage.root_thread_id (Thread.lineage child)) ++ [child] in
  outcomes ← ConversationMemory.collect_results (projected_outcome s plan) inherited_outcomes;
  reject_if (negb (conversation_fork_metadata_is_within_bounds
                     (ConversationForkMetadata.mk (Thread.lineage child) outcomes
                        family_threads))) Conflict.

(** The checks of [prepare_conversation_fork] on the source, its thread and project. *)
Definition fork_source (s : CS) (plan : ConversationForkPlan.t) (child : Thread.t) :
    result StoreError (ConversationTurnSnapshot.t * Thread.t) :=
  source_turn ← ok_or NotFound
    (conversation_turns s !! ConversationForkPlan.source_turn_id plan);
  source ← conversation_snapshot s source_turn;
  let turn := ConversationTurnSnapshot.turn source in
  _ ← reject_if (ConversationTurn.revision turn
                 != ConversationForkPlan.expected_source_revision plan) Conflict;
  parent ← ok_or (Internal (lit "conversation fork source lost its thread"))
    (threads s !! ConversationTurn.thread_id turn);
  _ ← map_err (λ _, Internal (lit "conversation fork parent is invalid"))
        (Thread.restore parent);
  _ ← validate_persisted_thread_lineage s parent;
  project ← ok_or (Internal (lit "conversation fork source lost its project"))
    (projects s !! ConversationTurn.project_id turn);
  _ ← reject_if ((Project.state project != ProjectState.Active)
                 || (Thread.project_id parent != ConversationTurn.project_id turn)
                 || (Thread.project_id child != ConversationTurn.project_id turn)
                 || (Thread.title child != Thread.title parent)
                 || (Thread.created_at child <? ConversationTurn.updated_at turn)
                 || (Thread.created_at child <? Thread.updated_at parent)) Conflict;
  Ok (source, parent).

(** The checks on the family of the parent. *)
Definition check_family (s : CS) (parent : Thread.t) : result StoreError unit :=
  let root_id := ConversationThreadLineage.root_thread_id (Thread.lineage parent) in
  root ← ok_or (Internal (lit "conversation fork family lost its root")) (threads s !! root_id);
  _ ← reject_if
        ((Thread.project_id root != Thread.project_id parent)
         || (ConversationThreadLineage.root_thread_id (Thread.lineage root) != Thread.id root)
         || (ConversationThreadLineage.origin (Thread.lineage root)
             != ConversationThreadOrigin.Original))
        (Internal (lit "conversation fork family root is invalid"));
  reject_if
    ((MAX_CONVERSATION_FORK_DIRECT_CHILDREN
      <=? Z.of_nat (length (direct_children s (Thread.id parent))))
     || (MAX_CONVERSATION_FORK_FAMILY_THREADS <=? Z.of_nat (length (family s root_id)))) Conflict.

Record PreparedConversationFork : Type := Prepared {
  pf_credential_binding_id : str;
  pf_model_id : str;
  pf_inherited_outcomes : list (MessageId * ConversationTurnId);
  pf_context : option (list Message.t);
  pf_created_turn_event : option ConversationTurnEvent.t;
}.

(** [prepare_conversation_fork]. *)
Definition prepare_conversation_fork (s : CS) (plan : ConversationForkPlan.t) :
    result StoreError PreparedConversationFork :=
  let command := ConversationForkPlan.command plan in
  _ ← reject_if (is_empty (MutationCommand.key command)
                 || (128 <? len (MutationCommand.key command))) Conflict;
  child ← map_err (λ _, Conflict) (Thread.restore (ConversationForkPlan.child_thread plan));
  kind ← conversation_fork_kind child;
  _ ← reject_if (negb (conversation_fork_scope_matches (MutationCommand.scope command) kind)
                 || is_some (threads s !! Thread.id child)
                 || is_some (conversation_thread_bindings s !! Thread.id child)
                 || is_some (conversation_thread_models s !! Thread.id child)) Conflict;
  '(source, parent) ← fork_source s plan child;
  let turn := ConversationTurnSnapshot.turn source in
  source_context ← ok_or (Internal (lit "conversation fork source lost its context"))
    (conversation_contexts s !! ConversationTurn.id turn);
  _ ← validate_fork_source_context source source_context;
  source_message ← ok_or (Internal (lit "completed fork source lost its assistant"))
    (fork_source_message kind source);
  expected_child ← map_err (λ _, Conflict)
    (Thread.new_fork (Thread.id child) (Thread.project_id parent) (Thread.title parent)
       (Thread.id parent) (Thread.lineage parent) (ConversationTurn.id turn)
       (Message.id source_message) (Message.role source_message) kind
       (Thread.created_at child));
  _ ← reject_if (child != expected_child) Conflict;
  _ ← ensure_fork_source_state kind source;
  credential_binding_id ← ok_or Conflict
    (ConversationTurnLineage.credential_binding_id (ConversationTurnSnapshot.lineage source));
  _ ← reject_if (conversation_thread_bindings s !! Thread.id parent
                 != Some credential_binding_id) Conflict;
  _ ← check_family s parent;
  '(inherited_outcomes, provider_context) ←
    validate_fork_messages s plan source source_context kind;
  created_turn_event ←
    validate_fork_turn_plan s plan source credential_binding_id provider_context kind;
  _ ← validate_projected_fork_metadata_budget s plan inherited_outcomes;
  Ok (Prepared credential_binding_id (ConversationTurn.model_id turn) inherited_outcomes
        provider_context created_turn_event).

(** ** Reading a fork back *)

(** [fork_command_context]. *)
Definition fork_command_context (s : CS) (record : ConversationForkCommandRecord.t) :
    result StoreError (option (list Message.t)) :=
  linked (conversation_contexts s) (ConversationForkCommandRecord.started_turn_id record)
    (Internal (lit "conversation fork turn lost its immutable context")).

(** The commands that lead to a child: the one that created it, and its aliases. *)
Definition child_commands (s : CS) (canonical : bool) (child : ThreadId) :
    list ((str * str) * ConversationForkCommandRecord.t) :=
  filter (λ entry, ConversationForkCommandRecord.canonical entry.2 = canonical
                   ∧ ConversationForkCommandRecord.child_thread_id entry.2 = child)
    (map_to_list (conversation_fork_commands s)).

Definition delivery_lifecycle (record : ConversationForkDeliveryRecord.t) : bool :=
  match ConversationForkDeliveryRecord.state record with
  | ConversationForkDeliveryState.Pending => ConversationForkDeliveryRecord.revision record =? 0
  | ConversationForkDeliveryState.Acknowledged =>
      ConversationForkDeliveryRecord.revision record =? 1
  end.

(** [conversation_fork_delivery]. *)
Definition conversation_fork_delivery (s : CS) (child_thread_id : ThreadId) :
    result StoreError ConversationForkDelivery.t :=
  record ← ok_or (Internal (lit "conversation fork lost its delivery journal"))
    (conversation_fork_deliveries s !! child_thread_id);
  '(scope, command) ←
    match child_commands s true child_thread_id with
    | [((scope, _), command)] => Ok (scope, command)
    | _ => Err (Internal (lit "conversation fork delivery has an invalid canonical command"))
    end;
  let aliases := child_commands s false child_thread_id in
  _ ← reject_if
        ((MAX_CONVERSATION_FORK_DELIVERY_ALIASES <? Z.of_nat (length aliases))
         || existsb (λ entry, (entry.1.1 != scope)
                      || (ConversationForkCommandRecord.fingerprint entry.2
                          != ConversationForkDeliveryRecord.request_fingerprint record)) aliases
         || (scope != ConversationForkDeliveryRecord.scope record)
         || (ConversationForkCommandRecord.fingerprint command
             != ConversationForkDeliveryRecord.request_fingerprint record)
         || negb (delivery_lifecycle record))
        (Internal (lit "conversation fork delivery correlation is invalid"));
  thread ← ok_or (Internal (lit "conversation fork delivery lost its child thread"))
    (threads s !! child_thread_id);
  _ ← reject_if (negb (is_ok (conversation_fork_kind thread)))
        (Internal (lit "conversation fork delivery points to a non-fork thread"));
  Ok (ConversationForkDelivery.mk child_thread_id (ConversationForkDeliveryRecord.state record)
        (ConversationForkDeliveryRecord.revision record)).

(** The copied messages of a thread, in their order. *)
Definition copied_messages (s : CS) (thread_id : ThreadId) : list Message.t :=
  merge_sort WorkspaceMemory.sequence_le
    (filter (λ m, Message.thread_id m = thread_id
                  ∧ ConversationMessageDerivation.is_original (Message.derivation m) = false)
       (InMemory.values (messages s))).
(** Whether messages are restorable and numbered from the given number. *)
Fixpoint numbered_from (n : Z) (messages : list Message.t) : bool :=
  match messages with
  | [] => true
  | message :: messages' =>
      is_ok (Message.restore message) && (Message.sequence message =? n)
      && numbered_from (n + 1) messages'
  end.

(** [conversation_fork_snapshot]. *)
Definition conversation_fork_snapshot (s : CS) (record : ConversationForkCommandRecord.t) :
    result StoreError ConversationForkSnapshot.t :=
  let fingerprint := ConversationForkCommandRecord.fingerprint record in
  child_thread ← ok_or (Internal (lit "conversation fork lost its child thread"))
    (threads s !! ConversationForkCommandRecord.child_thread_id record);
  _ ← map_err (λ _, Internal (lit "conversation fork child is invalid"))
        (Thread.restore child_thread);
  _ ← validate_persisted_thread_lineage s child_thread;
  kind ← map_err (λ _, Internal (lit "conversation fork child has no lineage"))
           (conversation_fork_kind child_thread);
  delivery_record ← ok_or (Internal (lit "conversation fork lost its delivery journal"))
    (conversation_fork_deliveries s !! Thread.id child_thread);
  _ ← reject_if (negb (conversation_fork_scope_matches
                         (ConversationForkDeliveryRecord.scope delivery_record) kind))
        (Internal (lit "conversation fork delivery scope is inconsistent"));
  let messages := copied_messages s (Thread.id child_thread) in
  _ ← reject_if (is_empty messages || negb (numbered_from 1 messages))
        (Internal (lit "conversation fork copied messages are invalid"));
  started ← linked (conversation_turns s) (ConversationForkCommandRecord.started_turn_id record)
    (Internal (lit "conversation fork lost its started turn"));
  started_turn ←
    match started with
    | Some turn => snapshot ← conversation_snapshot s turn; Ok (Some snapshot)
    | None => Ok None
    end;
  _ ← reject_if
        (negb (Bool.eqb (kind == ConversationForkKind.Branch) (is_none started_turn))
         || match started_turn with
            | Some snapshot =>
                let turn := ConversationTurnSnapshot.turn snapshot in
                (ConversationTurn.thread_id turn != Thread.id child_thread)
                || (ConversationTurn.request_fingerprint turn != fingerprint)
            | None => false
            end)
        (Internal (lit "conversation fork command outcome is inconsistent"));
  _ ← reject_if (fingerprint
                 != ConversationForkDeliveryRecord.request_fingerprint delivery_record)
        (Internal (lit "conversation fork command and delivery fingerprints differ"));
  delivery ← conversation_fork_delivery s (Thread.id child_thread);
  Ok (ConversationForkSnapshot.mk child_thread messages started_turn delivery).

(** The order of a family: depth, creation and identifier. *)
Definition family_le (x y : Thread.t) : Prop :=
  let depth x := ConversationThreadLineage.fork_depth (Thread.lineage x) in
  (if depth x =? depth y then InMemory.key_leb Thread.created_at (λ t, as_str (Thread.id t)) x y
   else depth x <? depth y) = true.
#[global] Instance family_le_dec : RelDecision family_le.
Proof. intros x y. unfold family_le. apply _. Defined.

(** The outcome shown for one copied answer in [conversation_fork_metadata]. *)
Definition stored_outcome (s : CS) (message : Message.t) :
    result StoreError ConversationInheritedAssistantOutcome.t :=
  source_turn_id ← ok_or (Internal (lit "copied assistant lost its inherited outcome"))
    (conversation_inherited_outcomes s !! Message.id message);
  actual ← inherited_source_turn s message;
  _ ← reject_if (actual != source_turn_id)
        (Internal (lit "copied assistant outcome has invalid provenance"));
  source_turn ← ok_or (Internal (lit "inherited outcome lost its turn"))
    (conversation_turns s !! source_turn_id);
  snapshot ← conversation_snapshot s source_turn;
  _ ← reject_if (negb (completed_with snapshot (Message.content message)))
        (Internal (lit "copied assistant outcome is inconsistent"));
  Ok (inherited_outcome (Message.id message) source_turn_id
        (ConversationTurnSnapshot.turn snapshot)).

Definition unexpected_outcome (s : CS) (thread_id : ThreadId) : bool :=
  existsb (λ message_id,
      match messages s !! message_id with
      | Some message => (Message.thread_id message == thread_id)
                        && (Message.role message != MessageRole.Assistant)
      | None => false
      end) ((map_to_list (conversation_inherited_outcomes s)).*1).

(** [conversation_fork_metadata]. *)
Definition conversation_fork_metadata (s : CS) (thread_id : ThreadId) :
    result StoreError ConversationForkMetadata.t :=
  thread ← ok_or NotFound (threads s !! thread_id);
  _ ← map_err (λ _, Internal (lit "conversation fork metadata thread is invalid"))
        (Thread.restore thread);
  _ ← validate_persisted_thread_lineage s thread;
  let family_threads := merge_sort family_le
    (family s (ConversationThreadLineage.root_thread_id (Thread.lineage thread))) in
  _ ← reject_if
        (is_empty family_threads
         || (MAX_CONVERSATION_FORK_FAMILY_THREADS <? Z.of_nat (length family_threads))
         || existsb (λ candidate, (Thread.project_id candidate != Thread.project_id thread)
                       || negb (is_ok (Thread.restore candidate))
                       || negb (is_ok (validate_persisted_thread_lineage s candidate)))
              family_threads)
        (Internal (lit "conversation fork family metadata is invalid"));
  outcomes ← ConversationMemory.collect_results (stored_outcome s)
    (merge_sort WorkspaceMemory.sequence_le
       (filter (λ m, Message.thread_id m = thread_id ∧ Message.role m = MessageRole.Assistant
                     ∧ ConversationMessageDerivation.is_original (Message.derivation m) = false)
          (InMemory.values (messages s))));
  _ ← reject_if (unexpected_outcome s thread_id)
        (Internal (lit "conversation fork outcome is attached to a non-assistant"));
  let metadata := ConversationForkMetadata.mk (Thread.lineage thread) outcomes family_threads in
  _ ← reject_if (negb (conversation_fork_metadata_is_within_bounds metadata))
        (Internal (lit "conversation fork metadata exceeds its bound"));
  Ok metadata.
End forks.

(** ** The operations *)

Module ForkMemory.
Section operations.
Context `{UrlParser}.
Import ConversationState.

(** [reconcile_pending_conversation_fork_command]: a command with a new key that asks for
    exactly what is still being delivered becomes an alias of the command that created
    it. *)
Definition pending_children (s : CS) (command : MutationCommand.t) : list ThreadId :=
  map fst (filter (λ entry,
      ConversationForkDeliveryRecord.state entry.2 = ConversationForkDeliveryState.Pending
      ∧ ConversationForkDeliveryRecord.scope entry.2 = MutationCommand.scope command
      ∧ ConversationForkDeliveryRecord.request_fingerprint entry.2
        = MutationCommand.fingerprint command)
    (map_to_list (conversation_fork_deliveries s))).
Definition reconcile_pending_conversation_fork_command (command : MutationCommand.t) :
    method CS StoreError (option (ConversationForkSnapshot.t * option (list Message.t))) :=
  if negb (conversation_fork_scope_is_supported (MutationCommand.scope command)) then mret None
  else
    s ← self;
    match conversation_fork_commands s !! fork_command_key command with
    | Some record =>
        _ ← throw_if (ConversationForkCommandRecord.fingerprint record
                      != MutationCommand.fingerprint command) Conflict;
        snapshot ← lift (conversation_fork_snapshot s record);
        context ← lift (fork_command_context s record);
        mret (Some (snapshot, context))
    | None =>
        match pending_children s command with
        | [] => mret None
        | [child_thread_id] =>
            alias ←
              match child_commands s true child_thread_id with
              | [(_, record)] => mret record
              | _ => throw (Internal
                       (lit "conversation fork pending delivery lost its canonical command"))
              end;
            _ ← throw_if (MAX_CONVERSATION_FORK_DELIVERY_ALIASES
                          <=? Z.of_nat (length (child_commands s false child_thread_id))) Conflict;
            _ ← throw_if (ConversationForkCommandRecord.fingerprint alias
                          != MutationCommand.fingerprint command)
                  (Internal (lit "conversation fork delivery fingerprint is inconsistent"));
            let alias := alias <| ConversationForkCommandRecord.canonical := false |> in
            snapshot ← lift (conversation_fork_snapshot s alias);
            context ← lift (fork_command_context s alias);
            _ ← put_fork_command (fork_command_key command) alias;
            mret (Some (snapshot, context))
        | _ => throw (Internal (lit "conversation fork pending delivery is not unique"))
        end
    end.

(** The insertions of [reserve_conversation_fork]. *)
Fixpoint put_messages (messages : list Message.t) : method CS StoreError unit :=
  match messages with
  | [] => mret tt
  | message :: messages' => _ ← put_message message; put_messages messages'
  end.
Fixpoint put_outcomes (outcomes : list (MessageId * ConversationTurnId)) :
    method CS StoreError unit :=
  match outcomes with
  | [] => mret tt
  | (message_id, source_turn_id) :: outcomes' =>
      _ ← put_inherited message_id source_turn_id; put_outcomes outcomes'
  end.
Definition put_started_turn (turn_plan : ConversationForkTurnPlan.t) (context : list Message.t)
    (created_turn_event : ConversationTurnEvent.t) : method CS StoreError unit :=
  let turn := ConversationForkTurnPlan.turn turn_plan in
  let run := ConversationForkTurnPlan.run turn_plan in
  let id := ConversationTurn.id turn in
  _ ← put_run run;
  _ ← put_run_events (Run.id run) [ConversationForkTurnPlan.run_event turn_plan];
  _ ← put_turn_key (ConversationTurn.idempotency_key turn) id;
  _ ← put_lineage id (ConversationForkTurnPlan.lineage turn_plan);
  _ ← put_context id context;
  _ ← put_turn_events id [created_turn_event];
  put_turn turn.

(** The turn of a plan with what was prepared for it. *)
Definition prepared_turn (plan : ConversationForkPlan.t) (prepared : PreparedConversationFork) :
    result StoreError
      (option (ConversationForkTurnPlan.t * list Message.t * ConversationTurnEvent.t)) :=
  match ConversationForkPlan.started_turn plan, pf_context prepared,
        pf_created_turn_event prepared with
  | Some turn_plan, Some context, Some event => Ok (Some (turn_plan, context, event))
  | None, None, None => Ok None
  | _, _, _ => Err Conflict
  end.

(** The part of [reserve_conversation_fork] that creates the child. *)
Definition create_fork (plan : ConversationForkPlan.t) :
    method CS StoreError ConversationForkReservation.t :=
  let command := ConversationForkPlan.command plan in
  let child := ConversationForkPlan.child_thread plan in
  let child_thread_id := Thread.id child in
  s ← self;
  prepared ← lift (prepare_conversation_fork s plan);
  turn ← lift (prepared_turn plan prepared);
  _ ← throw_if (is_some (conversation_fork_deliveries s !! child_thread_id)) Conflict;
  _ ← put_binding child_thread_id (pf_credential_binding_id prepared);
  _ ← put_model child_thread_id (pf_model_id prepared);
  _ ← put_thread child;
  _ ← put_messages (ConversationForkPlan.messages plan);
  _ ← put_outcomes (pf_inherited_outcomes prepared);
  _ ← match turn with
      | Some (turn_plan, context, event) => put_started_turn turn_plan context event
      | None => mret tt
      end;
  let record := ConversationForkCommandRecord.mk (MutationCommand.fingerprint command)
    child_thread_id
    ((λ p, ConversationTurn.id (ConversationForkTurnPlan.turn p))
     <$> ConversationForkPlan.started_turn plan) true in
  _ ← put_delivery child_thread_id
        (ConversationForkDeliveryRecord.mk (MutationCommand.scope command)
           (MutationCommand.fingerprint command) ConversationForkDeliveryState.Pending 0);
  _ ← put_fork_command (fork_command_key command) record;
  s ← self;
  snapshot ← lift (conversation_fork_snapshot s record);
  mret (ConversationForkReservation.mk snapshot (pf_context prepared) true false).

(** [reserve_conversation_fork]. *)
Definition reserve_conversation_fork (plan : ConversationForkPlan.t) :
    method CS StoreError ConversationForkReservation.t :=
  let command := ConversationForkPlan.command plan in
  kind ← lift (conversation_fork_kind (ConversationForkPlan.child_thread plan));
  _ ← throw_if (negb (conversation_fork_scope_matches (MutationCommand.scope command) kind))
        Conflict;
  s ← self;
  match conversation_fork_commands s !! fork_command_key command with
  | Some record =>
      _ ← throw_if (ConversationForkCommandRecord.fingerprint record
                    != MutationCommand.fingerprint command) Conflict;
      snapshot ← lift (conversation_fork_snapshot s record);
      context ← lift (fork_command_context s record);
      mret (ConversationForkReservation.mk snapshot context false false)
  | None =>
      reconciled ← reconcile_pending_conversation_fork_command command;
      match reconciled with
      | Some (snapshot, context) =>
          mret (ConversationForkReservation.mk snapshot context false true)
      | None => create_fork plan
      end
  end.

(** [load_conversation_fork_by_command]. *)
Definition load_conversation_fork_by_command (command : MutationCommand.t) :
    method CS StoreError (option ConversationForkSnapshot.t) :=
  if negb (conversation_fork_scope_is_supported (MutationCommand.scope command)) then mret None
  else
    s ← self;
    match conversation_fork_commands s !! fork_command_key command with
    | None => mret None
    | Some record =>
        _ ← throw_if (ConversationForkCommandRecord.fingerprint record
                      != MutationCommand.fingerprint command) Conflict;
        snapshot ← lift (conversation_fork_snapshot s record);
        kind ← lift (map_err
          (λ _, Internal (lit "conversation fork command lineage is invalid"))
          (conversation_fork_kind (ConversationForkSnapshot.child_thread snapshot)));
        _ ← throw_if (negb (conversation_fork_scope_matches (MutationCommand.scope command) kind))
              (Internal (lit "conversation fork command scope is inconsistent"));
        mret (Some snapshot)
    end.

(** [resolve_conversation_fork_command]. *)
Definition resolve_conversation_fork_command (command : MutationCommand.t) :
    method CS StoreError (option ConversationForkCommandResolution.t) :=
  if negb (conversation_fork_scope_is_supported (MutationCommand.scope command)) then mret None
  else
    s ← self;
    match conversation_fork_commands s !! fork_command_key command with
    | Some record =>
        _ ← throw_if (ConversationForkCommandRecord.fingerprint record
                      != MutationCommand.fingerprint command) Conflict;
        snapshot ← lift (conversation_fork_snapshot s record);
        mret (Some (ConversationForkCommandResolution.mk snapshot false))
    | None =>
        reconciled ← reconcile_pending_conversation_fork_command command;
        mret ((λ r : ConversationForkSnapshot.t * option (list Message.t),
                 ConversationForkCommandResolution.mk r.1 true) <$> reconciled)
    end.

(** [acknowledge_conversation_fork_delivery], the answer to a command used before. *)
Definition replay_acknowledgement (s : CS)
    (record : ConversationForkDeliveryAckCommandRecord.t) (command : MutationCommand.t)
    (child_thread_id : ThreadId) (expected_revision : Z) :
    result StoreError ConversationForkDelivery.t :=
  let expected := ConversationForkDeliveryAckCommandRecord.expected_revision record in
  let outcome := ConversationForkDeliveryAckCommandRecord.outcome_revision record in
  _ ← reject_if ((ConversationForkDeliveryAckCommandRecord.fingerprint record
                  != MutationCommand.fingerprint command)
                 || (ConversationForkDeliveryAckCommandRecord.child_thread_id record
                     != child_thread_id)
                 || (expected != expected_revision)) Conflict;
  _ ← reject_if ((expected != 0) || (outcome != 1)
                 || (checked_add u64_max expected 1 != Some outcome))
        (Internal (lit "conversation fork acknowledgement command is invalid"));
  delivery ← conversation_fork_delivery s child_thread_id;
  _ ← reject_if ((ConversationForkDelivery.state delivery
                  != ConversationForkDeliveryState.Acknowledged)
                 || (ConversationForkDelivery.revision delivery != outcome))
        (Internal (lit "conversation fork acknowledgement outcome is inconsistent"));
  Ok delivery.

(** [acknowledge_conversation_fork_delivery]. *)
Definition acknowledge_conversation_fork_delivery (command : MutationCommand.t)
    (child_thread_id : ThreadId) (expected_revision : Z) :
    method CS StoreError ConversationForkDelivery.t :=
  _ ← throw_if (MutationCommand.scope command != ACK_SCOPE) Conflict;
  s ← self;
  match conversation_fork_delivery_ack_commands s !! fork_command_key command with
  | Some record =>
      lift (replay_acknowledgement s record command child_thread_id expected_revision)
  | None =>
      _ ← match length (child_commands s true child_thread_id) with
          | O => throw (if is_some (threads s !! child_thread_id) then Conflict else NotFound)
          | S O => mret tt
          | _ => throw (Internal
                   (lit "conversation fork delivery has ambiguous canonical commands"))
          end;
      observed ← lift (conversation_fork_delivery s child_thread_id);
      _ ← throw_if ((ConversationForkDelivery.state observed
                     != ConversationForkDeliveryState.Pending)
                    || (ConversationForkDelivery.revision observed != expected_revision))
            Conflict;
      delivery ← lift (ok_or (Internal (lit "conversation fork lost its delivery journal"))
                         (conversation_fork_deliveries s !! child_thread_id));
      outcome_revision ← lift
        (ok_or (Internal (lit "conversation fork delivery revision exhausted"))
           (checked_add u64_max (ConversationForkDeliveryRecord.revision delivery) 1));
      _ ← put_delivery child_thread_id
            (delivery <| ConversationForkDeliveryRecord.revision := outcome_revision |>
                      <| ConversationForkDeliveryRecord.state :=
                           ConversationForkDeliveryState.Acknowledged |>);
      _ ← put_ack_command (fork_command_key command)
            (ConversationForkDeliveryAckCommandRecord.mk (MutationCommand.fingerprint command)
               child_thread_id expected_revision outcome_revision);
      s ← self;
      lift (conversation_fork_delivery s child_thread_id)
  end.

(** [load_conversation_fork_metadata]. *)
Definition load_conversation_fork_metadata (thread_id : ThreadId) :
    method CS StoreError ConversationForkMetadata.t :=
  s ← self;
  lift (conversation_fork_metadata s thread_id).
End operations.
End ForkMemory.
