(* ===== verification/ConversationWorld.v ===== *)
(** * Conversations under concurrent use

    What the tables of [ConversationStore] guarantee when any number of conversation
    services call the store while workspace services, the scheduler and the run services
    write the same store. *)
From stdpp Require Import sorting.
From S2P Require Import Prelude RustText Ids Runs Approvals Effects ConversationTurns TurnEvents Schedules Scheduler Workspace ExecutionStore Commands WorkspaceStore WorkspaceServices WorkspaceWorld ConversationStore.

(** ** Exact transitions are calls of the aggregates *)

Lemma moves_to_true {T E} `{EqDecision T} (m : method T E unit) x y :
  moves_to m x y = true ↔ m x = (y, Ok tt).
Proof.
  unfold moves_to. destruct (m x) as [x' [[]|e]].
  - rewrite bool_decide_eq_true. naive_solver.
  - naive_solver.
Qed.
Lemma moved_Some {T E} (m : method T E unit) x y : moved m x = Some y ↔ m x = (y, Ok tt).
Proof. unfold moved. destruct (m x) as [x' [[]|e]]; naive_solver. Qed.

(** What a turn keeps over its whole life. *)
Definition same_turn (x y : ConversationTurn.t) : Prop :=
  ConversationTurn.id y = ConversationTurn.id x ∧
  ConversationTurn.idempotency_key y = ConversationTurn.idempotency_key x ∧
  ConversationTurn.request_fingerprint y = ConversationTurn.request_fingerprint x ∧
  ConversationTurn.project_id y = ConversationTurn.project_id x ∧
  ConversationTurn.thread_id y = ConversationTurn.thread_id x ∧
  ConversationTurn.user_message_id y = ConversationTurn.user_message_id x ∧
  ConversationTurn.run_id y = ConversationTurn.run_id x ∧
  ConversationTurn.model_id y = ConversationTurn.model_id x ∧
  ConversationTurn.created_at y = ConversationTurn.created_at x.

#[global] Instance same_turn_preorder : PreOrder same_turn.
Proof.
  split; [by intros x; split_and!|].
  intros x y z (?&?&?&?&?&?&?&?&?) (?&?&?&?&?&?&?&?&?). split_and!; by etrans.
Qed.

Section turns.
Context {UP : UrlParser}.
Import ConversationTurnState.

Lemma turn_apply_same c now x y : turn_apply c now x = (y, Ok tt) → same_turn x y.
Proof. intros [_ ->]%turn_apply_Ok. by destruct c. Qed.

(** One accepted call, and any number of them. *)
Definition turn_call_step (x y : ConversationTurn.t) : Prop :=
  ∃ c now, turn_apply c now x = (y, Ok tt).

Lemma turn_call_edge x y :
  turn_call_step x y → same_turn x y ∧
  permits (ConversationTurn.state x) (ConversationTurn.state y) = true ∧
  (ConversationTurn.effect_id y = ConversationTurn.effect_id x ∨
   ConversationTurn.state x = Reserved ∧ ConversationTurn.state y = ProviderStarted).
Proof.
  intros (c & now & H). split; [by eapply turn_apply_same|].
  apply turn_apply_Ok in H as [(_ & Hp & _) ->]. split; [by destruct c|].
  destruct c; cbn in *; auto. right. by destruct (ConversationTurn.state x).
Qed.
Lemma turn_calls_same x y : rtc turn_call_step x y → same_turn x y.
Proof. induction 1 as [|x y z [H _]%turn_call_edge _ IH]; [done|by etrans]. Qed.
Lemma turn_calls_terminal x y :
  is_terminal (ConversationTurn.state x) = true → rtc turn_call_step x y → y = x.
Proof.
  intros Ht. inversion 1 as [|? z ? (_ & Hp & _)%turn_call_edge _]; subst; [done|].
  by destruct (ConversationTurn.state x).
Qed.

Lemma exact_start_step current commit :
  is_exact_provider_start current commit = true →
  let x := ConversationTurnSnapshot.turn current in
  let y := ProviderStartCommit.turn commit in
  turn_call_step x y ∧ ConversationTurn.state x = Reserved ∧
  ConversationTurn.state y = ProviderStarted ∧
  ConversationTurn.effect_id y = Some (SideEffect.id (ProviderStartCommit.effect commit)) ∧
  Run.id (ProviderStartCommit.run commit) = Run.id (ConversationTurnSnapshot.run current) ∧
  ConversationTurnSnapshot.assistant_message current = None.
Proof.
  unfold is_exact_provider_start. intros H. case_match eqn:E; [done|]. bool_facts.
  destruct (ConversationTurn.provider_request_fingerprint _) as [fp|] eqn:Ef; [|done].
  bool_facts.
  repeat match goal with H : moves_to _ _ _ = true |- _ => apply moves_to_true in H end.
  assert (Hs : turn_apply (TStart (SideEffect.id (ProviderStartCommit.effect commit)) fp)
    (ConversationTurn.updated_at (ProviderStartCommit.turn commit))
    (ConversationTurnSnapshot.turn current) = (ProviderStartCommit.turn commit, Ok tt)) by done.
  split_and!; [by eexists _, _|done|..].
  1,2: apply turn_apply_Ok in Hs as [_ ->]; done.
  - match goal with H : run_started _ _ = _ |- _ => unfold run_started, Run.transition in H; run_in H end.
    by match goal with H : _ = ProviderStartCommit.run commit |- _ => rewrite <- H end.
  - by destruct (ConversationTurnSnapshot.assistant_message current).
Qed.

Lemma exact_terminal_step current commit :
  is_exact_terminal_transition current commit = true →
  turn_call_step (ConversationTurnSnapshot.turn current) (TerminalTurnCommit.turn commit) ∧
  is_terminal (ConversationTurn.state (TerminalTurnCommit.turn commit)) = true.
Proof.
  unfold is_exact_terminal_transition, is_exact_terminal_turn_transition. intros H.
  case_match eqn:E; [done|]. clear H. bool_facts.
  destruct (ConversationTurn.state (TerminalTurnCommit.turn commit)) eqn:Es; try done;
    (split; [|done]); repeat case_match; bool_facts; try done;
    match goal with H : moves_to _ _ _ = true |- _ => apply moves_to_true in H as Hm end.
  - by eexists (TComplete _ _ _ _ _), _.
  - by eexists (TFail _), _.
  - by eexists TCancel, _.
  - by eexists TInterrupt, _.
Qed.

(** *** Canonical snapshots *)

Import ConversationTurnSnapshot.

(** The entities of a snapshot are those its turn names. *)
Record snapshot_linked (sn : ConversationTurnSnapshot.t) : Prop := {
  sl_turn : ConversationTurn.restore (turn sn) = Ok (turn sn);
  sl_lineage : ConversationTurnLineage.restore (lineage sn) (ConversationTurn.id (turn sn))
    = Ok (lineage sn);
  sl_user : Message.id (user_message sn) = ConversationTurn.user_message_id (turn sn);
  sl_thread : Message.thread_id (user_message sn) = ConversationTurn.thread_id (turn sn);
  sl_role : Message.role (user_message sn) = MessageRole.User;
  sl_active : Message.state (user_message sn) = MessageState.Active;
  sl_assistant : ConversationTurn.assistant_message_id (turn sn)
    = Message.id <$> assistant_message sn;
  sl_answer a : assistant_message sn = Some a →
    ConversationTurn.state (turn sn) = Completed ∧
    Message.thread_id a = ConversationTurn.thread_id (turn sn) ∧
    Message.role a = MessageRole.Assistant ∧ Message.state a = MessageState.Active ∧
    Message.derivation a = ConversationMessageDerivation.Original;
  sl_run : Run.id (run sn) = ConversationTurn.run_id (turn sn);
  sl_effect : ConversationTurn.effect_id (turn sn) = SideEffect.id <$> effect sn;
}.

Lemma is_ok_restore x : is_ok (ConversationTurn.restore x) = true → ConversationTurn.restore x = Ok x.
Proof.
  destruct (ConversationTurn.restore x) as [y|] eqn:E; [|done]. intros _.
  assert (y = x) as ->; [|done]. unfold ConversationTurn.restore in E. split_binds E.
  by injection E.
Qed.
Lemma lineage_restore_same l i l' : ConversationTurnLineage.restore l i = Ok l' → l' = l.
Proof.
  unfold ConversationTurnLineage.restore. intros H. split_binds H. case_match; congruence.
Qed.
Lemma canonical_message_facts m role created n :
  is_canonical_message m role created n = true →
  Message.sequence m = n ∧ Message.role m = role ∧ Message.state m = MessageState.Active ∧
  Message.derivation m = ConversationMessageDerivation.Original ∧
  ∃ m0, Message.new (Message.id m) (Message.thread_id m) role (Message.content m) created = Ok m0 ∧
    m = m0 <| Message.sequence := n |>.
Proof.
  unfold is_canonical_message. destruct (Message.new _ _ _ _ _) as [m0|] eqn:E; [|done].
  intros <-%bool_decide_eq_true. assert (Hm0 := E). unfold Message.new in E. split_binds E.
  injection E as <-. cbn in *. split_and!; try done. by eexists.
Qed.

Lemma canonical_run_id sn r : canonical_run_for_snapshot sn = Some r →
  Run.id r = ConversationTurn.run_id (turn sn).
Proof.
  unfold canonical_run_for_snapshot, run_started. intros H.
  repeat (case_match || (apply bind_Some in H as (? & ? & H)) || simplify_option_eq);
    repeat match goal with
    | H : moved _ _ = Some _ |- _ => apply moved_Some in H
    | H : (_ ≫= _) _ = (_, Ok tt) |- _ => apply method_bind_Ok in H as (? & ? & ? & ?)
    | H : Run.transition _ _ _ = (_, Ok ?u) |- _ =>
        destruct u; apply run_transition_Ok in H as (_ & _ & ->)
    end; done.
Qed.

(** Which links a restorable turn has in which state. *)
Lemma restored_links x : ConversationTurn.restore x = Ok x →
  (ConversationTurn.assistant_message_id x = None ∨ ConversationTurn.state x = Completed) ∧
  (ConversationTurn.state x = Reserved ∨ ConversationTurn.state x = Cancelled →
     ConversationTurn.effect_id x = None).
Proof.
  intros [_ H]%turn_restore_Ok. unfold ConversationTurn.is_reachable, ConversationTurn.outcome_absent,
    ConversationTurn.dispatch_absent in H.
  destruct (_ <? _); [done|].
  destruct (ConversationTurn.state x), (ConversationTurn.assistant_message_id x),
    (ConversationTurn.effect_id x); bool_facts; naive_solver.
Qed.

Lemma canonical_answer sn :
  is_canonical_conversation_snapshot sn = true → is_canonical_assistant_message sn = true.
Proof. unfold is_canonical_conversation_snapshot. intros H. case_match; [done|]. by bool_facts. Qed.

Lemma canonical_linked sn : is_canonical_conversation_snapshot sn = true → snapshot_linked sn.
Proof.
  unfold is_canonical_conversation_snapshot, is_reachable_turn_message. intros H.
  case_match eqn:E; [done|]. bool_facts.
  match goal with H : is_ok (ConversationTurn.restore _) = true |- _ =>
    apply is_ok_restore in H as Hrt end.
  destruct (restored_links _ Hrt) as [La Le].
  match goal with H : canonical_run_for_snapshot _ = _ |- _ => apply canonical_run_id in H end.
  match goal with H : is_ok (ConversationTurnLineage.restore _ _) = true |- _ =>
    destruct (ConversationTurnLineage.restore _ _) as [l|] eqn:Hl; [|done] end.
  pose proof (lineage_restore_same _ _ _ Hl) as ->.
  match goal with H : is_canonical_assistant_message _ = true |- _ =>
    unfold is_canonical_assistant_message in H; rename H into Ha end.
  match goal with H : is_canonical_provider_effect _ = true |- _ =>
    unfold is_canonical_provider_effect in H; rename H into He end.
  split; try done.
  - destruct (ConversationTurn.state (turn sn)) eqn:Es, (assistant_message sn) as [a|]; try done;
      bool_facts; naive_solver.
  - intros a Hs. rewrite Hs in Ha. destruct (ConversationTurn.state (turn sn)); try done.
    bool_facts. match goal with H : is_canonical_message _ _ _ _ = true |- _ =>
      apply canonical_message_facts in H as (_ & ? & ? & ? & _) end. done.
  - destruct (ConversationTurn.state (turn sn)) eqn:Es, (effect sn) as [e|]; try done;
      bool_facts; naive_solver.
Qed.
End turns.

(** ** Executing an operation of the store *)

(** Peels a read or a guard of an operation that is refused without a change. *)
Definition refused {A} (s s' : CS) (r : result StoreError A) : Prop := s' = s ∧ is_ok r = false.
Lemma refused_bind {A B} (m : method CS StoreError A) (k : A → method CS StoreError B) s s' r :
  readonly m → (m ≫= k) s = (s', r) → refused s s' r ∨ ∃ a, m s = (s, Ok a) ∧ k a s = (s', r).
Proof.
  intros Hm H. unfold mbind, method_bind in H. specialize (Hm s).
  destruct (m s) as [s1 [a|e]]; cbn in Hm; subst; [right; by exists a|left].
  by simplify_eq.
Qed.
Ltac check H a Ha :=
  apply refused_bind in H; [|solve [auto with methods]];
  destruct H as [H|(a & Ha & H)]; [by left|].
Ltac check_self H :=
  let s0 := fresh "s0" in let Hs0 := fresh "Hs0" in
  check H s0 Hs0; injection Hs0 as <-.

(** Executes the writes of an operation, each with a name for the state it leaves. *)
Lemma assign_bind {A} f (k : unit → method CS StoreError A) s s' r :
  (assign f ≫= k) s = (s', r) → ∃ s1, s1 = f s ∧ k tt s1 = (s', r).
Proof. intros H. by eexists. Qed.
Lemma extend_bind {A} i new evs (k : unit → method CS StoreError A) s s' r :
  (extend_turn_events i new ≫= k) s = (s', r) → ConversationState.conversation_events s !! i = Some evs →
  ∃ s1, s1 = s <| ConversationState.conversation_events := <[i := evs ++ new]> (ConversationState.conversation_events s) |> ∧
    k tt s1 = (s', r).
Proof.
  intros H E. unfold extend_turn_events in H. run_unfold in H. rewrite E in H. by eexists.
Qed.
Lemma bind_cases {A B} (m : method CS StoreError A) (k : A → method CS StoreError B) s s' r :
  (m ≫= k) s = (s', r) → ∃ s1 o, m s = (s1, o) ∧
    match o with Ok a => k a s1 = (s', r) | Err e => s' = s1 ∧ r = Err e end.
Proof.
  unfold mbind, method_bind. destruct (m s) as [s1 o]. intros H. exists s1, o. split; [done|].
  destruct o; [done|]. by simplify_eq.
Qed.
Lemma self_bind {A} (k : CS → method CS StoreError A) s s' r :
  (self ≫= k) s = (s', r) → k s s = (s', r).
Proof. done. Qed.
Ltac read_back :=
  unfold ConversationState.conversation_turns, ConversationState.conversation_contexts, ConversationState.threads, ConversationState.messages, ConversationState.projects, ConversationState.runs, ConversationState.effects;
  repeat match goal with E : ?x = _ |- context [?x] =>
    is_var x; match type of x with ConversationState.t => rewrite E; cbn end end.
Ltac write H :=
  let s1 := fresh "s" in let E := fresh "Ew" in apply assign_bind in H as (s1 & E & H).
Ltac extend H Hevs :=
  let s1 := fresh "s" in let E := fresh "Ew" in
  eapply extend_bind in H; [|read_back; exact Hevs]; destruct H as (s1 & E & H).

(** ** The entities of a turn in the store *)

Section store.
Context {UP : UrlParser}.
Import ConversationState.
Implicit Types (s : CS) (t : ConversationTurn.t) (sn : ConversationTurnSnapshot.t).

Definition resolves {K A} `{Countable K} (table : gmap K A) (id : option K) (x : option A) : Prop :=
  match id, x with
  | None, None => True
  | Some i, Some y => table !! i = Some y
  | _, _ => False
  end.
Lemma linked_Ok {K A} `{Countable K} (table : gmap K A) id e x :
  linked table id e = Ok x ↔ resolves table id x.
Proof.
  unfold linked, resolves. destruct id as [i|], x as [y|]; cbn; try naive_solver.
  - destruct (table !! i); cbn; naive_solver.
  - destruct (table !! i); cbn; naive_solver.
Qed.

Record collected s sn : Prop := {
  co_user : messages s !! ConversationTurn.user_message_id (ConversationTurnSnapshot.turn sn)
    = Some (ConversationTurnSnapshot.user_message sn);
  co_assistant : resolves (messages s)
    (ConversationTurn.assistant_message_id (ConversationTurnSnapshot.turn sn))
    (ConversationTurnSnapshot.assistant_message sn);
  co_run : runs s !! ConversationTurn.run_id (ConversationTurnSnapshot.turn sn)
    = Some (ConversationTurnSnapshot.run sn);
  co_effect : resolves (effects s)
    (ConversationTurn.effect_id (ConversationTurnSnapshot.turn sn))
    (ConversationTurnSnapshot.effect sn);
  co_lineage : conversation_lineages s !! ConversationTurn.id (ConversationTurnSnapshot.turn sn)
    = Some (ConversationTurnSnapshot.lineage sn);
  co_restore : ConversationTurnLineage.restore (ConversationTurnSnapshot.lineage sn)
    (ConversationTurn.id (ConversationTurnSnapshot.turn sn))
    = Ok (ConversationTurnSnapshot.lineage sn);
}.

Lemma collect_snapshot_Ok s t sn :
  collect_snapshot s t = Ok sn ↔ ConversationTurnSnapshot.turn sn = t ∧ collected s sn.
Proof.
  unfold collect_snapshot. split.
  - intros H. split_binds H. injection H as <-. split; [done|].
    rewrite ?ok_or_Ok, ?map_err_Ok in *. repeat match goal with
      H : linked _ _ _ = Ok _ |- _ => apply linked_Ok in H end.
    match goal with H : ConversationTurnLineage.restore _ _ = Ok _ |- _ =>
      pose proof (lineage_restore_same _ _ _ H) as -> end. by split.
  - intros [<- [H1 H2 H3 H4 H5 H6]]. rewrite H1. cbn.
    rewrite (proj2 (linked_Ok _ _ _ _) H2). cbn. rewrite H3. cbn.
    rewrite (proj2 (linked_Ok _ _ _ _) H4). cbn. rewrite H5. cbn. rewrite H6. cbn. by destruct sn.
Qed.

(** A stored turn is complete: its entities are stored and canonical, its thread belongs to
    its project, and its event log vouches for it. *)
Record turn_ok s t sn : Prop := {
  to_turn : ConversationTurnSnapshot.turn sn = t;
  to_collected : collected s sn;
  to_canonical : is_canonical_conversation_snapshot sn = true;
  to_thread : ∃ th, threads s !! ConversationTurn.thread_id t = Some th ∧
    Thread.project_id th = ConversationTurn.project_id t;
  to_events : ∃ evs log, conversation_events s !! ConversationTurn.id t = Some evs ∧
    ConversationTurnEventLog.restore (ConversationTurn.id t) evs = Ok log ∧
    ConversationTurnEventLog.validate_snapshot log t
      (Message.content <$> ConversationTurnSnapshot.assistant_message sn) = Ok tt;
}.

(** The ancestry of a fork, one step of it. *)
Definition lineage_ok s (th : Thread.t) : Prop :=
  match ConversationThreadLineage.origin (Thread.lineage th) with
  | ConversationThreadOrigin.Original => True
  | ConversationThreadOrigin.Fork p src msg kind =>
      ∃ parent t sn m b,
        threads s !! p = Some parent ∧ conversation_turns s !! src = Some t ∧
        turn_ok s t sn ∧ ensure_fork_source_state kind sn = Ok tt ∧
        fork_source_message kind sn = Some m ∧
        ConversationTurn.thread_id t = p ∧ Thread.project_id parent = Thread.project_id th ∧
        ConversationThreadLineage.root_thread_id (Thread.lineage parent)
          = ConversationThreadLineage.root_thread_id (Thread.lineage th) ∧
        ConversationThreadLineage.fork_depth (Thread.lineage th)
          = ConversationThreadLineage.fork_depth (Thread.lineage parent) + 1 ∧
        Message.id m = msg ∧ Message.role m = ConversationForkKind.source_message_role kind ∧
        conversation_thread_bindings s !! Thread.id th = Some b ∧
        conversation_thread_bindings s !! p = Some b
  end.

(** The messages of turns and contexts, which nothing may change. *)
Definition pinned s (i : MessageId) : Prop :=
  (∃ j t, conversation_turns s !! j = Some t ∧
     (ConversationTurn.user_message_id t = i ∨ ConversationTurn.assistant_message_id t = Some i)) ∨
  (∃ j ctx m, conversation_contexts s !! j = Some ctx ∧ m ∈ ctx ∧ Message.id m = i).

(** An immutable context: stored active messages of the thread in their order, the prompt
    at the end. *)
Record context_ok s t (ctx : list Message.t) : Prop := {
  cx_last : ∃ um, messages s !! ConversationTurn.user_message_id t = Some um ∧ last ctx = Some um;
  cx_stored m : m ∈ ctx → messages s !! Message.id m = Some m ∧
    Message.thread_id m = ConversationTurn.thread_id t ∧ Message.state m = MessageState.Active;
  cx_sorted : StronglySorted (λ x y, Message.sequence x < Message.sequence y) ctx;
  cx_valid : validate_context ctx = Ok tt;
}.

Definition live t : bool := negb (ConversationTurnState.is_terminal (ConversationTurn.state t)).

Record conv_inv s : Prop := {
  ci_turn i t : conversation_turns s !! i = Some t →
    ConversationTurn.id t = i ∧ ∃ sn, turn_ok s t sn;
  ci_thread i th : threads s !! i = Some th → lineage_ok s th;
  ci_run i j t u : conversation_turns s !! i = Some t → conversation_turns s !! j = Some u →
    ConversationTurn.run_id t = ConversationTurn.run_id u → i = j;
  ci_effect i j t u e : conversation_turns s !! i = Some t → conversation_turns s !! j = Some u →
    ConversationTurn.effect_id t = Some e → ConversationTurn.effect_id u = Some e → i = j;
  ci_live i j t u : conversation_turns s !! i = Some t → conversation_turns s !! j = Some u →
    ConversationTurn.thread_id t = ConversationTurn.thread_id u → live t = true → live u = true →
    i = j;
  ci_bound i t l : conversation_turns s !! i = Some t → conversation_lineages s !! i = Some l →
    ∃ b, ConversationTurnLineage.credential_binding_id l = Some b ∧
      conversation_thread_bindings s !! ConversationTurn.thread_id t = Some b ∧
      conversation_thread_models s !! ConversationTurn.thread_id t
        = Some (ConversationTurn.model_id t);
  ci_key key i : conversation_turn_keys s !! key = Some i →
    ∃ t, conversation_turns s !! i = Some t ∧ ConversationTurn.idempotency_key t = key;
  ci_keyed i t : conversation_turns s !! i = Some t →
    conversation_turn_keys s !! ConversationTurn.idempotency_key t = Some i;
  ci_context i t : conversation_turns s !! i = Some t →
    ∃ ctx, conversation_contexts s !! i = Some ctx ∧ context_ok s t ctx;
  ci_context_turn i ctx : conversation_contexts s !! i = Some ctx → is_Some (conversation_turns s !! i);
  ci_lineage_turn i l : conversation_lineages s !! i = Some l → is_Some (conversation_turns s !! i);
  ci_retried i j l l' src : conversation_lineages s !! i = Some l →
    conversation_lineages s !! j = Some l' → retries src l = true → retries src l' = true → i = j;
  ci_cancelled k r : conversation_cancel_commands s !! k = Some r →
    ∃ t, conversation_turns s !! ConversationCancelCommandRecord.turn_id r = Some t ∧
      live t = false ∧
      ConversationTurn.state t = ConversationCancelCommandRecord.outcome_state r ∧
      ConversationTurn.revision t = ConversationCancelCommandRecord.outcome_revision r;
  ci_answer i j t u a : conversation_turns s !! i = Some t → conversation_turns s !! j = Some u →
    ConversationTurn.assistant_message_id t = Some a →
    ConversationTurn.assistant_message_id u = Some a → i = j;
}.

(** *** Loading succeeds, and within the fuel *)

Context {CH : Chrono} {SJ : SerdeJson}.
Implicit Types (h : snapshots).

Lemma snapshot_with_Ok check s h t sn th :
  ws_inv (workspace s) h → turn_ok s t sn →
  threads s !! ConversationTurn.thread_id t = Some th → check th = Ok tt →
  snapshot_with check s t = Ok sn.
Proof.
  intros Hw [Ht Hc Hk (th' & Hth & Hp) (evs & log & He & Hl & Hv)] Hth' Hch.
  rewrite Hth in Hth'. injection Hth' as ->. unfold snapshot_with.
  rewrite (proj2 (collect_snapshot_Ok s t sn)) by done. cbn. rewrite Hth. cbn.
  destruct (stored_thread _ _ _ _ (inv_threads _ _ Hw) Hth) as [_ Hr].
  destruct (inv_thread_project _ _ Hw _ _ Hth) as [pr Hpr].
  rewrite Hp, Hr, Hch, Hk. rewrite Hp in Hpr. unfold projects. rewrite Hpr.
  rewrite bool_decide_eq_true_2 by done. cbn.
  unfold conversation_event_log. rewrite He. cbn. rewrite Hl. cbn. by rewrite Hv.
Qed.
Lemma snapshot_with_inv check s t sn :
  snapshot_with check s t = Ok sn → ConversationTurnSnapshot.turn sn = t ∧ collected s sn ∧
  is_canonical_conversation_snapshot sn = true.
Proof.
  unfold snapshot_with. intros H. split_binds H. injection H as <-.
  match goal with H : collect_snapshot _ _ = Ok _ |- _ => apply collect_snapshot_Ok in H as [? ?] end.
  match goal with H : reject_if _ _ = Ok _ |- _ => apply reject_if_Ok in H end. by bool_facts.
Qed.

Lemma stored_depth s h i th :
  ws_inv (workspace s) h → threads s !! i = Some th →
  Thread.id th = i ∧ Thread.restore th = Ok th ∧
  0 ≤ ConversationThreadLineage.fork_depth (Thread.lineage th) ≤ 64 ∧
  (ConversationThreadLineage.origin (Thread.lineage th) = ConversationThreadOrigin.Original →
   ConversationThreadLineage.root_thread_id (Thread.lineage th) = i ∧
   ConversationThreadLineage.fork_depth (Thread.lineage th) = 0).
Proof.
  intros Hw Hth. destruct (stored_thread _ _ _ _ (inv_threads _ _ Hw) Hth) as [<- Hr].
  split; [done|]. split; [done|]. apply thread_restore_Ok in Hr as (_ & Hl & _).
  unfold ConversationThreadLineage.restore in Hl.
  destruct (ConversationThreadLineage.origin _); destruct (negb _) eqn:E in Hl; try done;
    bool_facts; rewrite ?in_range_spec, ?Z.eqb_eq in *; split; try done; (lia || auto).
Qed.

Lemma persisted_lineage_Ok s h n i th :
  ws_inv (workspace s) h → conv_inv s → threads s !! i = Some th →
  ConversationThreadLineage.fork_depth (Thread.lineage th) < Z.of_nat n →
  persisted_lineage n s th = Ok tt.
Proof.
  intros Hw Hc. revert i th. induction n as [|n IH]; intros i th Hth Hn.
  { destruct (stored_depth _ _ _ _ Hw Hth) as (_ & _ & ? & _). lia. }
  destruct (stored_depth _ _ _ _ Hw Hth) as (Hid & _ & Hd & Ho).
  pose proof (ci_thread _ Hc _ _ Hth) as Hl. unfold lineage_ok in Hl. cbn. unfold lineage_with.
  destruct (ConversationThreadLineage.origin _) as [|p src msg kind] eqn:Eo.
  { destruct Ho as [-> ->]; [done|]. by rewrite Hid, bool_decide_eq_true_2 by done. }
  destruct Hl as (parent & t & sn & m & b & Hp & Ht & Hok & Hst & Hm & Htp & Hpp & Hroot & Hdep
    & Hmid & Hrole & Hb1 & Hb2).
  rewrite Hp. cbn. rewrite Ht. cbn.
  rewrite (snapshot_with_Ok _ s h t sn parent Hw Hok); [|by rewrite Htp|].
  2:{ apply (IH p parent Hp). lia. }
  cbn. rewrite Hst. cbn. rewrite Hm. cbn.
  destruct (stored_depth _ _ _ _ Hw Hp) as (Hpid & _ & Hd' & _).
  rewrite (to_turn _ _ _ Hok), Htp, Hpid, Hpp, Hroot, Hmid, Hrole, Hb1, Hb2.
  unfold checked_add, u8_max. rewrite (proj2 (Z.leb_le _ _)) by lia. rewrite Hdep.
  by rewrite !bool_decide_eq_true_2 by done.
Qed.

Lemma load_Ok s h i t sn :
  ws_inv (workspace s) h → conv_inv s → conversation_turns s !! i = Some t → turn_ok s t sn →
  conversation_snapshot s t = Ok sn.
Proof.
  intros Hw Hc Ht Hok. destruct (to_thread _ _ _ Hok) as (th & Hth & _).
  eapply snapshot_with_Ok; [done..|]. eapply persisted_lineage_Ok; [done..|].
  destruct (stored_depth _ _ _ _ Hw Hth) as (_ & _ & ? & _). unfold lineage_fuel. lia.
Qed.

(** *** Growth *)

(** The run, the effect and the log of a turn are the same. *)
Definition same_parts s s' t : Prop :=
  runs s' !! ConversationTurn.run_id t = runs s !! ConversationTurn.run_id t ∧
  (∀ e, ConversationTurn.effect_id t = Some e → effects s' !! e = effects s !! e) ∧
  conversation_events s' !! ConversationTurn.id t = conversation_events s !! ConversationTurn.id t.

(** What every step of every client respects: nothing is lost, turns move by calls of the
    aggregate, finished turns and everything turns refer to stay as they are. *)
Record conv_le s s' : Prop := {
  le_thread i th : threads s !! i = Some th → ∃ th', threads s' !! i = Some th' ∧
    Thread.project_id th' = Thread.project_id th ∧ Thread.lineage th' = Thread.lineage th;
  le_turn i t : conversation_turns s !! i = Some t →
    ∃ t', conversation_turns s' !! i = Some t' ∧ rtc turn_call_step t t';
  le_final i t : conversation_turns s !! i = Some t → live t = false → same_parts s s' t;
  le_events i t evs : conversation_turns s !! i = Some t → conversation_events s !! i = Some evs →
    ∃ more, conversation_events s' !! i = Some (evs ++ more);
  le_pinned i : pinned s i → messages s' !! i = messages s !! i;
  le_lineages : conversation_lineages s ⊆ conversation_lineages s';
  le_bindings : conversation_thread_bindings s ⊆ conversation_thread_bindings s';
  le_models : conversation_thread_models s ⊆ conversation_thread_models s';
  le_keys : conversation_turn_keys s ⊆ conversation_turn_keys s';
  le_contexts : conversation_contexts s ⊆ conversation_contexts s';
  le_cancels : conversation_cancel_commands s ⊆ conversation_cancel_commands s';
}.

Lemma conv_le_refl s : conv_le s s.
Proof.
  split; try done; [eauto|intros i t Ht; by exists t|].
  intros i t evs _ E. exists []. by rewrite app_nil_r.
Qed.

Lemma live_false t : live t = false ↔ ConversationTurnState.is_terminal (ConversationTurn.state t) = true.
Proof. unfold live. by rewrite negb_false_iff. Qed.

Lemma final_turn s s' i t :
  conv_le s s' → conversation_turns s !! i = Some t → live t = false →
  conversation_turns s' !! i = Some t.
Proof.
  intros Hle Ht Hl%live_false. destruct (le_turn _ _ Hle _ _ Ht) as (t' & Ht' & Hr).
  by apply turn_calls_terminal in Hr as ->.
Qed.

Lemma turn_assistant_final s i t sn a :
  conv_inv s → conversation_turns s !! i = Some t → turn_ok s t sn →
  ConversationTurn.assistant_message_id t = Some a → live t = false.
Proof.
  intros Hc Ht Hok Ha. destruct (canonical_linked _ (to_canonical _ _ _ Hok)).
  rewrite (to_turn _ _ _ Hok) in *. apply live_false.
  destruct (ConversationTurnSnapshot.assistant_message sn) as [m|]; [|naive_solver].
  by destruct (sl_answer0 m) as (-> & _).
Qed.

Lemma pinned_le s s' i : conv_inv s → conv_le s s' → pinned s i → pinned s' i.
Proof.
  intros Hc Hle [(j & t & Ht & Hi)|(j & ctx & m & Hj & Hm)].
  - left. exists j. destruct (le_turn _ _ Hle _ _ Ht) as (t' & Ht' & Hr). exists t'.
    split; [done|]. destruct Hi as [Hi|Hi].
    + left. by destruct (turn_calls_same _ _ Hr) as (_ & _ & _ & _ & _ & -> & _).
    + right. destruct (ci_turn _ Hc _ _ Ht) as (_ & sn & Hok).
      pose proof (turn_assistant_final _ _ _ _ _ Hc Ht Hok Hi) as Hl%live_false.
      by apply turn_calls_terminal in Hr as ->.
  - right. exists j, ctx, m. split; [|done]. eapply lookup_weaken; [done|apply Hle].
Qed.

Lemma conv_le_trans s1 s2 s3 : conv_inv s1 → conv_le s1 s2 → conv_le s2 s3 → conv_le s1 s3.
Proof.
  intros Hc H12 H23. split.
  - intros i th Hi. destruct (le_thread _ _ H12 _ _ Hi) as (th2 & Hi2 & E1 & E2).
    destruct (le_thread _ _ H23 _ _ Hi2) as (th3 & Hi3 & E3 & E4). exists th3.
    split_and!; [done|by etrans..].
  - intros i t Ht. destruct (le_turn _ _ H12 _ _ Ht) as (t2 & Ht2 & Hr).
    destruct (le_turn _ _ H23 _ _ Ht2) as (t3 & Ht3 & Hr'). exists t3. split; [done|by etrans].
  - intros i t Ht Hl. destruct (le_final _ _ H12 _ _ Ht Hl) as (E1 & E2 & E3).
    destruct (le_final _ _ H23 _ _ (final_turn _ _ _ _ H12 Ht Hl) Hl) as (E4 & E5 & E6).
    split_and!; [by rewrite E4| |by rewrite E6]. intros e He. by rewrite E5, E2.
  - intros i t evs Ht He. destruct (le_events _ _ H12 _ _ _ Ht He) as [more He2].
    destruct (le_turn _ _ H12 _ _ Ht) as (t2 & Ht2 & _).
    destruct (le_events _ _ H23 _ _ _ Ht2 He2) as [more' He3]. exists (more ++ more').
    by rewrite app_assoc.
  - intros i Hi. rewrite (le_pinned _ _ H23) by (by eapply pinned_le). by apply H12.
  - etrans; [apply H12|apply H23].
  - etrans; [apply H12|apply H23].
  - etrans; [apply H12|apply H23].
  - etrans; [apply H12|apply H23].
  - etrans; [apply H12|apply H23].
  - etrans; [apply H12|apply H23].
Qed.

(** A turn whose entities did not change is as complete as before. *)
Lemma resolves_eq {K A} `{Countable K} (T T' : gmap K A) id x :
  (∀ i, id = Some i → T' !! i = T !! i) → resolves T id x → resolves T' id x.
Proof. intros He. unfold resolves. destruct id as [i|], x; try done. by rewrite He. Qed.

Lemma turn_ok_frame s s' i t sn :
  conv_inv s → conv_le s s' → conversation_turns s !! i = Some t → same_parts s s' t →
  turn_ok s t sn → turn_ok s' t sn.
Proof.
  intros Hc Hle Ht (Er & Ee & Ev) [E [C1 C2 C3 C4 C5 C6] Hk (th & Hth & Hp) Hev].
  assert (Hpin : ∀ j, ConversationTurn.user_message_id t = j ∨
      ConversationTurn.assistant_message_id t = Some j → messages s' !! j = messages s !! j).
  { intros j Hj. apply Hle. left. eauto. }
  rewrite E in *. split; [done| |done| |].
  - split; rewrite ?E; [|eapply resolves_eq; [|done]| |eapply resolves_eq; [|done]| |done].
    + rewrite Hpin; auto.
    + auto.
    + by rewrite Er.
    + auto.
    + eapply lookup_weaken; [done|apply Hle].
  - destruct (le_thread _ _ Hle _ _ Hth) as (th' & Hth' & Hp' & _). exists th'.
    split; [done|congruence].
  - by rewrite Ev.
Qed.

Lemma fork_source_final kind sn :
  ensure_fork_source_state kind sn = Ok tt → live (ConversationTurnSnapshot.turn sn) = false.
Proof.
  unfold ensure_fork_source_state, live.
  destruct kind, (ConversationTurn.state (ConversationTurnSnapshot.turn sn)); done.
Qed.

Lemma lineage_ok_le s s' th th' :
  conv_inv s → conv_le s s' → lineage_ok s th → Thread.id th' = Thread.id th →
  Thread.project_id th' = Thread.project_id th → Thread.lineage th' = Thread.lineage th →
  lineage_ok s' th'.
Proof.
  intros Hc Hle Hl Ei Ep El. unfold lineage_ok in *. rewrite El, Ei, Ep.
  destruct (ConversationThreadLineage.origin _) as [|p src msg kind]; [done|].
  destruct Hl as (parent & t & sn & m & b & Hp & Ht & Hok & Hst & Hm & Htp & Hpp & Hroot & Hdep
    & Hmid & Hrole & Hb1 & Hb2).
  pose proof (fork_source_final _ _ Hst) as Hf. rewrite (to_turn _ _ _ Hok) in Hf.
  destruct (le_thread _ _ Hle _ _ Hp) as (parent' & Hp' & Ep' & El').
  exists parent', t, sn, m, b. rewrite Ep', El'. split_and!; try done.
  - by eapply final_turn.
  - eapply turn_ok_frame; [done..|by eapply le_final|done].
  - eapply lookup_weaken; [done|apply Hle].
  - eapply lookup_weaken; [done|apply Hle].
Qed.

Lemma context_ok_le s s' i t t' ctx :
  conv_le s s' → conversation_turns s !! i = Some t → conversation_contexts s !! i = Some ctx →
  same_turn t t' → context_ok s t ctx → context_ok s' t' ctx.
Proof.
  intros Hle Ht Hx (_ & _ & _ & _ & Et & Eu & _) [(um & Hu & Hla) Hst Hso Hv].
  split; rewrite ?Et, ?Eu; [|intros m Hm|done|done].
  - exists um. rewrite (le_pinned _ _ Hle); [done|]. left. eauto.
  - destruct (Hst m Hm) as (? & ? & ?). split_and!; try done.
    rewrite (le_pinned _ _ Hle); [done|]. right. eauto 10.
Qed.

Lemma pinned_stored s i : conv_inv s → pinned s i → is_Some (messages s !! i).
Proof.
  intros Hc [(j & t & Ht & Hi)|(j & ctx & m & Hx & Hm & <-)].
  - destruct (ci_turn _ Hc _ _ Ht) as (_ & sn & [E [C1 C2 _ _ _ _] _ _ _]). rewrite E in *.
    destruct Hi as [<-|Hi]; [by eexists|]. rewrite Hi in C2.
    destruct (ConversationTurnSnapshot.assistant_message sn) as [m|]; [by exists m|done].
  - destruct (ci_context_turn _ Hc _ _ Hx) as [t Ht].
    destruct (ci_context _ Hc _ _ Ht) as (ctx' & Hx' & Hok). simplify_eq.
    destruct (cx_stored _ _ _ Hok m Hm) as [-> _]. by eexists.
Qed.
Lemma pinned_grows s s' :
  conv_inv s → messages s ⊆ messages s' → ∀ i, pinned s i → messages s' !! i = messages s !! i.
Proof.
  intros Hc Hm i Hi. destruct (pinned_stored _ _ Hc Hi) as [m E]. rewrite E.
  by eapply lookup_weaken.
Qed.
Lemma stored_answer s i t a :
  conv_inv s → conversation_turns s !! i = Some t →
  ConversationTurn.assistant_message_id t = Some a → is_Some (messages s !! a).
Proof. intros Hc Ht Ha. eapply pinned_stored; [done|]. left. eauto. Qed.
Lemma stored_effect s i t e :
  conv_inv s → conversation_turns s !! i = Some t → ConversationTurn.effect_id t = Some e →
  is_Some (effects s !! e).
Proof.
  intros Hc Ht He. destruct (ci_turn _ Hc _ _ Ht) as (_ & sn & [E [_ _ _ C4 _ _] _ _ _]).
  rewrite E, He in C4. destruct (ConversationTurnSnapshot.effect sn) as [x|]; [by exists x|done].
Qed.

(** *** What forks rest on *)

Definition derived (m : Message.t) : bool :=
  negb (ConversationMessageDerivation.is_original (Message.derivation m)).

(** A step that is no fork: the tables of forks are the same, new threads are no forks and
    copied messages stay as they are. *)
Definition same_forks s s' : Prop :=
  conversation_fork_commands s' = conversation_fork_commands s ∧
  conversation_fork_deliveries s' = conversation_fork_deliveries s ∧
  conversation_fork_delivery_ack_commands s' = conversation_fork_delivery_ack_commands s ∧
  conversation_inherited_outcomes s' = conversation_inherited_outcomes s.
Record fork_frame s s' : Prop := {
  ff_forks : same_forks s s';
  ff_created i th : threads s' !! i = Some th → threads s !! i = None →
    ConversationThreadLineage.origin (Thread.lineage th) = ConversationThreadOrigin.Original;
  ff_derived i m : derived m = true → messages s' !! i = Some m ↔ messages s !! i = Some m;
}.

Lemma fork_frame_refl s : fork_frame s s.
Proof. split; [done|congruence|done]. Qed.
(** Threads as they were, and at most one new original message. *)
Lemma fork_frame_same s s' :
  same_forks s s' → threads s' = threads s → messages s' = messages s → fork_frame s s'.
Proof. intros Hf Et Em. split; [done|rewrite Et; congruence|by rewrite Em]. Qed.
Lemma fork_frame_message s s' x :
  same_forks s s' → threads s' = threads s → messages s' = <[Message.id x := x]> (messages s) →
  messages s !! Message.id x = None → derived x = false → fork_frame s s'.
Proof.
  intros Hf Et Em Hn Hx. split; [done|rewrite Et; congruence|]. intros i m Hm. rewrite Em. split.
  - intros [[<- <-]|[_ ?]]%lookup_insert_Some; [congruence|done].
  - intros Hi. rewrite lookup_insert_ne; [done|congruence].
Qed.

(** *** A commit on one stored turn *)

Lemma same_events s s' i t evs :
  conv_inv s → conversation_turns s !! i = Some t → same_parts s s' t →
  conversation_events s !! i = Some evs → ∃ more, conversation_events s' !! i = Some (evs ++ more).
Proof.
  intros Hc Ht (_ & _ & Ev) He. destruct (ci_turn _ Hc _ _ Ht) as [Hid _]. rewrite Hid in Ev.
  exists []. by rewrite app_nil_r, Ev.
Qed.

Record turn_update s s' i t t' : Prop := {
  tu_old : conversation_turns s !! i = Some t;
  tu_live : live t = true;
  tu_new : conversation_turns s' = <[i := t']> (conversation_turns s);
  tu_step : rtc turn_call_step t t';
  tu_threads : threads s' = threads s;
  tu_messages : messages s ⊆ messages s';
  tu_others j u : conversation_turns s !! j = Some u → j ≠ i → same_parts s s' u;
  tu_events evs : conversation_events s !! i = Some evs →
    ∃ more, conversation_events s' !! i = Some (evs ++ more);
  tu_effect e : ConversationTurn.effect_id t' = Some e →
    ConversationTurn.effect_id t = Some e ∨ effects s !! e = None;
  tu_lineages : conversation_lineages s' = conversation_lineages s;
  tu_bindings : conversation_thread_bindings s' = conversation_thread_bindings s;
  tu_models : conversation_thread_models s' = conversation_thread_models s;
  tu_keys : conversation_turn_keys s' = conversation_turn_keys s;
  tu_contexts : conversation_contexts s' = conversation_contexts s;
  tu_cancels : conversation_cancel_commands s' = conversation_cancel_commands s;
  tu_ok : ∃ sn, turn_ok s' t' sn;
  tu_answer a : ConversationTurn.assistant_message_id t' = Some a →
    ConversationTurn.assistant_message_id t = Some a ∨ messages s !! a = None;
  tu_frame : fork_frame s s';
}.

Lemma update_le s s' i t t' : conv_inv s → turn_update s s' i t t' → conv_le s s'.
Proof.
  intros Hc [Ht Hl Hn Hs Eth Em Ho Hev _ El Eb Emo Ek Ex Ec _ _ _].
  split; rewrite ?El, ?Eb, ?Emo, ?Ek, ?Ex, ?Ec; try done.
  - intros j th Hj. rewrite Eth. eauto.
  - intros j u Hu. rewrite Hn. destruct (decide (j = i)) as [->|Hne].
    + rewrite lookup_insert_eq. simplify_eq. eauto.
    + rewrite lookup_insert_ne by done. eauto using rtc_refl.
  - intros j u Hu Hf. eapply Ho; [done|]. intros ->. simplify_eq. congruence.
  - intros j u evs Hu He. destruct (decide (j = i)) as [->|Hne]; [by apply Hev|].
    by apply (same_events _ _ _ _ _ Hc Hu (Ho _ _ Hu Hne)).
  - by apply pinned_grows.
Qed.

Lemma update_inv s s' i t t' : conv_inv s → turn_update s s' i t t' → conv_inv s'.
Proof.
  intros Hc Hu. pose proof (update_le _ _ _ _ _ Hc Hu) as Hle.
  destruct Hu as [Ht Hl Hn Hs Eth Em Ho _ Hef El Eb Emo Ek Ex Ec [sn Hok] Han _].
  pose proof (turn_calls_same _ _ Hs) as Hsame.
  pose proof Hsame as (Eid & Ekey & _ & _ & Etid & _ & Erun & Emodel & _).
  destruct (ci_turn _ Hc _ _ Ht) as [Hid _].
  (* every turn of [s'] comes from one of [s] *)
  assert (Hold : ∀ j u, conversation_turns s' !! j = Some u → ∃ u0,
    conversation_turns s !! j = Some u0 ∧ same_turn u0 u ∧
    (j = i ∧ u0 = t ∧ u = t' ∨ j ≠ i ∧ u0 = u)).
  { intros j u. rewrite Hn. intros [[<- <-]|[Hne Hu]]%lookup_insert_Some; [by eauto 8|].
    exists u. split; [done|]. split; [reflexivity|auto]. }
  split; rewrite ?El, ?Eb, ?Emo, ?Ek, ?Ex, ?Ec; try apply Hc.
  - intros j u (u0 & Hu & Hsu & [(-> & -> & ->)|(Hne & ->)])%Hold.
    + split; [congruence|eauto].
    + destruct (ci_turn _ Hc _ _ Hu) as (? & snu & Hoku). split; [done|]. exists snu.
      eapply turn_ok_frame; eauto.
  - intros j th. rewrite Eth. intros Hj. eapply lineage_ok_le; try done. by eapply Hc.
  - intros j k u v (u0 & Hu & (_ & _ & _ & _ & _ & _ & Eu & _) & _)%Hold
      (v0 & Hv & (_ & _ & _ & _ & _ & _ & Ev & _) & _)%Hold. rewrite Eu, Ev. by eapply (ci_run _ Hc).
  - intros j k u v e (u0 & Hu & _ & Hu')%Hold (v0 & Hv & _ & Hv')%Hold Heu Hev.
    destruct Hu' as [(-> & -> & ->)|(Hne & ->)], Hv' as [(-> & -> & ->)|(Hne' & ->)]; try done.
    + apply Hef in Heu as [Heu|Heu]; [by eapply (ci_effect _ Hc)|].
      destruct (stored_effect _ _ _ _ Hc Hv Hev) as [? ?]. congruence.
    + apply Hef in Hev as [Hev|Hev]; [by eapply (ci_effect _ Hc)|].
      destruct (stored_effect _ _ _ _ Hc Hu Heu) as [? ?]. congruence.
    + by eapply (ci_effect _ Hc).
  - intros j k u v (u0 & Hu & (_ & _ & _ & _ & Eu & _) & Hu')%Hold
      (v0 & Hv & (_ & _ & _ & _ & Ev & _) & Hv')%Hold. rewrite Eu, Ev. intros Et Hlu Hlv.
    eapply (ci_live _ Hc); [exact Hu|exact Hv|done|..];
      naive_solver.
  - intros j u l (u0 & Hu & (_ & _ & _ & _ & Eu & _ & _ & Emu & _) & _)%Hold. rewrite Eu, Emu.
    by eapply Hc.
  - intros key j Hj. destruct (ci_key _ Hc _ _ Hj) as (u & Hu & Hk).
    destruct (le_turn _ _ Hle _ _ Hu) as (u' & Hu' & Hr). exists u'. split; [done|].
    by destruct (turn_calls_same _ _ Hr) as (_ & -> & _).
  - intros j u (u0 & Hu & (_ & Eu & _) & _)%Hold. rewrite Eu. by eapply Hc.
  - intros j u (u0 & Hu & Hsu & _)%Hold. destruct (ci_context _ Hc _ _ Hu) as (ctx & Hx & Hcx).
    exists ctx. split; [done|]. eapply context_ok_le; eauto.
  - intros j ctx Hx. destruct (ci_context_turn _ Hc _ _ Hx) as [u Hu].
    destruct (le_turn _ _ Hle _ _ Hu) as (u' & Hu' & _). by eexists.
  - intros j l Hx. destruct (ci_lineage_turn _ Hc _ _ Hx) as [u Hu].
    destruct (le_turn _ _ Hle _ _ Hu) as (u' & Hu' & _). by eexists.
  - intros k r Hr. destruct (ci_cancelled _ Hc _ _ Hr) as (u & Hu & Hf & ?). exists u.
    split; [|done]. by eapply final_turn.
  - intros j k u v a (u0 & Hu & _ & Hu')%Hold (v0 & Hv & _ & Hv')%Hold Hau Hav.
    destruct Hu' as [(-> & -> & ->)|(Hne & ->)], Hv' as [(-> & -> & ->)|(Hne' & ->)]; try done.
    + apply Han in Hau as [Hau|Hau]; [by eapply (ci_answer _ Hc)|].
      destruct (stored_answer _ _ _ _ Hc Hv Hav). congruence.
    + apply Han in Hav as [Hav|Hav]; [by eapply (ci_answer _ Hc)|].
      destruct (stored_answer _ _ _ _ Hc Hu Hau). congruence.
    + by eapply (ci_answer _ Hc).
Qed.

(** *** A reservation *)

Record turn_insert s s' i t (l : ConversationTurnLineage.t) : Prop := {
  ti_fresh : conversation_turns s !! i = None;
  ti_new : conversation_turns s' = <[i := t]> (conversation_turns s);
  ti_id : ConversationTurn.id t = i;
  ti_threads : threads s ⊆ threads s';
  ti_thread j th : threads s' !! j = Some th → threads s !! j = None → lineage_ok s' th;
  ti_messages : messages s ⊆ messages s';
  ti_others j u : conversation_turns s !! j = Some u → same_parts s s' u;
  ti_run : runs s !! ConversationTurn.run_id t = None;
  ti_effect : ConversationTurn.effect_id t = None;
  ti_quiet j u : conversation_turns s !! j = Some u →
    ConversationTurn.thread_id u = ConversationTurn.thread_id t → live u = false;
  ti_lineages : conversation_lineages s' = <[i := l]> (conversation_lineages s);
  ti_bindings : conversation_thread_bindings s ⊆ conversation_thread_bindings s';
  ti_models : conversation_thread_models s ⊆ conversation_thread_models s';
  ti_bound : ∃ b, ConversationTurnLineage.credential_binding_id l = Some b ∧
    conversation_thread_bindings s' !! ConversationTurn.thread_id t = Some b ∧
    conversation_thread_models s' !! ConversationTurn.thread_id t = Some (ConversationTurn.model_id t);
  ti_key : conversation_turn_keys s !! ConversationTurn.idempotency_key t = None;
  ti_keys : conversation_turn_keys s'
    = <[ConversationTurn.idempotency_key t := i]> (conversation_turn_keys s);
  ti_context : ∃ ctx, context_ok s' t ctx ∧
    conversation_contexts s' = <[i := ctx]> (conversation_contexts s);
  ti_retry src j l' : retries src l = true → conversation_lineages s !! j = Some l' →
    retries src l' = false;
  ti_cancels : conversation_cancel_commands s' = conversation_cancel_commands s;
  ti_ok : ∃ sn, turn_ok s' t sn;
  ti_answer : ConversationTurn.assistant_message_id t = None;
}.

Lemma insert_fresh s s' i t l :
  conv_inv s → turn_insert s s' i t l →
  conversation_lineages s !! i = None ∧ conversation_contexts s !! i = None.
Proof.
  intros Hc Hi. pose proof (ti_fresh _ _ _ _ _ Hi) as Hf. split; apply eq_None_not_Some; intros [x Hx].
  - apply (ci_lineage_turn _ Hc) in Hx as [? ?]. congruence.
  - apply (ci_context_turn _ Hc) in Hx as [? ?]. congruence.
Qed.

Lemma insert_le s s' i t l : conv_inv s → turn_insert s s' i t l → conv_le s s'.
Proof.
  intros Hc Hi. destruct (insert_fresh _ _ _ _ _ Hc Hi) as [Fl Fx].
  destruct Hi as [Hf Hn Hid Eth Hth Em Ho Hr He Hq El Eb Emo Hb Hk Ek (ctx & Hcx & Ex) Hre Ec Hok _].
  split; rewrite ?El, ?Ek, ?Ex, ?Ec; try done; try by apply insert_subseteq.
  - intros j th Hj. exists th. split; [|done]. by eapply lookup_weaken.
  - intros j u Hu. exists u. split; [|done]. rewrite Hn, lookup_insert_ne; [done|congruence].
  - intros j u Hu _. eauto.
  - intros j u evs Hu Hev. by eapply same_events; eauto.
  - by apply pinned_grows.
Qed.

Lemma insert_inv s s' i t l : conv_inv s → turn_insert s s' i t l → conv_inv s'.
Proof.
  intros Hc Hi. pose proof (insert_le _ _ _ _ _ Hc Hi) as Hle.
  destruct (insert_fresh _ _ _ _ _ Hc Hi) as [Fl Fx].
  destruct Hi as [Hf Hn Hid Eth Hth Em Ho Hr He Hq El Eb Emo Hb Hk Ek (ctx & Hcx & Ex) Hre Ec [sn Hok] Han].
  assert (Hkept : ∀ j u, conversation_turns s !! j = Some u → conversation_turns s' !! j = Some u).
  { intros j u Hu. rewrite Hn, lookup_insert_ne; [done|congruence]. }
  assert (Hrun : ∀ j u, conversation_turns s !! j = Some u →
    ConversationTurn.run_id u ≠ ConversationTurn.run_id t).
  { intros j u Hu E. destruct (ci_turn _ Hc _ _ Hu) as (_ & snu & [Eu [_ _ C3 _ _ _] _ _ _]).
    rewrite Eu in C3. congruence. }
  split; rewrite ?El, ?Ek, ?Ex, ?Ec.
  - intros j u. rewrite Hn. intros [[<- <-]|[Hne Hu]]%lookup_insert_Some; [eauto|].
    destruct (ci_turn _ Hc _ _ Hu) as (? & snu & Hoku). split; [done|]. exists snu.
    eapply turn_ok_frame; eauto.
  - intros j th Hj. destruct (threads s !! j) as [th0|] eqn:E; [|eauto].
    pose proof (lookup_weaken _ _ _ _ E Eth) as Hj'. simplify_eq.
    eapply lineage_ok_le; try done. by eapply Hc.
  - intros j k u v. rewrite Hn. intros [[<- <-]|[Hj Hu]]%lookup_insert_Some
      [[<- <-]|[Hk' Hv]]%lookup_insert_Some E; [done|..|by eapply (ci_run _ Hc)].
    + by eapply Hrun in Hv.
    + by eapply Hrun in Hu.
  - intros j k u v e. rewrite Hn. intros [[<- <-]|[Hj Hu]]%lookup_insert_Some
      [[<- <-]|[Hk' Hv]]%lookup_insert_Some; [done|congruence|congruence|by eapply (ci_effect _ Hc)].
  - intros j k u v. rewrite Hn. intros [[<- <-]|[Hj Hu]]%lookup_insert_Some
      [[<- <-]|[Hk' Hv]]%lookup_insert_Some E Lu Lv; [done|..|by eapply (ci_live _ Hc)].
    + rewrite (Hq _ _ Hv) in Lv by done. done.
    + rewrite (Hq _ _ Hu) in Lu by done. done.
  - intros j u l'. rewrite Hn. intros [[<- <-]|[Hj Hu]]%lookup_insert_Some.
    + rewrite lookup_insert_eq. intros [= <-]. done.
    + rewrite lookup_insert_ne by done. intros Hl. destruct (ci_bound _ Hc _ _ _ Hu Hl) as (b & ? & ? & ?).
      exists b. split_and!; [done|by eapply lookup_weaken..].
  - intros key j [[<- <-]|[Hne Hj]]%lookup_insert_Some.
    + exists t. by rewrite Hn, lookup_insert_eq.
    + destruct (ci_key _ Hc _ _ Hj) as (u & Hu & ?). eauto.
  - intros j u. rewrite Hn. intros [[<- <-]|[Hj Hu]]%lookup_insert_Some; [by rewrite lookup_insert_eq|].
    pose proof (ci_keyed _ Hc _ _ Hu). rewrite lookup_insert_ne; [done|congruence].
  - intros j u. rewrite Hn. intros [[<- <-]|[Hj Hu]]%lookup_insert_Some.
    + exists ctx. by rewrite lookup_insert_eq.
    + destruct (ci_context _ Hc _ _ Hu) as (ctx' & Hx' & Hcx'). exists ctx'.
      rewrite lookup_insert_ne by done. split; [done|]. eapply context_ok_le; eauto. reflexivity.
  - intros j ctx' [[<- <-]|[Hne Hj]]%lookup_insert_Some; [by rewrite Hn, lookup_insert_eq|].
    destruct (ci_context_turn _ Hc _ _ Hj). eauto.
  - intros j l' [[<- <-]|[Hne Hj]]%lookup_insert_Some; [by rewrite Hn, lookup_insert_eq|].
    destruct (ci_lineage_turn _ Hc _ _ Hj). eauto.
  - intros j k lj lk src [[<- <-]|[Hj Hl]]%lookup_insert_Some [[<- <-]|[Hk' Hl']]%lookup_insert_Some R1 R2;
      [done|..|by eapply (ci_retried _ Hc)].
    + rewrite (Hre _ _ _ R1 Hl') in R2. done.
    + rewrite (Hre _ _ _ R2 Hl) in R1. done.
  - intros k r Hk'. destruct (ci_cancelled _ Hc _ _ Hk') as (u & Hu & ?). eauto.
  - intros j k u v a. rewrite Hn. intros [[<- <-]|[Hj Hu]]%lookup_insert_Some
      [[<- <-]|[Hk' Hv]]%lookup_insert_Some; [done|congruence|congruence|by eapply (ci_answer _ Hc)].
Qed.

(** *** Steps that leave the conversation tables alone *)

Record quiet s s' : Prop := {
  qu_turns : conversation_turns s' = conversation_turns s;
  qu_lineages : conversation_lineages s' = conversation_lineages s;
  qu_bindings : conversation_thread_bindings s ⊆ conversation_thread_bindings s';
  qu_models : conversation_thread_models s ⊆ conversation_thread_models s';
  qu_keys : conversation_turn_keys s' = conversation_turn_keys s;
  qu_contexts : conversation_contexts s' = conversation_contexts s;
  qu_parts i t : conversation_turns s !! i = Some t → same_parts s s' t;
  qu_thread i th : threads s !! i = Some th → ∃ th', threads s' !! i = Some th' ∧
    Thread.id th' = Thread.id th ∧
    Thread.project_id th' = Thread.project_id th ∧ Thread.lineage th' = Thread.lineage th;
  qu_created i th : threads s' !! i = Some th → threads s !! i = None → lineage_ok s' th;
  qu_pinned i : pinned s i → messages s' !! i = messages s !! i;
  qu_cancels : conversation_cancel_commands s ⊆ conversation_cancel_commands s';
  qu_cancelled k r : conversation_cancel_commands s' !! k = Some r →
    conversation_cancel_commands s !! k = None →
    ∃ t, conversation_turns s !! ConversationCancelCommandRecord.turn_id r = Some t ∧
      live t = false ∧
      ConversationTurn.state t = ConversationCancelCommandRecord.outcome_state r ∧
      ConversationTurn.revision t = ConversationCancelCommandRecord.outcome_revision r;
}.

Lemma quiet_le s s' : conv_inv s → quiet s s' → conv_le s s'.
Proof.
  intros Hi [E1 E2 E3 E4 E5 E6 Hp Ht _ Hpin Hc _].
  split; rewrite ?E1, ?E2, ?E5, ?E6; try done.
  - intros i th Hth. destruct (Ht _ _ Hth) as (th' & ? & _ & ? & ?). eauto.
  - intros i t Ht'. by exists t.
  - eauto.
  - intros i t evs Ht' He. by eapply same_events; eauto.
Qed.
Lemma quiet_inv s s' : conv_inv s → quiet s s' → conv_inv s'.
Proof.
  intros Hc Hq. pose proof (quiet_le _ _ Hc Hq) as Hle.
  destruct Hq as [E1 E2 E3 E4 E5 E6 Hp Ht Hn Hpin Hcs Hcn].
  split; rewrite ?E1, ?E2, ?E5, ?E6; try apply Hc.
  - intros i t Hi. destruct (ci_turn _ Hc _ _ Hi) as (? & sn & Hok). split; [done|]. exists sn.
    eapply turn_ok_frame; eauto.
  - intros i th Hi. destruct (threads s !! i) as [th0|] eqn:E.
    + destruct (Ht _ _ E) as (th' & Hi' & ? & ? & ?). simplify_eq.
      eapply lineage_ok_le; try done. by eapply Hc.
    + by eapply Hn.
  - intros i t l Hi Hl. destruct (ci_bound _ Hc _ _ _ Hi Hl) as (b & ? & ? & ?). exists b.
    split_and!; [done|by eapply lookup_weaken..].
  - intros i t Hi. destruct (ci_context _ Hc _ _ Hi) as (ctx & Hx & Hcx). exists ctx.
    split; [done|]. eapply context_ok_le; eauto. reflexivity.
  - intros k r Hk. destruct (conversation_cancel_commands s !! k) as [r0|] eqn:E; [|eauto].
    pose proof (lookup_weaken _ _ _ _ E Hcs). simplify_eq. by eapply Hc.
Qed.

(** *** The commits around a provider call *)

Definition insert_all {K A} `{Countable K} (id : A → K) (x : option A) (T : gmap K A) : gmap K A :=
  match x with Some y => <[id y := y]> T | None => T end.

Lemma insert_all_resolves {K A} `{Countable K} (id : A → K) x (T : gmap K A) :
  resolves (insert_all id x T) (id <$> x) x.
Proof. destruct x; cbn; [apply lookup_insert_eq|done]. Qed.

Lemma stored_Ok s h i sn :
  ws_inv (workspace s) h → conv_inv s → stored_snapshot s i = Ok sn →
  ∃ t, conversation_turns s !! i = Some t ∧ turn_ok s t sn.
Proof.
  intros Hw Hc H. unfold stored_snapshot in H. apply result_bind_Ok in H as (t & Ht%ok_or_Ok & H).
  exists t. split; [done|]. destruct (ci_turn _ Hc _ _ Ht) as (_ & sn' & Hok).
  rewrite (load_Ok _ _ _ _ _ Hw Hc Ht Hok) in H. by injection H as <-.
Qed.
Lemma stored_load s h i t sn :
  ws_inv (workspace s) h → conv_inv s → conversation_turns s !! i = Some t → turn_ok s t sn →
  stored_snapshot s i = Ok sn.
Proof. intros Hw Hc Ht Hok. unfold stored_snapshot. rewrite Ht. cbn. by eapply load_Ok. Qed.

(** The new state of one turn, with its entities and one more event. *)
Record committed s s' i (P : ConversationTurnSnapshot.t) (evs : list ConversationTurnEvent.t) : Prop := {
  cm_turns : conversation_turns s' = <[i := ConversationTurnSnapshot.turn P]> (conversation_turns s);
  cm_threads : threads s' = threads s;
  cm_messages : messages s'
    = insert_all Message.id (ConversationTurnSnapshot.assistant_message P) (messages s);
  cm_runs : runs s'
    = <[Run.id (ConversationTurnSnapshot.run P) := ConversationTurnSnapshot.run P]> (runs s);
  cm_effects : effects s'
    = insert_all SideEffect.id (ConversationTurnSnapshot.effect P) (effects s);
  cm_events : conversation_events s' = <[i := evs]> (conversation_events s);
  cm_lineages : conversation_lineages s' = conversation_lineages s;
  cm_bindings : conversation_thread_bindings s' = conversation_thread_bindings s;
  cm_models : conversation_thread_models s' = conversation_thread_models s;
  cm_keys : conversation_turn_keys s' = conversation_turn_keys s;
  cm_contexts : conversation_contexts s' = conversation_contexts s;
  cm_cancels : conversation_cancel_commands s' = conversation_cancel_commands s;
  cm_forks : same_forks s s';
}.

Lemma commit_update s s' i t sn P evs log k log' e :
  conv_inv s → conversation_turns s !! i = Some t → turn_ok s t sn → live t = true →
  turn_call_step t (ConversationTurnSnapshot.turn P) →
  is_canonical_conversation_snapshot P = true →
  ConversationTurnSnapshot.user_message P = ConversationTurnSnapshot.user_message sn →
  ConversationTurnSnapshot.lineage P = ConversationTurnSnapshot.lineage sn →
  (∀ a, ConversationTurnSnapshot.assistant_message P = Some a → messages s !! Message.id a = None) →
  (∀ x, ConversationTurnSnapshot.effect P = Some x →
     ConversationTurn.effect_id t = Some (SideEffect.id x) ∨ effects s !! SideEffect.id x = None) →
  conversation_events s !! i = Some evs → ConversationTurnEventLog.restore i evs = Ok log →
  ConversationTurnEventLog.append_kind k log = (log', Ok e) →
  ConversationTurnEventLog.validate_snapshot log' (ConversationTurnSnapshot.turn P)
    (Message.content <$> ConversationTurnSnapshot.assistant_message P) = Ok tt →
  committed s s' i P (evs ++ [e]) →
  turn_update s s' i t (ConversationTurnSnapshot.turn P) ∧
  turn_ok s' (ConversationTurnSnapshot.turn P) P.
Proof.
  intros Hc Ht Hok Hl Hst Hk Eu El Ha He Hevs Hlog Happ Hval Hcm.
  pose proof (canonical_linked _ Hk) as [_ Lr _ _ _ _ La Lan Lrun Leff].
  destruct (turn_call_edge _ _ Hst) as (Hsame & _ & _).
  pose proof Hsame as (Eid & _ & _ & Epr & Eth & Eum & Ern & _).
  destruct (ci_turn _ Hc _ _ Ht) as [Hid _].
  destruct Hok as [Et [C1 _ _ _ C5 _] _ (th & Hth & Hpr) _]. rewrite Et in *.
  destruct Hcm as [M1 M2 M3 M4 M5 M6 M7 M8 M9 M10 M11 M12 M13].
  assert (Hnew : turn_ok s' (ConversationTurnSnapshot.turn P) P).
  { split; [done| |done| |].
    - split; [| | | | |done].
      + rewrite Eum, M3, Eu. destruct (ConversationTurnSnapshot.assistant_message P) as [a|]; [|done].
        cbn. rewrite lookup_insert_ne; [done|]. intros E. specialize (Ha a eq_refl). congruence.
      + rewrite M3, La. apply insert_all_resolves.
      + by rewrite M4, <- Lrun, lookup_insert_eq.
      + rewrite M5, Leff. apply insert_all_resolves.
      + by rewrite M7, Eid, El.
    - exists th. by rewrite M2, Eth, Epr.
    - exists (evs ++ [e]), log'. rewrite M6, Eid, Hid, lookup_insert_eq. split_and!; try done.
      by apply (event_log_append_is_replay _ _ _ _ _ _ Hlog Happ). }
  split; [|done]. split; try done; [by apply rtc_once| | |intros evs' Hevs'|intros x Hx|by eauto|intros x Hx|].
  - rewrite M3. destruct (ConversationTurnSnapshot.assistant_message P) as [a|]; [|done].
    apply insert_subseteq. auto.
  - intros j u Hu Hne. rewrite <- Lrun in Ern. split_and!.
    + rewrite M4, lookup_insert_ne; [done|]. rewrite Ern. intros E. apply Hne.
      by eapply (ci_run _ Hc).
    + intros x Hx. rewrite M5. destruct (ConversationTurnSnapshot.effect P) as [y|]; [|done]. cbn.
      rewrite lookup_insert_ne; [done|]. intros <-. destruct (He y eq_refl) as [Hy|Hy].
      * apply Hne. by eapply (ci_effect _ Hc).
      * destruct (stored_effect _ _ _ _ Hc Hu Hx). congruence.
    + destruct (ci_turn _ Hc _ _ Hu) as [-> _]. by rewrite M6, lookup_insert_ne.
  - exists [e]. rewrite M6, lookup_insert_eq. congruence.
  - rewrite Leff in Hx. destruct (ConversationTurnSnapshot.effect P) as [y|]; [|done].
    injection Hx as <-. auto.
  - rewrite La in Hx. destruct (ConversationTurnSnapshot.assistant_message P) as [a|]; [|done].
    injection Hx as <-. auto.
  - destruct (ConversationTurnSnapshot.assistant_message P) as [a|]; [|by apply fork_frame_same].
    apply (fork_frame_message _ _ a); auto. destruct (Lan a eq_refl) as (_ & _ & _ & _ & Hd).
    unfold derived. by rewrite Hd.
Qed.

Lemma others_write_same (w w' : WS) :
  WorkspaceState.projects w' = WorkspaceState.projects w →
  WorkspaceState.threads w' = WorkspaceState.threads w →
  WorkspaceState.messages w' = WorkspaceState.messages w →
  WorkspaceState.automations w' = WorkspaceState.automations w →
  WorkspaceState.automation_history w' = WorkspaceState.automation_history w →
  WorkspaceState.workspace_commands w' = WorkspaceState.workspace_commands w → others_write w w'.
Proof.
  intros E1 E2 E3 E4 E5 E6. split; try done; unfold extends; rewrite ?E2, ?E3; try done;
    try (split; [done|]); intros; congruence.
Qed.

Lemma event_log_Ok s i log :
  conversation_event_log s i = Ok log → ∃ evs, conversation_events s !! i = Some evs ∧
    ConversationTurnEventLog.restore i evs = Ok log.
Proof.
  unfold conversation_event_log. intros H. apply result_bind_Ok in H as (evs & He%ok_or_Ok & H).
  rewrite map_err_Ok in H. eauto.
Qed.

Lemma start_ok s h commit s' r :
  ws_inv (workspace s) h → conv_inv s →
  ConversationMemory.commit_provider_start commit s = (s', r) →
  refused s s' r ∨ ∃ t sn,
    let t' := ProviderStartCommit.turn commit in
    let e := SideEffect.id (ProviderStartCommit.effect commit) in
    turn_update s s' (ConversationTurn.id t') t t' ∧ others_write (workspace s) (workspace s') ∧
    ConversationTurn.state t = ConversationTurnState.Reserved ∧
    ConversationTurn.state t' = ConversationTurnState.ProviderStarted ∧
    effects s !! e = None ∧ ConversationTurn.effect_id t' = Some e ∧ turn_ok s' t' sn ∧ r = Ok sn.
Proof.
  intros Hw Hc H. unfold ConversationMemory.commit_provider_start in H. check_self H.
  check H current Hcur. injection Hcur as Hcur.
  destruct (stored_Ok _ _ _ _ Hw Hc Hcur) as (t & Ht & Hok).
  check H u1 G1. apply throw_if_Ok in G1. apply orb_false_iff in G1 as [Gn%is_some_false Ge].
  apply negb_false_iff in Ge. check H u2 G2. apply throw_if_Ok, negb_false_iff in G2.
  check H log Hlog. injection Hlog as (evs & Hevs & Hlog)%event_log_Ok.
  destruct (ConversationTurnEventLog.append_kind _ log) as [log' appended] eqn:Happ.
  check H ev Hev. injection Hev as Hev. rewrite map_err_Ok in Hev. subst appended.
  check H u3 G3. injection G3 as G3. rewrite map_err_Ok in G3. destruct u3.
  destruct (exact_start_step _ _ Ge) as (Hst & Hres & Hps & Heff & Hrun & Has).
  rewrite (to_turn _ _ _ Hok) in Hst, Hres. right.
  destruct (ci_turn _ Hc _ _ Ht) as [Hid _].
  do 3 write H. extend H Hevs. write H. apply self_bind in H. injection H as Hs' Hr. subst s'.
  match type of G2 with is_canonical_conversation_snapshot ?P0 = _ => set (P := P0) in * end.
  destruct (commit_update s s4 (ConversationTurn.id (ProviderStartCommit.turn commit)) t current P
    evs log (ProviderStartCommit.turn_event commit) log' ev) as [Hup Hok']; try done.
  - unfold live. by rewrite Hres.
  - intros x [= <-]. by right.
  - split; by read_back.
  - assert (Hw' : others_write (workspace s) (workspace s4)).
    { apply others_write_same; by read_back. }
    exists t, P. split_and!; try done. rewrite <- Hr.
    eapply (stored_load s4 h); [by eapply others_write_inv|by eapply update_inv| |done].
    rewrite (tu_new _ _ _ _ _ Hup). apply lookup_insert_eq.
Qed.

(** A new numbered message in a stored thread. *)
Lemma others_write_message (w w' : WS) m :
  WorkspaceState.projects w' = WorkspaceState.projects w →
  WorkspaceState.threads w' = WorkspaceState.threads w →
  WorkspaceState.messages w' = <[Message.id m := m]> (WorkspaceState.messages w) →
  WorkspaceState.automations w' = WorkspaceState.automations w →
  WorkspaceState.automation_history w' = WorkspaceState.automation_history w →
  WorkspaceState.workspace_commands w' = WorkspaceState.workspace_commands w →
  WorkspaceState.messages w !! Message.id m = None → valid_id (as_str (Message.id m)) →
  ag_initial m → is_Some (WorkspaceState.threads w !! Message.thread_id m) →
  Message.sequence m = WorkspaceMemory.last_sequence w (Message.thread_id m) + 1 →
  others_write w w'.
Proof.
  intros E1 E2 E3 E4 E5 E6 Hn Hv Hi Ht Hs. split; try done; unfold extends; rewrite ?E2, ?E3.
  - split; [done|]. intros; congruence.
  - split; [by apply insert_subseteq|]. intros i x [[<- <-]|[_ Hx]]%lookup_insert_Some ?; [done|congruence].
  - intros; congruence.
  - intros i x [[<- <-]|[_ Hx]]%lookup_insert_Some ?; [done|congruence].
  - intros Hok. by apply sequences_ok_create.
Qed.

Lemma number_assistant_Ok s assistant numbered :
  ConversationMemory.number_assistant s assistant = Ok numbered →
  (assistant = None ∧ numbered = None) ∨ ∃ a, assistant = Some a ∧
    messages s !! Message.id a = None ∧
    numbered = Some (a <| Message.sequence :=
      WorkspaceMemory.last_sequence (workspace s) (Message.thread_id a) + 1 |>).
Proof.
  unfold ConversationMemory.number_assistant. destruct assistant as [a|]; [|naive_solver].
  intros H. split_binds H. apply reject_if_Ok, is_some_false in Hx. apply ok_or_Ok in Hx0.
  apply checked_add_Some in Hx0 as [-> _]. right. exists a. by injection H as <-.
Qed.

Definition terminal_typed (commit : TerminalTurnCommit.t) : Prop :=
  match TerminalTurnCommit.assistant_message commit with
  | Some a => valid_id (as_str (Message.id a))
  | None => True
  end.

Lemma terminal_ok s h commit s' r :
  ws_inv (workspace s) h → conv_inv s → terminal_typed commit →
  ConversationMemory.commit_conversation_terminal commit s = (s', r) →
  refused s s' r ∨ ∃ t sn,
    let t' := TerminalTurnCommit.turn commit in
    turn_update s s' (ConversationTurn.id t') t t' ∧ others_write (workspace s) (workspace s') ∧
    live t' = false ∧ ConversationTurn.effect_id t' = ConversationTurn.effect_id t ∧
    turn_ok s' t' sn ∧ r = Ok sn.
Proof.
  intros Hw Hc Hty H. unfold ConversationMemory.commit_conversation_terminal in H. check_self H.
  check H current Hcur. injection Hcur as Hcur.
  destruct (stored_Ok _ _ _ _ Hw Hc Hcur) as (t & Ht & Hok).
  check H u1 G1. apply throw_if_Ok, negb_false_iff in G1.
  check H pa Hpa. injection Hpa as Hpa%number_assistant_Ok.
  check H u2 G2. apply throw_if_Ok, negb_false_iff in G2.
  check H log Hlog. injection Hlog as (evs & Hevs & Hlog)%event_log_Ok.
  destruct (ConversationTurnEventLog.append_kind _ log) as [log' appended] eqn:Happ.
  check H ev Hev. injection Hev as Hev. rewrite map_err_Ok in Hev. subst appended.
  check H u3 G3. injection G3 as G3. rewrite map_err_Ok in G3. destruct u3.
  destruct (exact_terminal_step _ _ G1) as (Hst & Hterm).
  rewrite (to_turn _ _ _ Hok) in Hst. right.
  destruct (turn_call_edge _ _ Hst) as (_ & Hperm & Hef).
  assert (Hlive : live t = true).
  { unfold live. by destruct (ConversationTurn.state t). }
  match type of G2 with is_canonical_conversation_snapshot ?P0 = _ => set (P := P0) in * end.
  assert (∃ s1, s1 = s <| workspace := (workspace s) <| WorkspaceState.messages :=
      insert_all Message.id pa (messages s) |> |> <| execution := (execution s) <| State.effects :=
      insert_all SideEffect.id (TerminalTurnCommit.effect commit) (effects s) |> |> ∧
    (_ ← put_run (TerminalTurnCommit.run commit); _ ← put_turn (TerminalTurnCommit.turn commit);
     _ ← extend_turn_events (ConversationTurn.id (TerminalTurnCommit.turn commit)) [ev];
     _ ← put_run_events (Run.id (TerminalTurnCommit.run commit)) (TerminalTurnCommit.events commit);
     s ← self; lift (stored_snapshot s (ConversationTurn.id (TerminalTurnCommit.turn commit)))) s1
    = (s', r)) as (s1 & Es1 & H1).
  { eexists. split; [done|]. rewrite <- H. destruct s as [[] [] ? ? ? ? ? ?].
    by destruct pa, (TerminalTurnCommit.effect commit). }
  clear H. do 2 write H1. extend H1 Hevs. write H1. apply self_bind in H1. injection H1 as Hs' Hr. subst s'.
  destruct (commit_update s s4 (ConversationTurn.id (TerminalTurnCommit.turn commit)) t current P
    evs log (TerminalTurnCommit.turn_event commit) log' ev) as [Hup Hok']; try done.
  - intros a Ha. cbn in Ha. destruct Hpa as [[_ ->]|(a0 & _ & Hn & ->)]; [done|]. by injection Ha as <-.
  - intros x Hx. left. destruct (canonical_linked _ G2) as [_ _ _ _ _ _ _ _ _ Le].
    rewrite Hx in Le. cbn in Le. destruct Hef as [<-|[_ Hps]]; [done|]. by rewrite Hps in Hterm.
  - split; by read_back.
  - assert (Hw' : others_write (workspace s) (workspace s4)).
    { destruct Hpa as [[_ ->]|(a0 & Ha0 & Hn & Epa)].
      { apply others_write_same; by read_back. }
      unfold terminal_typed in Hty. rewrite Ha0 in Hty.
      destruct (canonical_linked _ G2) as [_ _ _ _ _ _ _ Lan _ _].
      destruct (Lan _ Epa) as (Hcomp & Hath & _).
      destruct (to_thread _ _ _ Hok) as (th & Hth & _).
      destruct (turn_call_edge _ _ Hst) as ((_ & _ & _ & _ & Et & _) & _).
      eapply others_write_message with (m := a0 <| Message.sequence := _ |>); try exact Hn; try exact Hty;
        try by read_back.
      - read_back. by rewrite Epa.
      - left. pose proof (canonical_answer _ G2) as Hca. unfold is_canonical_assistant_message in Hca. rewrite Hcomp in Hca. cbn in Hca.
        rewrite Epa in Hca. bool_facts.
        match goal with H : is_canonical_message _ _ _ _ = true |- _ =>
          apply canonical_message_facts in H as (_ & _ & _ & _ & m0 & Hm0 & Em0) end.
        do 7 eexists. split; [exact Hm0|]. split; [|exact Em0]. cbn.
        destruct (last_sequence_spec (workspace s) (Message.thread_id a0)) as (? & _). lia.
      - cbn in Hath |- *. exists th. rewrite Hath. unfold threads in Hth. cbn. by rewrite Et.
      - done. }
    exists t, P. split_and!; try done.
    { by apply live_false. }
    { destruct Hef as [?|[_ Hps]]; [done|]. by rewrite Hps in Hterm. }
    rewrite <- Hr. eapply (stored_load s4 h); [by eapply others_write_inv|by eapply update_inv| |done].
    rewrite (tu_new _ _ _ _ _ Hup). apply lookup_insert_eq.
Qed.

(** *** Cancellation *)

Definition cancel_typed (commit : CancelConversationTurnCommit.t) : Prop :=
  match CancelConversationTurnCommit.terminal commit with
  | Some terminal => terminal_typed terminal
  | None => True
  end.

Definition cancel_key (commit : CancelConversationTurnCommit.t) : str * str :=
  (MutationCommand.scope (CancelConversationTurnCommit.command commit),
   MutationCommand.key (CancelConversationTurnCommit.command commit)).
Definition cancel_record (commit : CancelConversationTurnCommit.t) t :
    ConversationCancelCommandRecord.t :=
  ConversationCancelCommandRecord.mk
    (MutationCommand.fingerprint (CancelConversationTurnCommit.command commit))
    (CancelConversationTurnCommit.turn_id commit) (ConversationTurn.state t)
    (ConversationTurn.revision t).
Definition with_cancel (commit : CancelConversationTurnCommit.t) t s : CS :=
  s <| conversation_cancel_commands :=
    <[cancel_key commit := cancel_record commit t]> (conversation_cancel_commands s) |>.

Lemma with_cancel_quiet commit t s :
  conversation_cancel_commands s !! cancel_key commit = None →
  conversation_turns s !! CancelConversationTurnCommit.turn_id commit = Some t → live t = false →
  quiet s (with_cancel commit t s).
Proof.
  intros Hn Ht Hl. split; try done.
  - intros i th Hi. by exists th.
  - intros i th Hi E. change (threads s !! i = Some th) in Hi. congruence.
  - by apply insert_subseteq.
  - intros k rec Hk E. unfold with_cancel in Hk. cbn in Hk.
    apply lookup_insert_Some in Hk as [[<- <-]|[_ Hk]]; [by exists t|congruence].
Qed.

(** A cancellation changes nothing, or records its command on a finished turn, which it
    may just have finished itself. *)
Lemma cancel_ok s h commit scope s' r :
  ws_inv (workspace s) h → conv_inv s → cancel_typed commit →
  ConversationMemory.commit_conversation_cancellation commit scope s = (s', r) →
  s' = s ∨ ∃ s1 t sn,
    (s1 = s ∨ ∃ t0, turn_update s s1 (CancelConversationTurnCommit.turn_id commit) t0 t ∧
       others_write (workspace s) (workspace s1) ∧
       ConversationTurn.effect_id t = ConversationTurn.effect_id t0 ∧
       ∃ terminal, CancelConversationTurnCommit.terminal commit = Some terminal ∧
         t = TerminalTurnCommit.turn terminal) ∧
    conversation_turns s1 !! CancelConversationTurnCommit.turn_id commit = Some t ∧
    live t = false ∧ turn_ok s1 t sn ∧ conversation_cancel_commands s1 !! cancel_key commit = None ∧
    s' = with_cancel commit t s1 ∧ r = Ok sn.
Proof.
  intros Hw Hc Hty H. unfold ConversationMemory.commit_conversation_cancellation in H.
  peel H u Hu. apply self_bind in H.
  destruct (conversation_cancel_commands s !! _) as [rec|] eqn:Ek; [left; by injection H|].
  peel H current Hcur. injection Hcur as Hcur.
  destruct (stored_Ok _ _ _ _ Hw Hc Hcur) as (t & Ht & Hok). rewrite (to_turn _ _ _ Hok) in H.
  destruct (ConversationTurnState.is_terminal (ConversationTurn.state t)) eqn:Et.
  - run_unfold in H. match type of H with context [if ?b then _ else _] => destruct b end;
      [injection H as <- _; by left|].
    unfold put_cancel_command in H. cbn in H. injection H as <- <-. right.
    exists s, t, current. apply live_false in Et. split_and!; try done; [by left|].
    unfold with_cancel, cancel_record. by rewrite <- (to_turn _ _ _ Hok).
  - apply bind_cases in H as (s1 & o & Em & H).
    assert (Ho : refused s s1 o ∨ ∃ t0 t1 sn,
      turn_update s s1 (CancelConversationTurnCommit.turn_id commit) t0 t1 ∧
      others_write (workspace s) (workspace s1) ∧ live t1 = false ∧
      ConversationTurn.effect_id t1 = ConversationTurn.effect_id t0 ∧
      (∃ terminal, CancelConversationTurnCommit.terminal commit = Some terminal ∧
         t1 = TerminalTurnCommit.turn terminal) ∧ turn_ok s1 t1 sn ∧ o = Ok sn).
    { check Em u1 G1. check Em terminal Hterm. injection Hterm as Hterm%ok_or_Ok.
      check Em u2 G2. apply throw_if_Ok in G2. bool_facts. unfold cancel_typed in Hty.
      rewrite Hterm in Hty.
      eapply terminal_ok in Em as [Em|(t0 & sn & ? & ? & ? & ? & ? & ?)]; [by left|..|done|done|done].
      right. exists t0, (TerminalTurnCommit.turn terminal), sn.
      match goal with H : ConversationTurn.id _ = CancelConversationTurnCommit.turn_id _ |- _ =>
        rewrite <- H end. split_and!; try done. by exists terminal. }
    destruct Ho as [[-> Ho]|(t0 & t1 & sn & Hup & How & Hl & Hef & Hterm & Hok1 & ->)].
    { destruct o; [done|]. left. by destruct H. }
    unfold put_cancel_command in H. cbn in H. injection H as <- <-. right. exists s1, t1, sn.
    split_and!; try done; [right; by exists t0| | |].
    + rewrite (tu_new _ _ _ _ _ Hup). apply lookup_insert_eq.
    + by rewrite (tu_cancels _ _ _ _ _ Hup).
    + unfold with_cancel, cancel_record. by rewrite <- (to_turn _ _ _ Hok1).
Qed.

(** *** Streamed text *)

Lemma append_text_log off chunk (log log' : ConversationTurnEventLog.t) e :
  ConversationTurnEventLog.append_kind (ConversationTurnEventKind.TextAppended off chunk) log
    = (log', Ok e) →
  ConversationTurnEventLog.turn_id log' = ConversationTurnEventLog.turn_id log ∧
  ConversationTurnEventLog.state log' = ConversationTurnEventLog.state log ∧
  ConversationTurnEventLog.text log' = ConversationTurnEventLog.text log ++ chunk ∧
  ConversationTurnEvent.kind e = ConversationTurnEventKind.TextAppended off chunk.
Proof.
  unfold ConversationTurnEventLog.append_kind, ConversationTurnEventLog.append_event,
    ConversationTurnEventLog.apply_kind, ConversationTurnEvent.restore. intros H. run_in H; done.
Qed.

Lemma append_chunks_log tid chunks evs (log log' : ConversationTurnEventLog.t) new :
  ConversationTurnEventLog.restore tid evs = Ok log →
  ConversationMemory.append_chunks chunks log = (log', Ok new) →
  ConversationTurnEventLog.restore tid (evs ++ new) = Ok log' ∧
  ConversationTurnEventLog.turn_id log' = ConversationTurnEventLog.turn_id log ∧
  ConversationTurnEventLog.state log' = ConversationTurnEventLog.state log ∧
  ConversationTurnEventLog.text log' = ConversationTurnEventLog.text log ++ mjoin chunks ∧
  ConversationTurnEvent.kind <$> new = text_kinds (len (ConversationTurnEventLog.text log)) chunks.
Proof.
  revert evs log new. induction chunks as [|c chunks IH]; intros evs log new Hlog H; cbn in H.
  { injection H as <- <-. rewrite !app_nil_r. done. }
  run_unfold in H.
  destruct (ConversationTurnEventLog.append_kind _ log) as [log1 [e|]] eqn:Ea; [|done].
  destruct (ConversationMemory.append_chunks chunks log1) as [log2 [new1|]] eqn:Ec; [|done].
  injection H as -> <-. pose proof (event_log_append_is_replay _ _ _ _ _ _ Hlog Ea) as Hlog1. cbn in Hlog1.
  destruct (append_text_log _ _ _ _ _ Ea) as (E1 & E2 & E3 & E4).
  destruct (IH _ _ _ Hlog1 Ec) as (F1 & F2 & F3 & F4 & F5).
  rewrite <- app_assoc in F1. split_and!; [done|congruence|congruence| |].
  - rewrite F4, E3. cbn. by rewrite <- app_assoc.
  - cbn. rewrite F5, E3, len_app, E4. done.
Qed.

Lemma append_ok s h i n off text s' r :
  ws_inv (workspace s) h → conv_inv s →
  ConversationMemory.append_turn_text i n off text s = (s', r) →
  s' = s ∨ ∃ t evs log log' new,
    turn_update s s' i t t ∧ others_write (workspace s) (workspace s') ∧
    ConversationTurn.state t = ConversationTurnState.ProviderStarted ∧
    ConversationTurn.revision t = n ∧
    conversation_events s !! i = Some evs ∧ ConversationTurnEventLog.restore i evs = Ok log ∧
    off = len (ConversationTurnEventLog.text log) ∧
    ConversationMemory.append_chunks (split_conversation_text text) log = (log', Ok new) ∧
    s' = s <| conversation_events := <[i := evs ++ new]> (conversation_events s) |> ∧ r = Ok new.
Proof.
  intros Hw Hc H. unfold ConversationMemory.append_turn_text in H. peel H u1 G1.
  apply self_bind in H. peel H u Ht. injection Ht as Ht%ok_or_Ok. rename u into t.
  peel H u2 G2. apply throw_if_Ok in G2. bool_facts.
  peel H log Hlog. injection Hlog as (evs & Hevs & Hlog)%event_log_Ok.
  peel H u3 G3. injection G3 as G3. rewrite map_err_Ok in G3. destruct u3.
  destruct (off <? _) eqn:Eo.
  { peel H evs' Hevs'. left. by injection H. }
  peel H u4 G4. apply throw_if_Ok in G4. bool_facts.
  peel H new Hnew. injection Hnew as Hnew. rewrite map_err_Ok in Hnew.
  destruct (ConversationMemory.append_chunks _ log) as [log' o] eqn:Ec. cbn in Hnew. subst o.
  peel H u5 G5. eapply extend_bind in H; [|exact Hevs]. destruct H as (s1 & Es1 & H).
  injection H as <- <-. right.
  destruct (append_chunks_log _ _ _ _ _ _ Hlog Ec) as (L1 & L2 & L3 & _).
  destruct (ci_turn _ Hc _ _ Ht) as (Hid & sn & Hok).
  exists t, evs, log, log', new. subst s1. split_and!; try done; [|by apply others_write_same].
  assert (Hl : live t = true). { unfold live. by destruct (ConversationTurn.state t). }
  split; try done; cbn.
  - symmetry. by apply insert_id.
  - intros j u Hu Hne. split_and!; [done..|]. destruct (ci_turn _ Hc _ _ Hu) as [-> _].
    cbn. by rewrite lookup_insert_ne.
  - intros evs' Hevs'. exists new. rewrite lookup_insert_eq. congruence.
  - auto.
  - exists sn. destruct Hok as [Et [] Hk Hth (evs0 & log0 & He0 & Hl0 & Hv0)].
    split; [done|by split|done|done|]. exists (evs ++ new), log'. rewrite Hid in *.
    split_and!; [apply lookup_insert_eq|done|]. simplify_eq.
    rewrite Hlog in Hl0. injection Hl0 as <-.
    unfold ConversationTurnEventLog.validate_snapshot in *. rewrite L2, L3.
    by rewrite H1 in *.
  - auto.
  - by apply fork_frame_same.
Qed.
End store.
