(* ===== verification/ConversationReserve.v ===== *)
(** * Reserving a conversation turn

    What a reservation captures and writes: the immutable context, the prompt with its
    number, the bindings of the thread, and the inserted turn with its entities. *)
From stdpp Require Import sorting.
From S2P Require Import Prelude RustText Ids Runs Approvals Effects ConversationTurns TurnEvents Schedules Scheduler Workspace ExecutionStore Commands WorkspaceStore WorkspaceServices WorkspaceWorld ConversationStore ConversationWorld.

(** ** Reservation *)

Lemma existsb_false {A} (f : A → bool) l : existsb f l = false ↔ ∀ x, x ∈ l → f x = false.
Proof.
  rewrite <- not_true_iff_false, existsb_exists. split.
  - intros H x Hx. apply not_true_iff_false. intros Hf. apply H. exists x.
    by rewrite <- list_elem_of_In.
  - intros H (x & Hx%list_elem_of_In & Hf). by rewrite (H x Hx) in Hf.
Qed.

Lemma existsb_values {K A} `{Countable K} (f : A → bool) (m : gmap K A) k x :
  existsb f (InMemory.values m) = false → m !! k = Some x → f x = false.
Proof. intros Hf Hk. rewrite existsb_false in Hf. apply Hf, elem_of_values. eauto. Qed.

Lemma StronglySorted_snoc {A} (R : A → A → Prop) l x :
  StronglySorted R (l ++ [x]) ↔ StronglySorted R l ∧ ∀ y, y ∈ l → R y x.
Proof.
  induction l as [|y l IH]; cbn.
  - split; [intros _; split; [constructor|set_solver]|]. intros _. by repeat constructor.
  - split.
    + inversion 1 as [|? ? Hs Hf]; subst. apply IH in Hs as [Hs Hx].
      rewrite Forall_app, Forall_singleton in Hf. destruct Hf as [Hf Hy].
      split; [by constructor|]. intros z [->|Hz]%elem_of_cons; auto.
    + intros [Hs Hx]. inversion Hs as [|? ? Hs' Hf]; subst. constructor.
      * apply IH. split; [done|]. intros z Hz. apply Hx. by constructor.
      * rewrite Forall_app, Forall_singleton. split; [done|]. apply Hx. by constructor.
Qed.

Lemma removelast_last {A} (l : list A) x : last l = Some x → l = removelast l ++ [x].
Proof.
  intros H. destruct l as [|y l] using rev_ind; [done|].
  rewrite last_snoc in H. injection H as ->. by rewrite removelast_last.
Qed.

(** What accepted reads and guards say. *)
Ltac read_facts :=
  repeat match goal with
  | E : ok_or _ _ = Ok _ |- _ => apply ok_or_Ok in E
  | E : reject_if _ _ = Ok _ |- _ => apply reject_if_Ok in E
  | E : is_some _ = false |- _ => apply is_some_false in E
  end; bool_facts.

(** Runs a body in the goal past its first read or guard. *)
Lemma self_run {T E B} (k : T → method T E B) s : (self ≫= k) s = k s s.
Proof. done. Qed.
Lemma lift_run {T E A B} (r : result E A) a (k : A → method T E B) s :
  r = Ok a → (lift r ≫= k) s = k a s.
Proof. by intros ->. Qed.
Lemma guard_run {T E B} b (e : E) (k : unit → method T E B) s :
  b = false → (throw_if b e ≫= k) s = k tt s.
Proof. by intros ->. Qed.
Lemma guard_refuses {T E B} b (e : E) (k : unit → method T E B) s :
  b = true → (throw_if b e ≫= k) s = (s, Err e).
Proof. by intros ->. Qed.

Section reservation.
Context {UP : UrlParser} {CH : Chrono} {SJ : SerdeJson}.
Import ConversationState.
Implicit Types (s : CS) (t : ConversationTurn.t) (h : snapshots).

Abbreviation before := (λ x y, Message.sequence x < Message.sequence y).

(** A captured context: stored active messages of the thread in order, then the prompt
    with the next number. *)
Record captured s t (um um' : Message.t) (ctx : list Message.t) : Prop := {
  cp_prompt : um' = um <| Message.sequence :=
    WorkspaceMemory.last_sequence (workspace s) (ConversationTurn.thread_id t) + 1 |>;
  cp_context : ∃ pre, ctx = pre ++ [um'] ∧ ∀ m, m ∈ pre → messages s !! Message.id m = Some m ∧
    Message.thread_id m = ConversationTurn.thread_id t ∧ Message.state m = MessageState.Active;
  cp_sorted : StronglySorted before ctx;
  cp_valid : validate_context ctx = Ok tt;
}.

Lemma capture_messages_Ok s i candidates ctx n out :
  capture_messages s i candidates ctx n = Ok out →
  out = ctx ++ filter (λ m, unresolved_prompt s i m = false) candidates.
Proof.
  revert ctx n. induction candidates as [|m l IH]; intros ctx n H; cbn in H.
  - injection H as <-. by rewrite app_nil_r.
  - rewrite filter_cons. destruct (unresolved_prompt s i m).
    + rewrite decide_False by done. eauto.
    + split_binds H. rewrite decide_True by done. apply IH in H. by rewrite <- app_assoc in H.
Qed.

(** Numbered messages of one thread, sorted by number, are strictly sorted. *)
Lemma sorted_before s h i l :
  ws_inv (workspace s) h → NoDup l →
  (∀ m, m ∈ l → messages s !! Message.id m = Some m ∧ Message.thread_id m = i) →
  StronglySorted before (merge_sort WorkspaceMemory.sequence_le l).
Proof.
  intros Hw Hd Hl.
  assert (Hs : StronglySorted WorkspaceMemory.sequence_le (merge_sort WorkspaceMemory.sequence_le l)).
  { apply Sorted_StronglySorted; [intros x y z; unfold WorkspaceMemory.sequence_le; lia|].
    apply Sorted_merge_sort. intros x y. unfold WorkspaceMemory.sequence_le. lia. }
  pose proof (merge_sort_Permutation WorkspaceMemory.sequence_le l) as Hp.
  rewrite <- Hp in Hd. assert (Hl' : ∀ m, m ∈ merge_sort WorkspaceMemory.sequence_le l →
    messages s !! Message.id m = Some m ∧ Message.thread_id m = i).
  { intros m. rewrite Hp. apply Hl. }
  clear Hp Hl. induction Hs as [|x k Hs IH Hf]; [constructor|].
  apply NoDup_cons in Hd as [Hx Hd]. constructor.
  - apply IH; [done|]. intros m Hm. apply Hl'. by constructor.
  - apply Forall_forall. intros y Hy. rewrite Forall_forall in Hf. specialize (Hf y Hy).
    unfold WorkspaceMemory.sequence_le in Hf.
    destruct (Hl' x) as [Sx Tx]; [by constructor|].
    destruct (Hl' y) as [Sy Ty]; [by constructor|].
    destruct (decide (Message.sequence x = Message.sequence y)) as [E|]; [|lia].
    destruct Hx. pose proof (sequence_inj _ (inv_sequences _ _ Hw) _ _ _ _ Sx Sy) as Ei.
    rewrite Tx, Ty, E in Ei. rewrite Ei in Sx by done. congruence.
Qed.

Lemma elem_of_active s h i m :
  ws_inv (workspace s) h → m ∈ active_messages s i ↔
  messages s !! Message.id m = Some m ∧ Message.thread_id m = i ∧ Message.state m = MessageState.Active.
Proof.
  intros Hw. unfold active_messages. rewrite list_elem_of_filter, elem_of_values. split.
  - intros ([Ht Ha] & k & Hk). by destruct (stored_message _ _ _ _ (inv_messages _ _ Hw) Hk) as [<- _].
  - intros (Hm & Ht & Ha). eauto.
Qed.

Lemma stored_before s h i m um :
  ws_inv (workspace s) h → messages s !! Message.id m = Some m → Message.thread_id m = i →
  Message.sequence um = WorkspaceMemory.last_sequence (workspace s) i + 1 →
  Message.sequence m < Message.sequence um.
Proof.
  intros Hw Hm Ht ->. destruct (last_sequence_spec (workspace s) i) as (_ & L & _).
  specialize (L _ _ Hm Ht). lia.
Qed.

Lemma capture_current_Ok s h t um um' ctx :
  ws_inv (workspace s) h →
  capture_conversation_context s t um = Ok (um', ctx) → captured s t um um' ctx.
Proof.
  intros Hw H. unfold capture_conversation_context in H. split_binds H. injection H as <- <-.
  apply ok_or_Ok, checked_add_Some in Hx as [-> _].
  apply capture_messages_Ok in Hx0 as ->. cbn [app] in *.
  match goal with |- captured _ _ _ _ (merge_sort _ ?l ++ _) => set (pre := l) in * end.
  assert (Hpre : ∀ m, m ∈ pre → messages s !! Message.id m = Some m ∧
    Message.thread_id m = ConversationTurn.thread_id t ∧ Message.state m = MessageState.Active).
  { intros m [_ Hm]%list_elem_of_filter. by apply (elem_of_active _ _ _ _ Hw) in Hm. }
  split; [done| | |].
  - exists (merge_sort WorkspaceMemory.sequence_le pre). split; [done|]. intros m Hm.
    apply Hpre. by rewrite merge_sort_Permutation in Hm.
  - apply StronglySorted_snoc. split.
    + eapply sorted_before; [done| |intros m Hm; by apply Hpre in Hm as (? & ? & _)].
      apply NoDup_filter, NoDup_filter. apply (NoDup_fmap_1 Message.id).
      apply values_keys_NoDup. intros i x Hi.
      by destruct (stored_message _ _ _ _ (inv_messages _ _ Hw) Hi).
    + intros m Hm. rewrite merge_sort_Permutation in Hm. apply Hpre in Hm as (? & ? & _).
      by eapply stored_before.
  - by destruct x1.
Qed.

Lemma newest_is_last s h i n :
  ws_inv (workspace s) h → newest_sequence s i = Some n →
  WorkspaceMemory.last_sequence (workspace s) i = n.
Proof.
  intros Hw. unfold newest_sequence, WorkspaceMemory.last_sequence.
  destruct (WorkspaceMemory.thread_messages _ i) as [|m l] eqn:E; [done|]. intros [= <-]. cbn.
  assert (Hm : m ∈ WorkspaceMemory.thread_messages (workspace s) i) by (rewrite E; constructor).
  apply elem_of_thread_messages in Hm as [_ [k Hk]].
  pose proof (sequence_pos _ (inv_sequences _ _ Hw) _ _ Hk). by rewrite Z.max_r by lia.
Qed.

Lemma capture_retry_Ok s h t l src n um um' ctx :
  ws_inv (workspace s) h → conv_inv s →
  capture_retry_context s t l src n um = Ok (um', ctx) →
  captured s t um um' ctx ∧ has_retry_child s src = false ∧
  ∃ u, conversation_turns s !! src = Some u ∧ retry_eligible u = true ∧
    ConversationTurn.thread_id u = ConversationTurn.thread_id t ∧
    ConversationTurn.revision u = n.
Proof.
  intros Hw Hc H. unfold capture_retry_context in H. split_binds H. injection H as <- <-.
  rewrite ?ok_or_Ok in *. rename x into u, x1 into su, x4 into ctx0.
  apply reject_if_Ok in Hx2. apply checked_add_Some in Hx3 as [-> _]. apply reject_if_Ok in Hx5.
  bool_facts.
  destruct (ci_context _ Hc _ _ Hx) as (ctx' & Hctx & [_ Hst Hso _]). simplify_eq.
  match goal with E : newest_sequence _ _ = Some _ |- _ =>
    pose proof (newest_is_last _ _ _ _ Hw E) as Hlast end.
  match goal with E : ConversationTurn.thread_id u = _ |- _ => rename E into Et end.
  rewrite Et in Hst, Hlast. split; [|by split; [|exists u]].
  match goal with |- captured _ _ _ ?m _ => set (um' := m) in * end.
  pose proof (removelast_last _ _ Hx5) as Ectx. rewrite Ectx in Hso.
  apply StronglySorted_snoc in Hso as [Hso Hlt]. split.
  - unfold um'. by rewrite Hlast.
  - exists (removelast ctx0). split; [done|]. intros m Hm. apply Hst. rewrite Ectx.
    apply elem_of_app. by left.
  - apply StronglySorted_snoc. split; [done|]. intros m Hm. specialize (Hlt m Hm). cbn in *. lia.
  - by destruct x6.
Qed.

(** Whether a thread is bound by the reservation. *)
Lemma binds_thread_Ok s i source bound v b :
  ConversationMemory.binds_thread s i source bound v = Ok b →
  (b = false ∧ bound = Some v) ∨ (b = true ∧ bound = None).
Proof.
  unfold ConversationMemory.binds_thread. destruct bound as [w|].
  - case_bool_decide; [|done]. intros [= <-]. left. by subst.
  - destruct (_ || _); [done|]. intros [= <-]. by right.
Qed.

Definition bound_table {K A} `{Countable K} (bind : bool) (i : K) (v : A) (T : gmap K A) : gmap K A :=
  if bind then <[i := v]> T else T.
Lemma bound_table_Ok {K A} `{Countable K} b (i : K) (v : A) (T : gmap K A) :
  (b = false ∧ T !! i = Some v) ∨ (b = true ∧ T !! i = None) →
  T ⊆ bound_table b i v T ∧ bound_table b i v T !! i = Some v.
Proof.
  intros [[-> H1]|[-> H1]]; cbn; [done|]. split; [by apply insert_subseteq|apply lookup_insert_eq].
Qed.

Lemma busy_false s i :
  ConversationMemory.thread_is_busy s i = false → ∀ j u, conversation_turns s !! j = Some u →
  ConversationTurn.thread_id u = i → live u = false.
Proof.
  intros H j u Hu <-. apply (existsb_values _ _ _ _ H) in Hu as Hx. clear H. rename Hx into H.
  rewrite bool_decide_eq_true_2 in H by done. unfold live.
  by destruct (ConversationTurn.state u).
Qed.

Record reservation_checked s t (um : Message.t) (run : Run.t) : Prop := {
  rc_busy j u : conversation_turns s !! j = Some u →
    ConversationTurn.thread_id u = ConversationTurn.thread_id t → live u = false;
  rc_thread : ∃ th, threads s !! ConversationTurn.thread_id t = Some th ∧
    Thread.project_id th = ConversationTurn.project_id t ∧ Thread.state th = ThreadState.Open;
  rc_message : messages s !! Message.id um = None;
  rc_run : runs s !! Run.id run = None;
  rc_turn : conversation_turns s !! ConversationTurn.id t = None;
  rc_ids : Message.id um = ConversationTurn.user_message_id t ∧
    Message.thread_id um = ConversationTurn.thread_id t ∧ Run.id run = ConversationTurn.run_id t;
}.
Lemma check_reservation_Ok s t um run u :
  ConversationMemory.check_reservation s t um run = Ok u → reservation_checked s t um run.
Proof.
  unfold ConversationMemory.check_reservation. intros H. split_binds H.
  read_facts. read_facts.
  split; try done; [by apply busy_false|].
  eexists. split_and!; [eassumption|by symmetry|done].
Qed.

Lemma retry_lineage s h source l t um um' ctx :
  reservation_source_matches_lineage source l = true → ws_inv (workspace s) h → conv_inv s →
  match source with
  | ConversationTurnReservationSource.CurrentThread => capture_conversation_context s t um
  | ConversationTurnReservationSource.Retry src n => capture_retry_context s t l src n um
  end = Ok (um', ctx) →
  captured s t um um' ctx ∧
  ∀ src j l', retries src l = true → conversation_lineages s !! j = Some l' → retries src l' = false.
Proof.
  intros Hm Hw Hc H. destruct source as [|src n].
  - split; [by eapply capture_current_Ok|]. intros src j l' Hr. unfold retries in Hr.
    unfold reservation_source_matches_lineage in Hm.
    by destruct (ConversationTurnLineage.origin l).
  - apply (capture_retry_Ok _ _ _ _ _ _ _ _ _ Hw Hc) in H as (Hcap & Hch & _). split; [done|].
    intros src' j l' Hr Hl. unfold retries in Hr. unfold reservation_source_matches_lineage in Hm.
    destruct (ConversationTurnLineage.origin l); try done. bool_facts. subst.
    by eapply existsb_values.
Qed.

Definition reserve_typed (um : Message.t) : Prop := valid_id (as_str (Message.id um)).

Lemma first_event i log e :
  ConversationTurnEventLog.append_kind ConversationTurnEventKind.Created
    (ConversationTurnEventLog.new i) = (log, Ok e) →
  ConversationTurnEventLog.restore i [e] = Ok log.
Proof.
  change (ConversationTurnEventLog.new i) with (shape_log i SEmpty).
  rewrite append_kind_shape by by split_and!. intros (p & Hn & Hv & -> & ->).
  apply log_restore_shape. exists p. cbn in Hn. injection Hn as <-. by split_and!.
Qed.

(** The tables a reservation leaves. *)
Record reserved s s' (P : ConversationTurnSnapshot.t) (ctx : list Message.t) (cb : str)
    (bt bm : bool) (ev : ConversationTurnEvent.t) : Prop := {
  rs_turns : conversation_turns s' = <[ConversationTurn.id (ConversationTurnSnapshot.turn P)
    := ConversationTurnSnapshot.turn P]> (conversation_turns s);
  rs_threads : threads s' = threads s;
  rs_messages : messages s' = <[Message.id (ConversationTurnSnapshot.user_message P)
    := ConversationTurnSnapshot.user_message P]> (messages s);
  rs_runs : runs s'
    = <[Run.id (ConversationTurnSnapshot.run P) := ConversationTurnSnapshot.run P]> (runs s);
  rs_effects : effects s' = effects s;
  rs_events : conversation_events s' = <[ConversationTurn.id (ConversationTurnSnapshot.turn P)
    := [ev]]> (conversation_events s);
  rs_lineages : conversation_lineages s' = <[ConversationTurn.id (ConversationTurnSnapshot.turn P)
    := ConversationTurnSnapshot.lineage P]> (conversation_lineages s);
  rs_bindings : conversation_thread_bindings s' = bound_table bt
    (ConversationTurn.thread_id (ConversationTurnSnapshot.turn P)) cb (conversation_thread_bindings s);
  rs_models : conversation_thread_models s' = bound_table bm
    (ConversationTurn.thread_id (ConversationTurnSnapshot.turn P))
    (ConversationTurn.model_id (ConversationTurnSnapshot.turn P)) (conversation_thread_models s);
  rs_keys : conversation_turn_keys s'
    = <[ConversationTurn.idempotency_key (ConversationTurnSnapshot.turn P)
        := ConversationTurn.id (ConversationTurnSnapshot.turn P)]> (conversation_turn_keys s);
  rs_contexts : conversation_contexts s'
    = <[ConversationTurn.id (ConversationTurnSnapshot.turn P) := ctx]> (conversation_contexts s);
  rs_cancels : conversation_cancel_commands s' = conversation_cancel_commands s;
  rs_forks : same_forks s s';
}.

Lemma captured_context s s' t um um' ctx :
  captured s t um um' ctx → Message.id um = ConversationTurn.user_message_id t →
  Message.thread_id um = ConversationTurn.thread_id t → Message.state um = MessageState.Active →
  messages s !! Message.id um = None →
  messages s' = <[Message.id um' := um']> (messages s) → context_ok s' t ctx.
Proof.
  intros [-> (pre & -> & Hpre) Hso Hv] Hid Hth Ha Hn Em.
  split; [|intros m [Hm| ->%list_elem_of_singleton]%elem_of_app|done|done]; rewrite ?Em; cbn.
  - eexists. by rewrite last_snoc, <- Hid, lookup_insert_eq.
  - destruct (Hpre m Hm) as (Hs & ? & ?). split_and!; [|done..].
    rewrite lookup_insert_ne; [done|congruence].
  - by rewrite lookup_insert_eq.
Qed.

Lemma reserve_insert s s' P ctx um cb bt bm ev log :
  let t := ConversationTurnSnapshot.turn P in
  conv_inv s → reservation_checked s t um (ConversationTurnSnapshot.run P) →
  captured s t um (ConversationTurnSnapshot.user_message P) ctx →
  is_canonical_conversation_snapshot P = true →
  ConversationTurnSnapshot.assistant_message P = None → ConversationTurnSnapshot.effect P = None →
  conversation_turn_keys s !! ConversationTurn.idempotency_key t = None →
  ConversationTurnLineage.credential_binding_id (ConversationTurnSnapshot.lineage P) = Some cb →
  bt = false ∧ conversation_thread_bindings s !! ConversationTurn.thread_id t = Some cb ∨
    bt = true ∧ conversation_thread_bindings s !! ConversationTurn.thread_id t = None →
  bm = false ∧ conversation_thread_models s !! ConversationTurn.thread_id t
      = Some (ConversationTurn.model_id t) ∨
    bm = true ∧ conversation_thread_models s !! ConversationTurn.thread_id t = None →
  (∀ src j l', retries src (ConversationTurnSnapshot.lineage P) = true →
     conversation_lineages s !! j = Some l' → retries src l' = false) →
  ConversationTurnEventLog.restore (ConversationTurn.id t) [ev] = Ok log →
  ConversationTurnEventLog.validate_snapshot log t None = Ok tt →
  reserved s s' P ctx cb bt bm ev →
  turn_insert s s' (ConversationTurn.id t) t (ConversationTurnSnapshot.lineage P) ∧ turn_ok s' t P.
Proof.
  intros t Hc [Hbusy (th & Hth & Hpr & _) Hm Hr Ht (Eum & Eth & Er)] Hcap Hcan Ha He Hk Hcb Hbt Hbm Hre
    Hlog Hval [R1 R2 R3 R4 R5 R6 R7 R8 R9 R10 R11 R12 _]. fold t in R1, R6, R7, R8, R9, R10, R11.
  destruct (canonical_linked _ Hcan) as [_ Hli Hlu _ _ Hact Hla _ Hlr Hle]. fold t in Hli, Hlu, Hla, Hlr, Hle.
  rewrite Ha in Hla. rewrite He in Hle. cbn in Hla, Hle.
  destruct (bound_table_Ok _ _ _ _ Hbt) as [B1 B2]. destruct (bound_table_Ok _ _ _ _ Hbm) as [B3 B4].
  pose proof (cp_prompt _ _ _ _ _ Hcap) as Ep.
  assert (Hn : messages s !! Message.id (ConversationTurnSnapshot.user_message P) = None)
    by by rewrite Ep.
  assert (Hok : turn_ok s' t P).
  { split; [done| |done|exists th; by rewrite R2|].
    - split; fold t; rewrite ?Hla, ?Hle, ?Ha, ?He, ?R3, ?R4, ?R7, <- ?Hlu, <- ?Hlr; try done;
        apply lookup_insert_eq.
    - exists [ev], log. rewrite R6, Ha. split_and!; try done. apply lookup_insert_eq. }
  split; [|done]. split; rewrite ?R2, ?R3, ?R8, ?R9; try done.
  - intros j th' Hj Hn'. congruence.
  - by apply insert_subseteq.
  - intros j u Hu. destruct (ci_turn _ Hc _ _ Hu) as (Hid & sn & [Eu [_ _ C3 _ _ _] _ _ _]).
    rewrite Eu in C3. split_and!.
    + rewrite R4, lookup_insert_ne; [done|congruence].
    + intros e _. by rewrite R5.
    + rewrite R6, lookup_insert_ne; [done|]. rewrite Hid. congruence.
  - by rewrite <- Er.
  - by exists cb.
  - exists ctx. split; [|done]. eapply captured_context; try done. by rewrite Ep in Hact.
  - by exists P.
Qed.

(** The writes of a reservation. *)
Lemma reserve_writes s s' r (P : ConversationTurnSnapshot.t) ctx cb (bt bm : bool) event ev :
  let t := ConversationTurnSnapshot.turn P in
  (_ ← if bt then put_binding (ConversationTurn.thread_id t) cb else mret tt;
   _ ← if bm then put_model (ConversationTurn.thread_id t) (ConversationTurn.model_id t)
       else mret tt;
   _ ← put_message (ConversationTurnSnapshot.user_message P);
   _ ← put_run (ConversationTurnSnapshot.run P);
   _ ← put_run_events (Run.id (ConversationTurnSnapshot.run P)) [event];
   _ ← put_turn_key (ConversationTurn.idempotency_key t) (ConversationTurn.id t);
   _ ← put_lineage (ConversationTurn.id t) (ConversationTurnSnapshot.lineage P);
   _ ← put_context (ConversationTurn.id t) ctx;
   _ ← put_turn_events (ConversationTurn.id t) [ev];
   _ ← put_turn t;
   s ← self;
   persisted_turn ← lift (ok_or (Internal (lit "conversation reservation was not stored"))
                            (conversation_turns s !! ConversationTurn.id t));
   snapshot ← lift (conversation_snapshot s persisted_turn);
   mret (ConversationTurnReservation.mk snapshot ctx true)) s = (s', r) →
  reserved s s' P ctx cb bt bm ev ∧
  r = (sn ← conversation_snapshot s' t; Ok (ConversationTurnReservation.mk sn ctx true)) ∧
  WorkspaceState.projects (workspace s') = WorkspaceState.projects (workspace s) ∧
  WorkspaceState.automations (workspace s') = WorkspaceState.automations (workspace s) ∧
  WorkspaceState.automation_history (workspace s') = WorkspaceState.automation_history (workspace s) ∧
  WorkspaceState.workspace_commands (workspace s') = WorkspaceState.workspace_commands (workspace s).
Proof.
  intros t H.
  assert (∃ s1, s1 = s <| conversation_thread_bindings :=
      bound_table bt (ConversationTurn.thread_id t) cb (conversation_thread_bindings s) |>
    <| conversation_thread_models := bound_table bm (ConversationTurn.thread_id t)
      (ConversationTurn.model_id t) (conversation_thread_models s) |>) as [s1 Es1] by by eexists.
  apply bind_cases in H as (s2 & o & E2 & H).
  assert (o = Ok tt) as -> by (destruct bt; by injection E2).
  apply bind_cases in H as (s3 & o & E3 & H).
  assert (o = Ok tt ∧ s3 = s1) as [-> ->].
  { subst s1. destruct bt, bm; injection E2 as <-; injection E3 as <- <-; split; by destruct s. }
  do 8 write H. apply self_bind in H.
  assert (Ht : conversation_turns s9 !! ConversationTurn.id t = Some t).
  { read_back. apply lookup_insert_eq. }
  rewrite Ht in H. run_unfold in H.
  assert (s' = s9) as -> by (by destruct (conversation_snapshot s9 t); injection H).
  split; [split; by read_back|]. split; [by destruct (conversation_snapshot s9 t); injection H|].
  split_and!; by read_back.
Qed.

Lemma reservation_input t um run event :
  is_canonical_reservation_input t um run event = true →
  live t = true ∧ derived um = false ∧ ∀ n, 1 ≤ n → ag_initial (um <| Message.sequence := n |>).
Proof.
  unfold is_canonical_reservation_input. intros H. bool_facts. split.
  { unfold live. by match goal with E : ConversationTurn.state _ = _ |- _ => rewrite E end. }
  match goal with E : is_canonical_message _ _ _ _ = true |- _ =>
    apply canonical_message_facts in E as (_ & _ & _ & Hd & m0 & Hm0 & Em0) end.
  split; [unfold derived; by rewrite Hd|]. intros n Hn. left.
  assert (E : um <| Message.sequence := n |> = m0 <| Message.sequence := n |>) by by rewrite Em0.
  do 7 eexists. split; [exact Hm0|]. split; [|exact E]. lia.
Qed.

(** A reservation is refused, answers a key used before, or inserts a complete turn. *)
Lemma reserve_ok s h t l source um run event kind s' r :
  ws_inv (workspace s) h → conv_inv s → reserve_typed um →
  ConversationMemory.reserve_turn t l source um run event kind s = (s', r) →
  refused s s' r ∨
  (s' = s ∧ ∃ i u sn ctx, conversation_turn_keys s !! ConversationTurn.idempotency_key t = Some i ∧
     conversation_turns s !! i = Some u ∧ turn_ok s u sn ∧
     conversation_contexts s !! i = Some ctx ∧
     ConversationTurn.request_fingerprint u = ConversationTurn.request_fingerprint t ∧
     conversation_lineages s !! i = Some l ∧
     r = Ok (ConversationTurnReservation.mk sn ctx false)) ∨
  ∃ ctx sn, turn_insert s s' (ConversationTurn.id t) t l ∧
    others_write (workspace s) (workspace s') ∧ live t = true ∧ turn_ok s' t sn ∧
    conversation_contexts s' !! ConversationTurn.id t = Some ctx ∧ fork_frame s s' ∧
    r = Ok (ConversationTurnReservation.mk sn ctx true).
Proof.
  intros Hw Hc Hty H. unfold ConversationMemory.reserve_turn in H.
  check H u0 G0. apply throw_if_Ok in G0. bool_facts. check_self H.
  match goal with E : is_canonical_reservation_input _ _ _ _ = true |- _ => rename E into Hinput end.
  destruct (conversation_turn_keys s !! _) as [i|] eqn:Ek.
  { destruct r as [r|e]; [right; left|left; by injection H as <-].
    injection H as <- H. split; [done|]. unfold ConversationMemory.replay_reservation in H.
    split_binds H. injection H as <-. read_facts.
    match goal with Ht : conversation_turns s !! i = Some ?u |- _ =>
      destruct (ci_turn _ Hc _ _ Ht) as (_ & sn & Hok);
      match goal with Hsn : conversation_snapshot s u = Ok _ |- _ =>
        rewrite (load_Ok _ _ _ _ _ Hw Hc Ht Hok) in Hsn; injection Hsn as -> end end.
    do 4 eexists. split_and!; done. }
  check H u1 G1. injection G1 as G1%check_reservation_Ok.
  check H cb Hcb. injection Hcb as Hcb%ok_or_Ok.
  check H bt Hbt. injection Hbt as Hbt%binds_thread_Ok.
  check H bm Hbm. injection Hbm as Hbm%binds_thread_Ok.
  check H p Hp. destruct p as [um' ctx]. injection Hp as Hp.
  eapply retry_lineage in Hp as [Hcap Hre]; [|done..].
  check H u2 G2. apply throw_if_Ok, negb_false_iff in G2.
  destruct (ConversationTurnEventLog.append_kind _ _) as [log appended] eqn:Happ.
  check H ev Hev. injection Hev as Hev. rewrite map_err_Ok in Hev. subst appended.
  check H u3 G3. injection G3 as G3. rewrite map_err_Ok in G3. destruct u3.
  right. right. set (P := ConversationTurnSnapshot.mk t um' None run None l) in *.
  apply (reserve_writes _ _ _ P) in H as (Hrs & -> & Ep & Ea & Eh & Ecm).
  destruct (reserve_insert s s' P ctx um cb bt bm ev log) as [Hins Hok]; try done.
  { by apply first_event. }
  pose proof (cp_prompt _ _ _ _ _ Hcap) as Eum.
  assert (How : others_write (workspace s) (workspace s')).
  { destruct G1 as [_ (th & Hth & _) Hn _ _ (_ & Eth & _)].
    apply (others_write_message _ _ um'); try done; try apply Hrs; rewrite ?Eum; cbn; try done.
    - apply (reservation_input _ _ _ _ Hinput).
      destruct (last_sequence_spec (workspace s) (ConversationTurn.thread_id t)). lia.
    - rewrite Eth. by exists th.
    - by rewrite Eth. }
  exists ctx, P. split_and!; try done.
  - by destruct (reservation_input _ _ _ _ Hinput).
  - rewrite (rs_contexts _ _ _ _ _ _ _ _ Hrs). apply lookup_insert_eq.
  - destruct (reservation_input _ _ _ _ Hinput) as (_ & Hd & _).
    apply (fork_frame_message _ _ um'); try apply Hrs; rewrite Eum; [|done]. cbn. apply G1.
  - rewrite (load_Ok s' h (ConversationTurn.id t) t P); [done|..|done].
    + by eapply others_write_inv.
    + by eapply insert_inv.
    + rewrite (rs_turns _ _ _ _ _ _ _ _ Hrs). apply lookup_insert_eq.
Qed.
End reservation.
