(* ===== verification/ForkWorld.v ===== *)
(** * What the tables of forks guarantee

    The invariant of the fork tables of [ForkStore], that every other call of the store
    leaves it intact, and what loading, aliasing, creating and acknowledging a fork do on a
    store that satisfies it. *)
From stdpp Require Import sorting.
From S2P Require Import Prelude RustText Ids Runs Approvals Effects ConversationTurns TurnEvents Schedules Scheduler Workspace ExecutionStore Commands WorkspaceStore WorkspaceServices WorkspaceWorld ConversationStore ForkStore ConversationWorld ConversationReserve.

(** ** Counting the entries of a table *)

Section counting.
Context {K A : Type} `{Countable K}.
Implicit Types (m : gmap K A) (P : A → Prop).

Lemma filter_values_length P `{∀ x, Decision (P x)} m :
  length (filter P (InMemory.values m)) = length (filter (λ e, P e.2) (map_to_list m)).
Proof.
  unfold InMemory.values. induction (map_to_list m) as [|[k x] l IH]; [done|].
  rewrite fmap_cons, !filter_cons. cbn [snd]. destruct (decide (P x)); cbn [length]; by rewrite IH.
Qed.
Lemma filter_keys_NoDup (P : K * A → Prop) `{∀ e, Decision (P e)} m :
  NoDup (filter P (map_to_list m)).*1.
Proof. apply NoDup_map_filter, NoDup_fst_map_to_list. Qed.

(** Entries that satisfy the second predicate come from entries that satisfy the first. *)
Lemma count_le P P' `{∀ x, Decision (P x), ∀ x, Decision (P' x)} m m' :
  (∀ i y, m' !! i = Some y → P' y → ∃ x, m !! i = Some x ∧ P x) →
  (length (filter P' (InMemory.values m')) ≤ length (filter P (InMemory.values m)))%nat.
Proof.
  intros Hm. rewrite !filter_values_length, <- (length_fmap fst), <- (length_fmap fst (filter _ _)).
  apply submseteq_length, NoDup_submseteq; [apply filter_keys_NoDup|].
  intros i ([? y] & -> & [Hy Hi%elem_of_map_to_list]%list_elem_of_filter)%list_elem_of_fmap.
  destruct (Hm _ _ Hi Hy) as (x & Hx & HP). apply list_elem_of_fmap. eexists (_, x).
  split; [done|]. apply list_elem_of_filter. by rewrite elem_of_map_to_list.
Qed.
Lemma count_insert P `{∀ x, Decision (P x)} m i x :
  m !! i = None → length (filter P (InMemory.values (<[i := x]> m)))
    = ((if decide (P x) then 1 else 0) + length (filter P (InMemory.values m)))%nat.
Proof.
  intros Hi. unfold InMemory.values. rewrite map_to_list_insert by done.
  rewrite fmap_cons, filter_cons. cbn [snd]. by destruct (decide (P x)).
Qed.

Lemma entries_insert (P : K * A → Prop) `{∀ e, Decision (P e)} m i x :
  m !! i = None → filter P (map_to_list (<[i := x]> m))
    ≡ₚ (if decide (P (i, x)) then [(i, x)] else []) ++ filter P (map_to_list m).
Proof.
  intros Hi. rewrite map_to_list_insert by done. rewrite filter_cons. by destruct (decide _).
Qed.
Lemma entries_unique (P : K * A → Prop) `{∀ e, Decision (P e)} m k x :
  m !! k = Some x → P (k, x) → (∀ k' y, m !! k' = Some y → P (k', y) → k' = k) →
  filter P (map_to_list m) = [(k, x)].
Proof.
  intros Hk HP Hu. apply Permutation_singleton_r, NoDup_Permutation.
  - apply NoDup_filter, NoDup_map_to_list.
  - apply NoDup_singleton.
  - intros [k' y]. rewrite list_elem_of_filter, elem_of_map_to_list, list_elem_of_singleton.
    split; [|by intros [= -> ->]]. intros [Hy Hm]. pose proof (Hu _ _ Hm Hy) as ->. congruence.
Qed.
End counting.

(** ** Running a chain of checks that succeeds *)

Lemma run_Ok {E A B} (r : result E A) a (k : A → result E B) : r = Ok a → r ≫= k = k a.
Proof. by intros ->. Qed.
Lemma run_some {E A B} (o : option A) a (e : E) (k : A → result E B) :
  o = Some a → ok_or e o ≫= k = k a.
Proof. by intros ->. Qed.
Lemma run_check {E B} b (e : E) (k : unit → result E B) : b = false → reject_if b e ≫= k = k tt.
Proof. by intros ->. Qed.
Lemma run_map {E E' A B} (f : E → E') (r : result E A) a (k : A → result E' B) :
  r = Ok a → map_err f r ≫= k = k a.
Proof. by intros ->. Qed.
Lemma run_linked {K A B} `{Countable K} (T : gmap K A) id x e (k : option A → result StoreError B) :
  resolves T id x → linked T id e ≫= k = k x.
Proof. intros H1. by rewrite (proj2 (linked_Ok T id e x) H1). Qed.

(** ** The invariant *)

Section forks.
Context {UP : UrlParser} {CH : Chrono} {SJ : SerdeJson}.
Import ConversationState.
Implicit Types (s : CS) (t : ConversationTurn.t) (h : snapshots).
Abbreviation CMD := ConversationForkCommandRecord.t.
Abbreviation DEL := ConversationForkDeliveryRecord.t.
Abbreviation depth th := (ConversationThreadLineage.fork_depth (Thread.lineage th)).

(** The messages a fork put into its thread, from number one on. *)
Definition copies s (c : ThreadId) (ms : list Message.t) : Prop :=
  ms ≠ [] ∧ numbered_from 1 ms = true ∧
  ∀ m, m ∈ ms ↔ messages s !! Message.id m = Some m ∧ Message.thread_id m = c ∧ derived m = true.

(** What a command record refers to. *)
Definition record_ok s (scope : str) (r : CMD) : Prop :=
  ∃ (d : DEL) th kind,
    conversation_fork_deliveries s !! ConversationForkCommandRecord.child_thread_id r = Some d ∧
    ConversationForkDeliveryRecord.scope d = scope ∧
    ConversationForkDeliveryRecord.request_fingerprint d
      = ConversationForkCommandRecord.fingerprint r ∧
    threads s !! ConversationForkCommandRecord.child_thread_id r = Some th ∧
    conversation_fork_kind th = Ok kind ∧ conversation_fork_scope_matches scope kind = true ∧
    match ConversationForkCommandRecord.started_turn_id r with
    | None => kind = ConversationForkKind.Branch
    | Some i => kind ≠ ConversationForkKind.Branch ∧ ∃ t, conversation_turns s !! i = Some t ∧
        ConversationTurn.thread_id t = ConversationForkCommandRecord.child_thread_id r ∧
        ConversationTurn.request_fingerprint t = ConversationForkCommandRecord.fingerprint r
    end.

(** The answer of turn [i] that message [y] repeats: the message itself, or a copy of it. *)
Definition answer_of s (y : Message.t) (i : ConversationTurnId) : Prop :=
  ∃ t a, conversation_turns s !! i = Some t ∧
    ConversationTurn.state t = ConversationTurnState.Completed ∧
    ConversationTurn.assistant_message_id t = Some (Message.id a) ∧
    messages s !! Message.id a = Some a ∧ Message.content a = Message.content y ∧
    (Message.id y = Message.id a ∨
     derived y = true ∧ conversation_inherited_outcomes s !! Message.id y = Some i).
(** A copied answer [x] repeats turn [i], and so does the message it was copied from, one
    level up in the family. *)
Definition inherits s (x : Message.t) (i : ConversationTurnId) : Prop :=
  answer_of s x i ∧
  ∃ kind src pos y thx thy,
    Message.derivation x = ConversationMessageDerivation.Fork kind (Message.id y) src pos ∧
    kind ≠ ConversationMessageDerivationKind.EditedUser ∧
    (kind = ConversationMessageDerivationKind.SourceAssistantCopy → src = i) ∧
    messages s !! Message.id y = Some y ∧ Message.role y = MessageRole.Assistant ∧
    Message.state y = MessageState.Active ∧ answer_of s y i ∧
    threads s !! Message.thread_id x = Some thx ∧ threads s !! Message.thread_id y = Some thy ∧
    depth thy < depth thx.

Record fork_inv s : Prop := {
  fi_command k r : conversation_fork_commands s !! k = Some r → record_ok s k.1 r;
  fi_delivery c d : conversation_fork_deliveries s !! c = Some d →
    delivery_lifecycle d = true ∧ (∃ ms, copies s c ms) ∧
    ∃ k r, conversation_fork_commands s !! k = Some r ∧
      ConversationForkCommandRecord.canonical r = true ∧
      ConversationForkCommandRecord.child_thread_id r = c;
  fi_canonical k k' r r' : conversation_fork_commands s !! k = Some r →
    conversation_fork_commands s !! k' = Some r' →
    ConversationForkCommandRecord.canonical r = true →
    ConversationForkCommandRecord.canonical r' = true →
    ConversationForkCommandRecord.child_thread_id r
      = ConversationForkCommandRecord.child_thread_id r' → k = k';
  fi_aliases c : Z.of_nat (length (child_commands s false c))
    ≤ MAX_CONVERSATION_FORK_DELIVERY_ALIASES;
  fi_pending c c' d d' : conversation_fork_deliveries s !! c = Some d →
    conversation_fork_deliveries s !! c' = Some d' →
    ConversationForkDeliveryRecord.state d = ConversationForkDeliveryState.Pending →
    ConversationForkDeliveryRecord.state d' = ConversationForkDeliveryState.Pending →
    ConversationForkDeliveryRecord.scope d = ConversationForkDeliveryRecord.scope d' →
    ConversationForkDeliveryRecord.request_fingerprint d
      = ConversationForkDeliveryRecord.request_fingerprint d' → c = c';
  fi_ack k a : conversation_fork_delivery_ack_commands s !! k = Some a →
    ConversationForkDeliveryAckCommandRecord.expected_revision a = 0 ∧
    ConversationForkDeliveryAckCommandRecord.outcome_revision a = 1 ∧
    ∃ d, conversation_fork_deliveries s
           !! ConversationForkDeliveryAckCommandRecord.child_thread_id a = Some d ∧
      ConversationForkDeliveryRecord.state d = ConversationForkDeliveryState.Acknowledged;
  fi_family root : Z.of_nat (length (family s root)) ≤ MAX_CONVERSATION_FORK_FAMILY_THREADS;
  fi_children p : Z.of_nat (length (direct_children s p)) ≤ MAX_CONVERSATION_FORK_DIRECT_CHILDREN;
  fi_outcome k i : conversation_inherited_outcomes s !! k = Some i → ∃ x,
    messages s !! k = Some x ∧ derived x = true ∧ Message.role x = MessageRole.Assistant;
  fi_inherits k x : messages s !! k = Some x → derived x = true →
    Message.role x = MessageRole.Assistant → ∃ i,
    conversation_inherited_outcomes s !! k = Some i ∧ inherits s x i;
}.

(** *** Steps that are no forks *)

(** Every thread's root is stored. *)
Lemma root_stored s h i th :
  ws_inv (workspace s) h → conv_inv s → threads s !! i = Some th →
  is_Some (threads s !! ConversationThreadLineage.root_thread_id (Thread.lineage th)).
Proof.
  intros Hw Hc. remember (Z.to_nat (depth th)) as n eqn:En. revert i th En.
  induction n as [n IH] using lt_wf_ind. intros i th En Hth.
  destruct (stored_depth _ _ _ _ Hw Hth) as (_ & _ & Hd & Ho).
  pose proof (ci_thread _ Hc _ _ Hth) as Hl. unfold lineage_ok in Hl.
  destruct (ConversationThreadLineage.origin _) as [|p src msg kind].
  - destruct Ho as [-> _]; [done|]. by exists th.
  - destruct Hl as (parent & t & sn & m & b & Hp & _ & _ & _ & _ & _ & _ & <- & Hdep & _).
    destruct (stored_depth _ _ _ _ Hw Hp) as (_ & _ & Hd' & _).
    eapply (IH (Z.to_nat (depth parent))); [|done|exact Hp]. lia.
Qed.

Lemma family_frame s s' h h' root :
  ws_inv (workspace s) h → ws_inv (workspace s') h' → conv_inv s → conv_inv s' →
  conv_le s s' → fork_frame s s' → (∀ r, Z.of_nat (length (family s r)) ≤ 256) →
  Z.of_nat (length (family s' root)) ≤ 256.
Proof.
  intros Hw Hw' Hc Hc' Hle Hf Hr. destruct (threads s !! root) as [th0|] eqn:E0.
  - etrans; [|apply (Hr root)]. apply Nat2Z.inj_le, count_le. intros i th Hi Hroot.
    destruct (threads s !! i) as [th1|] eqn:E1.
    + exists th1. split; [done|]. destruct (le_thread _ _ Hle _ _ E1) as (th' & Hth' & _ & El).
      rewrite Hi in Hth'. injection Hth' as <-. by rewrite <- El.
    + pose proof (ff_created _ _ Hf _ _ Hi E1) as Ho.
      destruct (stored_depth _ _ _ _ Hw' Hi) as (_ & _ & _ & [Hi' _]); [done|]. congruence.
  - assert (length (family s' root) ≤ 1)%nat; [|lia].
    transitivity (length (filter (λ th, Thread.id th = root) (InMemory.values (threads s')))).
    { apply count_le. intros i th Hi Hroot. exists th. split; [done|].
      destruct (stored_depth _ _ _ _ Hw' Hi) as (-> & _ & _ & Ho).
      destruct (threads s !! i) as [th1|] eqn:E1.
      - destruct (root_stored _ _ _ _ Hw Hc E1) as [? Hx].
        destruct (le_thread _ _ Hle _ _ E1) as (th' & Hth' & _ & El).
        rewrite Hi in Hth'. injection Hth' as <-. rewrite El in Hroot. congruence.
      - destruct Ho as [Ho _]; [by eapply ff_created|]. congruence. }
    rewrite <- (length_fmap Thread.id). apply (submseteq_length _ [root]), NoDup_submseteq.
    + apply NoDup_map_filter, values_keys_NoDup. intros i th Hi.
      by destruct (stored_depth _ _ _ _ Hw' Hi).
    + intros i (th & -> & [-> _]%list_elem_of_filter)%list_elem_of_fmap. by constructor.
Qed.

Lemma children_frame s s' p :
  conv_le s s' → fork_frame s s' →
  (length (direct_children s' p) ≤ length (direct_children s p))%nat.
Proof.
  intros Hle Hf. apply count_le. unfold forked_from. intros i th Hi Hp.
  destruct (threads s !! i) as [th1|] eqn:E1.
  - exists th1. split; [done|]. destruct (le_thread _ _ Hle _ _ E1) as (th' & Hth' & _ & El).
    rewrite Hi in Hth'. injection Hth' as <-. by rewrite <- El.
  - by rewrite (ff_created _ _ Hf _ _ Hi E1) in Hp.
Qed.

Lemma answer_of_final s y i : answer_of s y i →
  ∃ t, conversation_turns s !! i = Some t ∧ live t = false.
Proof. intros (t & a & Ht & Hs & _). exists t. split; [done|]. unfold live. by rewrite Hs. Qed.
Lemma answer_of_frame s s' y i :
  conv_le s s' → conversation_inherited_outcomes s ⊆ conversation_inherited_outcomes s' →
  answer_of s y i → answer_of s' y i.
Proof.
  intros Hle Ho Ha. destruct (answer_of_final _ _ _ Ha) as (u & Hu & Hl).
  destruct Ha as (u' & a & Hu' & Hs & Han & Hm & Hc & Hy).
  assert (u' = u) as -> by congruence. exists u, a. split_and!; try done; [by eapply final_turn| |].
  - rewrite (le_pinned _ _ Hle); [done|]. left. eauto.
  - destruct Hy as [|[? Hy]]; [by left|right]. split; [done|]. by eapply lookup_weaken.
Qed.
Lemma inherits_frame s s' x i :
  conv_le s s' → conversation_inherited_outcomes s ⊆ conversation_inherited_outcomes s' →
  (∀ k m, derived m = true → messages s !! k = Some m → messages s' !! k = Some m) →
  inherits s x i → inherits s' x i.
Proof.
  intros Hle Ho Hd [Hx (kind & src & pos & y & thx & thy & Hde & Hk & Hk' & Hy & Hr & Hst & Han
    & Htx & Hty & Hdep)]. split; [by eapply answer_of_frame|].
  destruct (le_thread _ _ Hle _ _ Htx) as (thx' & Htx' & _ & Elx).
  destruct (le_thread _ _ Hle _ _ Hty) as (thy' & Hty' & _ & Ely).
  exists kind, src, pos, y, thx', thy'. rewrite Elx, Ely. split_and!; try done.
  - destruct Han as (t & a & Ht & _ & Ha & Hm & _ & [E|[Hdy _]]); [|by eapply Hd].
    rewrite (le_pinned _ _ Hle); [done|]. left. exists i, t. split; [done|]. right. congruence.
  - by eapply answer_of_frame.
Qed.

Lemma record_ok_frame s s' scope r :
  conv_le s s' → conversation_fork_deliveries s ⊆ conversation_fork_deliveries s' →
  record_ok s scope r → record_ok s' scope r.
Proof.
  intros Hle Hsub (d & th & kind & Hd & Hsc & Hfp & Hth & Hk & Hm & Hst).
  destruct (le_thread _ _ Hle _ _ Hth) as (th' & Hth' & _ & El).
  exists d, th', kind. split_and!; try done.
  - by eapply lookup_weaken.
  - unfold conversation_fork_kind in *. by rewrite El.
  - destruct (ConversationForkCommandRecord.started_turn_id r) as [i|]; [|done].
    destruct Hst as (Hb & t & Ht & Et & Ef). split; [done|].
    destruct (le_turn _ _ Hle _ _ Ht) as (t' & Ht' & Hr). exists t'. split; [done|].
    destruct (turn_calls_same _ _ Hr) as (_ & _ & -> & _ & -> & _). done.
Qed.

Lemma copies_frame s s' c ms :
  (∀ i m, derived m = true → messages s' !! i = Some m ↔ messages s !! i = Some m) →
  copies s c ms → copies s' c ms.
Proof.
  intros Hd (Hne & Hn & Hm). split_and!; try done. intros m. rewrite Hm. split.
  - intros (? & ? & ?). split_and!; try done. by apply Hd.
  - intros (? & ? & ?). split_and!; try done. by apply Hd.
Qed.

Lemma fork_inv_frame s s' h h' :
  ws_inv (workspace s) h → ws_inv (workspace s') h' → conv_inv s → conv_inv s' →
  conv_le s s' → fork_frame s s' → fork_inv s → fork_inv s'.
Proof.
  intros Hw Hw' Hc Hc' Hle Hf Hi. destruct (ff_forks _ _ Hf) as (E1 & E2 & E3 & E4).
  pose proof (ff_derived _ _ Hf) as Hd.
  split; unfold child_commands; rewrite ?E1, ?E2, ?E3, ?E4; try apply Hi.
  - intros k r Hk. eapply record_ok_frame; [done|by rewrite E2|by apply Hi].
  - intros c d Hcd. destruct (fi_delivery _ Hi _ _ Hcd) as (Hl & (ms & Hms) & Hk).
    split_and!; [done| |done]. exists ms. by eapply copies_frame.
  - intros root. eapply (family_frame s s' h h'); try done. apply Hi.
  - intros p. etrans; [|apply (fi_children _ Hi p)]. by apply Nat2Z.inj_le, children_frame.
  - intros k i Hk. destruct (fi_outcome _ Hi _ _ Hk) as (x & Hx & Hdx & Hr). exists x.
    split_and!; try done. by apply Hd.
  - intros k x Hk Hdx Hr. apply (Hd _ _ Hdx) in Hk.
    destruct (fi_inherits _ Hi _ _ Hk Hdx Hr) as (i & Hi' & Hin). exists i. split; [done|].
    eapply inherits_frame; [done|by rewrite E4| |done]. intros j m Hm Hj. by apply Hd.
Qed.

(** *** Loading a fork *)

(** Numbered messages are sorted, and there is one sorted list of them. *)
Lemma numbered_sorted n ms :
  numbered_from n ms = true → StronglySorted (λ x y, Message.sequence x < Message.sequence y) ms ∧
  Forall (λ m, n ≤ Message.sequence m) ms.
Proof.
  revert n. induction ms as [|m ms IH]; intros n H; [by split; constructor|]. cbn in H. bool_facts.
  match goal with E : numbered_from _ ms = true |- _ => apply IH in E as [Hs Hf] end.
  rewrite ?Z.eqb_eq in *. split.
  - constructor; [done|]. eapply Forall_impl; [exact Hf|]. intros x Hx. cbn in *. lia.
  - constructor; [lia|]. eapply Forall_impl; [exact Hf|]. intros x Hx. cbn in *. lia.
Qed.
Lemma sorted_unique (l l' : list Message.t) :
  StronglySorted (λ x y, Message.sequence x < Message.sequence y) l →
  StronglySorted (λ x y, Message.sequence x < Message.sequence y) l' →
  (∀ m, m ∈ l ↔ m ∈ l') → l = l'.
Proof.
  intros Hl Hl' He.
  assert (Hd : ∀ k, StronglySorted (λ x y, Message.sequence x < Message.sequence y) k → NoDup k).
  { induction 1 as [|x k Hk IH Hf]; constructor; [|done]. intros Hx.
    rewrite Forall_forall in Hf. specialize (Hf _ Hx). lia. }
  eapply StronglySorted_unique_strong; [|exact Hl|exact Hl'|by apply NoDup_Permutation; auto].
  intros x y _ _ Hx Hy. cbn in Hx, Hy. lia.
Qed.

Lemma copied_messages_eq s h c ms :
  ws_inv (workspace s) h → copies s c ms → copied_messages s c = ms.
Proof.
  intros Hw (_ & Hn & Hm). apply sorted_unique.
  - eapply (sorted_before s h c); [done| |].
    + apply NoDup_filter, (NoDup_fmap_1 Message.id), values_keys_NoDup. intros i x Hi.
      by destruct (stored_message _ _ _ _ (inv_messages _ _ Hw) Hi).
    + intros m [[Ht _] [i Hi]%elem_of_values]%list_elem_of_filter. split; [|done].
      destruct (stored_message _ _ _ _ (inv_messages _ _ Hw) Hi) as [-> _]. done.
  - by apply (numbered_sorted 1).
  - intros m. unfold copied_messages.
    rewrite merge_sort_Permutation, list_elem_of_filter, elem_of_values, Hm. unfold derived.
    rewrite negb_true_iff. split.
    + intros [[? ?] [i Hi]]. split_and!; try done.
      by destruct (stored_message _ _ _ _ (inv_messages _ _ Hw) Hi) as [-> _].
    + intros (? & ? & ?). split; [done|]. eauto.
Qed.

Definition delivery_view (c : ThreadId) (d : DEL) : ConversationForkDelivery.t :=
  ConversationForkDelivery.mk c (ConversationForkDeliveryRecord.state d)
    (ConversationForkDeliveryRecord.revision d).

(** One command created the child. *)
Lemma canonical_command s c d :
  fork_inv s → conversation_fork_deliveries s !! c = Some d → ∃ k r,
  child_commands s true c = [(k, r)] ∧ conversation_fork_commands s !! k = Some r ∧
  ConversationForkCommandRecord.canonical r = true ∧
  ConversationForkCommandRecord.child_thread_id r = c.
Proof.
  intros Hi Hd. destruct (fi_delivery _ Hi _ _ Hd) as (_ & _ & k & r & Hk & Hc & Hch).
  exists k, r. split_and!; try done. apply entries_unique; [done..|]. intros k' r' Hk' [Hc' Hch'].
  eapply (fi_canonical _ Hi); eauto. cbn in Hch'. congruence.
Qed.

Lemma fork_delivery_Ok s c d :
  fork_inv s → conversation_fork_deliveries s !! c = Some d →
  conversation_fork_delivery s c = Ok (delivery_view c d).
Proof.
  intros Hi Hd. destruct (canonical_command _ _ _ Hi Hd) as ([scope key] & r & Ecmd & Hk & Hc & Hch).
  destruct (fi_command _ Hi _ _ Hk) as (d' & th & kind & Hd' & Hsc & Hfp & Hth & Hkind & Hm & _).
  rewrite Hch in Hd', Hth. rewrite Hd in Hd'. injection Hd' as <-. cbn in Hsc.
  unfold conversation_fork_delivery. rewrite (run_some _ _ _ _ Hd), Ecmd, (run_Ok _ _ _ eq_refl).
  rewrite run_check; [rewrite (run_some _ _ _ _ Hth), run_check; [done|by rewrite Hkind]|].
  rewrite !orb_false_iff. split_and!.
  - apply Z.ltb_ge, Hi.
  - apply existsb_false. intros [[scope' key'] r'] [[Hc' Hch'] Hk'%elem_of_map_to_list]%list_elem_of_filter.
    destruct (fi_command _ Hi _ _ Hk') as (d' & _ & _ & Hd' & Hsc' & Hfp' & _). cbn in Hch', Hsc'.
    rewrite Hch', Hd in Hd'. injection Hd' as <-. cbn. rewrite <- Hsc', Hsc, Hfp'.
    by rewrite !bool_decide_eq_true_2.
  - rewrite Hsc. by rewrite bool_decide_eq_true_2.
  - rewrite Hfp. by rewrite bool_decide_eq_true_2.
  - by destruct (fi_delivery _ Hi _ _ Hd) as [-> _].
Qed.

(** What a loaded fork shows. *)
Record fork_loaded s (r : CMD) (F : ConversationForkSnapshot.t) : Prop := {
  fl_thread : threads s !! ConversationForkCommandRecord.child_thread_id r
    = Some (ConversationForkSnapshot.child_thread F);
  fl_messages : copies s (ConversationForkCommandRecord.child_thread_id r)
    (ConversationForkSnapshot.messages F);
  fl_turn : match ConversationForkCommandRecord.started_turn_id r,
                  ConversationForkSnapshot.started_turn F with
    | None, None => True
    | Some i, Some sn => ∃ t, conversation_turns s !! i = Some t ∧ turn_ok s t sn
    | _, _ => False
    end;
  fl_delivery : ∃ d, conversation_fork_deliveries s
      !! ConversationForkCommandRecord.child_thread_id r = Some d ∧
    ConversationForkSnapshot.delivery F
      = delivery_view (ConversationForkCommandRecord.child_thread_id r) d;
}.

Lemma thread_lineage_Ok s h i th :
  ws_inv (workspace s) h → conv_inv s → threads s !! i = Some th →
  validate_persisted_thread_lineage s th = Ok tt.
Proof.
  intros Hw Hc Hth. eapply persisted_lineage_Ok; [done..|].
  destruct (stored_depth _ _ _ _ Hw Hth) as (_ & _ & ? & _). unfold lineage_fuel. lia.
Qed.

Lemma fork_snapshot_Ok s h scope r :
  ws_inv (workspace s) h → conv_inv s → fork_inv s → record_ok s scope r →
  ∃ F, conversation_fork_snapshot s r = Ok F ∧ fork_loaded s r F.
Proof.
  intros Hw Hc Hi (d & th & kind & Hd & Hsc & Hfp & Hth & Hk & Hm & Hst).
  destruct (stored_depth _ _ _ _ Hw Hth) as (Hid & Hre & _ & _).
  destruct (fi_delivery _ Hi _ _ Hd) as (_ & (ms & Hms) & _).
  assert (∃ u o, resolves (conversation_turns s) (ConversationForkCommandRecord.started_turn_id r) u ∧
    match u, o with
    | Some t, Some sn => turn_ok s t sn ∧ conversation_snapshot s t = Ok sn
    | None, None => True | _, _ => False end) as (u & o & Hu & Ho).
  { destruct (ConversationForkCommandRecord.started_turn_id r) as [i|]; [|by exists None, None].
    destruct Hst as (_ & t & Ht & _). destruct (ci_turn _ Hc _ _ Ht) as (_ & sn & Hok).
    exists (Some t), (Some sn). split_and!; try done. by eapply load_Ok. }
  exists (ConversationForkSnapshot.mk th ms o
    (delivery_view (ConversationForkCommandRecord.child_thread_id r) d)). split.
  - unfold conversation_fork_snapshot.
    rewrite (run_some _ _ _ _ Hth), (run_map _ _ _ _ Hre),
      (run_Ok _ _ _ (thread_lineage_Ok _ _ _ _ Hw Hc Hth)), (run_map _ _ _ _ Hk).
    rewrite Hid, (run_some _ _ _ _ Hd), Hsc, Hm, (run_check _ _ _ eq_refl).
    rewrite (copied_messages_eq _ _ _ _ Hw Hms).
    rewrite run_check by (destruct Hms as (Hne & -> & _); by destruct ms).
    rewrite (run_linked _ _ _ _ _ Hu).
    assert (Hstart : ∀ B (k : option ConversationTurnSnapshot.t → result StoreError B),
      match u with
      | Some turn => snapshot ← conversation_snapshot s turn; Ok (Some snapshot)
      | None => Ok None
      end ≫= k = k o).
    { intros B k. destruct u, o; try done. by destruct Ho as [_ ->]. }
    rewrite Hstart, run_check, run_check, (run_Ok _ _ _ (fork_delivery_Ok _ _ _ Hi Hd)); [done|..].
    { rewrite Hfp. by rewrite bool_decide_eq_true_2. }
    destruct (ConversationForkCommandRecord.started_turn_id r) as [i|], u as [t|], o as [sn|]; try done.
    + destruct Hst as (Hnb & t' & Ht' & Et & Ef), Ho as [Hok _]. cbn in Hu. rewrite Hu in Ht'.
      injection Ht' as <-. rewrite (to_turn _ _ _ Hok), Et, Ef, bool_decide_eq_false_2 by done.
      by rewrite !bool_decide_eq_true_2.
    + subst kind. by rewrite bool_decide_eq_true_2.
  - split; cbn; eauto.
    destruct (ConversationForkCommandRecord.started_turn_id r) as [i|], u as [t|], o as [sn|]; try done.
    exists t. by destruct Ho.
Qed.

Lemma fork_context_Ok s scope r :
  conv_inv s → record_ok s scope r → ∃ ctx, fork_command_context s r = Ok ctx ∧
  ctx = (i ← ConversationForkCommandRecord.started_turn_id r; conversation_contexts s !! i).
Proof.
  intros Hc (d & th & kind & _ & _ & _ & _ & _ & _ & Hst). unfold fork_command_context, linked.
  destruct (ConversationForkCommandRecord.started_turn_id r) as [i|]; [|by exists None].
  destruct Hst as (_ & t & Ht & _). destruct (ci_context _ Hc _ _ Ht) as (ctx & Hx & _).
  exists (Some ctx). cbn. by rewrite Hx.
Qed.

(** *** Aliases *)

Definition with_fork_command (k : str * str) (r : CMD) s : CS :=
  s <| conversation_fork_commands := <[k := r]> (conversation_fork_commands s) |>.
(** Two stores that differ in the tables of forks only. *)
Definition only_forks s s' : Prop :=
  execution s' = execution s ∧ workspace s' = workspace s ∧
  conversation_lineages s' = conversation_lineages s ∧
  conversation_thread_bindings s' = conversation_thread_bindings s ∧
  conversation_thread_models s' = conversation_thread_models s ∧
  conversation_turn_keys s' = conversation_turn_keys s ∧
  conversation_events s' = conversation_events s ∧
  conversation_cancel_commands s' = conversation_cancel_commands s.
Lemma only_forks_quiet s s' : only_forks s s' → quiet s s'.
Proof.
  intros (E1 & E2 & E3 & E4 & E5 & E6 & E7 & E8).
  split; unfold same_parts, conversation_turns, conversation_contexts, threads, messages, runs, effects;
    rewrite ?E1, ?E2, ?E3, ?E4, ?E5, ?E6, ?E7, ?E8; try done; [eauto|congruence..].
Qed.

(** The record of a command that asks again for what is still being delivered. *)
Record aliased s (command : MutationCommand.t) (k : str * str) (r : CMD) (d : DEL) : Prop := {
  al_fresh : conversation_fork_commands s !! fork_command_key command = None;
  al_record : conversation_fork_commands s !! k = Some r;
  al_canonical : ConversationForkCommandRecord.canonical r = true;
  al_delivery : conversation_fork_deliveries s
    !! ConversationForkCommandRecord.child_thread_id r = Some d;
  al_pending : ConversationForkDeliveryRecord.state d = ConversationForkDeliveryState.Pending;
  al_scope : k.1 = MutationCommand.scope command;
  al_fingerprint : ConversationForkCommandRecord.fingerprint r = MutationCommand.fingerprint command;
  al_room : Z.of_nat (length (child_commands s false (ConversationForkCommandRecord.child_thread_id r)))
    < MAX_CONVERSATION_FORK_DELIVERY_ALIASES;
}.
Definition alias (r : CMD) : CMD := r <| ConversationForkCommandRecord.canonical := false |>.

Lemma alias_inv s command k r d :
  fork_inv s → aliased s command k r d →
  fork_inv (with_fork_command (fork_command_key command) (alias r) s).
Proof.
  intros Hi [Hf Hr Hc Hd _ Hs _ Hroom]. set (key := fork_command_key command) in *.
  assert (Hold : ∀ k' r', <[key := alias r]> (conversation_fork_commands s) !! k' = Some r' →
    ConversationForkCommandRecord.canonical r' = true → conversation_fork_commands s !! k' = Some r').
  { by intros k' r' [[<- <-]|[_ ?]]%lookup_insert_Some. }
  assert (E : conversation_fork_commands (with_fork_command key (alias r) s)
    = <[key := alias r]> (conversation_fork_commands s)) by done.
  split; try apply Hi; unfold child_commands; rewrite ?E.
  - intros k' r' [[<- <-]|[_ Hk]]%lookup_insert_Some; [|by apply (fi_command _ Hi) in Hk].
    apply (fi_command _ Hi) in Hr. rewrite Hs in Hr. exact Hr.
  - intros c d' Hcd. destruct (fi_delivery _ Hi _ _ Hcd) as (Hl & Hms & k' & r' & Hk & ? & ?).
    split_and!; [done..|]. exists k', r'. split_and!; try done.
    rewrite lookup_insert_ne; [done|congruence].
  - intros k1 k2 r1 r2 H1 H2 C1 C2. eapply (fi_canonical _ Hi); eauto.
  - intros c.
    rewrite (entries_insert _ _ _ _ Hf), length_app.
    pose proof (fi_aliases _ Hi c) as Hc'. unfold child_commands in Hc', Hroom. cbn.
    destruct (decide _) as [[_ Hch]|_]; cbn in *; [subst c; lia|lia].
Qed.

Lemma pending_children_cases s command :
  fork_inv s →
  (ForkMemory.pending_children s command = [] ∧ ∀ c d, conversation_fork_deliveries s !! c = Some d →
     ConversationForkDeliveryRecord.state d = ConversationForkDeliveryState.Pending →
     ConversationForkDeliveryRecord.scope d = MutationCommand.scope command →
     ConversationForkDeliveryRecord.request_fingerprint d ≠ MutationCommand.fingerprint command) ∨
  ∃ c d, ForkMemory.pending_children s command = [c] ∧
    conversation_fork_deliveries s !! c = Some d ∧
    ConversationForkDeliveryRecord.state d = ConversationForkDeliveryState.Pending ∧
    ConversationForkDeliveryRecord.scope d = MutationCommand.scope command ∧
    ConversationForkDeliveryRecord.request_fingerprint d = MutationCommand.fingerprint command.
Proof.
  intros Hi. unfold ForkMemory.pending_children.
  match goal with |- context [filter ?Q _] => set (P := Q) end.
  destruct (filter P (map_to_list (conversation_fork_deliveries s))) as [|[c d] l] eqn:E.
  - left. split; [done|]. intros c d Hd Hp Hs Hf.
    assert (Hin : (c, d) ∈ filter P (map_to_list (conversation_fork_deliveries s))).
    { apply list_elem_of_filter. split; [done|]. by apply elem_of_map_to_list. }
    rewrite E in Hin. by apply not_elem_of_nil in Hin.
  - right. assert (Hin : (c, d) ∈ filter P (map_to_list (conversation_fork_deliveries s))).
    { rewrite E. constructor. }
    apply list_elem_of_filter in Hin as [(Hp & Hs & Hf) Hd%elem_of_map_to_list]. cbn in *.
    exists c, d. split_and!; try done.
    rewrite (entries_unique P _ c d Hd) in E; [by injection E as <-|done|].
    intros c' d' Hd' (Hp' & Hs' & Hf'). cbn in *. eapply (fi_pending _ Hi); eauto; congruence.
Qed.

Lemma scope_supported scope kind :
  conversation_fork_scope_matches scope kind = true → conversation_fork_scope_is_supported scope = true.
Proof.
  unfold conversation_fork_scope_matches, conversation_fork_scope_is_supported.
  destruct kind; intros ->; by rewrite ?orb_true_r.
Qed.

(** A command with a new key is answered with nothing, refused because the child has
    all its aliases, or becomes an alias. *)
Lemma reconcile_ok s h command s' o :
  ws_inv (workspace s) h → conv_inv s → fork_inv s →
  conversation_fork_commands s !! fork_command_key command = None →
  ForkMemory.reconcile_pending_conversation_fork_command command s = (s', o) →
  (s' = s ∧ o = Ok None ∧ (conversation_fork_scope_is_supported (MutationCommand.scope command) = true →
     ∀ c d, conversation_fork_deliveries s !! c = Some d →
     ConversationForkDeliveryRecord.state d = ConversationForkDeliveryState.Pending →
     ConversationForkDeliveryRecord.scope d = MutationCommand.scope command →
     ConversationForkDeliveryRecord.request_fingerprint d ≠ MutationCommand.fingerprint command)) ∨
  (s' = s ∧ o = Err Conflict) ∨
  ∃ k r d F ctx, aliased s command k r d ∧
    s' = with_fork_command (fork_command_key command) (alias r) s ∧ fork_loaded s (alias r) F ∧
    ctx = (i ← ConversationForkCommandRecord.started_turn_id r; conversation_contexts s !! i) ∧
    o = Ok (Some (F, ctx)).
Proof.
  intros Hw Hc Hi Hn H. unfold ForkMemory.reconcile_pending_conversation_fork_command in H.
  destruct (conversation_fork_scope_is_supported _) eqn:Esup; cbn [negb] in H.
  2:{ left. by injection H as <- <-. }
  rewrite self_run, Hn in H.
  destruct (pending_children_cases s command Hi) as [[E Hno]|(c & d & E & Hd & Hp & Hs & Hf)];
    rewrite E in H.
  { left. by injection H as <- <-. }
  destruct (canonical_command _ _ _ Hi Hd) as (k & r & Ecmd & Hk & Hcan & Hch). rewrite Ecmd in H.
  destruct (fi_command _ Hi _ _ Hk) as (d' & th & kind & Hd' & Hsc & Hfp & Hrest).
  rewrite Hch, Hd in Hd'. injection Hd' as <-.
  assert (Hrun : ∀ B (f : CMD → method CS StoreError B), (mret r ≫= f) s = f r s) by done.
  rewrite Hrun in H.
  destruct (MAX_CONVERSATION_FORK_DELIVERY_ALIASES <=? _) eqn:Eroom.
  { right; left. by injection H as <- <-. }
  rewrite guard_run in H by done.
  rewrite guard_run in H by (by rewrite <- Hfp, Hf, bool_decide_eq_true_2).
  assert (Hrec : record_ok s k.1 (alias r)).
  { rewrite <- Hch in Hd. by exists d, th, kind. }
  destruct (fork_snapshot_Ok _ _ _ _ Hw Hc Hi Hrec) as (F & HF & Hload).
  destruct (fork_context_Ok _ _ _ Hc Hrec) as (ctx & Hctx & Ectx).
  rewrite (lift_run _ _ _ _ HF), (lift_run _ _ _ _ Hctx) in H.
  injection H as <- <-. right; right. exists k, r, d, F, ctx. split_and!; try done. subst c.
  split; try done; [congruence..|]. apply Z.leb_gt in Eroom. done.
Qed.

(** *** Acknowledgements *)

Definition acknowledged (d : DEL) : DEL :=
  d <| ConversationForkDeliveryRecord.revision := 1 |>
    <| ConversationForkDeliveryRecord.state := ConversationForkDeliveryState.Acknowledged |>.
Definition with_ack (command : MutationCommand.t) (c : ThreadId) (d : DEL) s : CS :=
  s <| conversation_fork_deliveries := <[c := acknowledged d]> (conversation_fork_deliveries s) |>
    <| conversation_fork_delivery_ack_commands :=
         <[fork_command_key command := ConversationForkDeliveryAckCommandRecord.mk
             (MutationCommand.fingerprint command) c 0 1]>
           (conversation_fork_delivery_ack_commands s) |>.

Lemma ack_inv s command c d :
  fork_inv s → conversation_fork_deliveries s !! c = Some d →
  ConversationForkDeliveryRecord.state d = ConversationForkDeliveryState.Pending →
  fork_inv (with_ack command c d s).
Proof.
  intros Hi Hd Hp.
  assert (E : conversation_fork_deliveries (with_ack command c d s)
    = <[c := acknowledged d]> (conversation_fork_deliveries s)) by done.
  assert (Hsame : ∀ c' d', conversation_fork_deliveries s !! c' = Some d' → ∃ d1,
    <[c := acknowledged d]> (conversation_fork_deliveries s) !! c' = Some d1 ∧
    ConversationForkDeliveryRecord.scope d1 = ConversationForkDeliveryRecord.scope d' ∧
    ConversationForkDeliveryRecord.request_fingerprint d1
      = ConversationForkDeliveryRecord.request_fingerprint d').
  { intros c' d' Hd'. destruct (decide (c' = c)) as [->|Hne].
    - exists (acknowledged d). rewrite lookup_insert_eq. by simplify_eq.
    - exists d'. by rewrite lookup_insert_ne. }
  split; try apply Hi; rewrite ?E.
  - intros k r Hk. destruct (fi_command _ Hi _ _ Hk) as (d' & th & kind & Hd' & Hsc & Hfp & Hrest).
    destruct (Hsame _ _ Hd') as (d1 & Hd1 & E1 & E2). exists d1, th, kind. rewrite E.
    split; [done|]. split; [congruence|]. split; [congruence|exact Hrest].
  - intros c' d' [[<- <-]|[_ Hd']]%lookup_insert_Some; [|by apply Hi].
    split; [done|]. apply (fi_delivery _ Hi _ _ Hd).
  - intros c1 c2 d1 d2 [[<- <-]|[_ H1]]%lookup_insert_Some; [done|].
    intros [[<- <-]|[_ H2]]%lookup_insert_Some; [done|]. by eapply (fi_pending _ Hi).
  - intros k a Ha. unfold with_ack in Ha. cbn in Ha.
    apply lookup_insert_Some in Ha as [[<- <-]|[_ Hk]]; cbn.
    + split_and!; try done. exists (acknowledged d). by rewrite lookup_insert_eq.
    + destruct (fi_ack _ Hi _ _ Hk) as (? & ? & d' & Hd' & Hs). split_and!; try done. exists d'.
      rewrite lookup_insert_ne; [done|]. congruence.
Qed.

Lemma lifecycle_revision d : delivery_lifecycle d = true →
  ConversationForkDeliveryRecord.revision d
  = match ConversationForkDeliveryRecord.state d with
    | ConversationForkDeliveryState.Pending => 0
    | ConversationForkDeliveryState.Acknowledged => 1
    end.
Proof. unfold delivery_lifecycle. by destruct (ConversationForkDeliveryRecord.state d); intros ?%Z.eqb_eq. Qed.

(** An acknowledgement is refused, repeats its answer, or moves a pending delivery. *)
Lemma ack_ok s command c e s' o :
  fork_inv s → ForkMemory.acknowledge_conversation_fork_delivery command c e s = (s', o) →
  refused s s' o ∨
  (∃ a d, s' = s ∧ conversation_fork_delivery_ack_commands s !! fork_command_key command = Some a ∧
     ConversationForkDeliveryAckCommandRecord.fingerprint a = MutationCommand.fingerprint command ∧
     ConversationForkDeliveryAckCommandRecord.child_thread_id a = c ∧ e = 0 ∧
     conversation_fork_deliveries s !! c = Some d ∧
     ConversationForkDeliveryRecord.state d = ConversationForkDeliveryState.Acknowledged ∧
     o = Ok (delivery_view c d)) ∨
  ∃ d, conversation_fork_delivery_ack_commands s !! fork_command_key command = None ∧
    conversation_fork_deliveries s !! c = Some d ∧
    ConversationForkDeliveryRecord.state d = ConversationForkDeliveryState.Pending ∧ e = 0 ∧
    s' = with_ack command c d s ∧ o = Ok (delivery_view c (acknowledged d)).
Proof.
  intros Hi H. unfold ForkMemory.acknowledge_conversation_fork_delivery in H.
  check H u0 G0. rewrite self_run in H.
  destruct (conversation_fork_delivery_ack_commands s !! _) as [a|] eqn:Ea.
  { destruct o as [F|err]; [right; left|left; by injection H as <-]. injection H as <- H.
    unfold ForkMemory.replay_acknowledgement in H. split_binds H. injection H as <-. read_facts.
    destruct (fi_ack _ Hi _ _ Ea) as (E0 & E1 & d & Hd & Hs).
    match goal with E : conversation_fork_delivery s _ = Ok _ |- _ =>
      rewrite (fork_delivery_Ok _ _ _ Hi Hd) in E; injection E as <- end.
    exists a, d. by split_and!. }
  assert (Hcount : ∃ n, length (child_commands s true c) = n) by eauto. destruct Hcount as [n En].
  rewrite En in H. destruct n as [|[|n]]; [left; by injection H as <- <-| |left; by injection H as <- <-].
  assert (Hrun : ∀ B (f : unit → method CS StoreError B), (mret tt ≫= f) s = f tt s) by done.
  rewrite Hrun in H. check H observed Hobs. injection Hobs as Hobs.
  assert (∃ d, conversation_fork_deliveries s !! c = Some d) as [d Hd].
  { unfold conversation_fork_delivery in Hobs. split_binds Hobs. read_facts. eauto. }
  rewrite (fork_delivery_Ok _ _ _ Hi Hd) in Hobs. injection Hobs as <-.
  check H u1 G1. apply throw_if_Ok in G1.
  cbn [delivery_view ConversationForkDelivery.state ConversationForkDelivery.revision] in G1. bool_facts.
  destruct (fi_delivery _ Hi _ _ Hd) as [Hlife%lifecycle_revision _].
  match goal with E : ConversationForkDeliveryRecord.state d = _ |- _ => rewrite E in Hlife end.
  rewrite (lift_run _ d) in H by by rewrite Hd.
  rewrite (lift_run _ 1) in H by by rewrite Hlife.
  right; right. exists d. rewrite Hlife in *. do 2 write H. rewrite self_run in H.
  assert (s1 = with_ack command c d s) as -> by by subst s1 s0.
  rewrite (fork_delivery_Ok _ c (acknowledged d)) in H; [|by apply ack_inv|].
  - injection H as <- <-. by split_and!.
  - unfold with_ack. cbn. apply lookup_insert_eq.
Qed.

(** *** Growth *)

(** What every step keeps: commands, acknowledgements and copied messages stay, a delivery
    is at most acknowledged. *)
Record fork_le s s' : Prop := {
  fe_commands : conversation_fork_commands s ⊆ conversation_fork_commands s';
  fe_acks : conversation_fork_delivery_ack_commands s ⊆ conversation_fork_delivery_ack_commands s';
  fe_delivery c d : conversation_fork_deliveries s !! c = Some d → ∃ d',
    conversation_fork_deliveries s' !! c = Some d' ∧
    (d' = d ∨ ConversationForkDeliveryRecord.state d = ConversationForkDeliveryState.Pending ∧
              d' = acknowledged d);
  fe_copies c l : copies s c l → copies s' c l;
}.
Lemma fork_le_refl s : fork_le s s.
Proof. split; try done. intros c d Hd. eauto. Qed.
Lemma fork_le_trans s1 s2 s3 : fork_le s1 s2 → fork_le s2 s3 → fork_le s1 s3.
Proof.
  intros [C1 A1 D1 M1] [C2 A2 D2 M2]. split; [by etrans..| |auto]. intros c d Hd.
  destruct (D1 _ _ Hd) as (d2 & Hd2 & H12), (D2 _ _ Hd2) as (d3 & Hd3 & H23).
  exists d3. split; [done|]. destruct H12 as [->|[Hp ->]]; [done|].
  destruct H23 as [->|[Hp' ->]]; [by right|done].
Qed.
Lemma frame_le s s' : fork_frame s s' → fork_le s s'.
Proof.
  intros [(E1 & E2 & E3 & E4) _ Hd]. split; rewrite ?E1, ?E2, ?E3; try done; [eauto|].
  intros c l. by apply copies_frame.
Qed.
Lemma alias_le s command k r d :
  aliased s command k r d → fork_le s (with_fork_command (fork_command_key command) (alias r) s).
Proof.
  intros H. split; try done; [|eauto]. apply insert_subseteq, H.
Qed.
Lemma ack_le s command c d :
  conversation_fork_delivery_ack_commands s !! fork_command_key command = None →
  conversation_fork_deliveries s !! c = Some d →
  ConversationForkDeliveryRecord.state d = ConversationForkDeliveryState.Pending →
  fork_le s (with_ack command c d s).
Proof.
  intros Hn Hd Hp. split; try done; [by apply insert_subseteq|]. intros c' d' Hd'.
  destruct (decide (c' = c)) as [->|Hne].
  - exists (acknowledged d). unfold with_ack. cbn. rewrite lookup_insert_eq. split; [done|].
    right. by simplify_eq.
  - exists d'. unfold with_ack. cbn. rewrite lookup_insert_ne by done. auto.
Qed.
End forks.
