(* ===== verification/ForkCreate.v ===== *)
(** * Creating a fork

    What an accepted plan of [reserve_conversation_fork] consists of, the tables its
    creation leaves, and that they are consistent: the child thread continues the ancestry
    of its parent, its messages are numbered copies, and every copied answer leads back to
    the turn that gave it. *)
From stdpp Require Import sorting.
From S2P Require Import Prelude RustText Ids Runs Approvals Effects ConversationTurns TurnEvents Schedules Scheduler Workspace ExecutionStore Commands WorkspaceStore WorkspaceServices WorkspaceWorld ConversationStore ForkStore ConversationWorld ConversationReserve ForkWorld.

(** A check that succeeded has no other value. *)
Ltac unit_ok := match goal with E : ?r = Ok ?u |- ?r = Ok tt => by destruct u end.

Lemma differ_false {A} `{EqDecision A} (x y : A) : (x != y) = false ↔ x = y.
Proof. by rewrite negb_false_iff, bool_decide_eq_true. Qed.

Section plans.
Context {UP : UrlParser} {CH : Chrono} {SJ : SerdeJson}.
Import ConversationState.
Implicit Types (s : CS) (t : ConversationTurn.t) (h : snapshots).

(** ** The messages of a plan *)

(** One planned message: a new message of the child with the given number, derived from an
    active message of the parent; an answer comes with the turn that gave it. *)
Record planned s (src : ConversationTurnId) (child : Thread.t) (p : ThreadId) (n : Z)
    (m : Message.t) (o : option ConversationTurnId) : Prop := {
  pl_new : ∃ role content y pos kind,
    Message.new_derived (Message.id m) (Thread.id child) n role content (Message.id y) src pos kind
      (Thread.created_at child) = Ok m ∧
    messages s !! Message.id y = Some y ∧ Message.thread_id y = p ∧
    Message.state y = MessageState.Active ∧
    match o with
    | Some i => role = MessageRole.Assistant ∧ Message.role y = MessageRole.Assistant ∧
        content = Message.content y ∧ kind ≠ ConversationMessageDerivationKind.EditedUser ∧
        (kind = ConversationMessageDerivationKind.SourceAssistantCopy → src = i) ∧ answer_of s y i
    | None => role ≠ MessageRole.Assistant
    end;
  pl_fresh : messages s !! Message.id m = None;
}.
Inductive planned_list s src child p : Z → list Message.t → list (MessageId * ConversationTurnId) → Prop :=
| planned_nil n : planned_list s src child p n [] []
| planned_answer n m ms i inh : planned s src child p n m (Some i) →
    planned_list s src child p (n + 1) ms inh →
    planned_list s src child p n (m :: ms) ((Message.id m, i) :: inh)
| planned_other n m ms inh : planned s src child p n m None →
    planned_list s src child p (n + 1) ms inh → planned_list s src child p n (m :: ms) inh.

Lemma planned_snoc s src child p n ms inh m o :
  planned_list s src child p n ms inh → planned s src child p (n + Z.of_nat (length ms)) m o →
  planned_list s src child p n (ms ++ [m])
    (inh ++ match o with Some i => [(Message.id m, i)] | None => [] end).
Proof.
  induction 1 as [n|n m' ms i inh Hm _ IH|n m' ms inh Hm _ IH]; cbn [app length]; intros Hp.
  - rewrite Z.add_0_r in Hp. destruct o; cbn; [apply planned_answer|apply planned_other]; done || constructor.
  - apply planned_answer; [done|]. apply IH. replace (n + 1 + _) with (n + Z.of_nat (S (length ms))) by lia.
    done.
  - apply planned_other; [done|]. apply IH. replace (n + 1 + _) with (n + Z.of_nat (S (length ms))) by lia.
    done.
Qed.

Lemma planned_list_in s src child p n ms inh m :
  planned_list s src child p n ms inh → m ∈ ms → ∃ k o, n ≤ k ∧ planned s src child p k m o ∧
  ∀ i, o = Some i → (Message.id m, i) ∈ inh.
Proof.
  induction 1 as [n|n m' ms i inh Hm _ IH|n m' ms inh Hm _ IH]; intros Hin.
  - by apply not_elem_of_nil in Hin.
  - apply elem_of_cons in Hin as [->|Hin].
    + exists n, (Some i). split_and!; [done..|]. intros j [= <-]. constructor.
    + destruct (IH Hin) as (k & o & Hk & Hp & Ho). exists k, o. split_and!; [lia|done|].
      intros j Hj. constructor. by apply Ho.
  - apply elem_of_cons in Hin as [->|Hin].
    + by exists n, None.
    + destruct (IH Hin) as (k & o & Hk & Hp & Ho). exists k, o. split_and!; [lia|done|done].
Qed.
Lemma planned_list_outcome s src child p n ms inh k i :
  planned_list s src child p n ms inh → (k, i) ∈ inh →
  ∃ m q, m ∈ ms ∧ Message.id m = k ∧ planned s src child p q m (Some i).
Proof.
  induction 1 as [n|n m' ms j inh Hm _ IH|n m' ms inh Hm _ IH]; intros Hin.
  - by apply not_elem_of_nil in Hin.
  - apply elem_of_cons in Hin as [[= -> ->]|Hin].
    + exists m', n. split_and!; [constructor|done..].
    + destruct (IH Hin) as (m & q & ? & ? & ?). exists m, q. split_and!; [by constructor|done..].
  - destruct (IH Hin) as (m & q & ? & ? & ?). exists m, q. split_and!; [by constructor|done..].
Qed.

(** What a derived message is. *)
Lemma new_derived_facts i th n role content y src pos kind now m :
  Message.new_derived i th n role content y src pos kind now = Ok m →
  Message.id m = i ∧ Message.thread_id m = th ∧ Message.sequence m = n ∧ Message.role m = role ∧
  Message.content m = content ∧ Message.state m = MessageState.Active ∧
  Message.derivation m = ConversationMessageDerivation.Fork kind y src pos ∧ n ≠ 0.
Proof.
  unfold Message.new_derived, ConversationMessageDerivation.fork,
    ConversationMessageDerivation.restore. intros H. split_binds H. injection H as <-. cbn.
  split_binds Hx1. injection Hx1 as <-. apply reject_if_Ok, Z.eqb_neq in Hx. by split_and!.
Qed.
Lemma planned_facts s src child p n m o :
  planned s src child p n m o → Message.thread_id m = Thread.id child ∧ Message.sequence m = n ∧
  Message.state m = MessageState.Active ∧ derived m = true ∧ ag_initial m ∧
  Message.restore m = Ok m.
Proof.
  intros [(role & content & y & pos & kind & Hm & _) _].
  assert (Hi : ag_initial m) by (right; by repeat eexists).
  destruct (new_derived_facts _ _ _ _ _ _ _ _ _ _ _ Hm) as (_ & Ht & Hn & _ & _ & Hs & Hd & _).
  split_and!; try done; [unfold derived; by rewrite Hd|].
  apply (restore_initial (C := message_call) m Hi).
Qed.

Lemma planned_numbered s src child p n ms inh :
  planned_list s src child p n ms inh → numbered_from n ms = true.
Proof.
  induction 1 as [n|n m ms i inh Hm _ IH|n m ms inh Hm _ IH]; [done|..]; cbn;
    destruct (planned_facts _ _ _ _ _ _ _ Hm) as (_ & -> & _ & _ & _ & ->);
    by rewrite Z.eqb_refl, IH.
Qed.

(** The turns of a plan are those of its answers, in their order. *)
Lemma planned_answers s src child p n ms inh :
  planned_list s src child p n ms inh →
  Forall2 (λ m (e : MessageId * ConversationTurnId), e.1 = Message.id m)
    (filter (λ m, Message.role m = MessageRole.Assistant) ms) inh.
Proof.
  induction 1 as [n|n m ms i inh Hm _ IH|n m ms inh Hm _ IH]; [constructor|..]; rewrite filter_cons;
    destruct Hm as [(role & content & y & pos & kind & Hm & _ & _ & _ & Hr) _];
    destruct (new_derived_facts _ _ _ _ _ _ _ _ _ _ _ Hm) as (_ & _ & _ & <- & _).
  - rewrite decide_True by apply Hr. by constructor.
  - by rewrite decide_False.
Qed.

(** The answer of a completed turn. *)
Lemma snapshot_answer s t sn a :
  turn_ok s t sn → ConversationTurnSnapshot.assistant_message sn = Some a →
  messages s !! Message.id a = Some a ∧ Message.role a = MessageRole.Assistant ∧
  Message.state a = MessageState.Active ∧ Message.thread_id a = ConversationTurn.thread_id t ∧
  ConversationTurn.state t = ConversationTurnState.Completed ∧
  ConversationTurn.assistant_message_id t = Some (Message.id a) ∧ derived a = false.
Proof.
  intros [Et [_ C2 _ _ _ _] Hk _ _] Ha. pose proof (canonical_linked _ Hk) as [_ _ _ _ _ _ La Lan _ _].
  destruct (Lan a Ha) as (Hs & Hth & Hr & Hact & Hd). rewrite Ha in C2, La. cbn in La.
  rewrite La in C2. rewrite Et in *. split_and!; try done. unfold derived. by rewrite Hd.
Qed.

Lemma inherited_source_Ok s h y i :
  ws_inv (workspace s) h → conv_inv s → fork_inv s → messages s !! Message.id y = Some y →
  inherited_source_turn s y = Ok i → answer_of s y i.
Proof.
  intros Hw Hc Hf Hy H. unfold inherited_source_turn in H. split_binds H. injection H as <-.
  read_facts. rename x into i, x0 into u.
  match goal with E : conversation_turns s !! i = Some u |- _ => rename E into Hu end.
  destruct (ci_turn _ Hc _ _ Hu) as (Hid & sn & Hok).
  match goal with E : conversation_snapshot s u = Ok _ |- _ =>
    rewrite (load_Ok _ _ _ _ _ Hw Hc Hu Hok) in E; injection E as <- end.
  match goal with E : ConversationTurnSnapshot.assistant_message sn = Some ?a |- _ =>
    destruct (snapshot_answer _ _ _ _ Hok E) as (Hsa & _ & _ & _ & Hst & Hai & _); exists u, a end.
  split_and!; try done.
  match goal with E : (match answered_turns _ _ with _ => _ end) = Ok _ |- _ => rename E into Hcase end.
  destruct (answered_turns s (Message.id y)) as [|j [|? ?]] eqn:Ean,
    (conversation_inherited_outcomes s !! Message.id y) as [k|] eqn:Ek; try done; injection Hcase as ->.
  - right. split; [|done]. destruct (fi_outcome _ Hf _ _ Ek) as (x & Hx & Hd & _). congruence.
  - left. assert (Hin : i ∈ answered_turns s (Message.id y)) by (rewrite Ean; constructor).
    apply list_elem_of_fmap in Hin as (v & Ev & [Hv [j Hj]%elem_of_values]%list_elem_of_filter).
    destruct (ci_turn _ Hc _ _ Hj) as [Hvj _]. rewrite <- Hvj, <- Ev in Hj. congruence.
Qed.

Lemma new_fork_message_Ok s ids m expected ids' :
  validate_new_fork_message s ids m expected = Ok ids' →
  expected = m ∧ messages s !! Message.id m = None ∧ (Message.id m ∉ ids) ∧
  ids' = (Message.id m :: ids).
Proof.
  unfold validate_new_fork_message. intros H. split_binds H. injection H as <-.
  apply reject_if_Ok in Hx. apply orb_false_iff in Hx as [Hx Hin].
  apply orb_false_iff in Hx as [He Hn%is_some_false]. apply bool_decide_eq_false in Hin.
  apply negb_false_iff, bool_decide_eq_true in He. by split_and!.
Qed.

(** The copies of the context. *)
Lemma context_copies_Ok s h plan src p n ids inh pairs ids' inh' :
  ws_inv (workspace s) h → conv_inv s → fork_inv s →
  (∀ m y, (m, y) ∈ pairs → messages s !! Message.id y = Some y ∧ Message.thread_id y = p ∧
     Message.state y = MessageState.Active) →
  validate_context_copies s plan src n ids inh pairs = Ok (ids', inh') →
  ∃ new, inh' = inh ++ new ∧
    planned_list s src (ConversationForkPlan.child_thread plan) p n pairs.*1 new ∧
    (NoDup ids → NoDup ids') ∧ ids' = (rev (map Message.id pairs.*1) ++ ids).
Proof.
  intros Hw Hc Hf. revert n ids inh. induction pairs as [|[m y] pairs IH]; intros n ids inh Hp H; cbn in H.
  { injection H as <- <-. exists []. rewrite app_nil_r. split_and!; try done. constructor. }
  split_binds H. rename x into e, x0 into ids1, x1 into inh1.
  apply new_fork_message_Ok in Hx0 as (-> & Hn & Hnin & ->).
  unfold context_copy in Hx. split_binds Hx. rewrite map_err_Ok in Hx.
  destruct (Hp m y) as (Hy & Hth & Hact); [by constructor|].
  apply IH in H as (new & -> & Hl & Hd & ->); [|intros m' y' Hin; apply (Hp m'); by constructor].
  assert (Hids : NoDup ids → NoDup (rev (map Message.id pairs.*1) ++ Message.id m :: ids)).
  { intros Hd0. apply Hd. by constructor. }
  assert (Eids : rev (map Message.id pairs.*1) ++ Message.id m :: ids
    = rev (map Message.id ((m, y) :: pairs).*1) ++ ids).
  { cbn. by rewrite <- app_assoc. }
  destruct (bool_decide_reflect (Message.role y = MessageRole.Assistant)) as [Hr|Hr].
  - split_binds Hx1. injection Hx1 as <-. rename x0 into i. exists ((Message.id m, i) :: new).
    rewrite <- app_assoc. split_and!; try done. cbn. apply planned_answer; [|done]. split; [|done].
    do 5 eexists. split; [exact Hx|]. split_and!; try done. by eapply inherited_source_Ok.
  - injection Hx1 as <-. exists new. split_and!; try done. cbn. apply planned_other; [|done].
    split; [|done]. do 5 eexists. split; [exact Hx|]. by split_and!.
Qed.

Lemma last_take {A} (l : list A) n x :
  length l = S n → last l = Some x → l = take n l ++ [x].
Proof.
  intros Hl Hx. rewrite (removelast_last _ _ Hx) in Hl |- *. rewrite length_app in Hl. cbn in Hl.
  replace n with (length (removelast l)) by lia. by rewrite take_app_length.
Qed.

Lemma NoDup_planned ids (m : Message.t) ms :
  NoDup (rev (map Message.id ms) ++ []) → Message.id m ∉ rev (map Message.id ms) ++ [] →
  ids = map Message.id (ms ++ [m]) → NoDup ids.
Proof.
  rewrite app_nil_r, <- Permutation_rev. intros Hd Hn ->. rewrite map_app. cbn.
  apply NoDup_app. split_and!; [done| |apply NoDup_singleton].
  intros x Hx ->%list_elem_of_singleton. done.
Qed.

(** The messages of an accepted plan. *)
Record plan_messages s (plan : ConversationForkPlan.t) t (kind : ConversationForkKind.t)
    (inh : list (MessageId * ConversationTurnId)) (o : option (list Message.t)) : Prop := {
  pm_planned : planned_list s (ConversationTurn.id t) (ConversationForkPlan.child_thread plan)
    (ConversationTurn.thread_id t) 1 (ConversationForkPlan.messages plan) inh;
  pm_ids : NoDup (map Message.id (ConversationForkPlan.messages plan));
  pm_some : ConversationForkPlan.messages plan ≠ [];
  pm_context : match kind with
    | ConversationForkKind.Branch => o = None
    | _ => o = Some (ConversationForkPlan.messages plan) ∧
        validate_context (ConversationForkPlan.messages plan) = Ok tt
    end;
}.

Lemma fork_messages_Ok s h plan i t sn ctx kind inh o :
  ws_inv (workspace s) h → conv_inv s → fork_inv s → conversation_turns s !! i = Some t →
  turn_ok s t sn → context_ok s t ctx →
  validate_fork_messages s plan sn ctx kind = Ok (inh, o) → plan_messages s plan t kind inh o.
Proof.
  intros Hw Hc Hf Ht Hok Hcx H. unfold validate_fork_messages in H.
  rewrite (to_turn _ _ _ Hok) in H. split_binds H. rename x into copied. destruct x1 as [ids new].
  apply ok_or_Ok in Hx. apply reject_if_Ok in Hx0. apply orb_false_iff in Hx0 as [Hlen Hne].
  apply negb_false_iff, Nat.eqb_eq in Hlen.
  set (ms := ConversationForkPlan.messages plan) in *.
  assert (Hnil : ms ≠ []) by by destruct ms.
  assert (Hcopied : (copied ≤ length ctx)%nat).
  { unfold context_copy_count in Hx. destruct kind; [by injection Hx as <-| |by injection Hx as <-].
    destruct (length ctx); [done|]. injection Hx as <-. lia. }
  assert (Hpairs : (zip (take copied ms) ctx).*1 = take copied ms).
  { apply fst_zip. rewrite length_take. lia. }
  eapply (context_copies_Ok s h plan _ (ConversationTurn.thread_id t)) in Hx1
    as (new' & -> & Hl & Hd & ->); [|done..|].
  2:{ intros m y Hin%elem_of_zip_r. by apply (cx_stored _ _ _ Hcx). }
  rewrite Hpairs in Hl, Hd, H. specialize (Hd (NoDup_nil_2)).
  pose proof (canonical_linked _ (to_canonical _ _ _ Hok)) as [_ _ Lu Lth _ Lact _ _ _ _].
  rewrite (to_turn _ _ _ Hok) in Lu, Lth.
  assert (Htake : length (take copied ms) = copied) by (rewrite length_take; lia).
  destruct kind; cbn [extra_message_count] in Hlen.
  - split_binds H. injection H as <- <-. rename x into a, x1 into m.
    apply ok_or_Ok in Hx0, Hx1.
    apply new_fork_message_Ok in Hx3 as (-> & Hn & Hnin & ->).
    unfold branch_copy in Hx2. rewrite map_err_Ok in Hx2. fold ms in Hx2.
    assert (Hsnoc : ms = take copied ms ++ [m]) by (apply last_take; [lia|done]).
    destruct (snapshot_answer _ _ _ _ Hok Hx0) as (Ha & Hr & Hact & Hth & Hst & Hai & _).
    split; fold ms; [|by eapply NoDup_planned; [exact Hd|exact Hnin|by rewrite <- Hsnoc]|done|done].
    rewrite Hsnoc. apply (planned_snoc _ _ _ _ _ _ _ _ (Some (ConversationTurn.id t)) Hl).
    rewrite Htake. replace (1 + Z.of_nat copied) with (Z.of_nat (length ms)) by lia.
    split; [|done]. do 5 eexists. split; [exact Hx2|]. split_and!; try done.
    exists t, a. destruct (ci_turn _ Hc _ _ Ht) as [-> _]. split_and!; try done. by left.
  - split_binds H. injection H as <- <-. rename x into m. apply ok_or_Ok in Hx0.
    apply new_fork_message_Ok in Hx3 as (-> & Hn & Hnin & ->).
    unfold edited_prompt in Hx2. split_binds Hx2. rewrite map_err_Ok in Hx2. fold ms in Hx2.
    assert (Hsnoc : ms = take copied ms ++ [m]) by (apply last_take; [lia|done]).
    split; fold ms; [|by eapply NoDup_planned; [exact Hd|exact Hnin|by rewrite <- Hsnoc]|done|split; [done|unit_ok]].
    rewrite Hsnoc, <- (app_nil_r new'). cbn [app].
    apply (planned_snoc _ _ _ _ _ _ _ _ None Hl).
    rewrite Htake. replace (1 + Z.of_nat copied) with (Z.of_nat (length ms)) by lia.
    split; [|done]. do 5 eexists. split; [exact Hx2|]. split_and!; try done.
    rewrite Lu. destruct (to_collected _ _ _ Hok) as [C1 _ _ _ _ _]. by rewrite (to_turn _ _ _ Hok) in C1.
  - split_binds H. injection H as <- <-. rewrite Nat.add_0_r in Hlen.
    rewrite <- Hlen, firstn_all in Hl, Hd.
    split; fold ms; [done| |done|split; [done|unit_ok]].
    rewrite app_nil_r, <- Permutation_rev in Hd. done.
Qed.

(** ** The turn of a plan *)

Record started s (plan : ConversationForkPlan.t) (cb model : str) (tp : ConversationForkTurnPlan.t)
    (um : Message.t) (ev : ConversationTurnEvent.t) : Prop := {
  st_lineage : ConversationTurnLineage.credential_binding_id (ConversationForkTurnPlan.lineage tp)
    = Some cb;
  st_origin src : retries src (ConversationForkTurnPlan.lineage tp) = false;
  st_key : conversation_turn_keys s
    !! ConversationTurn.idempotency_key (ConversationForkTurnPlan.turn tp) = None;
  st_fingerprint : ConversationTurn.request_fingerprint (ConversationForkTurnPlan.turn tp)
    = MutationCommand.fingerprint (ConversationForkPlan.command plan);
  st_project : ConversationTurn.project_id (ConversationForkTurnPlan.turn tp)
    = Thread.project_id (ConversationForkPlan.child_thread plan);
  st_thread : ConversationTurn.thread_id (ConversationForkTurnPlan.turn tp)
    = Thread.id (ConversationForkPlan.child_thread plan);
  st_model : ConversationTurn.model_id (ConversationForkTurnPlan.turn tp) = model;
  st_state : ConversationTurn.state (ConversationForkTurnPlan.turn tp)
    = ConversationTurnState.Reserved;
  st_fresh : conversation_turns s !! ConversationTurn.id (ConversationForkTurnPlan.turn tp) = None;
  st_run : runs s !! Run.id (ConversationForkTurnPlan.run tp) = None;
  st_canonical : is_canonical_conversation_snapshot
    (ConversationTurnSnapshot.mk (ConversationForkTurnPlan.turn tp) um None
       (ConversationForkTurnPlan.run tp) None (ConversationForkTurnPlan.lineage tp)) = true;
  st_event : ∃ log, ConversationTurnEventLog.restore
      (ConversationTurn.id (ConversationForkTurnPlan.turn tp)) [ev] = Ok log ∧
    ConversationTurnEventLog.validate_snapshot log (ConversationForkTurnPlan.turn tp) None = Ok tt;
}.

Lemma fork_turn_Ok s plan sn cb ctx kind ev :
  validate_fork_turn_plan s plan sn cb ctx kind = Ok ev →
  (kind = ConversationForkKind.Branch ∧ ConversationForkPlan.started_turn plan = None ∧
     ctx = None ∧ ev = None) ∨
  (kind ≠ ConversationForkKind.Branch ∧ ∃ tp l um e,
     ConversationForkPlan.started_turn plan = Some tp ∧ ctx = Some l ∧ last l = Some um ∧
     ev = Some e ∧
     started s plan cb (ConversationTurn.model_id (ConversationTurnSnapshot.turn sn)) tp um e).
Proof.
  intros H. unfold validate_fork_turn_plan in H.
  assert (kind = ConversationForkKind.Branch ∨ kind ≠ ConversationForkKind.Branch) as [->|Hk]
    by (destruct kind; auto).
  - left. split_binds H. injection H as <-. apply reject_if_Ok, negb_false_iff, andb_true_iff in Hx as [H1 H2].
    by destruct (ConversationForkPlan.started_turn plan), ctx.
  - right. split; [done|].
    assert (Hk' : ∃ tp l um origin e, ConversationForkPlan.started_turn plan = Some tp ∧ ctx = Some l ∧
      last l = Some um ∧ fork_origin kind (ConversationTurn.id (ConversationTurnSnapshot.turn sn)) = Ok origin ∧
      fork_turn_refused s plan tp sn cb um origin = false ∧ ev = Some e ∧
      is_canonical_conversation_snapshot
        (ConversationTurnSnapshot.mk (ConversationForkTurnPlan.turn tp) um None
           (ConversationForkTurnPlan.run tp) None (ConversationForkTurnPlan.lineage tp)) = true ∧
      ∃ log, ConversationTurnEventLog.append_kind ConversationTurnEventKind.Created
          (ConversationTurnEventLog.new (ConversationTurn.id (ConversationForkTurnPlan.turn tp)))
          = (log, Ok e) ∧
        ConversationTurnEventLog.validate_snapshot log (ConversationForkTurnPlan.turn tp) None = Ok tt).
    { destruct kind; [done|..]; split_binds H;
        destruct (ConversationTurnEventLog.append_kind _ _) as [log appended] eqn:Ea; split_binds H;
        injection H as <-; rewrite ?ok_or_Ok, ?map_err_Ok, ?reject_if_Ok in *; subst;
        do 5 eexists; split_and!; try done; try (by apply negb_false_iff);
        (exists log; split; [done|unit_ok]). }
    destruct Hk' as (tp & l & um & origin & e & -> & -> & Hum & Ho & Href & -> & Hcan & log & Ha & Hv).
    exists tp, l, um, e. split_and!; try done. unfold fork_turn_refused in Href.
    rewrite !orb_false_iff, !differ_false in Href.
    destruct Href as [[[[[[[[[[[[[[[[F1 F2] _] _] _] F6] F7] F8] _] F10] _] F12] _] _] F15] F16] F17].
    apply is_some_false in F15, F16, F17. split; try done.
    + intros src. unfold retries. rewrite F1. destruct kind; [done|..]; by injection Ho as <-.
    + exists log. split; [by apply first_event|done].
Qed.

(** ** An accepted plan *)

Record fork_plan s (plan : ConversationForkPlan.t) (prep : PreparedConversationFork)
    (kind : ConversationForkKind.t) t sn (parent : Thread.t) (m : Message.t) : Prop := {
  fp_kind : conversation_fork_kind (ConversationForkPlan.child_thread plan) = Ok kind;
  fp_scope : conversation_fork_scope_matches
    (MutationCommand.scope (ConversationForkPlan.command plan)) kind = true;
  fp_thread : threads s !! Thread.id (ConversationForkPlan.child_thread plan) = None;
  fp_unbound : conversation_thread_bindings s
    !! Thread.id (ConversationForkPlan.child_thread plan) = None;
  fp_unset : conversation_thread_models s
    !! Thread.id (ConversationForkPlan.child_thread plan) = None;
  fp_source : conversation_turns s !! ConversationTurn.id t = Some t;
  fp_ok : turn_ok s t sn;
  fp_parent : threads s !! ConversationTurn.thread_id t = Some parent;
  fp_project : Thread.project_id (ConversationForkPlan.child_thread plan)
    = Thread.project_id parent;
  fp_state : ensure_fork_source_state kind sn = Ok tt;
  fp_message : fork_source_message kind sn = Some m;
  fp_child : Thread.new_fork (Thread.id (ConversationForkPlan.child_thread plan))
    (Thread.project_id parent) (Thread.title parent) (Thread.id parent) (Thread.lineage parent)
    (ConversationTurn.id t) (Message.id m) (Message.role m) kind
    (Thread.created_at (ConversationForkPlan.child_thread plan))
    = Ok (ConversationForkPlan.child_thread plan);
  fp_bound : conversation_thread_bindings s !! ConversationTurn.thread_id t
    = Some (pf_credential_binding_id prep);
  fp_children : Z.of_nat (length (direct_children s (ConversationTurn.thread_id t)))
    < MAX_CONVERSATION_FORK_DIRECT_CHILDREN;
  fp_family : Z.of_nat (length (family s
      (ConversationThreadLineage.root_thread_id (Thread.lineage parent))))
    < MAX_CONVERSATION_FORK_FAMILY_THREADS;
  fp_messages : plan_messages s plan t kind (pf_inherited_outcomes prep) (pf_context prep);
  fp_model : pf_model_id prep = ConversationTurn.model_id t;
  fp_turn : validate_fork_turn_plan s plan sn (pf_credential_binding_id prep) (pf_context prep) kind
    = Ok (pf_created_turn_event prep);
  fp_budget : validate_projected_fork_metadata_budget s plan (pf_inherited_outcomes prep) = Ok tt;
}.

Lemma thread_restore_same x y : Thread.restore x = Ok y → y = x.
Proof. unfold Thread.restore. intros H. split_binds H. by injection H. Qed.

Lemma fork_source_Ok s h plan child sn parent :
  ws_inv (workspace s) h → conv_inv s → fork_source s plan child = Ok (sn, parent) →
  ∃ t, conversation_turns s !! ConversationTurn.id t = Some t ∧ turn_ok s t sn ∧
    threads s !! ConversationTurn.thread_id t = Some parent ∧
    Thread.project_id child = Thread.project_id parent.
Proof.
  intros Hw Hc H. unfold fork_source in H. split_binds H. injection H as <- <-.
  apply ok_or_Ok in Hx. rename x into u. destruct (ci_turn _ Hc _ _ Hx) as (Hid & sn & Hok).
  rewrite (load_Ok _ _ _ _ _ Hw Hc Hx Hok) in Hx0. injection Hx0 as <-.
  rewrite (to_turn _ _ _ Hok) in *. apply ok_or_Ok in Hx2. apply reject_if_Ok in Hx6.
  rewrite !orb_false_iff, !differ_false in Hx6. destruct Hx6 as [[[[[_ F2] F3] _] _] _].
  exists u. split_and!; [congruence|done|done|congruence].
Qed.

Lemma fork_prepare_Ok s h plan prep :
  ws_inv (workspace s) h → conv_inv s → fork_inv s → prepare_conversation_fork s plan = Ok prep →
  ∃ kind t sn parent m, fork_plan s plan prep kind t sn parent m.
Proof.
  intros Hw Hc Hf H. unfold prepare_conversation_fork in H. split_binds H.
  rename x0 into child, x1 into kind. rewrite map_err_Ok in Hx0.
  apply thread_restore_same in Hx0 as ->. destruct x3 as [sn parent].
  apply (fork_source_Ok _ _ _ _ _ _ Hw Hc) in Hx3 as (u & Hu & Hok & Hpar & Hproj).
  rewrite (to_turn _ _ _ Hok) in H. split_binds H. destruct x10 as [inh ctx']. split_binds H.
  injection H as <-. destruct (stored_depth _ _ _ _ Hw Hpar) as (Hpid & _).
  apply reject_if_Ok in Hx2, Hx6, Hx9. rewrite !orb_false_iff, negb_false_iff in Hx2.
  destruct Hx2 as [[[Fsc Fth%is_some_false] Fb%is_some_false] Fm%is_some_false].
  rewrite differ_false in Hx6. rewrite differ_false, Hpid in Hx9. rewrite map_err_Ok, <- Hx6 in Hx5.
  rewrite ok_or_Ok in Hx0. rewrite ok_or_Ok in Hx4. rewrite ok_or_Ok in Hx8.
  destruct (ci_context _ Hc _ _ Hu) as (ctx & Hctx & Hcx). rewrite Hx0 in Hctx. injection Hctx as ->.
  unfold check_family in Hx10. split_binds Hx10. apply reject_if_Ok, orb_false_iff in Hx10 as [F1 F2].
  rewrite Hpid in F1. rewrite Z.leb_gt in F1, F2.
  exists kind, u, sn, parent, x3. split; try done; [unit_ok|by eapply fork_messages_Ok|unit_ok].
Qed.

(** The outcomes a plan projects are those of the turns it names. *)
Lemma collected_Forall2 {A B} (f : A → result StoreError B) l ys :
  ConversationMemory.collect_results f l = Ok ys → Forall2 (λ x y, f x = Ok y) l ys.
Proof.
  revert ys. induction l as [|x l IH]; intros ys H; cbn in H; [injection H as <-; constructor|].
  split_binds H. injection H as <-. constructor; [done|]. by apply IH.
Qed.
Lemma projected_outcomes s h plan inh :
  ws_inv (workspace s) h → conv_inv s →
  validate_projected_fork_metadata_budget s plan inh = Ok tt → ∃ os,
  Forall2 (λ (e : MessageId * ConversationTurnId) o, ∃ u, conversation_turns s !! e.2 = Some u ∧
    o = inherited_outcome e.1 e.2 u) inh os ∧
  conversation_fork_metadata_is_within_bounds
    (ConversationForkMetadata.mk (Thread.lineage (ConversationForkPlan.child_thread plan)) os
       (family s (ConversationThreadLineage.root_thread_id
                    (Thread.lineage (ConversationForkPlan.child_thread plan)))
        ++ [ConversationForkPlan.child_thread plan])) = true.
Proof.
  intros Hw Hc H. unfold validate_projected_fork_metadata_budget in H. split_binds H.
  apply reject_if_Ok, negb_false_iff in H. exists x0. split; [|done].
  eapply Forall2_impl; [by apply collected_Forall2|]. intros [k i] o Ho. unfold projected_outcome in Ho.
  split_binds Ho. injection Ho as <-. read_facts. cbn.
  match goal with E : conversation_turns s !! i = Some ?v |- _ => exists v; rename E into Hv end.
  split; [done|]. destruct (ci_turn _ Hc _ _ Hv) as (_ & sn & Hok).
  match goal with E : conversation_snapshot s _ = Ok _ |- _ =>
    rewrite (load_Ok _ _ _ _ _ Hw Hc Hv Hok) in E; injection E as <- end.
  by rewrite (to_turn _ _ _ Hok).
Qed.

(** ** The tables a creation leaves *)

Definition insert_messages (ms : list Message.t) (T : gmap MessageId Message.t) :
    gmap MessageId Message.t :=
  foldl (λ T m, <[Message.id m := m]> T) T ms.
Definition insert_outcomes (inh : list (MessageId * ConversationTurnId))
    (T : gmap MessageId ConversationTurnId) : gmap MessageId ConversationTurnId :=
  foldl (λ T e, <[e.1 := e.2]> T) T inh.

Lemma insert_messages_lookup ms T i m :
  NoDup (map Message.id ms) → (∀ x, x ∈ ms → T !! Message.id x = None) →
  insert_messages ms T !! i = Some m ↔ T !! i = Some m ∨ m ∈ ms ∧ Message.id m = i.
Proof.
  revert T. induction ms as [|x ms IH]; intros T Hd Hn.
  { cbn. rewrite elem_of_nil. naive_solver. }
  apply NoDup_cons in Hd as [Hx Hd].
  change (insert_messages (x :: ms) T) with (insert_messages ms (<[Message.id x := x]> T)).
  rewrite IH; [|done|].
  - rewrite lookup_insert_Some, elem_of_cons. specialize (Hn x (list_elem_of_here _ _)). split.
    + intros [[[<- <-]|[_ ?]]|[? ?]]; naive_solver.
    + intros [Hi|[[->|Hin] <-]]; [left; right; split; [congruence|done]|by left; left|right; done].
  - intros y Hy. rewrite lookup_insert_ne; [apply Hn; by constructor|]. intros E. apply Hx.
    rewrite E. by apply list_elem_of_fmap_2.
Qed.
Lemma insert_outcomes_lookup inh T k i :
  insert_outcomes inh T !! k = Some i → (k, i) ∈ inh ∨ (k ∉ inh.*1) ∧ T !! k = Some i.
Proof.
  revert T. induction inh as [|[k' i'] inh IH]; intros T H; cbn in *.
  { right. split; [apply not_elem_of_nil|done]. }
  apply IH in H as [H|[Hn H]]; [left; by constructor|].
  apply lookup_insert_Some in H as [[<- <-]|[Hne H]]; [left; constructor|right].
  split; [|done]. rewrite not_elem_of_cons. done.
Qed.
Lemma insert_outcomes_kept inh T k i :
  (k ∉ inh.*1) → T !! k = Some i → insert_outcomes inh T !! k = Some i.
Proof.
  revert T. induction inh as [|[k' i'] inh IH]; intros T Hn H; cbn in *; [done|].
  apply not_elem_of_cons in Hn as [Hne Hn]. apply IH; [done|]. by rewrite lookup_insert_ne.
Qed.
Lemma insert_outcomes_new inh T k i :
  (k, i) ∈ inh → ∃ j, insert_outcomes inh T !! k = Some j.
Proof.
  intros Hin. assert (Hnew : ∀ T, is_Some (T !! k) ∨ k ∈ inh.*1 → is_Some (insert_outcomes inh T !! k)).
  { clear. induction inh as [|[k' i'] inh IH]; intros T; cbn; [by intros [?|?%not_elem_of_nil]|].
    intros H. apply IH. rewrite lookup_insert_is_Some', elem_of_cons in *. naive_solver. }
  destruct (Hnew T) as [j Hj]; [right|by exists j]. apply list_elem_of_fmap. by exists (k, i).
Qed.

Lemma insert_outcomes_here inh T k i :
  NoDup inh.*1 → (k, i) ∈ inh → insert_outcomes inh T !! k = Some i.
Proof.
  intros Hd Hin. destruct (insert_outcomes_new inh T k i Hin) as [j Hj]. rewrite Hj. f_equal.
  apply insert_outcomes_lookup in Hj as [Hj|[Hn _]].
  - clear -Hd Hin Hj. induction inh as [|[k' i'] inh IH]; [by apply not_elem_of_nil in Hin|].
    cbn in Hd. apply NoDup_cons in Hd as [Hk Hd].
    apply elem_of_cons in Hin as [[= <- <-]|Hin], Hj as [[= Ej]|Hj]; [done|..|by apply IH];
      destruct Hk; subst; apply list_elem_of_fmap; eexists (_, _); eauto.
  - destruct Hn. apply list_elem_of_fmap. by exists (k, i).
Qed.

Lemma put_messages_run {B} ms (k : unit → method CS StoreError B) s s' r :
  (ForkMemory.put_messages ms ≫= k) s = (s', r) → ∃ s1,
  s1 = s <| workspace := (workspace s) <| WorkspaceState.messages :=
    insert_messages ms (WorkspaceState.messages (workspace s)) |> |> ∧ k tt s1 = (s', r).
Proof.
  revert s. induction ms as [|m ms IH]; intros s H.
  { exists s. split; [by destruct s as [? [] ? ? ? ? ? ? ? ? ? ?]|done]. }
  assert (E : ∀ T (f : unit → method CS StoreError T) (g : unit → method CS StoreError unit),
    ((put_message m ≫= g) ≫= f) s = (g tt ≫= f) (put_message m s).1) by done.
  cbn [ForkMemory.put_messages] in H. rewrite E in H. apply IH in H as (s1 & -> & H).
  eexists. split; [|exact H]. by destruct s as [? [] ? ? ? ? ? ? ? ? ? ?].
Qed.
Lemma put_outcomes_run {B} inh (k : unit → method CS StoreError B) s s' r :
  (ForkMemory.put_outcomes inh ≫= k) s = (s', r) → ∃ s1,
  s1 = s <| conversation_inherited_outcomes :=
    insert_outcomes inh (conversation_inherited_outcomes s) |> ∧ k tt s1 = (s', r).
Proof.
  revert s. induction inh as [|[m i] inh IH]; intros s H.
  { exists s. split; [by destruct s|done]. }
  assert (E : ∀ T (f : unit → method CS StoreError T) (g : unit → method CS StoreError unit),
    ((put_inherited m i ≫= g) ≫= f) s = (g tt ≫= f) (put_inherited m i s).1) by done.
  cbn [ForkMemory.put_outcomes] in H. rewrite E in H. apply IH in H as (s1 & -> & H).
  eexists. split; [|exact H]. by destruct s.
Qed.

Definition fork_record (plan : ConversationForkPlan.t) : ConversationForkCommandRecord.t :=
  ConversationForkCommandRecord.mk
    (MutationCommand.fingerprint (ConversationForkPlan.command plan))
    (Thread.id (ConversationForkPlan.child_thread plan))
    ((λ p, ConversationTurn.id (ConversationForkTurnPlan.turn p))
     <$> ConversationForkPlan.started_turn plan) true.
Definition fork_delivery (plan : ConversationForkPlan.t) : ConversationForkDeliveryRecord.t :=
  ConversationForkDeliveryRecord.mk (MutationCommand.scope (ConversationForkPlan.command plan))
    (MutationCommand.fingerprint (ConversationForkPlan.command plan))
    ConversationForkDeliveryState.Pending 0.

(** The tables of a turn that the fork starts. *)
Record turn_tables s s' (tp : ConversationForkTurnPlan.t) (ctx : list Message.t)
    (ev : ConversationTurnEvent.t) : Prop := {
  tt_turns : conversation_turns s' = <[ConversationTurn.id (ConversationForkTurnPlan.turn tp)
    := ConversationForkTurnPlan.turn tp]> (conversation_turns s);
  tt_runs : runs s' = <[Run.id (ConversationForkTurnPlan.run tp)
    := ConversationForkTurnPlan.run tp]> (runs s);
  tt_events : conversation_events s' = <[ConversationTurn.id (ConversationForkTurnPlan.turn tp)
    := [ev]]> (conversation_events s);
  tt_lineages : conversation_lineages s' = <[ConversationTurn.id (ConversationForkTurnPlan.turn tp)
    := ConversationForkTurnPlan.lineage tp]> (conversation_lineages s);
  tt_keys : conversation_turn_keys s'
    = <[ConversationTurn.idempotency_key (ConversationForkTurnPlan.turn tp)
        := ConversationTurn.id (ConversationForkTurnPlan.turn tp)]> (conversation_turn_keys s);
  tt_contexts : conversation_contexts s' = <[ConversationTurn.id (ConversationForkTurnPlan.turn tp)
    := ctx]> (conversation_contexts s);
}.
Record same_turns s s' : Prop := {
  sm_turns : conversation_turns s' = conversation_turns s;
  sm_runs : runs s' = runs s;
  sm_events : conversation_events s' = conversation_events s;
  sm_lineages : conversation_lineages s' = conversation_lineages s;
  sm_keys : conversation_turn_keys s' = conversation_turn_keys s;
  sm_contexts : conversation_contexts s' = conversation_contexts s;
}.
Record forked s s' (plan : ConversationForkPlan.t) (prep : PreparedConversationFork)
    (turn : option (ConversationForkTurnPlan.t * list Message.t * ConversationTurnEvent.t)) :
    Prop := {
  fk_threads : threads s' = <[Thread.id (ConversationForkPlan.child_thread plan)
    := ConversationForkPlan.child_thread plan]> (threads s);
  fk_messages : messages s' = insert_messages (ConversationForkPlan.messages plan) (messages s);
  fk_effects : effects s' = effects s;
  fk_bindings : conversation_thread_bindings s'
    = <[Thread.id (ConversationForkPlan.child_thread plan) := pf_credential_binding_id prep]>
        (conversation_thread_bindings s);
  fk_models : conversation_thread_models s'
    = <[Thread.id (ConversationForkPlan.child_thread plan) := pf_model_id prep]>
        (conversation_thread_models s);
  fk_cancels : conversation_cancel_commands s' = conversation_cancel_commands s;
  fk_commands : conversation_fork_commands s'
    = <[fork_command_key (ConversationForkPlan.command plan) := fork_record plan]>
        (conversation_fork_commands s);
  fk_deliveries : conversation_fork_deliveries s'
    = <[Thread.id (ConversationForkPlan.child_thread plan) := fork_delivery plan]>
        (conversation_fork_deliveries s);
  fk_acks : conversation_fork_delivery_ack_commands s' = conversation_fork_delivery_ack_commands s;
  fk_outcomes : conversation_inherited_outcomes s'
    = insert_outcomes (pf_inherited_outcomes prep) (conversation_inherited_outcomes s);
  fk_turn : match turn with
    | Some (tp, ctx, ev) => turn_tables s s' tp ctx ev
    | None => same_turns s s'
    end;
  fk_projects : projects s' = projects s;
  fk_others : WorkspaceState.automations (workspace s') = WorkspaceState.automations (workspace s) ∧
    WorkspaceState.automation_history (workspace s')
      = WorkspaceState.automation_history (workspace s) ∧
    WorkspaceState.workspace_commands (workspace s')
      = WorkspaceState.workspace_commands (workspace s);
}.

(** A creation is refused without a change, or leaves these tables and reads the child
    back. *)
Lemma create_writes s plan s' r :
  ForkMemory.create_fork plan s = (s', r) → refused s s' r ∨ ∃ prep turn,
  prepare_conversation_fork s plan = Ok prep ∧ ForkMemory.prepared_turn plan prep = Ok turn ∧
  conversation_fork_deliveries s !! Thread.id (ConversationForkPlan.child_thread plan) = None ∧
  forked s s' plan prep turn ∧
  r = (F ← conversation_fork_snapshot s' (fork_record plan);
       Ok (ConversationForkReservation.mk F (pf_context prep) true false)).
Proof.
  intros H. unfold ForkMemory.create_fork in H. check_self H. check H prep Hp. injection Hp as Hp.
  check H tn Ht. injection Ht as Ht. check H u Hd. apply throw_if_Ok, is_some_false in Hd.
  right. exists prep, tn. split; [done|]. split; [done|]. split; [done|].
  do 3 write H. apply put_messages_run in H as (s3 & Ew2 & H).
  apply put_outcomes_run in H as (s4 & Ew3 & H). apply bind_cases in H as (s5 & o & Est & H).
  assert (o = Ok tt) as -> by (destruct tn as [[[tp ctx] ev]|]; by injection Est).
  do 2 write H. rewrite self_run in H. fold (fork_record plan) in H, Ew5. fold (fork_delivery plan) in Ew4.
  assert (s' = s7 ∧ r = (F ← conversation_fork_snapshot s7 (fork_record plan);
    Ok (ConversationForkReservation.mk F (pf_context prep) true false))) as [-> ->].
  { unfold lift, mbind, method_bind, mret, method_ret in H.
    by destruct (conversation_fork_snapshot s7 (fork_record plan)); injection H as <- <-. }
  split; [|done].
  destruct tn as [[[tp ctx] ev]|].
  - unfold ForkMemory.put_started_turn in Est. do 6 write Est. injection Est as Est.
    symmetry in Est. split; by read_back.
  - injection Est as <-. split; by read_back.
Qed.
End plans.
