(* ===== verification/ForkCommit.v ===== *)
(** * A created fork is consistent

    The store that the creation of a fork leaves satisfies the invariants of conversations
    and of forks, so the child can be loaded at once and ever after. *)
From stdpp Require Import sorting.
From S2P Require Import Prelude RustText Ids Runs Approvals Effects ConversationTurns TurnEvents Schedules Scheduler Workspace ExecutionStore Commands WorkspaceStore WorkspaceServices WorkspaceWorld ConversationStore ForkStore ConversationWorld ConversationReserve ForkWorld ForkCreate.

(** The identifiers of a plan are valid. *)
Definition plan_typed (plan : ConversationForkPlan.t) : Prop :=
  valid_id (as_str (Thread.id (ConversationForkPlan.child_thread plan))) ∧
  ∀ m, m ∈ ConversationForkPlan.messages plan → valid_id (as_str (Message.id m)).

Lemma new_fork_facts id p title parent pl turn msg role kind now child :
  Thread.new_fork id p title parent pl turn msg role kind now = Ok child →
  ConversationThreadLineage.origin (Thread.lineage child)
    = ConversationThreadOrigin.Fork parent turn msg kind ∧
  ConversationThreadLineage.root_thread_id (Thread.lineage child)
    = ConversationThreadLineage.root_thread_id pl ∧
  ConversationThreadLineage.fork_depth (Thread.lineage child)
    = ConversationThreadLineage.fork_depth pl + 1 ∧
  role = ConversationForkKind.source_message_role kind ∧ Thread.project_id child = p.
Proof.
  unfold Thread.new_fork, ConversationThreadLineage.fork. intros H. split_binds H. injection H as <-.
  split_binds Hx0. apply reject_if_Ok, orb_false_iff in Hx2 as [_ Hr]. rewrite differ_false in Hr.
  apply ok_or_Ok, bind_Some in Hx3 as (d & Hd & Hle).
  apply checked_add_Some in Hd as [-> _]. destruct (_ <=? 64); [injection Hle as <-|done].
  unfold ConversationThreadLineage.restore in Hx0. split_binds Hx0. by injection Hx0 as <-.
Qed.

Section creation.
Context {UP : UrlParser} {CH : Chrono} {SJ : SerdeJson}.
Import ConversationState.
Implicit Types (s : CS) (t : ConversationTurn.t) (h : snapshots).

(** A turn stays complete when nothing it refers to changes. *)
Lemma turn_ok_grow s s' t sn :
  messages s ⊆ messages s' → same_parts s s' t →
  conversation_lineages s !! ConversationTurn.id t = conversation_lineages s' !! ConversationTurn.id t →
  threads s ⊆ threads s' → turn_ok s t sn → turn_ok s' t sn.
Proof.
  intros Hm (Er & Ee & Ev) El Hth [E [C1 C2 C3 C4 C5 C6] Hk (th & Ht & Hp) Hev].
  rewrite E in *. split; [done| |done| |].
  - split; rewrite ?E; [by eapply lookup_weaken| |by rewrite Er| |by rewrite <- El|done].
    + unfold resolves in *. destruct (ConversationTurn.assistant_message_id t), (ConversationTurnSnapshot.assistant_message sn);
        try done. by eapply lookup_weaken.
    + eapply resolves_eq; [|done]. auto.
  - exists th. split; [by eapply lookup_weaken|done].
  - by rewrite Ev.
Qed.

Variables (s s' : CS) (h : snapshots) (plan : ConversationForkPlan.t)
  (prep : PreparedConversationFork)
  (tn : option (ConversationForkTurnPlan.t * list Message.t * ConversationTurnEvent.t))
  (kind : ConversationForkKind.t) (t : ConversationTurn.t) (sn : ConversationTurnSnapshot.t)
  (parent : Thread.t) (m : Message.t).
Hypotheses (Hw : ws_inv (workspace s) h) (Hc : conv_inv s) (Hf : fork_inv s)
  (Hp : fork_plan s plan prep kind t sn parent m)
  (Htn : ForkMemory.prepared_turn plan prep = Ok tn)
  (Hk : forked s s' plan prep tn) (Hty : plan_typed plan).

Abbreviation child := (ConversationForkPlan.child_thread plan).
Abbreviation ms := (ConversationForkPlan.messages plan).

Lemma plan_fresh x : x ∈ ms → messages s !! Message.id x = None.
Proof.
  intros Hx. destruct (planned_list_in _ _ _ _ _ _ _ _ (pm_planned _ _ _ _ _ _ (fp_messages _ _ _ _ _ _ _ _ Hp)) Hx)
    as (k & o & _ & Hpl & _). apply Hpl.
Qed.
Lemma created_message i x :
  messages s' !! i = Some x ↔ messages s !! i = Some x ∨ x ∈ ms ∧ Message.id x = i.
Proof.
  rewrite (fk_messages _ _ _ _ _ Hk). apply insert_messages_lookup; [|apply plan_fresh].
  apply (fp_messages _ _ _ _ _ _ _ _ Hp).
Qed.
Lemma kept_messages : messages s ⊆ messages s'.
Proof. apply map_subseteq_spec. intros i x Hx. apply created_message. by left. Qed.
Lemma kept_threads : threads s ⊆ threads s'.
Proof. rewrite (fk_threads _ _ _ _ _ Hk). apply insert_subseteq, (fp_thread _ _ _ _ _ _ _ _ Hp). Qed.

(** The child had no messages before. *)
Lemma child_empty i x : messages s !! i = Some x → Message.thread_id x ≠ Thread.id child.
Proof.
  intros Hx E. destruct (inv_message_thread _ _ Hw _ _ Hx) as [th Hth]. rewrite E in Hth.
  pose proof (fp_thread _ _ _ _ _ _ _ _ Hp) as Hn. unfold threads in Hn. congruence.
Qed.

(** The turn the plan starts, with what was prepared for it. *)
Lemma started_cases :
  (kind = ConversationForkKind.Branch ∧ tn = None ∧ ConversationForkPlan.started_turn plan = None) ∨
  (kind ≠ ConversationForkKind.Branch ∧ ∃ tp um ev, tn = Some (tp, ms, ev) ∧
     ConversationForkPlan.started_turn plan = Some tp ∧ last ms = Some um ∧
     validate_context ms = Ok tt ∧
     started s plan (pf_credential_binding_id prep) (pf_model_id prep) tp um ev).
Proof.
  pose proof (pm_context _ _ _ _ _ _ (fp_messages _ _ _ _ _ _ _ _ Hp)) as Hx.
  pose proof (fp_turn _ _ _ _ _ _ _ _ Hp) as Ht.
  apply fork_turn_Ok in Ht as [(-> & Hst & Hctx & Hev)|(Hnb & tp & l & um & e & Hst & Hctx & Hum & Hev & Hs)];
    unfold ForkMemory.prepared_turn in Htn; rewrite Hst, Hctx, Hev in Htn; injection Htn as <-.
  - left. done.
  - right. split; [done|]. rewrite (to_turn _ _ _ (fp_ok _ _ _ _ _ _ _ _ Hp)) in Hs.
    rewrite <- (fp_model _ _ _ _ _ _ _ _ Hp) in Hs.
    assert (l = ms ∧ validate_context ms = Ok tt) as [-> Hv].
    { rewrite Hctx in Hx. destruct kind; [done|..]; destruct Hx as [[= ->] ?]; done. }
    exists tp, um, e. by split_and!.
Qed.

Lemma prepared_context :
  pf_context prep = match tn with Some (_, ctx, _) => Some ctx | None => None end.
Proof.
  clear -Htn. unfold ForkMemory.prepared_turn in Htn.
  destruct (ConversationForkPlan.started_turn plan), (pf_context prep), (pf_created_turn_event prep);
    try done; by injection Htn as <-.
Qed.

Lemma old_parts i u : conversation_turns s !! i = Some u → same_parts s s' u ∧
  conversation_lineages s !! ConversationTurn.id u = conversation_lineages s' !! ConversationTurn.id u.
Proof.
  intros Hu. destruct (ci_turn _ Hc _ _ Hu) as (Hid & snu & [Eu [_ _ C3 _ _ _] _ _ _]). rewrite Eu in C3.
  pose proof (fk_effects _ _ _ _ _ Hk) as Ee. pose proof (fk_turn _ _ _ _ _ Hk) as Ht.
  destruct started_cases as [(_ & -> & _)|(_ & tp & um & ev & -> & _ & _ & _ & Hs)].
  - destruct Ht as [E1 E2 E3 E4 E5 E6]. rewrite E4. split; [|done]. split_and!; [by rewrite E2| |by rewrite E3].
    intros e _. by rewrite Ee.
  - destruct Ht as [E1 E2 E3 E4 E5 E6].
    assert (Hne : ConversationTurn.id (ConversationForkTurnPlan.turn tp) ≠ ConversationTurn.id u).
    { rewrite Hid. intros E. pose proof (st_fresh _ _ _ _ _ _ _ Hs). congruence. }
    rewrite E4, lookup_insert_ne by done. split; [|done]. split_and!.
    + rewrite E2, lookup_insert_ne; [done|]. pose proof (st_run _ _ _ _ _ _ _ Hs). congruence.
    + intros e _. by rewrite Ee.
    + by rewrite E3, lookup_insert_ne.
Qed.

Lemma kept_turn i u snu :
  conversation_turns s !! i = Some u → turn_ok s u snu → turn_ok s' u snu.
Proof.
  intros Hu Hok. destruct (old_parts _ _ Hu) as [Hs El].
  eapply turn_ok_grow; eauto using kept_messages, kept_threads.
Qed.
Lemma kept_turns i u : conversation_turns s !! i = Some u → conversation_turns s' !! i = Some u.
Proof.
  intros Hu. pose proof (fk_turn _ _ _ _ _ Hk) as Ht.
  destruct started_cases as [(_ & -> & _)|(_ & tp & um & ev & -> & _ & _ & _ & Hs)].
  - by rewrite (sm_turns _ _ Ht).
  - rewrite (tt_turns _ _ _ _ _ Ht), lookup_insert_ne; [done|].
    pose proof (st_fresh _ _ _ _ _ _ _ Hs). congruence.
Qed.

(** The child continues the ancestry of its parent. *)
Lemma child_lineage : lineage_ok s' child.
Proof.
  destruct (new_fork_facts _ _ _ _ _ _ _ _ _ _ _ (fp_child _ _ _ _ _ _ _ _ Hp)) as (Eo & Er & Ed & Hr & _).
  destruct (stored_depth _ _ _ _ Hw (fp_parent _ _ _ _ _ _ _ _ Hp)) as (Hpid & _).
  unfold lineage_ok. rewrite Eo, Hpid.
  pose proof (fp_thread _ _ _ _ _ _ _ _ Hp) as Hn.
  exists parent, t, sn, m, (pf_credential_binding_id prep). split_and!.
  - eapply lookup_weaken; [apply Hp|apply kept_threads].
  - apply kept_turns, Hp.
  - eapply kept_turn; apply Hp.
  - apply Hp.
  - apply Hp.
  - done.
  - symmetry. apply Hp.
  - done.
  - done.
  - done.
  - done.
  - rewrite (fk_bindings _ _ _ _ _ Hk). apply lookup_insert_eq.
  - rewrite (fk_bindings _ _ _ _ _ Hk), lookup_insert_ne; [apply Hp|].
    pose proof (fp_parent _ _ _ _ _ _ _ _ Hp). congruence.
Qed.

Lemma planned_message x : x ∈ ms → ∃ n o, 1 ≤ n ∧
  planned s (ConversationTurn.id t) child (ConversationTurn.thread_id t) n x o ∧
  ∀ i, o = Some i → (Message.id x, i) ∈ pf_inherited_outcomes prep.
Proof. apply planned_list_in, (fp_messages _ _ _ _ _ _ _ _ Hp). Qed.

(** Numbered lists have every number up to their last. *)
Lemma numbered_dense n l x k :
  numbered_from n l = true → x ∈ l → n ≤ k ≤ Message.sequence x →
  ∃ y, y ∈ l ∧ Message.sequence y = k.
Proof.
  revert n. induction l as [|y l IH]; intros n H Hx Hn; [by apply not_elem_of_nil in Hx|].
  cbn in H. apply andb_true_iff in H as [H Hl]. apply andb_true_iff in H as [_ Hy%Z.eqb_eq].
  destruct (decide (k = n)) as [->|Hne]; [exists y; split; [constructor|done]|].
  apply elem_of_cons in Hx as [->|Hx]; [lia|].
  destruct (IH _ Hl Hx) as (z & ? & ?); [lia|]. exists z. split; [by constructor|done].
Qed.

Lemma created_sequences : sequences_ok (messages s) → sequences_ok (messages s').
Proof.
  intros [S1 S2 S3].
  pose proof (planned_numbered _ _ _ _ _ _ _ (pm_planned _ _ _ _ _ _ (fp_messages _ _ _ _ _ _ _ _ Hp))) as Hnum.
  assert (Hth : ∀ x, x ∈ ms → Message.thread_id x = Thread.id child ∧ 1 ≤ Message.sequence x).
  { intros x (n & o & Hn & Hpl & _)%planned_message.
    destruct (planned_facts _ _ _ _ _ _ _ Hpl) as (-> & -> & _). done. }
  destruct (numbered_sorted _ _ Hnum) as [Hso _]. split.
  - intros i x [Hx|[Hx _]]%created_message; [by eapply S1|by apply Hth].
  - intros i j x y [Hx|[Hx <-]]%created_message [Hy|[Hy <-]]%created_message Et Es; [by eapply S2|..].
    + apply child_empty in Hx. destruct (Hth _ Hy). congruence.
    + apply child_empty in Hy. destruct (Hth _ Hx). congruence.
    + f_equal. clear -Hso Hx Hy Es. induction Hso as [|z l Hl IH Hz]; [by apply not_elem_of_nil in Hx|].
      rewrite Forall_forall in Hz. apply elem_of_cons in Hx as [->|Hx], Hy as [->|Hy]; auto.
      * specialize (Hz _ Hy). lia.
      * specialize (Hz _ Hx). lia.
  - intros i x n [Hx|[Hx <-]]%created_message Hn.
    + destruct (S3 _ _ _ Hx Hn) as (j & y & Hy & ? & ?). exists j, y. split_and!; try done.
      apply created_message. by left.
    + destruct (numbered_dense _ _ _ n Hnum Hx Hn) as (y & Hy & ?). exists (Message.id y), y.
      split_and!; [apply created_message; by right| |done].
      destruct (Hth _ Hx) as [-> _], (Hth _ Hy) as [-> _]. done.
Qed.

Lemma created_write : others_write (workspace s) (workspace s').
Proof.
  pose proof (fk_threads _ _ _ _ _ Hk) as Et. pose proof (fk_others _ _ _ _ _ Hk) as (E4 & E5 & E6).
  destruct Hty as [Hid Hids]. split; try done.
  - apply (fk_projects _ _ _ _ _ Hk).
  - split; [apply kept_threads|]. intros i x Hx Hn. change (threads s' !! i = Some x) in Hx.
    rewrite Et in Hx. apply lookup_insert_Some in Hx as [[<- <-]|[_ Hx]];
      [|unfold threads in Hx; congruence].
    split_and!; try done. right. do 10 eexists. apply (fp_child _ _ _ _ _ _ _ _ Hp).
  - split; [apply kept_messages|]. intros i x [Hx|[Hx <-]]%created_message Hn;
      [unfold messages in Hx; congruence|]. split_and!; [done|by apply Hids|].
    destruct (planned_message x Hx) as (n & o & _ & Hpl & _).
    apply (planned_facts _ _ _ _ _ _ _ Hpl).
  - intros i x Hx Hn. change (threads s' !! i = Some x) in Hx. rewrite Et in Hx.
    apply lookup_insert_Some in Hx as [[<- <-]|[_ Hx]]; [|unfold threads in Hx; congruence].
    rewrite (fp_project _ _ _ _ _ _ _ _ Hp).
    by eapply (inv_thread_project _ _ Hw), (fp_parent _ _ _ _ _ _ _ _ Hp).
  - intros i x [Hx|[Hx <-]]%created_message Hn; [unfold messages in Hx; congruence|].
    destruct (planned_message x Hx) as (n & o & _ & Hpl & _).
    destruct (planned_facts _ _ _ _ _ _ _ Hpl) as (-> & _).
    change (is_Some (threads s' !! Thread.id child)). rewrite Et, lookup_insert_eq. by eexists.
  - apply created_sequences.
Qed.

Lemma new_thread i th : threads s' !! i = Some th → threads s !! i = None → lineage_ok s' th.
Proof.
  rewrite (fk_threads _ _ _ _ _ Hk). intros [[_ <-]|[_ Hi]]%lookup_insert_Some Hn; [|congruence].
  apply child_lineage.
Qed.

(** A branch starts no turn. *)
Lemma created_quiet : tn = None → quiet s s'.
Proof.
  intros E. pose proof (fk_turn _ _ _ _ _ Hk) as Ht. rewrite E in Ht.
  destruct Ht as [E1 E2 E3 E4 E5 E6]. split; try done.
  - rewrite (fk_bindings _ _ _ _ _ Hk). apply insert_subseteq, (fp_unbound _ _ _ _ _ _ _ _ Hp).
  - rewrite (fk_models _ _ _ _ _ Hk). apply insert_subseteq, (fp_unset _ _ _ _ _ _ _ _ Hp).
  - intros i u Hu. by destruct (old_parts _ _ Hu).
  - intros i th Hi. exists th. split; [|done]. eapply lookup_weaken; [done|apply kept_threads].
  - intros i th. apply new_thread.
  - apply pinned_grows; [done|apply kept_messages].
  - by rewrite (fk_cancels _ _ _ _ _ Hk).
  - intros k r Hr Hn. rewrite (fk_cancels _ _ _ _ _ Hk) in Hr. congruence.
Qed.

Lemma planned_stored x : x ∈ ms → messages s' !! Message.id x = Some x ∧
  Message.thread_id x = Thread.id child ∧ Message.state x = MessageState.Active.
Proof.
  intros Hx. destruct (planned_message x Hx) as (n & o & _ & Hpl & _).
  destruct (planned_facts _ _ _ _ _ _ _ Hpl) as (? & _ & ? & _).
  split_and!; try done. apply created_message. by right.
Qed.
Lemma thread_unused j u :
  conversation_turns s !! j = Some u → ConversationTurn.thread_id u ≠ Thread.id child.
Proof.
  intros Hu E. destruct (ci_turn _ Hc _ _ Hu) as (_ & snu & [_ _ _ (th & Hth & _) _]).
  rewrite E in Hth. pose proof (fp_thread _ _ _ _ _ _ _ _ Hp). congruence.
Qed.

(** An edit or a regeneration starts a turn in the child. *)
Lemma created_insert tp um ev :
  tn = Some (tp, ms, ev) → last ms = Some um → validate_context ms = Ok tt →
  started s plan (pf_credential_binding_id prep) (pf_model_id prep) tp um ev →
  let u := ConversationForkTurnPlan.turn tp in
  turn_insert s s' (ConversationTurn.id u) u (ConversationForkTurnPlan.lineage tp).
Proof.
  intros E Hum Hval [S1 S2 S3 S4 S5 S6 S7 S8 S9 S10 S11 (log & Hlog & Hv)]. cbn zeta.
  pose proof (fk_turn _ _ _ _ _ Hk) as Ht. rewrite E in Ht. destruct Ht as [T1 T2 T3 T4 T5 T6].
  pose proof (canonical_linked _ S11) as [_ Lr Lu _ _ _ La _ Lrun Le]. cbn in Lr, Lu, La, Lrun, Le.
  set (u := ConversationForkTurnPlan.turn tp) in *.
  destruct (planned_stored um) as (Hums & Humt & Huma); [by apply last_Some_elem_of|].
  set (P := ConversationTurnSnapshot.mk u um None (ConversationForkTurnPlan.run tp) None
    (ConversationForkTurnPlan.lineage tp)).
  assert (Hok : turn_ok s' u P).
  { split; [done| |done| |].
    - split; cbn; fold u; rewrite ?La, ?Le, ?T2, ?T4, <- ?Lu, <- ?Lrun; try done;
        apply lookup_insert_eq.
    - exists child. rewrite (fk_threads _ _ _ _ _ Hk), S6, lookup_insert_eq. done.
    - exists [ev], log. rewrite T3. split_and!; try done. apply lookup_insert_eq. }
  assert (Hctx : context_ok s' u ms).
  { split; [|intros x Hx; rewrite S6; by apply planned_stored|..|done].
    - exists um. by rewrite <- Lu.
    - apply (numbered_sorted 1), (planned_numbered _ _ _ _ _ _ _
        (pm_planned _ _ _ _ _ _ (fp_messages _ _ _ _ _ _ _ _ Hp))). }
  split; try done.
  - apply kept_threads.
  - apply new_thread.
  - apply kept_messages.
  - intros j v Hj. by destruct (old_parts _ _ Hj).
  - by rewrite <- Lrun.
  - intros j v Hj Et. rewrite S6 in Et. by apply thread_unused in Hj.
  - rewrite (fk_bindings _ _ _ _ _ Hk). apply insert_subseteq, (fp_unbound _ _ _ _ _ _ _ _ Hp).
  - rewrite (fk_models _ _ _ _ _ Hk). apply insert_subseteq, (fp_unset _ _ _ _ _ _ _ _ Hp).
  - exists (pf_credential_binding_id prep). rewrite (fk_bindings _ _ _ _ _ Hk), (fk_models _ _ _ _ _ Hk), S6, S7.
    by rewrite !lookup_insert_eq.
  - by exists ms.
  - intros src j l' Hre. by rewrite S2 in Hre.
  - apply (fk_cancels _ _ _ _ _ Hk).
  - by exists P.
Qed.

Lemma created_inv : conv_inv s' ∧ conv_le s s'.
Proof.
  destruct started_cases as [(_ & E & _)|(_ & tp & um & ev & E & _ & Hum & Hv & Hs)].
  - pose proof (created_quiet E) as Hq. split; [by eapply quiet_inv|by apply quiet_le].
  - pose proof (created_insert tp um ev E Hum Hv Hs) as Hi.
    split; [by eapply insert_inv|by eapply insert_le].
Qed.

(** ** The tables of forks *)

Hypotheses (Hdel : conversation_fork_deliveries s !! Thread.id child = None)
  (Hcmd : conversation_fork_commands s !! fork_command_key (ConversationForkPlan.command plan) = None)
  (Hpend : ∀ c d, conversation_fork_deliveries s !! c = Some d →
     ConversationForkDeliveryRecord.state d = ConversationForkDeliveryState.Pending →
     ConversationForkDeliveryRecord.scope d = MutationCommand.scope (ConversationForkPlan.command plan) →
     ConversationForkDeliveryRecord.request_fingerprint d
       ≠ MutationCommand.fingerprint (ConversationForkPlan.command plan)).

Lemma kept_deliveries : conversation_fork_deliveries s ⊆ conversation_fork_deliveries s'.
Proof. rewrite (fk_deliveries _ _ _ _ _ Hk). by apply insert_subseteq. Qed.
Lemma child_uncommanded k r : conversation_fork_commands s !! k = Some r →
  ConversationForkCommandRecord.child_thread_id r ≠ Thread.id child.
Proof. intros Hr E. destruct (fi_command _ Hf _ _ Hr) as (d & _ & _ & Hd & _). congruence. Qed.

Lemma created_record : record_ok s'
  (MutationCommand.scope (ConversationForkPlan.command plan)) (fork_record plan).
Proof.
  exists (fork_delivery plan), child, kind. cbn.
  rewrite (fk_deliveries _ _ _ _ _ Hk), (fk_threads _ _ _ _ _ Hk), !lookup_insert_eq.
  split; [done|]. split; [done|]. split; [done|]. split; [done|]. split; [apply Hp|]. split; [apply Hp|].
  pose proof (fk_turn _ _ _ _ _ Hk) as Ht.
  destruct started_cases as [(-> & _ & ->)|(Hb & tp & um & ev & E & -> & _ & _ & Hs)]; [done|].
  split; [done|]. rewrite E in Ht. exists (ConversationForkTurnPlan.turn tp).
  rewrite (tt_turns _ _ _ _ _ Ht), lookup_insert_eq. split_and!; [done|apply Hs|apply Hs].
Qed.

Lemma created_copies : copies s' (Thread.id child) ms.
Proof.
  pose proof (fp_messages _ _ _ _ _ _ _ _ Hp) as [Hpl Hids Hne _].
  split_and!; [done|by eapply planned_numbered|]. intros x. split.
  - intros Hx. destruct (planned_stored _ Hx) as (? & ? & _). split_and!; try done.
    destruct (planned_message x Hx) as (n & o & _ & Hx' & _). by destruct (planned_facts _ _ _ _ _ _ _ Hx') as (_ & _ & _ & ? & _).
  - intros ([Hx|[Hx _]]%created_message & Ht & _); [by apply child_empty in Hx|done].
Qed.
Lemma kept_copies c l : c ≠ Thread.id child → copies s c l → copies s' c l.
Proof.
  intros Hne (Hn & Hnum & Hm). split_and!; try done. intros x. rewrite Hm, created_message.
  split; [naive_solver|]. intros ([?|[Hx _]] & Ht & Hd); [done|].
  destruct (planned_stored _ Hx) as (_ & ? & _). congruence.
Qed.

Lemma outcome_planned k i : (k, i) ∈ pf_inherited_outcomes prep →
  ∃ x n, x ∈ ms ∧ Message.id x = k ∧
    planned s (ConversationTurn.id t) child (ConversationTurn.thread_id t) n x (Some i).
Proof. eapply planned_list_outcome, (fp_messages _ _ _ _ _ _ _ _ Hp). Qed.
Lemma kept_outcomes : conversation_inherited_outcomes s ⊆ conversation_inherited_outcomes s'.
Proof.
  apply map_subseteq_spec. intros k i Hi. rewrite (fk_outcomes _ _ _ _ _ Hk).
  apply insert_outcomes_kept; [|done].
  intros ([k' j] & -> & (x & n & Hx & Hid & _)%outcome_planned)%list_elem_of_fmap. cbn in *.
  destruct (fi_outcome _ Hf _ _ Hi) as (y & Hy & _). rewrite <- Hid, plan_fresh in Hy; done.
Qed.

Lemma created_inherits x : x ∈ ms → Message.role x = MessageRole.Assistant → ∃ i,
  conversation_inherited_outcomes s' !! Message.id x = Some i ∧ inherits s' x i.
Proof.
  intros Hx Hr. destruct created_inv as [_ Hle].
  destruct (planned_message x Hx) as (n & o & _ & [(role & content & y & pos & kd & Hnew & Hrest) _] & Ho).
  destruct (new_derived_facts _ _ _ _ _ _ _ _ _ _ _ Hnew) as (_ & _ & _ & Hrx & _).
  destruct o as [i|]; [|destruct Hrest as (_ & _ & _ & ?); congruence]. clear kd pos y content role Hnew Hrest Hrx.
  destruct (insert_outcomes_new _ (conversation_inherited_outcomes s) _ _ (Ho i eq_refl)) as [j Hj].
  exists j. rewrite <- (fk_outcomes _ _ _ _ _ Hk) in Hj. split; [done|].
  assert (Hin : (Message.id x, j) ∈ pf_inherited_outcomes prep).
  { rewrite (fk_outcomes _ _ _ _ _ Hk) in Hj. apply insert_outcomes_lookup in Hj as [Hj|[Hj _]]; [done|].
    destruct Hj. apply list_elem_of_fmap. exists (Message.id x, i). auto. }
  destruct (outcome_planned _ _ Hin) as (x' & n' & Hx' & Hid & Hpl).
  destruct (planned_stored _ Hx) as (Hsx & Htx & _), (planned_stored _ Hx') as (Hsx' & _).
  rewrite Hid, Hsx in Hsx'. injection Hsx' as <-.
  destruct (planned_facts _ _ _ _ _ _ _ Hpl) as (_ & _ & _ & Hd & _).
  destruct Hpl as [(role & content & y & pos & kd & Hnew & Hy & Hyt & Hact & -> & Hry & -> & Hkd & Hsrc & Han) _].
  destruct (new_derived_facts _ _ _ _ _ _ _ _ _ _ _ Hnew) as (_ & _ & _ & _ & Hcx & _ & Hde & _).
  pose proof (answer_of_frame _ s' _ _ Hle kept_outcomes Han) as Han'. split.
  - destruct Han' as (v & a & Hv & Hs & Ha & Hm & Hc' & _). exists v, a. split_and!; try done; [congruence|].
    by right.
  - destruct (new_fork_facts _ _ _ _ _ _ _ _ _ _ _ (fp_child _ _ _ _ _ _ _ _ Hp)) as (_ & _ & Ed & _).
    exists kd, (ConversationTurn.id t), pos, y, child, parent. rewrite Htx, Hyt, Ed.
    split_and!; try done; [by eapply lookup_weaken, kept_messages| | |lia].
    + rewrite (fk_threads _ _ _ _ _ Hk). apply lookup_insert_eq.
    + eapply lookup_weaken; [apply (fp_parent _ _ _ _ _ _ _ _ Hp)|apply kept_threads].
Qed.

Lemma created_family root : Z.of_nat (length (family s' root)) ≤ MAX_CONVERSATION_FORK_FAMILY_THREADS.
Proof.
  destruct (new_fork_facts _ _ _ _ _ _ _ _ _ _ _ (fp_child _ _ _ _ _ _ _ _ Hp)) as (_ & Er & _).
  unfold family. rewrite (fk_threads _ _ _ _ _ Hk), count_insert by apply Hp.
  fold (family s root). pose proof (fi_family _ Hf root).
  destruct (decide _) as [E|_]; [|lia]. rewrite <- E, Er.
  pose proof (fp_family _ _ _ _ _ _ _ _ Hp). lia.
Qed.
Lemma created_children p :
  Z.of_nat (length (direct_children s' p)) ≤ MAX_CONVERSATION_FORK_DIRECT_CHILDREN.
Proof.
  destruct (new_fork_facts _ _ _ _ _ _ _ _ _ _ _ (fp_child _ _ _ _ _ _ _ _ Hp)) as (Eo & _).
  destruct (stored_depth _ _ _ _ Hw (fp_parent _ _ _ _ _ _ _ _ Hp)) as (Hpid & _).
  unfold direct_children. rewrite (fk_threads _ _ _ _ _ Hk), count_insert by apply Hp.
  fold (direct_children s p). pose proof (fi_children _ Hf p).
  destruct (decide _) as [E|_]; [|lia]. unfold forked_from in E. rewrite Eo, Hpid in E.
  apply bool_decide_eq_true in E as <-. pose proof (fp_children _ _ _ _ _ _ _ _ Hp). lia.
Qed.

(** The outcome shown for a message of the child. *)
Definition repeats s0 (x : Message.t) (o : ConversationInheritedAssistantOutcome.t) : Prop :=
  ∃ i u, conversation_inherited_outcomes s0 !! Message.id x = Some i ∧
    conversation_turns s0 !! i = Some u ∧ o = inherited_outcome (Message.id x) i u.
Lemma created_budget : ∃ os,
  Forall2 (repeats s') (filter (λ x, Message.role x = MessageRole.Assistant) ms) os ∧
  conversation_fork_metadata_is_within_bounds (ConversationForkMetadata.mk (Thread.lineage child) os
    (family s (ConversationThreadLineage.root_thread_id (Thread.lineage child)) ++ [child])) = true.
Proof.
  destruct (projected_outcomes _ _ _ _ Hw Hc (fp_budget _ _ _ _ _ _ _ _ Hp)) as (os & Hos & Hb).
  exists os. split; [|done].
  pose proof (planned_answers _ _ _ _ _ _ _ (pm_planned _ _ _ _ _ _ (fp_messages _ _ _ _ _ _ _ _ Hp))) as Han.
  assert (Hd : NoDup (pf_inherited_outcomes prep).*1).
  { assert (E : (pf_inherited_outcomes prep).*1
      = map Message.id (filter (λ x, Message.role x = MessageRole.Assistant) ms)).
    { clear -Han. induction Han as [|x e l k E _ IH]; cbn; congruence. }
    rewrite E. apply NoDup_map_filter, (fp_messages _ _ _ _ _ _ _ _ Hp). }
  assert (Hall : ∀ x e o, e ∈ pf_inherited_outcomes prep → e.1 = Message.id x →
    (∃ u, conversation_turns s !! e.2 = Some u ∧ o = inherited_outcome e.1 e.2 u) → repeats s' x o).
  { intros x [k i] o Hin Ek (u & Hu & ->). cbn in *. subst k. exists i, u. split_and!; [|by apply kept_turns|done].
    rewrite (fk_outcomes _ _ _ _ _ Hk). by apply insert_outcomes_here. }
  clear -Han Hos Hall. revert os Hos. induction Han as [|x e l k E _ IH]; intros os Hos.
  { apply Forall2_nil_inv_l in Hos as ->. constructor. }
  apply Forall2_cons_inv_l in Hos as (o & os' & Ho & Hos & ->). constructor.
  - eapply Hall; [|done..]. constructor.
  - apply IH; [|done]. intros x' e' o' Hin. apply Hall. by constructor.
Qed.

Lemma created_forks : fork_inv s'.
Proof.
  destruct created_inv as [_ Hle]. pose proof (fk_commands _ _ _ _ _ Hk) as Ec.
  pose proof (fk_deliveries _ _ _ _ _ Hk) as Ed.
  split; unfold child_commands; rewrite ?Ec, ?Ed, ?(fk_acks _ _ _ _ _ Hk).
  - intros k r [[<- <-]|[_ Hr]]%lookup_insert_Some; [apply created_record|].
    eapply record_ok_frame; [done|apply kept_deliveries|by apply Hf].
  - intros c d [[<- <-]|[Hne Hd]]%lookup_insert_Some.
    + split_and!; [done|exists ms; apply created_copies|].
      eexists _, (fork_record plan). rewrite lookup_insert_eq. done.
    + destruct (fi_delivery _ Hf _ _ Hd) as (Hl & (l & Hcl) & k & r & Hr & Hcan & Hch).
      split_and!; [done|exists l; by apply kept_copies|]. exists k, r.
      rewrite lookup_insert_ne; [done|congruence].
  - intros k k' r r' [[<- <-]|[_ Hr]]%lookup_insert_Some [[<- <-]|[_ Hr']]%lookup_insert_Some C1 C2 E; [done|..].
    + by apply child_uncommanded in Hr'.
    + by apply child_uncommanded in Hr.
    + by eapply (fi_canonical _ Hf).
  - intros c. rewrite (entries_insert _ _ _ _ Hcmd). rewrite decide_False by by intros [? _].
    apply (fi_aliases _ Hf).
  - intros c c' d d' [[<- <-]|[_ Hd]]%lookup_insert_Some [[<- <-]|[_ Hd']]%lookup_insert_Some P1 P2 Es Ef; [done|..].
    + by destruct (Hpend _ _ Hd' P2).
    + by destruct (Hpend _ _ Hd P1).
    + by eapply (fi_pending _ Hf).
  - intros k a Ha. destruct (fi_ack _ Hf _ _ Ha) as (? & ? & d & Hd & ?). split_and!; try done.
    exists d. split; [|done]. rewrite lookup_insert_ne; [done|congruence].
  - exact created_family.
  - exact created_children.
  - intros k i Hi. rewrite (fk_outcomes _ _ _ _ _ Hk) in Hi.
    apply insert_outcomes_lookup in Hi as [(x & n & Hx & <- & Hpl)%outcome_planned|[_ Hi]].
    + destruct (planned_stored _ Hx) as (? & _). exists x.
      destruct (planned_facts _ _ _ _ _ _ _ Hpl) as (_ & _ & _ & ? & _). split_and!; try done.
      destruct Hpl as [(role & content & y & pos & kd & Hnew & _ & _ & _ & -> & _) _].
      by destruct (new_derived_facts _ _ _ _ _ _ _ _ _ _ _ Hnew) as (_ & _ & _ & ? & _).
    + destruct (fi_outcome _ Hf _ _ Hi) as (x & Hx & ? & ?). exists x. split_and!; try done.
      eapply lookup_weaken; [done|apply kept_messages].
  - intros k x [Hx|[Hx <-]]%created_message Hd Hr; [|by apply created_inherits].
    destruct (fi_inherits _ Hf _ _ Hx Hd Hr) as (i & Hi & Hin). exists i.
    split; [eapply lookup_weaken; [done|apply kept_outcomes]|].
    eapply inherits_frame; [done|apply kept_outcomes| |done]. intros j y _ Hj.
    eapply lookup_weaken; [done|apply kept_messages].
Qed.
End creation.

(** ** Reserving a fork *)

Section reserve.
Context {UP : UrlParser} {CH : Chrono} {SJ : SerdeJson}.
Import ConversationState.
Implicit Types (s : CS) (t : ConversationTurn.t) (h : snapshots).

(** What a created fork leaves. *)
Record fork_created s s' (plan : ConversationForkPlan.t)
    (ctx : option (list Message.t)) : Prop := {
  fc_write : others_write (workspace s) (workspace s');
  fc_inv : conv_inv s';
  fc_le : conv_le s s';
  fc_forks : fork_inv s';
  fc_turns : (ConversationForkPlan.started_turn plan = None ∧ ctx = None ∧ quiet s s') ∨
    ∃ tp, ConversationForkPlan.started_turn plan = Some tp ∧
      ctx = Some (ConversationForkPlan.messages plan) ∧
      turn_insert s s' (ConversationTurn.id (ConversationForkTurnPlan.turn tp))
        (ConversationForkTurnPlan.turn tp) (ConversationForkTurnPlan.lineage tp);
  fc_context : ctx = (i ← ConversationForkCommandRecord.started_turn_id (fork_record plan);
                      conversation_contexts s' !! i);
  fc_copies : copies s' (Thread.id (ConversationForkPlan.child_thread plan))
    (ConversationForkPlan.messages plan);
  fc_child : threads s' !! Thread.id (ConversationForkPlan.child_thread plan)
    = Some (ConversationForkPlan.child_thread plan);
  fc_command : conversation_fork_commands s'
    = <[fork_command_key (ConversationForkPlan.command plan) := fork_record plan]>
        (conversation_fork_commands s);
  fc_deliveries : conversation_fork_deliveries s'
    = <[Thread.id (ConversationForkPlan.child_thread plan) := fork_delivery plan]>
        (conversation_fork_deliveries s);
  fc_acks : conversation_fork_delivery_ack_commands s' = conversation_fork_delivery_ack_commands s;
  fc_fresh : threads s !! Thread.id (ConversationForkPlan.child_thread plan) = None ∧
    conversation_fork_deliveries s !! Thread.id (ConversationForkPlan.child_thread plan) = None ∧
    conversation_fork_commands s !! fork_command_key (ConversationForkPlan.command plan) = None;
  fc_old i m : messages s' !! i = Some m → messages s !! i = Some m ∨
    m ∈ ConversationForkPlan.messages plan ∧ Message.id m = i;
  fc_threads : threads s' = <[Thread.id (ConversationForkPlan.child_thread plan)
    := ConversationForkPlan.child_thread plan]> (threads s);
  fc_budget : ∃ os, Forall2 (repeats s')
      (filter (λ x, Message.role x = MessageRole.Assistant) (ConversationForkPlan.messages plan)) os ∧
    conversation_fork_metadata_is_within_bounds
      (ConversationForkMetadata.mk (Thread.lineage (ConversationForkPlan.child_thread plan)) os
         (family s (ConversationThreadLineage.root_thread_id
                      (Thread.lineage (ConversationForkPlan.child_thread plan)))
          ++ [ConversationForkPlan.child_thread plan])) = true;
}.

Lemma create_ok s h plan s' r :
  ws_inv (workspace s) h → conv_inv s → fork_inv s → plan_typed plan →
  conversation_fork_commands s !! fork_command_key (ConversationForkPlan.command plan) = None →
  (∀ c d, conversation_fork_deliveries s !! c = Some d →
     ConversationForkDeliveryRecord.state d = ConversationForkDeliveryState.Pending →
     ConversationForkDeliveryRecord.scope d = MutationCommand.scope (ConversationForkPlan.command plan) →
     ConversationForkDeliveryRecord.request_fingerprint d
       ≠ MutationCommand.fingerprint (ConversationForkPlan.command plan)) →
  ForkMemory.create_fork plan s = (s', r) →
  refused s s' r ∨ ∃ ctx F, fork_created s s' plan ctx ∧ fork_loaded s' (fork_record plan) F ∧
    r = Ok (ConversationForkReservation.mk F ctx true false).
Proof.
  intros Hw Hc Hf Hty Hcmd Hpend H.
  apply create_writes in H as [H|(prep & tn & Hprep & Htn & Hdel & Hk & ->)]; [by left|right].
  destruct (fork_prepare_Ok _ _ _ _ Hw Hc Hf Hprep) as (kind & u & sn & parent & m & Hp).
  pose proof (created_write _ _ _ _ _ _ _ _ _ _ _ Hw Hp Hk Hty) as How.
  destruct (created_inv _ _ _ _ _ _ _ _ _ _ _ Hw Hc Hp Htn Hk) as [Hc' Hle].
  pose proof (created_forks _ _ _ _ _ _ _ _ _ _ _ Hw Hc Hf Hp Htn Hk Hdel Hcmd Hpend) as Hf'.
  pose proof (created_record _ _ _ _ _ _ _ _ _ _ Hp Htn Hk) as Hrec.
  destruct (fork_snapshot_Ok s' h _ _ (others_write_inv _ _ _ How Hw) Hc' Hf' Hrec) as (F & HF & Hload).
  exists (pf_context prep), F. rewrite HF. split_and!; try done.
  pose proof (prepared_context _ _ _ Htn) as Ectx. pose proof (fk_turn _ _ _ _ _ Hk) as Htt.
  split; try done; try apply Hk.
  - destruct (started_cases _ _ _ _ _ _ _ _ _ _ Hp Htn Hk) as [(_ & -> & Hst)|(_ & tp & um & ev & E & Hst & Hum & Hv & Hs)].
    + left. split_and!; [done..|]. by eapply (created_quiet s s' h).
    + right. exists tp. subst tn. split_and!; [done..|]. by eapply (created_insert s s' h).
  - rewrite Ectx. unfold fork_record. cbn.
    destruct (started_cases _ _ _ _ _ _ _ _ _ _ Hp Htn Hk) as [(_ & -> & ->)|(_ & tp & um & ev & E & -> & _)]; [done|].
    subst tn. cbn. by rewrite (tt_contexts _ _ _ _ _ Htt), lookup_insert_eq.
  - by eapply (created_copies s s' h).
  - rewrite (fk_threads _ _ _ _ _ Hk). apply lookup_insert_eq.
  - split_and!; try done. apply Hp.
  - intros i x Hx. by eapply (created_message s s') in Hx.
  - by eapply (created_budget s s' h).
Qed.

Lemma created_le s h s' plan ctx :
  ws_inv (workspace s) h → fork_created s s' plan ctx → fork_le s s'.
Proof.
  intros Hw Hcr. destruct (fc_fresh _ _ _ _ Hcr) as (Hth & Hdel & Hcmd). split.
  - rewrite (fc_command _ _ _ _ Hcr). by apply insert_subseteq.
  - by rewrite (fc_acks _ _ _ _ Hcr).
  - intros c d Hd. exists d. split; [|by left]. rewrite (fc_deliveries _ _ _ _ Hcr).
    rewrite lookup_insert_ne; [done|congruence].
  - intros c l (Hne & Hnum & Hl). split_and!; try done. intros x. rewrite Hl. split.
    + intros (Hx & Hc & Hd). split_and!; try done.
      eapply lookup_weaken; [exact Hx|]. apply (fc_write _ _ _ _ Hcr).
    + intros (Hx & Hc & Hd). split_and!; try done.
      apply (fc_old _ _ _ _ Hcr) in Hx as [Hx|[Hx _]]; [done|].
      destruct l as [|y l]; [done|]. destruct (proj1 (Hl y)) as (Hy & Hyc & _); [constructor|].
      destruct (inv_message_thread _ _ Hw _ _ Hy) as [th Hthy]. rewrite Hyc in Hthy.
      apply (fc_copies _ _ _ _ Hcr) in Hx as (_ & Hxc & _).
      unfold threads in Hth. congruence.
Qed.

Definition record_context s (r : ConversationForkCommandRecord.t) : option (list Message.t) :=
  i ← ConversationForkCommandRecord.started_turn_id r; conversation_contexts s !! i.

(** A reservation is refused, answers a command used before, becomes an alias of a pending
    one, or creates the child. *)
Lemma fork_ok s h plan s' r :
  let command := ConversationForkPlan.command plan in
  ws_inv (workspace s) h → conv_inv s → fork_inv s → plan_typed plan →
  ForkMemory.reserve_conversation_fork plan s = (s', r) →
  refused s s' r ∨
  (s' = s ∧ ∃ rec F, conversation_fork_commands s !! fork_command_key command = Some rec ∧
     ConversationForkCommandRecord.fingerprint rec = MutationCommand.fingerprint command ∧
     fork_loaded s rec F ∧
     r = Ok (ConversationForkReservation.mk F (record_context s rec) false false)) ∨
  (∃ k rec d F, aliased s command k rec d ∧
     s' = with_fork_command (fork_command_key command) (alias rec) s ∧ fork_loaded s (alias rec) F ∧
     r = Ok (ConversationForkReservation.mk F (record_context s rec) false true)) ∨
  ∃ ctx F, fork_created s s' plan ctx ∧ fork_loaded s' (fork_record plan) F ∧
    r = Ok (ConversationForkReservation.mk F ctx true false).
Proof.
  intros command Hw Hc Hf Hty H. unfold ForkMemory.reserve_conversation_fork in H.
  check H kind Hkind. injection Hkind as Hkind. check H u0 G0. apply throw_if_Ok, negb_false_iff in G0.
  rewrite self_run in H. fold command in H, G0.
  destruct (conversation_fork_commands s !! _) as [rec|] eqn:Ek.
  - check H u1 G1. apply throw_if_Ok in G1. rewrite differ_false in G1.
    pose proof (fi_command _ Hf _ _ Ek) as Hrec.
    destruct (fork_snapshot_Ok _ _ _ _ Hw Hc Hf Hrec) as (F & HF & Hload).
    destruct (fork_context_Ok _ _ _ Hc Hrec) as (ctx & Hctx & ->).
    rewrite (lift_run _ _ _ _ HF), (lift_run _ _ _ _ Hctx) in H. injection H as <- <-.
    right; left. split; [done|]. by exists rec, F.
  - apply bind_cases in H as (s1 & o & Hr & H).
    apply (reconcile_ok _ _ _ _ _ Hw Hc Hf Ek) in Hr
      as [(-> & -> & Hno)|[(-> & ->)|(k & rec & d & F & ctx & Hal & -> & Hload & -> & ->)]].
    + apply (create_ok _ _ _ _ _ Hw Hc Hf Hty Ek) in H; [destruct H; [by left|by right; right; right]|].
      by apply Hno, (scope_supported _ kind).
    + left. by destruct H as [-> ->].
    + right; right; left. injection H as <- <-. by exists k, rec, d, F.
Qed.

Lemma resolve_ok s h command s' r :
  ws_inv (workspace s) h → conv_inv s → fork_inv s →
  ForkMemory.resolve_conversation_fork_command command s = (s', r) →
  refused s s' r ∨ (s' = s ∧ r = Ok None) ∨
  (s' = s ∧ ∃ rec F, conversation_fork_commands s !! fork_command_key command = Some rec ∧
     ConversationForkCommandRecord.fingerprint rec = MutationCommand.fingerprint command ∧
     fork_loaded s rec F ∧ r = Ok (Some (ConversationForkCommandResolution.mk F false))) ∨
  ∃ k rec d F, aliased s command k rec d ∧
    s' = with_fork_command (fork_command_key command) (alias rec) s ∧ fork_loaded s (alias rec) F ∧
    r = Ok (Some (ConversationForkCommandResolution.mk F true)).
Proof.
  intros Hw Hc Hf H. unfold ForkMemory.resolve_conversation_fork_command in H.
  destruct (conversation_fork_scope_is_supported _) eqn:Esup; cbn [negb] in H.
  2:{ right; left. by injection H as <- <-. }
  rewrite self_run in H. destruct (conversation_fork_commands s !! _) as [rec|] eqn:Ek.
  - check H u1 G1. apply throw_if_Ok in G1. rewrite differ_false in G1.
    pose proof (fi_command _ Hf _ _ Ek) as Hrec.
    destruct (fork_snapshot_Ok _ _ _ _ Hw Hc Hf Hrec) as (F & HF & Hload).
    rewrite (lift_run _ _ _ _ HF) in H. injection H as <- <-.
    right; right; left. split; [done|]. by exists rec, F.
  - apply bind_cases in H as (s1 & o & Hr & H).
    apply (reconcile_ok _ _ _ _ _ Hw Hc Hf Ek) in Hr
      as [(-> & -> & Hno)|[(-> & ->)|(k & rec & d & F & ctx & Hal & -> & Hload & -> & ->)]].
    + right; left. by injection H as <- <-.
    + left. by destruct H as [-> ->].
    + right; right; right. injection H as <- <-. by exists k, rec, d, F.
Qed.
End reserve.
