(* ===== verification/ConversationSafety.v ===== *)
(** * What conversations promise

    The interleavings of conversation services with every other client of the store, and
    the theorems about them: consistency of the store, one provider call per turn,
    durability of finished turns and replays. *)
From stdpp Require Import sorting.
From S2P Require Import Prelude RustText Ids Runs Approvals Effects ConversationTurns TurnEvents Schedules Scheduler Workspace ExecutionStore Commands WorkspaceStore WorkspaceServices WorkspaceWorld ConversationStore ForkStore ConversationWorld ConversationReserve ForkWorld ForkCreate ForkCommit.

(** ** Other clients of the store *)

Section clients.
Context {UP : UrlParser} {CH : Chrono} {SJ : SerdeJson}.
Import ConversationState.
Implicit Types (s : CS) (t : ConversationTurn.t) (h : snapshots) (w : WS).

(** A change of the workspace state only. *)
Lemma quiet_workspace s w' :
  WorkspaceState.conversation_turns w' = conversation_turns s →
  WorkspaceState.conversation_contexts w' = conversation_contexts s →
  (∀ i th, threads s !! i = Some th → ∃ th', WorkspaceState.threads w' !! i = Some th' ∧
     Thread.id th' = Thread.id th ∧ Thread.project_id th' = Thread.project_id th ∧
     Thread.lineage th' = Thread.lineage th) →
  (∀ i th, WorkspaceState.threads w' !! i = Some th → threads s !! i = None →
     ConversationThreadLineage.origin (Thread.lineage th) = ConversationThreadOrigin.Original) →
  (∀ i, pinned s i → WorkspaceState.messages w' !! i = messages s !! i) →
  (∀ i m, derived m = true →
     WorkspaceState.messages w' !! i = Some m ↔ messages s !! i = Some m) →
  quiet s (s <| workspace := w' |>) ∧ fork_frame s (s <| workspace := w' |>).
Proof.
  intros E1 E2 Ht Hn Hp Hd. split; [|by split]. split; try done.
  - intros i th Hi E. unfold lineage_ok. by rewrite (Hn i th Hi E).
  - intros k r Hk Hn'. change (conversation_cancel_commands s !! k = Some r) in Hk. congruence.
Qed.

Lemma same_threads s w' :
  WorkspaceState.threads w' = threads s →
  (∀ i th, threads s !! i = Some th → ∃ th', WorkspaceState.threads w' !! i = Some th' ∧
     Thread.id th' = Thread.id th ∧ Thread.project_id th' = Thread.project_id th ∧
     Thread.lineage th' = Thread.lineage th) ∧
  (∀ i th, WorkspaceState.threads w' !! i = Some th → threads s !! i = None →
     ConversationThreadLineage.origin (Thread.lineage th) = ConversationThreadOrigin.Original).
Proof. intros ->. split; [eauto|congruence]. Qed.

Lemma frozen_not_pinned s x :
  WorkspaceMemory.message_frozen (workspace s) x = false → ~ pinned s (Message.id x).
Proof.
  unfold WorkspaceMemory.message_frozen. intros H. bool_facts.
  intros [(j & t & Ht & Hi)|(j & ctx & m & Hj & Hm & Hi)].
  - match goal with E : existsb _ (InMemory.values (WorkspaceState.conversation_turns _)) = _ |- _ =>
      pose proof (existsb_values _ _ _ _ E Ht) as Hx end. cbn in Hx. bool_facts; naive_solver.
  - match goal with E : existsb _ (InMemory.values (WorkspaceState.conversation_contexts _)) = _ |- _ =>
      pose proof (existsb_values _ _ _ _ E Hj) as Hx end.
    rewrite existsb_false in Hx. specialize (Hx m Hm). bool_facts; naive_solver.
Qed.

Lemma frozen_original s x :
  WorkspaceMemory.message_frozen (workspace s) x = false →
  derived x = false ∧ ∀ y, messages s !! Message.id x = Some y → derived y = false.
Proof.
  unfold WorkspaceMemory.message_frozen, derived. intros H. bool_facts.
  rewrite negb_false_iff. split; [done|]. intros y Hy. unfold messages in Hy.
  rewrite Hy in *. done.
Qed.
(** Writing an original message leaves the copied ones alone. *)
Lemma derived_insert (T : gmap MessageId Message.t) k x :
  derived x = false → (∀ y, T !! k = Some y → derived y = false) →
  ∀ i m, derived m = true → <[k := x]> T !! i = Some m ↔ T !! i = Some m.
Proof.
  intros Hx Hy i m Hm. split.
  - intros [[<- <-]|[_ ?]]%lookup_insert_Some; [congruence|done].
  - intros Hi. rewrite lookup_insert_ne; [done|]. intros <-. specialize (Hy _ Hi). congruence.
Qed.

(** The calls of workspace services never touch what a turn refers to. *)
Lemma workspace_quiet s h op w' :
  ws_inv (workspace s) h → conv_inv s → allowed h op → ws_effect (workspace s) op w' →
  quiet s (s <| workspace := w' |>) ∧ fork_frame s (s <| workspace := w' |>).
Proof.
  intros Hw Hc Ha He. destruct He as [| | |x c _ _ Hn _|x n c T _ HT|x c x' _ _ Hn _ Ex|x n c T _ Hf HT| | |].
  all: try (match goal with |- quiet _ (_ <| workspace := ?w |>) ∧ _ =>
    destruct (same_threads s w eq_refl) as [S1 S2] end; by apply quiet_workspace).
  - apply quiet_workspace; try done; cbn.
    + intros i th Hi. exists th. rewrite lookup_insert_ne; [done|]. unfold threads in Hi. congruence.
    + intros i th [[_ <-]|[_ Hi]]%lookup_insert_Some E; [|unfold threads in E; congruence].
      destruct Ha as (g & id & p & title & now & _ & Hnew). unfold Thread.new in Hnew.
      split_binds Hnew. by injection Hnew as <-.
  - destruct Ha as [(x0 & Hx0 & Hed & ->) _].
    destruct (table_inv_save _ _ x0 x T (inv_threads _ _ Hw) Hx0 Hed HT) as (-> & Hold & _).
    destruct (thread_edit _ _ Hed) as (Ei & Ep & El). cbn in Hold.
    apply quiet_workspace; try done; cbn.
    + intros i th Hi. destruct (decide (i = Thread.id x0)) as [->|Hne].
      * exists x. rewrite lookup_insert_eq. unfold threads in Hi. by simplify_eq.
      * exists th. by rewrite lookup_insert_ne.
    + intros i th [[<- _]|[_ Hi]]%lookup_insert_Some E; unfold threads in E; congruence.
  - destruct (same_threads s (workspace s) eq_refl) as [S1 S2].
    apply quiet_workspace; try done; cbn.
    + intros i Hi. rewrite lookup_insert_ne; [done|].
      destruct (pinned_stored _ _ Hc Hi) as [m Hm]. unfold messages in Hm. congruence.
    + destruct Ha as (g & id & p & role & content & now & _ & Hnew). unfold Message.new in Hnew.
      split_binds Hnew. injection Hnew as <-. rewrite Ex. apply derived_insert; [done|].
      cbn in Hn |- *. intros y Hy. unfold messages in Hy. congruence.
  - destruct Ha as [(x0 & Hx0 & Hed & ->) _]. destruct (message_edit _ _ Hed) as (Ei & _).
    destruct (table_inv_save _ _ x0 x T (inv_messages _ _ Hw) Hx0 Hed HT) as (-> & _ & _).
    destruct (same_threads s (workspace s) eq_refl) as [S1 S2].
    destruct (frozen_original _ _ Hf) as [Hx Hy]. rewrite Ei in Hy.
    apply quiet_workspace; try done; cbn; [|by apply derived_insert].
    intros i Hi. rewrite lookup_insert_ne; [done|].
    intros <-. apply frozen_not_pinned in Hf. by rewrite Ei in Hf.
Qed.

(** The other components of the store: they add threads of their own and messages, and write runs
    and effects that no turn refers to. *)
Record conv_others s s' : Prop := {
  oc_workspace : others_write (workspace s) (workspace s');
  oc_turns : conversation_turns s' = conversation_turns s;
  oc_contexts : conversation_contexts s' = conversation_contexts s;
  oc_created i th : threads s' !! i = Some th → threads s !! i = None →
    ConversationThreadLineage.origin (Thread.lineage th) = ConversationThreadOrigin.Original;
  oc_run i t : conversation_turns s !! i = Some t →
    runs s' !! ConversationTurn.run_id t = runs s !! ConversationTurn.run_id t;
  oc_effect i t e : conversation_turns s !! i = Some t → ConversationTurn.effect_id t = Some e →
    effects s' !! e = effects s !! e;
  oc_lineages : conversation_lineages s' = conversation_lineages s;
  oc_bindings : conversation_thread_bindings s' = conversation_thread_bindings s;
  oc_models : conversation_thread_models s' = conversation_thread_models s;
  oc_keys : conversation_turn_keys s' = conversation_turn_keys s;
  oc_events : conversation_events s' = conversation_events s;
  oc_cancels : conversation_cancel_commands s' = conversation_cancel_commands s;
  oc_forks : same_forks s s';
  oc_original i m : messages s' !! i = Some m → messages s !! i = None → derived m = false;
}.
Lemma others_quiet s s' : conv_inv s → conv_others s s' → quiet s s' ∧ fork_frame s s'.
Proof.
  intros Hc [Hw E1 E2 Hn Hr He E3 E4 E5 E6 E7 E8 E9 Ho]. split.
  2:{ split; try done. intros i m Hm. destruct (messages s !! i) as [x|] eqn:Ex.
      - pose proof (lookup_weaken _ _ _ _ Ex (proj1 (ow_messages _ _ Hw)) : messages s' !! i = _) as ->.
        done.
      - split; [|done]. intros Hi. rewrite (Ho i m Hi Ex) in Hm. done. }
  split; rewrite ?E4, ?E5; try done.
  - intros i t Ht. split_and!; [by eapply Hr|intros e; by eapply He|by rewrite E7].
  - intros i th Hi. exists th. split; [|done]. by eapply lookup_weaken; [|apply Hw].
  - intros i th Hi E. unfold lineage_ok. by rewrite (Hn i th Hi E).
  - apply pinned_grows; [done|]. apply Hw.
  - by rewrite E8.
  - intros k r Hk Hk'. congruence.
Qed.
End clients.

(** ** Interleavings *)

Section world.
Context {UP : UrlParser} {CH : Chrono} {SJ : SerdeJson}.
Import ConversationState.
Implicit Types (s : CS) (t : ConversationTurn.t) (h : snapshots).

(** The calls of the port that write. *)
Inductive conv_op : Type :=
| OReserve (t : ConversationTurn.t) (l : ConversationTurnLineage.t)
    (source : ConversationTurnReservationSource.t) (um : Message.t) (run : Run.t)
    (event : NewRunEvent.t) (kind : ConversationTurnEventKind.t)
| OStart (commit : ProviderStartCommit.t)
| OTerminal (commit : TerminalTurnCommit.t)
| OCancel (commit : CancelConversationTurnCommit.t)
| OReconcile (commit : CancelConversationTurnCommit.t)
| OAppend (i : ConversationTurnId) (expected_turn_revision start_utf8_offset : Z) (text : str)
| OFork (plan : ConversationForkPlan.t)
| OResolve (command : MutationCommand.t)
| OAcknowledge (command : MutationCommand.t) (child : ThreadId) (expected_revision : Z).

Definition conv_exec (op : conv_op) : method CS StoreError unit :=
  match op with
  | OReserve t l source um run event kind =>
      discard (ConversationMemory.reserve_turn t l source um run event kind)
  | OStart commit => discard (ConversationMemory.commit_provider_start commit)
  | OTerminal commit => discard (ConversationMemory.commit_terminal commit)
  | OCancel commit => discard (ConversationMemory.commit_cancellation commit)
  | OReconcile commit => discard (ConversationMemory.commit_dispatch_exit_reconciliation commit)
  | OAppend i n off text => discard (ConversationMemory.append_turn_text i n off text)
  | OFork plan => discard (ForkMemory.reserve_conversation_fork plan)
  | OResolve command => discard (ForkMemory.resolve_conversation_fork_command command)
  | OAcknowledge command child n =>
      discard (ForkMemory.acknowledge_conversation_fork_delivery command child n)
  end.

(** The arguments have the types of the source: identifiers of new messages are valid and
    token counts are 64-bit. *)
Definition usage_typed t : Prop :=
  is_u64 (ConversationUsage.input_tokens (ConversationTurn.usage t)) ∧
  is_u64 (ConversationUsage.output_tokens (ConversationTurn.usage t)) ∧
  is_u64 (ConversationUsage.cost_in_usd_ticks (ConversationTurn.usage t)).
Definition commit_typed (commit : TerminalTurnCommit.t) : Prop :=
  terminal_typed commit ∧ usage_typed (TerminalTurnCommit.turn commit).
Definition cancellation_typed (commit : CancelConversationTurnCommit.t) : Prop :=
  match CancelConversationTurnCommit.terminal commit with
  | Some terminal => commit_typed terminal
  | None => True
  end.
Definition conv_typed (op : conv_op) : Prop :=
  match op with
  | OReserve t _ _ um _ _ _ => reserve_typed um ∧ usage_typed t
  | OStart commit => usage_typed (ProviderStartCommit.turn commit)
  | OTerminal commit => commit_typed commit
  | OCancel commit | OReconcile commit => cancellation_typed commit
  | OFork plan => plan_typed plan ∧
      ∀ tp, ConversationForkPlan.started_turn plan = Some tp →
        usage_typed (ConversationForkTurnPlan.turn tp)
  | OAppend _ _ _ _ | OResolve _ | OAcknowledge _ _ _ => True
  end.

(** The provider calls a step commits to: the turn and its new effect. *)
Definition starts (op : conv_op) (r : result StoreError unit) :
    list (ConversationTurnId * EffectId) :=
  match op, r with
  | OStart commit, Ok _ => [(ConversationTurn.id (ProviderStartCommit.turn commit),
                             SideEffect.id (ProviderStartCommit.effect commit))]
  | _, _ => []
  end.

Record conv_world : Type := ConvWorld {
  cw_store : CS;
  cw_held : snapshots;
  cw_started : list (ConversationTurnId * EffectId);
}.

(** A step of the store: a client reads, a conversation service or a workspace service
    makes a call, or another component writes. *)
Inductive conv_step : conv_world → conv_world → Prop :=
| conv_read s h h' l :
    reads_all (workspace s) h h' → conv_step (ConvWorld s h l) (ConvWorld s h' l)
| conv_call s h l op s' r :
    conv_typed op → conv_exec op s = (s', r) →
    conv_step (ConvWorld s h l) (ConvWorld s' h (starts op r ++ l))
| conv_workspace s h l op w' r :
    allowed h op → ws_exec op (workspace s) = (w', r) →
    conv_step (ConvWorld s h l) (ConvWorld (s <| workspace := w' |>) h l)
| conv_other s h l s' :
    conv_others s s' → conv_step (ConvWorld s h l) (ConvWorld s' h l).
Definition conv_reachable : conv_world → Prop :=
  rtc conv_step (ConvWorld ConversationState.empty no_snapshots []).

(** *** What one call does *)

(** Turns change one at a time, and an effect identifier is given to a turn by a start. *)
Record stepped s s' (started : list (ConversationTurnId * EffectId)) : Prop := {
  sd_le : conv_le s s';
  sd_inv : conv_inv s';
  sd_typed i t : conversation_turns s' !! i = Some t →
    usage_typed t ∨ conversation_turns s !! i = Some t;
  sd_effect i t e : conversation_turns s' !! i = Some t → ConversationTurn.effect_id t = Some e →
    (i, e) ∈ started ∨
    ∃ t0, conversation_turns s !! i = Some t0 ∧ ConversationTurn.effect_id t0 = Some e;
  sd_started i e : (i, e) ∈ started →
    effects s !! e = None ∧ (∃ t0, conversation_turns s !! i = Some t0 ∧
      ConversationTurn.state t0 = ConversationTurnState.Reserved) ∧
    ∃ t, conversation_turns s' !! i = Some t ∧ ConversationTurn.effect_id t = Some e;
}.

Lemma stepped_quiet s s' : conv_inv s → quiet s s' → stepped s s' [].
Proof.
  intros Hc Hq. pose proof (qu_turns _ _ Hq) as E.
  split; [by apply quiet_le|by eapply quiet_inv|..]; rewrite ?E; [auto|eauto|].
  intros i e H%not_elem_of_nil. done.
Qed.
Lemma stepped_refl s : conv_inv s → stepped s s [].
Proof.
  intros Hc. split; [apply conv_le_refl|done|auto|eauto|]. intros i e H%not_elem_of_nil. done.
Qed.
Lemma stepped_update s s' i t t' :
  conv_inv s → turn_update s s' i t t' → usage_typed t' ∨ t' = t →
  ConversationTurn.effect_id t' = ConversationTurn.effect_id t → stepped s s' [].
Proof.
  intros Hc Hu Ht He. pose proof (tu_new _ _ _ _ _ Hu) as E. pose proof (tu_old _ _ _ _ _ Hu) as Ho.
  split; [by eapply update_le|by eapply update_inv|..]; rewrite ?E.
  - intros j u [[<- <-]|[_ Hj]]%lookup_insert_Some; [|auto]. destruct Ht as [| ->]; auto.
  - intros j u e [[<- <-]|[_ Hj]]%lookup_insert_Some Hx; [|eauto]. right. exists t.
    by rewrite <- He.
  - intros j e H%not_elem_of_nil. done.
Qed.
Lemma stepped_insert s s' i t l :
  conv_inv s → turn_insert s s' i t l → usage_typed t → stepped s s' [].
Proof.
  intros Hc Hi Ht. pose proof (ti_new _ _ _ _ _ Hi) as E. pose proof (ti_effect _ _ _ _ _ Hi) as He.
  split; [by eapply insert_le|by eapply insert_inv|..]; rewrite ?E.
  - intros j u [[<- <-]|[_ Hj]]%lookup_insert_Some; auto.
  - intros j u e [[<- <-]|[_ Hj]]%lookup_insert_Some Hx; [congruence|eauto].
  - intros j e H%not_elem_of_nil. done.
Qed.
Lemma stepped_trans s1 s2 s3 :
  conv_inv s1 → stepped s1 s2 [] → stepped s2 s3 [] → stepped s1 s3 [].
Proof.
  intros Hc [L1 I1 T1 E1 _] [L2 I2 T2 E2 _]. split; [by eapply conv_le_trans|done|..].
  - intros i t Ht. apply T2 in Ht as [|Ht]; auto.
  - intros i t e Ht He. right. eapply E2 in Ht as [H%not_elem_of_nil|(t0 & Ht & He0)]; [done| |done].
    eapply E1 in Ht as [H%not_elem_of_nil|?]; done.
  - intros i e H%not_elem_of_nil. done.
Qed.

Lemma discard_cases {A} (m : method CS StoreError A) s s' r :
  discard m s = (s', r) → ∃ o, m s = (s', o) ∧ is_ok o = is_ok r.
Proof.
  unfold discard. intros H. apply bind_cases in H as (s1 & o & Hm & H). exists o.
  destruct o; [by injection H as <- <-|]. by destruct H as [-> ->].
Qed.

Lemma cancellation_cancel commit : cancellation_typed commit → cancel_typed commit.
Proof.
  unfold cancel_typed, cancellation_typed.
  by destruct (CancelConversationTurnCommit.terminal commit); [intros []|].
Qed.

Lemma stepped_frame s h s' h' started :
  ws_inv (workspace s) h → ws_inv (workspace s') h' → conv_inv s → fork_inv s →
  stepped s s' started → fork_frame s s' → fork_inv s' ∧ fork_le s s'.
Proof.
  intros Hw Hw' Hc Hf Hst Hfr. split; [|by apply frame_le].
  eapply (fork_inv_frame s s' h h'); try done; apply Hst.
Qed.
Lemma stepped_forks s s' : conv_inv s → only_forks s s' → stepped s s' [].
Proof. intros Hc Ho. by apply stepped_quiet, only_forks_quiet. Qed.

Lemma cancellation_step s h commit scope s' r :
  ws_inv (workspace s) h → conv_inv s → cancellation_typed commit →
  ConversationMemory.commit_conversation_cancellation commit scope s = (s', r) →
  ws_inv (workspace s') h ∧ stepped s s' [] ∧ fork_frame s s'.
Proof.
  intros Hw Hc Hty H.
  apply (cancel_ok _ _ _ _ _ _ Hw Hc) in H as [->|(s1 & t & sn & Hs1 & Ht & Hl & _ & Hn & -> & _)].
  - split_and!; [done|by apply stepped_refl|apply fork_frame_refl].
  - assert (ws_inv (workspace s1) h ∧ stepped s s1 [] ∧ fork_frame s s1) as (Hw1 & Hst1 & Hfr).
    { destruct Hs1 as [->|(t0 & Hu & How & He & terminal & Hterm & ->)].
      - split_and!; [done|by apply stepped_refl|apply fork_frame_refl].
      - split_and!; [by eapply others_write_inv| |apply (tu_frame _ _ _ _ _ Hu)].
        eapply stepped_update; try done. left.
        unfold cancellation_typed in Hty. rewrite Hterm in Hty. apply Hty. }
    split_and!; [done| |by destruct Hfr]. eapply stepped_trans; [done..|].
    pose proof (sd_inv _ _ _ Hst1). apply stepped_quiet; [done|]. by apply with_cancel_quiet.
  - by apply cancellation_cancel.
Qed.

(** The calls on forks. *)
Lemma alias_step s h command k rec d :
  ws_inv (workspace s) h → conv_inv s → fork_inv s → aliased s command k rec d →
  let s' := with_fork_command (fork_command_key command) (alias rec) s in
  ws_inv (workspace s') h ∧ stepped s s' [] ∧ fork_inv s' ∧ fork_le s s'.
Proof.
  intros Hw Hc Hf Ha s'. split_and!; [done|by apply stepped_forks|by eapply alias_inv|by eapply alias_le].
Qed.
Lemma fork_call_step s h plan s' r :
  ws_inv (workspace s) h → conv_inv s → fork_inv s → conv_typed (OFork plan) →
  ForkMemory.reserve_conversation_fork plan s = (s', r) →
  ws_inv (workspace s') h ∧ stepped s s' [] ∧ fork_inv s' ∧ fork_le s s'.
Proof.
  intros Hw Hc Hf [Hty Hu] H. assert (Hsame : stepped s s [] ∧ fork_inv s ∧ fork_le s s).
  { split_and!; [by apply stepped_refl|done|apply fork_le_refl]. }
  apply (fork_ok _ _ _ _ _ Hw Hc Hf Hty) in H
    as [[-> _]|[[-> _]|[(k & rec & d & F & Ha & -> & _)|(ctx & F & Hcr & _)]]]; [done|done|by eapply alias_step|].
  split_and!; [by eapply others_write_inv, Hw; apply Hcr| |apply Hcr|by eapply created_le].
  destruct (fc_turns _ _ _ _ Hcr) as [(_ & _ & Hq)|(tp & Htp & _ & Hi)]; [by apply stepped_quiet|].
  eapply stepped_insert; eauto.
Qed.
Lemma ack_call_step s h command c n s' r :
  ws_inv (workspace s) h → conv_inv s → fork_inv s →
  ForkMemory.acknowledge_conversation_fork_delivery command c n s = (s', r) →
  ws_inv (workspace s') h ∧ stepped s s' [] ∧ fork_inv s' ∧ fork_le s s'.
Proof.
  intros Hw Hc Hf H.
  apply (ack_ok _ _ _ _ _ _ Hf) in H as [[-> _]|[(a & d & -> & _)|(d & Hn & Hd & Hp & _ & -> & _)]].
  1,2: split_and!; [done|by apply stepped_refl|done|apply fork_le_refl].
  split_and!; [done|by apply stepped_forks|by apply ack_inv|by apply ack_le].
Qed.

Lemma call_step s h op s' r :
  ws_inv (workspace s) h → conv_inv s → fork_inv s → conv_typed op → conv_exec op s = (s', r) →
  ws_inv (workspace s') h ∧ stepped s s' (starts op r) ∧ fork_inv s' ∧ fork_le s s'.
Proof.
  intros Hw Hc Hf Hty H.
  assert (Hsame : ws_inv (workspace s) h ∧ stepped s s [] ∧ fork_frame s s).
  { split_and!; [done|by apply stepped_refl|apply fork_frame_refl]. }
  assert (Hframe : ∀ started, ws_inv (workspace s') h ∧ stepped s s' started ∧ fork_frame s s' →
    ws_inv (workspace s') h ∧ stepped s s' started ∧ fork_inv s' ∧ fork_le s s').
  { intros started (Hw' & Hst & Hfr). split_and!; [done|done|by eapply (stepped_frame s h s' h)..]. }
  destruct op as [t l source um run event kind|commit|commit|commit|commit|i n off text|plan|command|command c n];
    cbn in H, Hty; apply discard_cases in H as (o & H & Ho).
  - apply Hframe. destruct Hty as [Hid Hu]. cbn.
    apply (reserve_ok _ _ _ _ _ _ _ _ _ _ _ Hw Hc Hid) in H
      as [[-> _]|[[-> _]|(ctx & sn & Hi & How & _ & _ & _ & Hfr & _)]]; [done|done|].
    split_and!; [by eapply others_write_inv|by eapply stepped_insert|done].
  - apply Hframe.
    apply (start_ok _ _ _ _ _ Hw Hc) in H as [[-> Hr]|(t & sn & Hu & How & Hres & Hps & Hn & Hef & Hok & ->)].
    { rewrite Hr in Ho. by destruct r. }
    destruct r as [[]|]; [|done]. split_and!; [by eapply others_write_inv| |apply (tu_frame _ _ _ _ _ Hu)]. cbn.
    pose proof (tu_new _ _ _ _ _ Hu) as E. pose proof (tu_old _ _ _ _ _ Hu) as Hold.
    split; [by eapply update_le|by eapply update_inv|..]; rewrite ?E.
    + intros j u [[<- <-]|[_ Hj]]%lookup_insert_Some; auto.
    + intros j u e [[<- <-]|[_ Hj]]%lookup_insert_Some Hx; [left|eauto].
      rewrite Hef in Hx. injection Hx as <-. by constructor.
    + intros j e [= -> ->]%list_elem_of_singleton. split_and!; [done|by exists t|].
      eexists. by rewrite lookup_insert_eq.
  - apply Hframe. destruct Hty as [Hid Hu]. cbn.
    apply (terminal_ok _ _ _ _ _ Hw Hc Hid) in H as [[-> _]|(t & sn & Hup & How & _ & He & _)]; [done|].
    split_and!; [by eapply others_write_inv| |apply (tu_frame _ _ _ _ _ Hup)]. eapply stepped_update; eauto.
  - apply Hframe. by eapply cancellation_step.
  - apply Hframe. by eapply cancellation_step.
  - apply Hframe. cbn.
    apply (append_ok _ _ _ _ _ _ _ _ Hw Hc) in H as [->|(t & evs & log & log' & new & Hu & How & _)]; [done|].
    split_and!; [by eapply others_write_inv| |apply (tu_frame _ _ _ _ _ Hu)]. eapply stepped_update; eauto.
  - by eapply fork_call_step.
  - apply (resolve_ok _ _ _ _ _ Hw Hc Hf) in H
      as [[-> _]|[[-> _]|[[-> _]|(k & rec & d & F & Ha & -> & _)]]]; [by apply Hframe..|by eapply alias_step].
  - by eapply ack_call_step.
Qed.

(** *** The invariant of the world *)

Record world_inv (w : conv_world) : Prop := {
  wi_workspace : ws_inv (workspace (cw_store w)) (cw_held w);
  wi_store : conv_inv (cw_store w);
  wi_typed i t : conversation_turns (cw_store w) !! i = Some t → usage_typed t;
  wi_started i e : (i, e) ∈ cw_started w → ∃ t, conversation_turns (cw_store w) !! i = Some t ∧
    ConversationTurn.effect_id t = Some e;
  wi_effect i t e : conversation_turns (cw_store w) !! i = Some t →
    ConversationTurn.effect_id t = Some e → (i, e) ∈ cw_started w;
  wi_turns_once : NoDup (cw_started w).*1;
  wi_effects_once : NoDup (cw_started w).*2;
  wi_forks : fork_inv (cw_store w);
}.

(** A turn never loses its effect. *)
Lemma calls_effect t t' e :
  ConversationTurn.effect_id t = Some e → ConversationTurn.state t ≠ ConversationTurnState.Reserved →
  rtc turn_call_step t t' → ConversationTurn.effect_id t' = Some e.
Proof.
  intros He Hs. induction 1 as [|x y z (_ & Hp & Hxy)%turn_call_edge _ IH]; [done|]. apply IH.
  - destruct Hxy as [->|[Hr _]]; done.
  - by destruct (ConversationTurn.state x), (ConversationTurn.state y).
Qed.
Lemma effect_not_reserved s i t e :
  conv_inv s → conversation_turns s !! i = Some t → ConversationTurn.effect_id t = Some e →
  ConversationTurn.state t ≠ ConversationTurnState.Reserved.
Proof.
  intros Hc Ht He Hr. destruct (ci_turn _ Hc _ _ Ht) as (_ & sn & Hok).
  destruct (canonical_linked _ (to_canonical _ _ _ Hok)) as [Hre _ _ _ _ _ _ _ _ _].
  rewrite (to_turn _ _ _ Hok) in Hre. apply restored_links in Hre as [_ Hre]. rewrite Hre in He; [done|auto].
Qed.

Lemma stepped_inv s h l s' h' started :
  world_inv (ConvWorld s h l) → ws_inv (workspace s') h' → stepped s s' started →
  NoDup started.*1 → NoDup started.*2 → fork_inv s' → world_inv (ConvWorld s' h' (started ++ l)).
Proof.
  intros [Hw Hc Hty Hst Hef Hd1 Hd2 _] Hw' [Hle Hinv Hsty Hse Hss] N1 N2 Hf. cbn in *. split; cbn; try done.
  - intros i t Ht. apply Hsty in Ht as [|Ht]; eauto.
  - intros i e [Hi|Hi]%elem_of_app; [by apply Hss in Hi as (_ & _ & ?)|].
    destruct (Hst _ _ Hi) as (t & Ht & He). destruct (le_turn _ _ Hle _ _ Ht) as (t' & Ht' & Hr).
    exists t'. split; [done|]. apply (calls_effect t); [done| |done].
    by apply (effect_not_reserved s i t e).
  - intros i t e Ht He. apply elem_of_app. destruct (Hse _ _ _ Ht He) as [|(t0 & Ht0 & He0)]; eauto.
  - rewrite fmap_app. apply NoDup_app. split_and!; [done| |done].
    intros i ((j & e) & -> & Hi)%list_elem_of_fmap ((j' & e') & Ej & Hi')%list_elem_of_fmap. cbn in Ej. subst j'.
    apply Hss in Hi as (_ & (t0 & Ht0 & Hr) & _). apply Hst in Hi' as (t & Ht & He). cbn in *. simplify_eq.
    by destruct (effect_not_reserved _ _ _ _ Hc Ht0 He).
  - rewrite fmap_app. apply NoDup_app. split_and!; [done| |done].
    intros e ((j & e0) & -> & Hi)%list_elem_of_fmap ((j' & e') & Ej & Hi')%list_elem_of_fmap. cbn in Ej. subst e'.
    apply Hss in Hi as (Hn & _). apply Hst in Hi' as (t & Ht & He). cbn in *.
    destruct (stored_effect _ _ _ _ Hc Ht He). congruence.
Qed.

Lemma conv_step_all w w' :
  conv_step w w' → world_inv w →
  world_inv w' ∧ conv_le (cw_store w) (cw_store w') ∧ fork_le (cw_store w) (cw_store w').
Proof.
  intros Hs Hw. pose proof (wi_store _ Hw) as Hc. pose proof (wi_workspace _ Hw) as Hws.
  pose proof (wi_forks _ Hw) as Hf.
  destruct Hs as [s h h' l Hr|s h l op s' r Hty He|s h l op w' r Ha He|s h l s' Ho]; cbn in *.
  - split_and!; [|apply conv_le_refl|apply fork_le_refl].
    apply (stepped_inv _ _ _ _ _ [] Hw); [|by apply stepped_refl|constructor..|done].
    apply (ws_step_inv (World (workspace s) h) (World (workspace s) h')); [by constructor|done].
  - destruct (call_step _ _ _ _ _ Hws Hc Hf Hty He) as (Hw' & Hst & Hf' & Hfl).
    split_and!; [|apply Hst|done].
    eapply stepped_inv; try done; destruct op, r; cbn; try constructor; try (by intros ?%not_elem_of_nil); constructor.
  - pose proof (ws_exec_effect _ _ _ _ He) as Hef.
    destruct (workspace_quiet _ _ _ _ Hws Hc Ha Hef) as [Hq Hfr].
    assert (Hw' : ws_inv (workspace (s <| workspace := w' |>)) h) by by eapply ws_effect_inv.
    pose proof (stepped_quiet _ _ Hc Hq) as Hst.
    destruct (stepped_frame s h (s <| workspace := w' |>) h _ Hws Hw' Hc Hf Hst Hfr) as [Hf' Hfl].
    split_and!; [|by apply quiet_le|done]. apply (stepped_inv _ _ _ _ _ [] Hw); done || constructor.
  - destruct (others_quiet _ _ Hc Ho) as [Hq Hfr].
    assert (Hw' : ws_inv (workspace s') h) by (eapply others_write_inv; [apply Ho|done]).
    pose proof (stepped_quiet _ _ Hc Hq) as Hst.
    destruct (stepped_frame s h s' h _ Hws Hw' Hc Hf Hst Hfr) as [Hf' Hfl].
    split_and!; [|by apply quiet_le|done]. apply (stepped_inv _ _ _ _ _ [] Hw); done || constructor.
Qed.

Lemma conv_step_ok w w' :
  conv_step w w' → world_inv w → world_inv w' ∧ conv_le (cw_store w) (cw_store w').
Proof. intros Hs Hw. by destruct (conv_step_all _ _ Hs Hw) as (? & ? & _). Qed.
Lemma conv_steps_all w w' :
  rtc conv_step w w' → world_inv w →
  world_inv w' ∧ conv_le (cw_store w) (cw_store w') ∧ fork_le (cw_store w) (cw_store w').
Proof.
  induction 1 as [w|w w1 w2 Hs _ IH]; intros Hw.
  { split_and!; [done|apply conv_le_refl|apply fork_le_refl]. }
  destruct (conv_step_all _ _ Hs Hw) as (Hw1 & Hle1 & Hf1). destruct (IH Hw1) as (Hw2 & Hle2 & Hf2).
  split_and!; [done|eapply conv_le_trans; [apply Hw|done..]|by eapply fork_le_trans].
Qed.
Lemma conv_steps_ok w w' :
  rtc conv_step w w' → world_inv w → world_inv w' ∧ conv_le (cw_store w) (cw_store w').
Proof. intros Hs Hw. by destruct (conv_steps_all _ _ Hs Hw) as (? & ? & _). Qed.

Lemma fork_inv_empty : fork_inv ConversationState.empty.
Proof.
  split; intros *; unfold messages, child_commands, family, direct_children, threads; cbn;
    rewrite ?lookup_empty, ?map_to_list_empty; done.
Qed.
Lemma conv_inv_empty : conv_inv ConversationState.empty.
Proof.
  split; intros *; unfold conversation_turns, threads, conversation_contexts; cbn;
    rewrite lookup_empty; done.
Qed.
Lemma world_inv_empty : world_inv (ConvWorld ConversationState.empty no_snapshots []).
Proof.
  split; cbn; try done; try constructor; try apply ws_inv_empty; try apply conv_inv_empty;
    try apply fork_inv_empty; intros *; rewrite ?elem_of_nil; try done; unfold conversation_turns; cbn; by rewrite lookup_empty.
Qed.
Lemma conv_reachable_inv w : conv_reachable w → world_inv w.
Proof. intros H. by apply (conv_steps_ok _ _ H), world_inv_empty. Qed.
End world.

(** ** Consistency *)

Section properties.
Context {UP : UrlParser} {CH : Chrono} {SJ : SerdeJson}.
Import ConversationState.
Implicit Types (s : CS) (t : ConversationTurn.t) (h : snapshots) (w : conv_world).

Lemma load_turn_Ok w i t sn :
  world_inv w → conversation_turns (cw_store w) !! i = Some t → turn_ok (cw_store w) t sn →
  ConversationMemory.load_turn i (cw_store w) = (cw_store w, Ok (Some sn)).
Proof.
  intros Hw Ht Hok. unfold ConversationMemory.load_turn. run_unfold. rewrite Ht.
  by rewrite (load_Ok _ _ _ _ _ (wi_workspace _ Hw) (wi_store _ Hw) Ht Hok).
Qed.
Lemma load_turn_inv w i s1 sn :
  world_inv w → ConversationMemory.load_turn i (cw_store w) = (s1, Ok (Some sn)) →
  ∃ t, conversation_turns (cw_store w) !! i = Some t ∧ turn_ok (cw_store w) t sn.
Proof.
  intros Hw H. unfold ConversationMemory.load_turn in H. run_unfold in H.
  destruct (conversation_turns (cw_store w) !! i) as [u|] eqn:Hu; [|done].
  destruct (ci_turn _ (wi_store _ Hw) _ _ Hu) as (_ & sn' & Hok).
  rewrite (load_Ok _ _ _ _ _ (wi_workspace _ Hw) (wi_store _ Hw) Hu Hok) in H.
  injection H as _ <-. by exists u.
Qed.

Lemma collect_snapshots w ts :
  world_inv w → (∀ t, t ∈ ts → ∃ i, conversation_turns (cw_store w) !! i = Some t) →
  ∃ sns, ConversationMemory.collect_results (conversation_snapshot (cw_store w)) ts = Ok sns ∧
    map ConversationTurnSnapshot.turn sns = ts.
Proof.
  intros Hw. induction ts as [|u ts IH]; intros Hts; [by exists []|].
  destruct IH as (sns & Hsns & Hmap); [intros x Hx; apply Hts; by constructor|].
  destruct (Hts u) as [i Hu]; [by constructor|].
  destruct (ci_turn _ (wi_store _ Hw) _ _ Hu) as (_ & sn & Hok). exists (sn :: sns). cbn.
  rewrite (load_Ok _ _ _ _ _ (wi_workspace _ Hw) (wi_store _ Hw) Hu Hok). cbn. rewrite Hsns. cbn.
  by rewrite (to_turn _ _ _ Hok), Hmap.
Qed.

(** The turns waiting for recovery, oldest first. *)
Definition incomplete_turns s : list ConversationTurn.t :=
  ConversationMemory.sort_turns
    (filter (λ t, ConversationTurnState.is_terminal (ConversationTurn.state t) = false)
       (InMemory.values (conversation_turns s))).

(** C4. Conversations stay consistent under concurrent use. In every world reachable by
    interleaved reservations, provider starts, streamed text, completions, cancellations
    and reconciliations of any number of services, the workspace calls of any number of
    clients and the writes of the other components of the store, every stored turn loads,
    its lineage walk within the fuel; its context is a nonempty bounded list of stored
    active messages of its thread in strictly increasing order that ends with its prompt;
    its thread is bound to the credential of its lineage and to its model; its key leads
    back to it. A thread has at most one unfinished turn, a turn is retried at most once,
    and the recovery listing answers with exactly the oldest unfinished turns. *)
Theorem conversation_store_consistent w :
  conv_reachable w → let s := cw_store w in
  (∀ i t, conversation_turns s !! i = Some t → ∃ sn ctx b,
     ConversationMemory.load_turn i s = (s, Ok (Some sn)) ∧ ConversationTurnSnapshot.turn sn = t ∧
     ConversationMemory.load_turn_context i s = (s, Ok ctx) ∧
     last ctx = Some (ConversationTurnSnapshot.user_message sn) ∧
     StronglySorted (λ x y, Message.sequence x < Message.sequence y) ctx ∧
     validate_context ctx = Ok tt ∧
     Forall (λ m, messages s !! Message.id m = Some m ∧
       Message.thread_id m = ConversationTurn.thread_id t ∧ Message.state m = MessageState.Active) ctx ∧
     ConversationTurnLineage.credential_binding_id (ConversationTurnSnapshot.lineage sn) = Some b ∧
     ConversationMemory.thread_credential_binding (ConversationTurn.thread_id t) s
       = (s, Ok (ConversationThreadCredentialBinding.Bound b)) ∧
     ConversationMemory.thread_model_binding (ConversationTurn.thread_id t) s
       = (s, Ok (ConversationThreadModelBinding.Bound (ConversationTurn.model_id t))) ∧
     conversation_turn_keys s !! ConversationTurn.idempotency_key t = Some i) ∧
  (∀ i j t u, conversation_turns s !! i = Some t → conversation_turns s !! j = Some u →
     ConversationTurn.thread_id t = ConversationTurn.thread_id u →
     ConversationTurnState.is_terminal (ConversationTurn.state t) = false →
     ConversationTurnState.is_terminal (ConversationTurn.state u) = false → i = j) ∧
  (∀ i j l l' src, conversation_lineages s !! i = Some l → conversation_lineages s !! j = Some l' →
     retries src l = true → retries src l' = true → i = j) ∧
  (∀ limit, ∃ sns, ConversationMemory.list_incomplete_turns_for_recovery limit s = (s, Ok sns) ∧
     map ConversationTurnSnapshot.turn sns = take (Z.to_nat limit) (incomplete_turns s)).
Proof.
  intros Hr%conv_reachable_inv s. pose proof (wi_store _ Hr) as Hc. fold s in Hc. split_and!.
  - intros i t Ht. destruct (ci_turn _ Hc _ _ Ht) as (Hid & sn & Hok).
    destruct (ci_context _ Hc _ _ Ht) as (ctx & Hx & [(um & Hum & Hla) Hst Hso Hv]).
    pose proof Hok as [E [C1 C2 C3 C4 C5 C6] Hk Hth Hev]. rewrite E, Hid in C5. rewrite E in C1.
    destruct (ci_bound _ Hc _ _ _ Ht C5) as (b & Hb & Hb1 & Hb2).
    destruct Hth as (th & Hth & _).
    exists sn, ctx, b. split_and!; try done.
    + by eapply load_turn_Ok.
    + unfold ConversationMemory.load_turn_context. run_unfold. by rewrite Hx.
    + congruence.
    + by apply Forall_forall.
    + unfold ConversationMemory.thread_credential_binding. run_unfold. by rewrite Hth, Hb1.
    + unfold ConversationMemory.thread_model_binding. run_unfold. by rewrite Hth, Hb2.
    + by apply Hc.
  - intros i j t u Ht Hu E Lt Lu. eapply (ci_live _ Hc); [done..| |]; unfold live.
    + by rewrite Lt.
    + by rewrite Lu.
  - apply Hc.
  - intros limit. destruct (collect_snapshots w (take (Z.to_nat limit) (incomplete_turns s)) Hr)
      as (sns & Hs & Hm).
    + intros t Ht%elem_of_take. destruct Ht as (n & Ht%list_elem_of_lookup_2 & _).
      unfold incomplete_turns, ConversationMemory.sort_turns in Ht.
      rewrite sort_by_key_perm, list_elem_of_filter, elem_of_values in Ht. apply Ht.
    + exists sns. split; [|done]. unfold ConversationMemory.list_incomplete_turns_for_recovery.
      run_unfold. fold s in Hs. unfold incomplete_turns in Hs. by rewrite Hs.
Qed.

(** C5. A turn calls the provider at most once. In every reachable world the committed
    provider starts are of distinct turns, with distinct effects, and are exactly the
    effects the stored turns carry; a further start of a started turn is refused and
    changes nothing. *)
Theorem provider_started_once w :
  conv_reachable w → let s := cw_store w in
  NoDup (cw_started w).*1 ∧ NoDup (cw_started w).*2 ∧
  (∀ i e, (i, e) ∈ cw_started w ↔ ∃ t, conversation_turns s !! i = Some t ∧
     ConversationTurn.effect_id t = Some e) ∧
  (∀ i e commit, (i, e) ∈ cw_started w →
     ConversationTurn.id (ProviderStartCommit.turn commit) = i →
     ConversationMemory.commit_provider_start commit s = (s, Err Conflict)).
Proof.
  intros Hr%conv_reachable_inv s. split_and!; [apply Hr|apply Hr| |].
  - intros i e. split; [apply Hr|]. intros (t & Ht & He). by eapply (wi_effect _ Hr).
  - intros i e commit Hi <-. destruct (wi_started _ Hr _ _ Hi) as (t & Ht & He).
    pose proof (effect_not_reserved _ _ _ _ (wi_store _ Hr) Ht He) as Hres.
    destruct (ci_turn _ (wi_store _ Hr) _ _ Ht) as (_ & sn & Hok).
    unfold ConversationMemory.commit_provider_start. run_unfold.
    unfold s. rewrite (stored_load _ _ _ _ _ (wi_workspace _ Hr) (wi_store _ Hr) Ht Hok).
    unfold is_exact_provider_start. rewrite (to_turn _ _ _ Hok), (bool_decide_eq_false_2 _ Hres). cbn.
    by rewrite orb_true_r.
Qed.

(** ** Durability *)

(** The text a list of events streams. *)
Definition event_text (e : ConversationTurnEvent.t) : str :=
  match ConversationTurnEvent.kind e with
  | ConversationTurnEventKind.TextAppended _ chunk => chunk
  | _ => []
  end.
Definition streamed_text (evs : list ConversationTurnEvent.t) : str := mjoin (event_text <$> evs).

Lemma streamed_text_app evs evs' : streamed_text (evs ++ evs') = streamed_text evs ++ streamed_text evs'.
Proof. unfold streamed_text. by rewrite fmap_app, join_app. Qed.
Lemma streamed_number tid n ks :
  streamed_text (number_from tid n ks) = mjoin ((λ k, event_text (ConversationTurnEvent.mk 0 tid k)) <$> ks).
Proof. unfold streamed_text. revert n. induction ks as [|k ks IH]; intros n; cbn; [done|]. by rewrite IH. Qed.
Lemma streamed_kinds tid off cs :
  mjoin ((λ k, event_text (ConversationTurnEvent.mk 0 tid k)) <$> text_kinds off cs) = mjoin cs.
Proof. revert off. induction cs as [|c cs IH]; intros off; cbn; [done|]. by rewrite IH. Qed.
Lemma restore_text tid evs log :
  ConversationTurnEventLog.restore tid evs = Ok log → ConversationTurnEventLog.text log = streamed_text evs.
Proof.
  intros (p & Hp & Hv & -> & ->)%log_restore_shape. unfold shape_events. rewrite streamed_number.
  destruct p; cbn; try done; unfold shape_text; cbn; rewrite ?fmap_app, ?join_app; cbn;
    by rewrite streamed_kinds, ?app_nil_r.
Qed.

Definition event_page (evs : list ConversationTurnEvent.t) (after limit : Z) :
    ConversationTurnEventPage.t :=
  let since := filter (λ e, after < ConversationTurnEvent.sequence e) evs in
  ConversationTurnEventPage.mk (take (Z.to_nat limit) since) (limit <? Z.of_nat (length since)).

Lemma event_log_intro s i evs log :
  conversation_events s !! i = Some evs → ConversationTurnEventLog.restore i evs = Ok log →
  conversation_event_log s i = Ok log.
Proof. intros He Hlog. unfold conversation_event_log. rewrite He. cbn. by rewrite Hlog. Qed.

Lemma list_events_Ok w i t sn evs after limit :
  world_inv w → conversation_turns (cw_store w) !! i = Some t → turn_ok (cw_store w) t sn →
  conversation_events (cw_store w) !! i = Some evs → 1 ≤ limit ≤ MAX_CONVERSATION_EVENT_BATCH →
  ConversationMemory.list_turn_events_since i after limit (cw_store w)
    = (cw_store w, Ok (event_page evs after limit)).
Proof.
  intros Hw Ht [Et [_ C2 _ _ _ _] _ _ (evs' & log & He' & Hlog & Hv)] He Hlim.
  destruct (ci_turn _ (wi_store _ Hw) _ _ Ht) as [Hid _]. rewrite Hid in *. rewrite Et in C2. simplify_eq.
  unfold ConversationMemory.list_turn_events_since.
  rewrite guard_run by (by rewrite (proj2 (in_range_spec _ _ _)) by done). rewrite self_run.
  erewrite lift_run by (by rewrite Ht). erewrite lift_run by (by apply (event_log_intro _ _ evs log)).
  erewrite lift_run.
  2:{ rewrite map_err_Ok, <- Hv. f_equal. unfold resolves in C2.
      destruct (ConversationTurn.assistant_message_id _), (ConversationTurnSnapshot.assistant_message sn);
        try done. cbn. by rewrite C2. }
  erewrite lift_run by (by rewrite He). unfold event_page, mret, method_ret. rewrite take_take.
  unfold saturating_add. change MAX_CONVERSATION_EVENT_BATCH with 100 in Hlim.
  replace (Z.min usize_max (limit + 1)) with (limit + 1) by (unfold usize_max, u64_max; lia).
  rewrite length_take. do 3 f_equal; [f_equal; lia|].
  apply eq_true_iff_eq. rewrite !Z.ltb_lt. lia.
Qed.

(** C10. A finished turn is final. Once a turn that can be loaded is completed, failed,
    cancelled or interrupted, every later load, whatever clients and components did in
    between, returns the same snapshot, the same context and the same pages of events; the
    events of a completed turn stream exactly the content of its answer. *)
Theorem finished_turn_is_durable w w' i sn :
  conv_reachable w → rtc conv_step w w' →
  ConversationMemory.load_turn i (cw_store w) = (cw_store w, Ok (Some sn)) →
  ConversationTurnState.is_terminal (ConversationTurn.state (ConversationTurnSnapshot.turn sn)) = true →
  ConversationMemory.load_turn i (cw_store w') = (cw_store w', Ok (Some sn)) ∧
  (∃ ctx, ConversationMemory.load_turn_context i (cw_store w) = (cw_store w, Ok ctx) ∧
     ConversationMemory.load_turn_context i (cw_store w') = (cw_store w', Ok ctx)) ∧
  (∀ after limit, 1 ≤ limit ≤ MAX_CONVERSATION_EVENT_BATCH → ∃ page,
     ConversationMemory.list_turn_events_since i after limit (cw_store w) = (cw_store w, Ok page) ∧
     ConversationMemory.list_turn_events_since i after limit (cw_store w') = (cw_store w', Ok page)) ∧
  (∃ evs, conversation_events (cw_store w') !! i = Some evs ∧
     ∀ a, ConversationTurnSnapshot.assistant_message sn = Some a →
       streamed_text evs = Message.content a).
Proof.
  intros Hr%conv_reachable_inv Hs Hload Hterm. destruct (conv_steps_ok _ _ Hs Hr) as [Hr' Hle].
  destruct (load_turn_inv _ _ _ _ Hr Hload) as (t & Ht & Hok).
  rewrite (to_turn _ _ _ Hok) in Hterm. apply live_false in Hterm as Hl.
  pose proof (final_turn _ _ _ _ Hle Ht Hl) as Ht'.
  pose proof (le_final _ _ Hle _ _ Ht Hl) as Hsame.
  pose proof (turn_ok_frame _ _ _ _ _ (wi_store _ Hr) Hle Ht Hsame Hok) as Hok'.
  destruct (ci_context _ (wi_store _ Hr) _ _ Ht) as (ctx & Hx & _).
  pose proof (to_events _ _ _ Hok') as (evs & log & He & Hlog & Hv).
  destruct (ci_turn _ (wi_store _ Hr) _ _ Ht) as [Hid _]. rewrite Hid in *.
  assert (Hev : conversation_events (cw_store w) !! i = Some evs).
  { destruct Hsame as (_ & _ & Ev). congruence. }
  split_and!.
  - by eapply load_turn_Ok.
  - exists ctx. unfold ConversationMemory.load_turn_context. run_unfold.
    rewrite Hx, (lookup_weaken _ _ _ _ Hx (le_contexts _ _ Hle)). done.
  - intros after limit Hlim. exists (event_page evs after limit). split; by eapply list_events_Ok.
  - exists evs. split; [done|]. intros a Ha. rewrite <- (restore_text _ _ _ Hlog).
    destruct (canonical_linked _ (to_canonical _ _ _ Hok)) as [_ _ _ _ _ _ _ Han _ _].
    destruct (Han a Ha) as (Hcomp & _). rewrite (to_turn _ _ _ Hok) in Hcomp.
    unfold ConversationTurnEventLog.validate_snapshot in Hv. rewrite Ha, Hcomp in Hv.
    split_binds Hv. apply reject_if_Ok in Hv. bool_facts. by simplify_eq/=.
Qed.

(** ** Replays *)

Lemma reserve_replays w t l source um run event kind i u sn ctx :
  world_inv w →
  negb (is_canonical_reservation_input t um run event)
    || negb (is_ok (ConversationTurnLineage.restore l (ConversationTurn.id t)))
    || negb (reservation_source_matches_lineage source l)
    || (kind != ConversationTurnEventKind.Created) = false →
  conversation_turn_keys (cw_store w) !! ConversationTurn.idempotency_key t = Some i →
  conversation_turns (cw_store w) !! i = Some u → turn_ok (cw_store w) u sn →
  conversation_contexts (cw_store w) !! i = Some ctx →
  ConversationMemory.reserve_turn t l source um run event kind (cw_store w) = (cw_store w,
    if (ConversationTurn.request_fingerprint u == ConversationTurn.request_fingerprint t)
       && (conversation_lineages (cw_store w) !! i == Some l)
    then Ok (ConversationTurnReservation.mk sn ctx false) else Err Conflict).
Proof.
  intros Hw Hg Hk Hu Hok Hx. unfold ConversationMemory.reserve_turn.
  rewrite (guard_run _ _ _ _ Hg), self_run, Hk. unfold lift. f_equal.
  unfold ConversationMemory.replay_reservation. rewrite Hu. cbn [ok_or mbind result_bind].
  destruct (ConversationTurn.request_fingerprint u == _); cbn [negb andb reject_if]; [|done].
  destruct (conversation_lineages _ !! i == _); cbn [negb andb reject_if]; [|done].
  unfold mbind, result_bind. rewrite (load_Ok _ _ _ _ _ (wi_workspace _ Hw) (wi_store _ Hw) Hu Hok).
  by rewrite Hx.
Qed.

Lemma reserve_guard t l source um run event kind s s1 res :
  ConversationMemory.reserve_turn t l source um run event kind s = (s1, Ok res) →
  negb (is_canonical_reservation_input t um run event)
    || negb (is_ok (ConversationTurnLineage.restore l (ConversationTurn.id t)))
    || negb (reservation_source_matches_lineage source l)
    || (kind != ConversationTurnEventKind.Created) = false.
Proof.
  unfold ConversationMemory.reserve_turn. intros H.
  apply readonly_bind_Ok in H as (u & G%throw_if_Ok & _); [done|apply readonly_throw_if].
Qed.

(** The world after an accepted call. *)
Lemma call_world {A} op (m : method CS StoreError A) w s1 a :
  conv_exec op = discard m → starts op (Ok tt) = [] → world_inv w → conv_typed op →
  m (cw_store w) = (s1, Ok a) → world_inv (ConvWorld s1 (cw_held w) (cw_started w)).
Proof.
  intros He Hst Hw Hty H. destruct w as [s0 h0 l0].
  pose proof (conv_call s0 h0 l0 op s1 (Ok tt) Hty) as Hc. rewrite Hst, He in Hc.
  apply (conv_step_ok _ _ (Hc (discard_run _ _ _ _ H)) Hw).
Qed.

(** What an accepted reservation stores, now or before. *)
Lemma reserved_facts w t l source um run event kind s1 res :
  world_inv w → conv_typed (OReserve t l source um run event kind) →
  ConversationMemory.reserve_turn t l source um run event kind (cw_store w) = (s1, Ok res) →
  let i := ConversationTurn.id (ConversationTurnSnapshot.turn (ConversationTurnReservation.snapshot res)) in
  ∃ u, conversation_turns s1 !! i = Some u ∧
    turn_ok s1 u (ConversationTurnReservation.snapshot res) ∧
    conversation_turn_keys s1 !! ConversationTurn.idempotency_key t = Some i ∧
    conversation_contexts s1 !! i = Some (ConversationTurnReservation.context res) ∧
    conversation_lineages s1 !! i = Some l ∧
    ConversationTurn.request_fingerprint u = ConversationTurn.request_fingerprint t.
Proof.
  intros Hw [Hid _] H.
  apply (reserve_ok _ _ _ _ _ _ _ _ _ _ _ (wi_workspace _ Hw) (wi_store _ Hw) Hid) in H
    as [[_ Hf]|[(-> & i & u & sn & ctx & Hk & Hu & Hok & Hx & Hfp & Hl & Hr)|
        (ctx & sn & Hi & _ & _ & Hok & Hx & _ & Hr)]]; [done|..]; injection Hr as ->; cbn;
    rewrite (to_turn _ _ _ Hok).
  - destruct (ci_turn _ (wi_store _ Hw) _ _ Hu) as [-> _]. by exists u.
  - exists t. rewrite (ti_new _ _ _ _ _ Hi), (ti_keys _ _ _ _ _ Hi), (ti_lineages _ _ _ _ _ Hi).
    by rewrite !lookup_insert_eq.
Qed.

(** C17. A reservation happens once per key. After a reservation was accepted, repeating
    it in any later state changes nothing and returns the same turn, in its current state,
    with the same context, marked as not created; a reservation under the same key with
    another request fingerprint or another lineage is refused. *)
Theorem reservation_once w t l source um run event kind s1 res w2 :
  conv_reachable w → conv_typed (OReserve t l source um run event kind) →
  ConversationMemory.reserve_turn t l source um run event kind (cw_store w) = (s1, Ok res) →
  rtc conv_step (ConvWorld s1 (cw_held w) (cw_started w)) w2 →
  let i := ConversationTurn.id (ConversationTurnSnapshot.turn (ConversationTurnReservation.snapshot res)) in
  ∃ sn, ConversationMemory.load_turn i (cw_store w2) = (cw_store w2, Ok (Some sn)) ∧
    same_turn (ConversationTurnSnapshot.turn (ConversationTurnReservation.snapshot res))
      (ConversationTurnSnapshot.turn sn) ∧
    ConversationMemory.reserve_turn t l source um run event kind (cw_store w2) = (cw_store w2,
      Ok (ConversationTurnReservation.mk sn (ConversationTurnReservation.context res) false)) ∧
    ∀ t' l' source' um' run' event',
      is_canonical_reservation_input t' um' run' event' = true →
      is_ok (ConversationTurnLineage.restore l' (ConversationTurn.id t')) = true →
      reservation_source_matches_lineage source' l' = true →
      ConversationTurn.idempotency_key t' = ConversationTurn.idempotency_key t →
      ConversationTurn.request_fingerprint t' ≠ ConversationTurn.request_fingerprint t ∨ l' ≠ l →
      ConversationMemory.reserve_turn t' l' source' um' run' event' ConversationTurnEventKind.Created
        (cw_store w2) = (cw_store w2, Err Conflict).
Proof.
  intros Hr%conv_reachable_inv Hty H Hs i. pose proof (reserve_guard _ _ _ _ _ _ _ _ _ _ H) as Hg.
  destruct (reserved_facts _ _ _ _ _ _ _ _ _ _ Hr Hty H) as (u & Hu & Hok & Hk & Hx & Hl & Hfp).
  fold i in Hu, Hk, Hx, Hl.
  pose proof (call_world (OReserve t l source um run event kind) _ _ _ _ eq_refl eq_refl Hr Hty H) as Hr1.
  destruct (conv_steps_ok _ _ Hs Hr1) as [Hr2 Hle]. cbn in Hle.
  destruct (le_turn _ _ Hle _ _ Hu) as (u2 & Hu2 & Hcalls).
  pose proof (turn_calls_same _ _ Hcalls) as Hsame. pose proof Hsame as (_ & _ & Hfp2 & _).
  destruct (ci_turn _ (wi_store _ Hr2) _ _ Hu2) as (_ & sn & Hok2).
  pose proof (lookup_weaken _ _ _ _ Hk (le_keys _ _ Hle)) as Hk2.
  pose proof (lookup_weaken _ _ _ _ Hx (le_contexts _ _ Hle)) as Hx2.
  pose proof (lookup_weaken _ _ _ _ Hl (le_lineages _ _ Hle)) as Hl2.
  exists sn. split_and!.
  - by eapply load_turn_Ok.
  - by rewrite (to_turn _ _ _ Hok), (to_turn _ _ _ Hok2).
  - rewrite (reserve_replays _ _ _ _ _ _ _ _ _ _ _ _ Hr2 Hg Hk2 Hu2 Hok2 Hx2).
    by rewrite Hl2, !bool_decide_eq_true_2 by congruence.
  - intros t' l' source' um' run' event' G1 G2 G3 Ek Hdiff. rewrite <- Ek in Hk2.
    erewrite (reserve_replays w2 t' l' source' um' run' event' _ i u2 sn _ Hr2);
      [|by rewrite G1, G2, G3, bool_decide_eq_true_2|done..].
    rewrite Hl2. f_equal.
    destruct (ConversationTurn.request_fingerprint u2 == _) eqn:E1; [|done].
    destruct (Some l == _) eqn:E2; [|done].
    bool_facts. simplify_eq. destruct Hdiff; congruence.
Qed.

Lemma cancel_recorded commit scope s s1 sn :
  conversation_cancel_commands s !! cancel_key commit = None →
  ConversationMemory.commit_conversation_cancellation commit scope s = (s1, Ok sn) → s1 ≠ s.
Proof.
  intros Hn H ->. unfold ConversationMemory.commit_conversation_cancellation in H.
  apply readonly_bind_Ok in H as (u & _ & H); [|apply readonly_throw_if]. apply self_bind in H.
  fold (cancel_key commit) in H. rewrite Hn in H.
  apply readonly_bind_Ok in H as (cur & _ & H); [|apply readonly_lift].
  apply method_bind_Ok in H as (s2 & o & _ & H). injection H as <- _.
  unfold cancel_key in Hn. cbn in Hn. by rewrite lookup_insert_eq in Hn.
Qed.

(** What an accepted cancellation leaves, now or before. *)
Lemma cancelled_facts w commit scope s1 sn :
  world_inv w → cancellation_typed commit →
  ConversationMemory.commit_conversation_cancellation commit scope (cw_store w) = (s1, Ok sn) →
  MutationCommand.scope (CancelConversationTurnCommit.command commit) = scope ∧
  ∃ t, conversation_cancel_commands s1 !! cancel_key commit = Some (cancel_record commit t) ∧
    conversation_turns s1 !! CancelConversationTurnCommit.turn_id commit = Some t ∧
    turn_ok s1 t sn ∧ live t = false.
Proof.
  intros Hw Hty H. pose proof H as H0. unfold ConversationMemory.commit_conversation_cancellation in H0.
  apply readonly_bind_Ok in H0 as (u & G%throw_if_Ok & H0); [|apply readonly_throw_if].
  apply self_bind in H0. bool_facts. split; [done|].
  change (MutationCommand.scope _, MutationCommand.key _) with (cancel_key commit) in H0.
  destruct (conversation_cancel_commands (cw_store w) !! cancel_key commit) as [r|] eqn:Er.
  - injection H0 as <- H0. unfold ConversationMemory.replay_cancellation in H0. split_binds H0.
    injection H0 as <-. read_facts. destruct (ci_cancelled _ (wi_store _ Hw) _ _ Er) as (t & Ht & Hl & Es & En).
    destruct (ci_turn _ (wi_store _ Hw) _ _ Ht) as (_ & sn' & Hok).
    match goal with E : conversation_snapshot _ ?x = Ok _ |- _ =>
      assert (x = t) as -> by congruence;
      rewrite (load_Ok _ _ _ _ _ (wi_workspace _ Hw) (wi_store _ Hw) Ht Hok) in E; injection E as -> end.
    exists t. rewrite Er. unfold cancel_record. rewrite Es, En. destruct r; cbn in *.
    split_and!; congruence.
  - destruct (cancel_ok _ _ _ _ _ _ (wi_workspace _ Hw) (wi_store _ Hw) (cancellation_cancel _ Hty) H)
      as [->|(s2 & t & sn' & _ & Ht & Hl & Hok & _ & -> & [= ->])].
    + by apply cancel_recorded in H.
    + exists t. unfold with_cancel. cbn. rewrite lookup_insert_eq. split_and!; try done.
      destruct Hok as [E1 [] E3 E4 E5]. by split.
Qed.

Lemma cancel_replays w commit scope t sn :
  world_inv w → MutationCommand.scope (CancelConversationTurnCommit.command commit) = scope →
  conversation_turns (cw_store w) !! CancelConversationTurnCommit.turn_id commit = Some t →
  turn_ok (cw_store w) t sn → live t = false →
  ∀ commit', cancel_key commit' = cancel_key commit →
  conversation_cancel_commands (cw_store w) !! cancel_key commit = Some (cancel_record commit t) →
  ConversationMemory.commit_conversation_cancellation commit' scope (cw_store w) = (cw_store w,
    if (MutationCommand.fingerprint (CancelConversationTurnCommit.command commit)
        == MutationCommand.fingerprint (CancelConversationTurnCommit.command commit'))
       && (CancelConversationTurnCommit.turn_id commit == CancelConversationTurnCommit.turn_id commit')
    then Ok sn else Err Conflict).
Proof.
  intros Hw Hsc Ht Hok Hl%live_false commit' Ek Er.
  unfold ConversationMemory.commit_conversation_cancellation.
  assert (MutationCommand.scope (CancelConversationTurnCommit.command commit') = scope) as Esc.
  { unfold cancel_key in Ek. congruence. }
  rewrite guard_run by (by rewrite Esc, bool_decide_eq_true_2). rewrite self_run.
  change (MutationCommand.scope _, MutationCommand.key _) with (cancel_key commit').
  rewrite Ek, Er. unfold lift. f_equal. unfold ConversationMemory.replay_cancellation. cbn [cancel_record
    ConversationCancelCommandRecord.fingerprint ConversationCancelCommandRecord.turn_id
    ConversationCancelCommandRecord.outcome_state ConversationCancelCommandRecord.outcome_revision].
  destruct (MutationCommand.fingerprint _ == _); cbn [negb orb andb]; [|done].
  destruct (CancelConversationTurnCommit.turn_id commit == _); cbn [negb orb andb]; [|done].
  unfold mbind, result_bind. cbn [reject_if]. rewrite Ht. cbn [ok_or].
  rewrite (load_Ok _ _ _ _ _ (wi_workspace _ Hw) (wi_store _ Hw) Ht Hok), (to_turn _ _ _ Hok), Hl.
  by rewrite !bool_decide_eq_true_2 by done.
Qed.

(** C18. A cancellation or reconciliation happens once. After one was accepted, repeating
    it in any later state changes nothing and returns the same finished snapshot, and the
    same command with another fingerprint or for another turn is refused. *)
Theorem cancellation_once w commit scope s1 sn w2 :
  conv_reachable w → cancellation_typed commit →
  ConversationMemory.commit_conversation_cancellation commit scope (cw_store w) = (s1, Ok sn) →
  rtc conv_step (ConvWorld s1 (cw_held w) (cw_started w)) w2 →
  ConversationTurnState.is_terminal (ConversationTurn.state (ConversationTurnSnapshot.turn sn)) = true ∧
  ConversationMemory.commit_conversation_cancellation commit scope (cw_store w2) = (cw_store w2, Ok sn) ∧
  ∀ commit', cancel_key commit' = cancel_key commit →
    MutationCommand.fingerprint (CancelConversationTurnCommit.command commit')
      ≠ MutationCommand.fingerprint (CancelConversationTurnCommit.command commit) ∨
    CancelConversationTurnCommit.turn_id commit' ≠ CancelConversationTurnCommit.turn_id commit →
    ConversationMemory.commit_conversation_cancellation commit' scope (cw_store w2)
      = (cw_store w2, Err Conflict).
Proof.
  intros Hr%conv_reachable_inv Hty H Hs.
  destruct (cancelled_facts _ _ _ _ _ Hr Hty H) as (Hsc & t & Hrec & Ht & Hok & Hl).
  destruct (cancellation_step _ _ _ _ _ _ (wi_workspace _ Hr) (wi_store _ Hr) Hty H)
    as (Hw1 & Hst & Hfr).
  assert (Hr1 : world_inv (ConvWorld s1 (cw_held w) (cw_started w))).
  { destruct w as [s0 h0 l0]. apply (stepped_inv _ _ _ _ _ [] Hr Hw1 Hst); [constructor..|].
    by eapply (stepped_frame s0 h0 s1 h0); try apply Hr. }
  destruct (conv_steps_ok _ _ Hs Hr1) as [Hr2 Hle]. cbn in Hle.
  pose proof (final_turn _ _ _ _ Hle Ht Hl) as Ht2.
  pose proof (turn_ok_frame _ _ _ _ _ (wi_store _ Hr1) Hle Ht (le_final _ _ Hle _ _ Ht Hl) Hok) as Hok2.
  pose proof (lookup_weaken _ _ _ _ Hrec (le_cancels _ _ Hle)) as Hrec2.
  pose proof (cancel_replays _ _ _ _ _ Hr2 Hsc Ht2 Hok2 Hl) as Hrep.
  split_and!.
  - rewrite (to_turn _ _ _ Hok). by apply live_false.
  - by rewrite Hrep, !bool_decide_eq_true_2 by done.
  - intros commit' Ek Hdiff. rewrite Hrep by done. f_equal.
    destruct (MutationCommand.fingerprint _ == _) eqn:E1; [|done].
    destruct (CancelConversationTurnCommit.turn_id commit == _) eqn:E2; [|done].
    bool_facts. destruct Hdiff; congruence.
Qed.
End properties.

(** ** A conversation

    One turn from its reservation to its answer, for the witnesses. *)

#[local] Existing Instance UtcCalendar.chrono.
#[local] Existing Instance demo_sha.
#[local] Existing Instance demo_json.
#[local] Existing Instance demo_unicode.
#[local] Existing Instance demo_urls.

Definition demo_prompt : Message.t :=
  Message.mk (mk_id (lit "message-1")) (mk_id (lit "thread-1")) 0 MessageRole.User (lit "Hello")
    MessageState.Active ConversationMessageDerivation.Original 0 10 10.
Definition demo_lineage : ConversationTurnLineage.t :=
  ConversationTurnLineage.mk ConversationTurnOrigin.Original (Some (lit "binding-1"))
    ChatRail.XaiApiKey 0.
Definition demo_run : Run.t :=
  Run.queued (mk_id (lit "run-1")) (mk_id (lit "project-1")) (mk_id (lit "thread-1")) 10.
Definition demo_reserve : conv_op :=
  OReserve demo_turn demo_lineage ConversationTurnReservationSource.CurrentThread demo_prompt
    demo_run (NewRunEvent.mk 10 RunCreated) ConversationTurnEventKind.Created.

Definition demo_started_turn : ConversationTurn.t :=
  (turn_apply (TStart (mk_id (lit "effect-1")) (repeat 2 32)) 12 demo_turn).1.
Definition demo_started_run : Run.t := (run_started 12 demo_run).1.
Definition demo_effect : SideEffect.t :=
  (SideEffect.start 12 (provider_effect (mk_id (lit "effect-1")) (mk_id (lit "run-1"))
     (lit "grok-4") 12)).1.
Definition demo_start : ProviderStartCommit.t :=
  ProviderStartCommit.mk demo_started_turn 0 demo_started_run 0 demo_effect
    [NewRunEvent.mk 12 (RunStateChanged RunState.Queued RunState.Planning);
     NewRunEvent.mk 12 (RunStateChanged RunState.Planning RunState.Running);
     NewRunEvent.mk 12 (RunEffectPrepared (mk_id (lit "effect-1")))]
    (ConversationTurnEventKind.StateChanged ConversationTurnState.Reserved
       ConversationTurnState.ProviderStarted).

Definition demo_answer : Message.t :=
  Message.mk (mk_id (lit "message-2")) (mk_id (lit "thread-1")) 0 MessageRole.Assistant
    (lit "Hi there") MessageState.Active ConversationMessageDerivation.Original 0 14 14.
Definition demo_completed_turn : ConversationTurn.t :=
  (turn_apply (TComplete (mk_id (lit "message-2")) None [] (ConversationUsage.mk 5 7 9) None) 14
     demo_started_turn).1.
Definition demo_terminal : TerminalTurnCommit.t :=
  TerminalTurnCommit.mk demo_completed_turn 1 (Run.transition RunState.Completed 14 demo_started_run).1
    2 (Some (SideEffect.finish true 14 demo_effect).1) (Some 1) (Some demo_answer)
    [NewRunEvent.mk 14 (RunStateChanged RunState.Running RunState.Completed)]
    (ConversationTurnEventKind.StateChanged ConversationTurnState.ProviderStarted
       ConversationTurnState.Completed).

Definition demo_text : conv_op := OAppend (mk_id (lit "turn-1")) 1 0 (lit "Hi there").
Definition after_ops (ops : list conv_op) (s : CS) : CS := foldl (λ s op, (conv_exec op s).1) s ops.
Definition demo_conversation0 : CS :=
  ConversationState.empty <| ConversationState.workspace := demo_store2 |>.
Definition demo_conversation (ops : list conv_op) : CS := after_ops ops demo_conversation0.

Lemma conv_commits w (s : CS) h l :
  commits (ConversationState.workspace s) w → conv_reachable (ConvWorld s h l) →
  ∃ h', conv_reachable (ConvWorld (s <| ConversationState.workspace := w |>) h' l).
Proof.
  intros Hc Hr. exists (hold_all (ConversationState.workspace s) h). unfold conv_reachable in *.
  etrans; [exact Hr|]. eapply rtc_l; [apply conv_read, reads_hold_all|].
  destruct Hc as [->|(op & r & Ha & Hx)]; [by destruct s|]. apply rtc_once. eapply conv_workspace; [|done].
  eapply allowed_mono; [|done]. split_and!; intros x Hx'; apply elem_of_app; by left.
Qed.
Lemma conv_apply c key now g (s : CS) h l :
  conv_reachable (ConvWorld s h l) → ∃ h', conv_reachable (ConvWorld
    (s <| ConversationState.workspace := demo_apply c key now g (ConversationState.workspace s) |>) h' l).
Proof.
  intros Hr. apply (conv_commits _ _ h); [|done]. unfold demo_apply.
  destruct (workspace_apply c key now g _) as [w r] eqn:E.
  pose proof (wi_workspace _ (conv_reachable_inv _ Hr)) as Hi. cbn in Hi.
  by destruct (workspace_handled _ _ _ _ _ _ _ _ Hi E) as [Hc _].
Qed.
Lemma after_ops_steps ops (s : CS) h l :
  Forall conv_typed ops →
  ∃ l', rtc conv_step (ConvWorld s h l) (ConvWorld (after_ops ops s) h l').
Proof.
  revert s l. induction ops as [|op ops IH]; intros s l Hty; [by exists l|].
  apply Forall_cons in Hty as [Hop Hty]. cbn [after_ops foldl].
  destruct (conv_exec op s) as [s' r] eqn:E. destruct (IH s' (starts op r ++ l) Hty) as [l' Hl'].
  exists l'. eapply rtc_l; [by apply conv_call|exact Hl'].
Qed.
Lemma demo_conversation_reachable ops :
  Forall conv_typed ops → ∃ h l, conv_reachable (ConvWorld (demo_conversation ops) h l).
Proof.
  assert (H0 : ∃ h l, conv_reachable (ConvWorld demo_conversation0 h l)).
  { destruct (conv_apply (CmdCreateProject (CreateProject.mk (lit "Research") [])) (lit "key-1") 10
      (lit "project-1") ConversationState.empty no_snapshots []) as [h1 H1]; [apply rtc_refl|].
    destruct (conv_apply (CmdCreateThread (CreateThread.mk (lit "project-1") (lit "Plan")))
      (lit "key-2") 20 (lit "thread-1") _ _ _ H1) as [h2 H2]. exists h2, []. exact H2. }
  intros Hty. destruct H0 as (h & l & Hr). destruct (after_ops_steps ops demo_conversation0 h l Hty) as [l' Hs].
  exists h, l'. unfold conv_reachable in *. by etrans.
Qed.

Definition demo_ops : list conv_op := [demo_reserve; OStart demo_start; demo_text; OTerminal demo_terminal].
Lemma is_u64_decide n : bool_decide (0 ≤ n ≤ u64_max) = true → is_u64 n.
Proof. apply bool_decide_eq_true_1. Qed.
Lemma valid_id_decide v :
  bool_decide (1 ≤ len v ≤ 128) && negb (existsb is_control v) = true → valid_id v.
Proof.
  intros [H1%bool_decide_eq_true_1 H2%negb_true_iff]%andb_true_iff. split; [done|].
  by apply existsb_false_Forall.
Qed.
Ltac typed_op := repeat split; try (apply valid_id_decide); try (apply is_u64_decide); vm_compute; reflexivity.
Lemma demo_typed : Forall conv_typed demo_ops.
Proof. repeat (apply Forall_cons; split); try (by constructor); typed_op. Qed.

Lemma conversation_store_consistent_witness :
  ∃ sn ctx b, ConversationMemory.load_turn (mk_id (lit "turn-1")) (demo_conversation demo_ops)
      = (demo_conversation demo_ops, Ok (Some sn)) ∧
    ConversationMemory.load_turn_context (mk_id (lit "turn-1")) (demo_conversation demo_ops)
      = (demo_conversation demo_ops, Ok ctx) ∧
    ConversationMemory.thread_credential_binding (mk_id (lit "thread-1")) (demo_conversation demo_ops)
      = (demo_conversation demo_ops, Ok (ConversationThreadCredentialBinding.Bound b)).
Proof.
  destruct (demo_conversation_reachable demo_ops demo_typed) as (h & l & Hr).
  destruct (proj1 (conversation_store_consistent _ Hr) (mk_id (lit "turn-1")) demo_completed_turn)
    as (sn & ctx & b & H1 & _ & H2 & _ & _ & _ & _ & _ & H3 & _).
  { vm_compute. reflexivity. }
  exists sn, ctx, b. split_and!; [exact H1|exact H2|exact H3].
Defined.

Lemma provider_started_once_witness :
  ConversationMemory.commit_provider_start demo_start (demo_conversation demo_ops)
    = (demo_conversation demo_ops, Err Conflict).
Proof.
  destruct (demo_conversation_reachable demo_ops demo_typed) as (h & l & Hr).
  destruct (provider_started_once _ Hr) as (_ & _ & H1 & H2).
  apply (H2 (mk_id (lit "turn-1")) (mk_id (lit "effect-1"))); [|vm_compute; reflexivity].
  apply H1. exists demo_completed_turn. split; vm_compute; reflexivity.
Defined.

Definition demo_late_text : conv_op := OAppend (mk_id (lit "turn-1")) 2 0 (lit "too late").
Lemma finished_turn_is_durable_witness :
  ∃ sn, ConversationMemory.load_turn (mk_id (lit "turn-1")) (demo_conversation (demo_ops ++ [demo_late_text]))
      = (demo_conversation (demo_ops ++ [demo_late_text]), Ok (Some sn)) ∧
    ConversationTurnSnapshot.turn sn = demo_completed_turn.
Proof.
  destruct (demo_conversation_reachable demo_ops demo_typed) as (h & l & Hr).
  destruct (after_ops_steps [demo_late_text] (demo_conversation demo_ops) h l) as [l' Hs];
    [by repeat constructor|].
  destruct (ConversationMemory.load_turn (mk_id (lit "turn-1")) (demo_conversation demo_ops))
    as [s1 [[sn|]|e]] eqn:E; [|apply (f_equal snd) in E; vm_compute in E; discriminate E..].
  assert (s1 = demo_conversation demo_ops) as -> by (apply (f_equal fst) in E; vm_compute in E; vm_compute; congruence).
  assert (Et : ConversationTurnSnapshot.turn sn = demo_completed_turn).
  { apply (f_equal snd) in E. vm_compute in E. injection E as <-. vm_compute. reflexivity. }
  exists sn. split; [|exact Et].
  replace (demo_conversation (demo_ops ++ [demo_late_text])) with (after_ops [demo_late_text] (demo_conversation demo_ops))
    by (vm_compute; reflexivity).
  apply (proj1 (finished_turn_is_durable _ _ (mk_id (lit "turn-1")) sn Hr Hs E
    ltac:(rewrite Et; vm_compute; reflexivity))).
Defined.

Lemma reservation_once_witness :
  ∃ sn ctx, ConversationMemory.reserve_turn demo_turn demo_lineage
      ConversationTurnReservationSource.CurrentThread demo_prompt demo_run
      (NewRunEvent.mk 10 RunCreated) ConversationTurnEventKind.Created (demo_conversation demo_ops)
      = (demo_conversation demo_ops, Ok (ConversationTurnReservation.mk sn ctx false)).
Proof.
  destruct (demo_conversation_reachable [] (Forall_nil_2 _)) as (h & l & Hr).
  pose proof demo_typed as [Hty Htail]%Forall_cons.
  destruct (ConversationMemory.reserve_turn demo_turn demo_lineage
    ConversationTurnReservationSource.CurrentThread demo_prompt demo_run
    (NewRunEvent.mk 10 RunCreated) ConversationTurnEventKind.Created (demo_conversation [])) as [s1 [res|e]] eqn:E;
    [|apply (f_equal snd) in E; vm_compute in E; discriminate E].
  assert (Es : s1 = demo_conversation [demo_reserve]).
  { apply (f_equal fst) in E. vm_compute in E. vm_compute. congruence. }
  destruct (after_ops_steps (tail demo_ops) s1 h l Htail) as [l' Hs].
  destruct (reservation_once _ _ _ _ _ _ _ _ _ _ _ Hr Hty E Hs) as (sn & _ & _ & Hrep & _).
  exists sn, (ConversationTurnReservation.context res).
  replace (demo_conversation demo_ops) with (after_ops (tail demo_ops) s1)
    by (rewrite Es; vm_compute; reflexivity).
  exact Hrep.
Defined.

Definition demo_cancel : CancelConversationTurnCommit.t :=
  CancelConversationTurnCommit.mk
    (MutationCommand.mk (lit "cancel_conversation_turn") (lit "cancel-1") (repeat 7 32))
    (mk_id (lit "turn-1")) 0
    (Some (TerminalTurnCommit.mk (turn_apply TCancel 13 demo_turn).1 0
       (Run.transition RunState.Cancelled 13 demo_run).1 0 None None None
       [NewRunEvent.mk 13 (RunStateChanged RunState.Queued RunState.Cancelled)]
       (ConversationTurnEventKind.StateChanged ConversationTurnState.Reserved
          ConversationTurnState.Cancelled))).

Lemma demo_cancel_typed : cancellation_typed demo_cancel.
Proof. typed_op. Qed.

Lemma cancellation_once_witness :
  ∃ s1 sn, ConversationMemory.commit_conversation_cancellation demo_cancel
      (lit "cancel_conversation_turn") (demo_conversation [demo_reserve]) = (s1, Ok sn) ∧
    ConversationMemory.commit_conversation_cancellation demo_cancel
      (lit "cancel_conversation_turn") s1 = (s1, Ok sn).
Proof.
  pose proof demo_typed as [Hty _]%Forall_cons.
  destruct (demo_conversation_reachable [demo_reserve] ltac:(by repeat constructor)) as (h & l & Hr).
  destruct (ConversationMemory.commit_conversation_cancellation demo_cancel
    (lit "cancel_conversation_turn") (demo_conversation [demo_reserve])) as [s1 [sn|e]] eqn:E;
    [|apply (f_equal snd) in E; vm_compute in E; discriminate E].
  exists s1, sn. split; [reflexivity|].
  exact (proj1 (proj2 (cancellation_once _ _ _ _ _ (ConvWorld s1 h l) Hr demo_cancel_typed E (rtc_refl _ _)))).
Defined.
