(* ===== verification/ConversationText.v ===== *)
(** * Streamed text and usage totals

    The text of a provider response reaches the store in appends that a service may repeat
    after a lost answer ([append_turn_text], [split_conversation_text] and
    [replayed_text_append] of [crates/grok-memory/src/lib.rs]); token counts are summed over
    the completed turns of a scope ([summarize_usage]). *)
From stdpp Require Import sorting.
From S2P Require Import Prelude RustText Ids Runs Approvals Effects ConversationTurns TurnEvents Schedules Scheduler Workspace ExecutionStore Commands WorkspaceStore WorkspaceServices WorkspaceWorld ConversationStore ConversationWorld ConversationReserve ConversationSafety.

(** ** Chunks *)

Lemma floor_prefix_split n s :
  s = floor_prefix n s ++ drop (length (floor_prefix n s)) s.
Proof.
  revert n. induction s as [|c s IH]; intros n; cbn; [done|].
  destruct (_ <=? _); cbn; [|done]. by rewrite <- IH.
Qed.
Lemma floor_prefix_len n s : 0 ≤ n → len (floor_prefix n s) ≤ n.
Proof.
  revert n. induction s as [|c s IH]; intros n Hn; cbn; [rewrite ?len_nil; lia|].
  destruct (_ <=? _) eqn:E; [|rewrite len_nil; lia]. apply Z.leb_le in E.
  rewrite len_cons. specialize (IH (n - len_utf8 c)). lia.
Qed.
Lemma floor_prefix_nonempty n s : s ≠ [] → 4 ≤ n → floor_prefix n s ≠ [].
Proof.
  destruct s as [|c s]; [done|]. intros _ Hn. cbn. pose proof (len_utf8_bounds c).
  by rewrite (proj2 (Z.leb_le _ _)) by lia.
Qed.
Lemma floor_prefix_all s n : len s ≤ n → floor_prefix n s = s.
Proof.
  revert n. induction s as [|c s IH]; intros n Hn; cbn; [done|]. rewrite len_cons in Hn.
  pose proof (len_nonneg s). rewrite (proj2 (Z.leb_le _ _)) by lia. f_equal. apply IH. lia.
Qed.

(** A piece of text as [append_turn_text] stores it. *)
Definition chunk_fits (c : str) : Prop := c ≠ [] ∧ len c ≤ MAX_CONVERSATION_TEXT_CHUNK_BYTES.

Lemma split_chunks_ok fuel s :
  (length s ≤ fuel)%nat → mjoin (split_chunks fuel s) = s ∧ Forall chunk_fits (split_chunks fuel s).
Proof.
  revert s. induction fuel as [|fuel IH]; intros s Hf.
  { destruct s; [split; [done|constructor]|cbn in Hf; lia]. }
  cbn. destruct (is_empty s) eqn:Ee.
  { apply is_empty_spec in Ee as ->. split; [done|constructor]. }
  assert (Hs : s ≠ []). { intros ->. done. }
  set (c := floor_prefix (Z.min (len s) MAX_CONVERSATION_TEXT_CHUNK_BYTES) s).
  assert (Hc : chunk_fits c).
  { split.
    - destruct (decide (len s ≤ MAX_CONVERSATION_TEXT_CHUNK_BYTES)).
      + unfold c. rewrite floor_prefix_all; [done|]. lia.
      + apply floor_prefix_nonempty; [done|]. change MAX_CONVERSATION_TEXT_CHUNK_BYTES with 16384 in *. lia.
    - etrans; [apply floor_prefix_len|lia]. pose proof (len_nonneg s).
      change MAX_CONVERSATION_TEXT_CHUNK_BYTES with 16384. lia. }
  destruct (IH (drop (length c) s)) as [E F].
  { rewrite length_drop. destruct Hc as [Hn _]. destruct c; [done|]. cbn. lia. }
  split; [|by constructor]. change (c ++ mjoin (split_chunks fuel (drop (length c) s)) = s).
  rewrite E. symmetry. apply floor_prefix_split.
Qed.
Lemma split_text_ok s : mjoin (split_conversation_text s) = s ∧ Forall chunk_fits (split_conversation_text s).
Proof. by apply split_chunks_ok. Qed.
Lemma chunks_empty cs : Forall chunk_fits cs → len (mjoin cs) = 0 → cs = [].
Proof.
  destruct 1 as [|c cs [Hc _] _]; [done|].
  change (len (c ++ mjoin cs) = 0 → c :: cs = []). rewrite len_app. intros E.
  pose proof (len_nonneg c). pose proof (len_nonneg (mjoin cs)).
  assert (len c = 0) as ?%len_zero by lia. done.
Qed.

(** ** Replaying an append *)

(** A scan that has found the whole text stops there, whatever events follow. *)
Lemma replay_scan_app evs more off text found replay actual expected out :
  replay_scan evs off text found replay actual expected = Some (true, text, out) →
  len actual < len text →
  replay_scan (evs ++ more) off text found replay actual expected = Some (true, text, out).
Proof.
  revert found replay actual expected. induction evs as [|e evs IH]; intros found replay actual expected H Hl; cbn in *.
  { injection H as _ -> _. lia. }
  destruct (ConversationTurnEvent.kind e) as [|from to|o chunk].
  - destruct found; [injection H as -> _; lia|eauto].
  - destruct found; [injection H as -> _; lia|eauto].
  - destruct (negb found && _); [eauto|]. destruct (_ || _); [done|].
    destruct (checked_add _ _ _) as [o'|]; [|done]. cbn in *.
    destruct (len text <=? len (actual ++ chunk)) eqn:E; [done|]. apply Z.leb_gt in E. eauto.
Qed.

(** The events a scan collects stream the text it found. *)
Lemma replay_scan_text evs off text found replay actual expected f a out :
  replay_scan evs off text found replay actual expected = Some (f, a, out) →
  ∃ new, out = replay ++ new ∧ a = actual ++ streamed_text new ∧ new ⊆ evs.
Proof.
  revert found replay actual expected. induction evs as [|e evs IH]; intros found replay actual expected H; cbn in H.
  { injection H as _ <- <-. exists []. by rewrite !app_nil_r. }
  destruct (ConversationTurnEvent.kind e) as [|from to|o chunk] eqn:Ek.
  1,2: destruct found; [injection H as _ <- <-; exists []; rewrite !app_nil_r; split_and!; set_solver|].
  1,2: apply IH in H as (new & -> & -> & Hs); exists new; split_and!; set_solver.
  destruct (negb found && _).
  { apply IH in H as (new & -> & -> & Hs). exists new. split_and!; set_solver. }
  destruct (_ || _); [done|]. destruct (checked_add _ _ _) as [o'|]; [|done]. cbn in H.
  assert (Ht : streamed_text [e] = chunk).
  { unfold streamed_text, event_text. cbn. by rewrite Ek, app_nil_r. }
  destruct (_ <=? _).
  - injection H as _ <- <-. exists [e]. rewrite Ht. split_and!; set_solver.
  - apply IH in H as (new & -> & -> & Hs). exists (e :: new).
    change (e :: new) with ([e] ++ new). rewrite streamed_text_app, Ht, <- !app_assoc.
    split_and!; [done..|set_solver].
Qed.

(** Events whose text starts elsewhere are skipped. *)
Definition starts_at (off : Z) (e : ConversationTurnEvent.t) : Prop :=
  ∃ chunk, ConversationTurnEvent.kind e = ConversationTurnEventKind.TextAppended off chunk.
Lemma replay_scan_skip pre evs off text :
  Forall (λ e, ~ starts_at off e) pre →
  replay_scan (pre ++ evs) off text false [] [] off = replay_scan evs off text false [] [] off.
Proof.
  induction 1 as [|e pre He _ IH]; [done|]. cbn.
  destruct (ConversationTurnEvent.kind e) as [|from to|o chunk] eqn:Ek; [done..|].
  rewrite bool_decide_eq_false_2; [done|]. intros ->. apply He. by exists chunk.
Qed.

(** The events of the appended chunks are found. *)
Lemma replay_scan_found new chunks more off text found replay actual o :
  ConversationTurnEvent.kind <$> new = text_kinds o chunks → Forall chunk_fits chunks → chunks ≠ [] →
  text = actual ++ mjoin chunks → (found = true ∨ o = off) → 0 ≤ o → o + len (mjoin chunks) ≤ u64_max →
  replay_scan (new ++ more) off text found replay actual o = Some (true, text, replay ++ new).
Proof.
  intros Hk Hf. revert new found replay actual o Hk.
  induction Hf as [|c chunks [Hc _] Hf IH]; intros new found replay actual o Hk Hne -> Hfo Ho Hb; [done|].
  destruct new as [|e new]; [done|]. cbn in Hk. injection Hk as Ek Hk. cbn [app replay_scan]. rewrite Ek.
  change (mjoin (c :: chunks)) with (c ++ mjoin chunks) in *. rewrite !len_app in *.
  pose proof (len_nonneg (mjoin chunks)).
  assert (0 < len c). { pose proof (len_nonneg c). destruct (decide (len c = 0)) as [E%len_zero|]; [done|lia]. }
  replace (negb found && (o != off)) with false.
  2:{ destruct Hfo as [-> | ->]; [done|]. by rewrite bool_decide_eq_true_2, andb_false_r. }
  rewrite bool_decide_eq_true_2 by done. cbn [negb orb].
  rewrite (proj2 (Z.leb_gt _ _)) by lia. unfold checked_add. rewrite (proj2 (Z.leb_le (o + len c) _)) by lia.
  unfold mbind, option_bind.
  destruct (_ <=? len actual + len c) eqn:El.
  - apply Z.leb_le in El. assert (chunks = []) as -> by (apply chunks_empty; [done|lia]).
    destruct new; [|done]. cbn. by rewrite !app_nil_r.
  - apply Z.leb_gt in El. rewrite (IH new true (replay ++ [e]) (actual ++ c) (o + len c));
      [by rewrite <- !app_assoc|done| |by rewrite app_assoc|by left|lia|lia].
    intros ->. cbn in El. rewrite len_nil in El. lia.
Qed.

Lemma kinds_before o cs off chunk :
  Forall chunk_ok cs → off = o + len (mjoin cs) →
  ConversationTurnEventKind.TextAppended off chunk ∉ text_kinds o cs.
Proof.
  intros Hf. revert o. induction Hf as [|c cs [Hc _] Hf IH]; intros o E; cbn; [apply not_elem_of_nil|].
  change (mjoin (c :: cs)) with (c ++ mjoin cs) in E. rewrite len_app in E.
  apply not_elem_of_cons. split; [|apply IH; lia]. intros [= Eo _].
  pose proof (len_nonneg c). pose proof (len_nonneg (mjoin cs)).
  assert (len c = 0) as ?%len_zero by lia. done.
Qed.
Lemma number_from_kind tid n ks e : e ∈ number_from tid n ks → ConversationTurnEvent.kind e ∈ ks.
Proof.
  revert n. induction ks as [|k ks IH]; intros n; cbn; [by intros ?%not_elem_of_nil|].
  intros [->|He]%elem_of_cons; [constructor|]. constructor. eauto.
Qed.
Lemma streaming_before tid evs log :
  ConversationTurnEventLog.restore tid evs = Ok log →
  ConversationTurnEventLog.state log = Some ConversationTurnState.ProviderStarted →
  Forall (λ e, ~ starts_at (len (ConversationTurnEventLog.text log)) e) evs ∧
  len (ConversationTurnEventLog.text log) ≤ MAX_MESSAGE_BYTES.
Proof.
  intros (p & Hp & (Hf & Hl & _ & Hper) & -> & ->)%log_restore_shape Hs. split; [|done].
  apply Forall_forall. intros e He%number_from_kind [chunk Hk]. rewrite Hk in He. clear Hk.
  destruct p as [| | |cs|cs final]; try done.
  - cbn [shape_kinds started_kinds] in He. apply elem_of_cons in He as [|[|He]%elem_of_cons]; [done..|].
    by apply kinds_before in He.
  - cbn in Hs. injection Hs as ->. done.
Qed.

Lemma restored_len tid evs log :
  ConversationTurnEventLog.restore tid evs = Ok log →
  len (ConversationTurnEventLog.text log) ≤ MAX_MESSAGE_BYTES.
Proof. intros (p & _ & (_ & Hl & _) & _ & ->)%log_restore_shape. done. Qed.

Section append.
Context {UP : UrlParser} {CH : Chrono} {SJ : SerdeJson}.
Import ConversationState.
Implicit Types (s : CS) (w : conv_world).

Lemma append_guard i n off text s s1 new :
  ConversationMemory.append_turn_text i n off text s = (s1, Ok new) → text ≠ [].
Proof.
  unfold ConversationMemory.append_turn_text. intros H.
  apply readonly_bind_Ok in H as (u & G%throw_if_Ok & _); [by destruct text|apply readonly_throw_if].
Qed.

(** What an accepted append leaves, now or before. *)
Lemma appended_facts w i n off text s1 new :
  world_inv w → ConversationMemory.append_turn_text i n off text (cw_store w) = (s1, Ok new) →
  ∃ t evs, conversation_turns s1 !! i = Some t ∧
    ConversationTurn.state t = ConversationTurnState.ProviderStarted ∧ ConversationTurn.revision t = n ∧
    conversation_events s1 !! i = Some evs ∧ off < len (streamed_text evs) ∧
    replayed_text_append evs off text = Some new.
Proof.
  intros Hw H. pose proof (append_guard _ _ _ _ _ _ _ H) as Hne.
  destruct (append_ok _ _ _ _ _ _ _ _ (wi_workspace _ Hw) (wi_store _ Hw) H)
    as [->|(t & evs & log & log' & new' & Hu & _ & Hst & Hn & He & Hlog & -> & Hch & -> & [= <-])].
  - unfold ConversationMemory.append_turn_text in H.
    apply readonly_bind_Ok in H as (u & _ & H); [|apply readonly_throw_if]. apply self_bind in H.
    apply readonly_bind_Ok in H as (u1 & Ht & H); [|apply readonly_lift]. injection Ht as Ht%ok_or_Ok.
    apply readonly_bind_Ok in H as (u2 & G%throw_if_Ok & H); [|apply readonly_throw_if]. bool_facts.
    apply readonly_bind_Ok in H as (log & Hlog & H); [|apply readonly_lift].
    injection Hlog as (evs & He & Hlog)%event_log_Ok.
    apply readonly_bind_Ok in H as (u3 & _ & H); [|apply readonly_lift].
    destruct (off <? _) eqn:Eo.
    + apply readonly_bind_Ok in H as (evs' & He' & H); [|apply readonly_lift]. injection He' as He'%ok_or_Ok.
      injection H as H%ok_or_Ok. simplify_eq. exists u1, evs. split_and!; try done.
      rewrite <- (restore_text _ _ _ Hlog). apply Z.ltb_lt in Eo. done.
    + apply readonly_bind_Ok in H as (u4 & _ & H); [|apply readonly_throw_if].
      apply readonly_bind_Ok in H as (new' & _ & H); [|apply readonly_lift].
      apply readonly_bind_Ok in H as (u5 & G5%throw_if_Ok & H); [|apply readonly_throw_if].
      exfalso. eapply extend_bind in H; [|exact He]. destruct H as (s2 & -> & H). injection H as E _.
      assert (E' : conversation_events (cw_store w) !! i = Some (evs ++ new')).
      { rewrite <- E at 1. cbn. apply lookup_insert_eq. }
      rewrite He in E'. injection E' as E'. apply (f_equal length) in E'. rewrite length_app in E'.
      destruct new'; [done|]. cbn in E'. lia.
  - set (off := len (ConversationTurnEventLog.text log)) in *.
    destruct (append_chunks_log _ _ _ _ _ _ Hlog Hch) as (L1 & _ & L3 & L4 & L5).
    destruct (split_text_ok text) as [Hj Hf]. rewrite Hj in L4.
    destruct (ci_turn _ (wi_store _ Hw) _ _ (tu_old _ _ _ _ _ Hu)) as (Hid & sn & Hok).
    destruct (to_events _ _ _ Hok) as (evs0 & log0 & He0 & Hlog0 & Hv). rewrite Hid in *. simplify_eq.
    rewrite Hlog in Hlog0. injection Hlog0 as <-.
    assert (Hls : ConversationTurnEventLog.state log = Some ConversationTurnState.ProviderStarted).
    { unfold ConversationTurnEventLog.validate_snapshot in Hv. split_binds Hv. read_facts. congruence. }
    destruct (streaming_before _ _ _ Hlog Hls) as [Hb Hml]. pose proof (restored_len _ _ _ L1) as Hml'.
    rewrite L4, len_app in Hml'. pose proof (len_nonneg (ConversationTurnEventLog.text log)).
    exists t, (evs ++ new). rewrite (tu_new _ _ _ _ _ Hu), lookup_insert_eq. cbn. rewrite lookup_insert_eq.
    split_and!; try done.
    + rewrite <- (restore_text _ _ _ L1), L4, len_app. pose proof (len_nonneg text).
      destruct (decide (len text = 0)) as [?%len_zero|]; [done|]. unfold off. lia.
    + unfold replayed_text_append. rewrite replay_scan_skip by done.
      assert (Hsc : replay_scan (new ++ []) off text false [] [] off = Some (true, text, [] ++ new)).
      { apply (replay_scan_found _ (split_conversation_text text)); try done; try lia.
        - intros E. by rewrite E in Hj.
        - rewrite Hj. change MAX_MESSAGE_BYTES with 1048576 in Hml'. unfold off, u64_max. lia. }
      rewrite app_nil_r in Hsc. rewrite Hsc. cbn. by rewrite bool_decide_eq_true_2.
Qed.

Lemma replayed_app evs more off text new :
  text ≠ [] → replayed_text_append evs off text = Some new →
  replayed_text_append (evs ++ more) off text = Some new ∧ streamed_text new = text ∧ new ⊆ evs.
Proof.
  intros Hne. unfold replayed_text_append. intros H.
  apply bind_Some in H as ([[found actual] replay] & Hs & H).
  destruct (found && (actual == text)) eqn:E; [|done]. injection H as <-. bool_facts.
  assert (0 < len text).
  { pose proof (len_nonneg text). destruct (decide (len text = 0)) as [?%len_zero|]; [done|lia]. }
  rewrite (replay_scan_app _ more _ _ _ _ _ _ _ Hs) by (by rewrite len_nil). cbn.
  rewrite bool_decide_eq_true_2 by done.
  apply replay_scan_text in Hs as (new & -> & Et & Hsub). by rewrite Et.
Qed.

Lemma append_replays w i t n off text evs new :
  world_inv w → conversation_turns (cw_store w) !! i = Some t →
  ConversationTurn.state t = ConversationTurnState.ProviderStarted → ConversationTurn.revision t = n →
  conversation_events (cw_store w) !! i = Some evs → text ≠ [] → off < len (streamed_text evs) →
  replayed_text_append evs off text = Some new →
  ConversationMemory.append_turn_text i n off text (cw_store w) = (cw_store w, Ok new).
Proof.
  intros Hw Ht Hst Hn He Hne Hoff Hrep. unfold ConversationMemory.append_turn_text.
  destruct (ci_turn _ (wi_store _ Hw) _ _ Ht) as (Hid & sn & Hok).
  destruct (to_events _ _ _ Hok) as (evs0 & log & He0 & Hlog & Hv). rewrite Hid in *. simplify_eq.
  destruct (canonical_linked _ (to_canonical _ _ _ Hok)) as [_ _ _ _ _ _ _ Han _ _].
  rewrite (to_turn _ _ _ Hok) in Han.
  assert (ConversationTurnSnapshot.assistant_message sn = None) as Ea.
  { destruct (ConversationTurnSnapshot.assistant_message sn) as [a|]; [|done].
    destruct (Han a eq_refl) as [Hcomp _]. congruence. }
  rewrite Ea in Hv. rewrite guard_run by by destruct text. rewrite self_run.
  erewrite lift_run by (by rewrite Ht).
  rewrite guard_run by (by rewrite Hst, !bool_decide_eq_true_2).
  erewrite lift_run by (by apply (event_log_intro _ _ evs log)).
  erewrite lift_run by (rewrite map_err_Ok; exact Hv).
  unfold ConversationTurnEventLog.next_utf8_offset. rewrite (restore_text _ _ _ Hlog).
  rewrite (proj2 (Z.ltb_lt _ _)) by done. erewrite lift_run by (by rewrite He).
  unfold lift. by rewrite Hrep.
Qed.

(** C22. A repeated append is harmless. After an append of text was accepted, its events
    stream exactly that text and are in the log of the turn; repeating the call, at any
    later moment while the turn still streams, returns the same events and changes
    nothing. *)
Theorem append_text_replay w i n off text s1 new w2 :
  conv_reachable w →
  ConversationMemory.append_turn_text i n off text (cw_store w) = (s1, Ok new) →
  rtc conv_step (ConvWorld s1 (cw_held w) (cw_started w)) w2 →
  streamed_text new = text ∧
  (∃ evs, conversation_events (cw_store w2) !! i = Some evs ∧ new ⊆ evs) ∧
  (∀ t, conversation_turns (cw_store w2) !! i = Some t →
     ConversationTurn.state t = ConversationTurnState.ProviderStarted →
     ConversationMemory.append_turn_text i n off text (cw_store w2) = (cw_store w2, Ok new)).
Proof.
  intros Hr%conv_reachable_inv H Hs. pose proof (append_guard _ _ _ _ _ _ _ H) as Hne.
  destruct (appended_facts _ _ _ _ _ _ _ Hr H) as (t & evs & Ht & Hst & Hn & He & Hoff & Hrep).
  pose proof (call_world (OAppend i n off text) _ _ _ _ eq_refl eq_refl Hr I H) as Hr1.
  destruct (conv_steps_ok _ _ Hs Hr1) as [Hr2 Hle]. cbn in Hle.
  destruct (le_events _ _ Hle _ _ _ Ht He) as [more He2].
  destruct (replayed_app _ more _ _ _ Hne Hrep) as (Hrep2 & Htext & Hsub). split_and!; [done| |].
  - exists (evs ++ more). split; [done|]. set_solver.
  - intros t2 Ht2 Hst2. destruct (le_turn _ _ Hle _ _ Ht) as (t2' & Ht2' & Hcalls). simplify_eq.
    assert (t2 = t) as ->.
    { inversion Hcalls as [|? y ? Hs1 Hs2]; subst; [done|].
      apply turn_call_edge in Hs1 as (_ & Hp & _). rewrite Hst in Hp.
      apply turn_calls_terminal in Hs2 as ->; by destruct (ConversationTurn.state y). }
    eapply append_replays; try done. rewrite streamed_text_app, len_app.
    pose proof (len_nonneg (streamed_text more)). lia.
Qed.
End append.

(** ** Usage totals *)

Section usage.
Context {UP : UrlParser} {CH : Chrono} {SJ : SerdeJson}.
Import ConversationState.
Implicit Types (s : CS) (w : conv_world) (ts : list ConversationTurn.t).







End usage.

(** ** Witnesses *)

#[local] Existing Instance UtcCalendar.chrono.
#[local] Existing Instance demo_json.
#[local] Existing Instance demo_urls.

Lemma append_text_replay_witness :
  ∃ new, ConversationMemory.append_turn_text (mk_id (lit "turn-1")) 1 0 (lit "Hi there")
      (demo_conversation (take 3 demo_ops)) = (demo_conversation (take 3 demo_ops), Ok new) ∧
    streamed_text new = lit "Hi there".
Proof.
  pose proof (Forall_take _ 2 _ demo_typed) as Hty.
  destruct (demo_conversation_reachable (take 2 demo_ops) Hty) as (h & l & Hr).
  destruct (ConversationMemory.append_turn_text (mk_id (lit "turn-1")) 1 0 (lit "Hi there")
    (demo_conversation (take 2 demo_ops))) as [s1 [new|e]] eqn:E;
    [|apply (f_equal snd) in E; vm_compute in E; discriminate E].
  assert (Es : s1 = demo_conversation (take 3 demo_ops)).
  { apply (f_equal fst) in E. vm_compute in E. vm_compute. congruence. }
  destruct (append_text_replay _ _ _ _ _ _ _ (ConvWorld s1 h l) Hr E (rtc_refl _ _)) as (Ht & _ & Hrep).
  exists new. rewrite <- Es. split; [|exact Ht].
  apply (Hrep demo_started_turn); [rewrite Es|]; vm_compute; reflexivity.
Defined.

