(* ===== verification/ForkSafety.v ===== *)
(** * What forks promise

    The theorems about forks of conversations, for every interleaving of the fork commands
    with the other clients of the store: the tables of forks are consistent, a command has
    one outcome, a delivery is acknowledged once, and the metadata of every thread can be
    loaded while it is within its bound. *)
From stdpp Require Import sorting.
From S2P Require Import Prelude RustText Ids Runs Approvals Effects ConversationTurns TurnEvents Schedules Scheduler Workspace ExecutionStore Commands WorkspaceStore WorkspaceServices WorkspaceWorld ConversationStore ForkStore ConversationWorld ConversationReserve ForkWorld ForkCreate ForkCommit ConversationSafety.

(** ** Commands *)

(** Two views of one fork, at different times. *)
Record same_fork (F G : ConversationForkSnapshot.t) : Prop := {
  sf_id : Thread.id (ConversationForkSnapshot.child_thread G)
    = Thread.id (ConversationForkSnapshot.child_thread F);
  sf_project : Thread.project_id (ConversationForkSnapshot.child_thread G)
    = Thread.project_id (ConversationForkSnapshot.child_thread F);
  sf_lineage : Thread.lineage (ConversationForkSnapshot.child_thread G)
    = Thread.lineage (ConversationForkSnapshot.child_thread F);
  sf_messages : ConversationForkSnapshot.messages G = ConversationForkSnapshot.messages F;
  sf_turn : option_Forall2 (λ x y, same_turn (ConversationTurnSnapshot.turn x)
                                    (ConversationTurnSnapshot.turn y))
    (ConversationForkSnapshot.started_turn F) (ConversationForkSnapshot.started_turn G);
}.

Section commands.
Context {UP : UrlParser} {CH : Chrono} {SJ : SerdeJson}.
Import ConversationState.
Implicit Types (s : CS) (h : snapshots) (w : conv_world).
Abbreviation CMD := ConversationForkCommandRecord.t.

Lemma loaded_later s h s' h' (r : CMD) F G :
  ws_inv (workspace s) h → ws_inv (workspace s') h' → conv_le s s' → fork_le s s' →
  fork_loaded s r F → fork_loaded s' r G → same_fork F G.
Proof.
  intros Hw Hw' Hle Hfl [T1 M1 U1 _] [T2 M2 U2 _].
  destruct (le_thread _ _ Hle _ _ T1) as (th & Hth & Ep & El). rewrite T2 in Hth. injection Hth as <-.
  destruct (stored_depth _ _ _ _ Hw T1) as [E1 _]. destruct (stored_depth _ _ _ _ Hw' T2) as [E2 _].
  split; [congruence|done|done| |].
  - apply (fe_copies _ _ Hfl) in M1. rewrite <- (copied_messages_eq _ _ _ _ Hw' M1).
    by rewrite (copied_messages_eq _ _ _ _ Hw' M2).
  - destruct (ConversationForkCommandRecord.started_turn_id r) as [i|],
      (ConversationForkSnapshot.started_turn F) as [x|], (ConversationForkSnapshot.started_turn G) as [y|];
      try done; [|constructor]. constructor.
    destruct U1 as (u & Hu & Hok), U2 as (u' & Hu' & Hok').
    destruct (le_turn _ _ Hle _ _ Hu) as (u2 & Hu2 & Hc). rewrite Hu' in Hu2. injection Hu2 as <-.
    rewrite (to_turn _ _ _ Hok), (to_turn _ _ _ Hok'). by apply turn_calls_same.
Qed.

(** What an accepted reservation records. *)
Lemma fork_recorded s h plan s' res :
  ws_inv (workspace s) h → conv_inv s → fork_inv s → plan_typed plan →
  ForkMemory.reserve_conversation_fork plan s = (s', Ok res) →
  ∃ rec, conversation_fork_commands s' !! fork_command_key (ConversationForkPlan.command plan) = Some rec ∧
    ConversationForkCommandRecord.fingerprint rec
      = MutationCommand.fingerprint (ConversationForkPlan.command plan) ∧
    fork_loaded s' rec (ConversationForkReservation.snapshot res) ∧
    ConversationForkReservation.context res = record_context s' rec ∧
    (ConversationForkReservation.created res = true →
     rec = fork_record plan ∧ copies s' (Thread.id (ConversationForkPlan.child_thread plan))
       (ConversationForkPlan.messages plan) ∧
     threads s' !! Thread.id (ConversationForkPlan.child_thread plan)
       = Some (ConversationForkPlan.child_thread plan) ∧
     ConversationForkReservation.context res
       = (_ ← ConversationForkPlan.started_turn plan; Some (ConversationForkPlan.messages plan))).
Proof.
  intros Hw Hc Hf Hty H.
  apply (fork_ok _ _ _ _ _ Hw Hc Hf Hty) in H
    as [[_ H]|[(-> & rec & F & Hk & Hfp & Hl & [= ->])|[(k & rec & d & F & Ha & -> & Hl & [= ->])|(ctx & F & Hcr & Hl & [= ->])]]];
    [done|..].
  - exists rec. by split_and!.
  - exists (alias rec). split_and!; [apply lookup_insert_eq|apply Ha| |done|done].
    destruct Hl as [L1 L2 L3 L4]. split; try done. clear -L3 Hc.
    destruct (ConversationForkCommandRecord.started_turn_id _) as [i|],
      (ConversationForkSnapshot.started_turn _) as [x|]; try done.
    destruct L3 as (u & Hu & Hok). exists u. split; [done|]. eapply turn_ok_frame; [done| |done|by split|done].
    by apply (stepped_forks s).
  - exists (fork_record plan). rewrite (fc_command _ _ _ _ Hcr), lookup_insert_eq.
    split_and!; [done..|apply (fc_context _ _ _ _ Hcr)|]. intros _. split_and!; [done|apply Hcr|apply Hcr|].
    destruct (fc_turns _ _ _ _ Hcr) as [(-> & -> & _)|(tp & -> & -> & _)]; done.
Qed.

(** The kind of an accepted plan fits the scope of its command. *)
Lemma reserve_scope plan s s' res :
  ForkMemory.reserve_conversation_fork plan s = (s', Ok res) → ∃ kind,
  conversation_fork_kind (ConversationForkPlan.child_thread plan) = Ok kind ∧
  conversation_fork_scope_matches (MutationCommand.scope (ConversationForkPlan.command plan)) kind = true.
Proof.
  intros H. unfold ForkMemory.reserve_conversation_fork in H.
  apply bind_cases in H as (s1 & [kind|e] & Hk & H); [|by destruct H].
  injection Hk as <- Hk. apply bind_cases in H as (s2 & [u|e] & G & H); [|by destruct H].
  exists kind. split; [done|]. unfold throw_if in G.
  by destruct (conversation_fork_scope_matches _ kind).
Qed.

Section replay.
Variables (w : conv_world) (r : CMD) (F : ConversationForkSnapshot.t) (k : str * str).
Hypotheses (Hw : world_inv w) (Hk : conversation_fork_commands (cw_store w) !! k = Some r)
  (Hl : fork_loaded (cw_store w) r F).

Lemma recorded_snapshot : conversation_fork_snapshot (cw_store w) r = Ok F.
Proof.
  destruct (fork_snapshot_Ok _ _ _ _ (wi_workspace _ Hw) (wi_store _ Hw) (wi_forks _ Hw)
    (fi_command _ (wi_forks _ Hw) _ _ Hk)) as (G & HG & HL). rewrite HG. f_equal.
  destruct HL as [T1 M1 U1 (d & Hd & D1)], Hl as [T2 M2 U2 (d' & Hd' & D2)]. destruct F, G; cbn in *.
  rewrite <- (copied_messages_eq _ _ _ _ (wi_workspace _ Hw) M1),
    (copied_messages_eq _ _ _ _ (wi_workspace _ Hw) M2). f_equal; try congruence.
  destruct (ConversationForkCommandRecord.started_turn_id r), started_turn, started_turn0; try done.
  destruct U1 as (u & Hu & Hok), U2 as (u' & Hu' & Hok'). assert (u' = u) as -> by congruence.
  pose proof (load_Ok _ _ _ _ _ (wi_workspace _ Hw) (wi_store _ Hw) Hu Hok) as E1.
  pose proof (load_Ok _ _ _ _ _ (wi_workspace _ Hw) (wi_store _ Hw) Hu Hok') as E2. congruence.
Qed.

Lemma reserve_again plan :
  fork_command_key (ConversationForkPlan.command plan) = k →
  ForkMemory.reserve_conversation_fork plan (cw_store w) = (cw_store w,
    if match conversation_fork_kind (ConversationForkPlan.child_thread plan) with
       | Ok kind => conversation_fork_scope_matches
                      (MutationCommand.scope (ConversationForkPlan.command plan)) kind
       | Err _ => false
       end
       && (ConversationForkCommandRecord.fingerprint r
           == MutationCommand.fingerprint (ConversationForkPlan.command plan))
    then Ok (ConversationForkReservation.mk F (record_context (cw_store w) r) false false)
    else Err Conflict).
Proof.
  intros Ek. unfold ForkMemory.reserve_conversation_fork.
  destruct (conversation_fork_kind _) as [kind|e] eqn:Ekind.
  2:{ unfold conversation_fork_kind in Ekind. destruct (ConversationThreadLineage.origin _); by simplify_eq. }
  rewrite (lift_run _ _ _ _ eq_refl).
  destruct (conversation_fork_scope_matches _ _) eqn:Em; [|done]. rewrite guard_run by done.
  rewrite self_run, Ek, Hk. destruct (ConversationForkCommandRecord.fingerprint r == _); [|done].
  rewrite guard_run by done. rewrite (lift_run _ _ _ _ recorded_snapshot).
  destruct (fork_context_Ok _ _ _ (wi_store _ Hw) (fi_command _ (wi_forks _ Hw) _ _ Hk)) as (ctx & Hc & ->).
  by rewrite (lift_run _ _ _ _ Hc).
Qed.

Lemma record_supported : conversation_fork_scope_is_supported k.1 = true.
Proof.
  destruct (fi_command _ (wi_forks _ Hw) _ _ Hk) as (d & th & kind & _ & _ & _ & _ & _ & Hm & _).
  by eapply scope_supported.
Qed.
Lemma load_again command :
  fork_command_key command = k →
  ForkMemory.load_conversation_fork_by_command command (cw_store w) = (cw_store w,
    if ConversationForkCommandRecord.fingerprint r == MutationCommand.fingerprint command
    then Ok (Some F) else Err Conflict).
Proof.
  intros Ek. unfold ForkMemory.load_conversation_fork_by_command.
  pose proof record_supported as Hs. rewrite <- Ek in Hs. cbn [fork_command_key fst] in Hs.
  rewrite Hs. cbn [negb]. rewrite self_run, Ek, Hk.
  destruct (ConversationForkCommandRecord.fingerprint r == _); [|done]. rewrite guard_run by done.
  rewrite (lift_run _ _ _ _ recorded_snapshot).
  destruct (fi_command _ (wi_forks _ Hw) _ _ Hk) as (d & th & kind & _ & _ & _ & Hth & Hkind & Hm & _).
  pose proof (fl_thread _ _ _ Hl) as E. rewrite Hth in E. injection E as ->.
  rewrite (lift_run _ kind) by by rewrite Hkind. rewrite <- Ek in Hm. cbn [fork_command_key fst] in Hm.
  by rewrite Hm.
Qed.
Lemma resolve_again command :
  fork_command_key command = k →
  ForkMemory.resolve_conversation_fork_command command (cw_store w) = (cw_store w,
    if ConversationForkCommandRecord.fingerprint r == MutationCommand.fingerprint command
    then Ok (Some (ConversationForkCommandResolution.mk F false)) else Err Conflict).
Proof.
  intros Ek. unfold ForkMemory.resolve_conversation_fork_command.
  pose proof record_supported as Hs. rewrite <- Ek in Hs. cbn [fork_command_key fst] in Hs.
  rewrite Hs. cbn [negb]. rewrite self_run, Ek, Hk.
  destruct (ConversationForkCommandRecord.fingerprint r == _); [|done]. rewrite guard_run by done.
  by rewrite (lift_run _ _ _ _ recorded_snapshot).
Qed.
End replay.

(** C19. A fork command has one outcome. After a reservation was accepted, in any later
    state, repeating it, loading it and resolving it change nothing and show the same
    child: its identity, ancestry, copied messages, started turn and context; the same
    command with another fingerprint is refused. A reservation that created its child
    shows the planned thread and messages. *)
Theorem fork_command_once w plan s1 res w2 :
  conv_reachable w → conv_typed (OFork plan) →
  ForkMemory.reserve_conversation_fork plan (cw_store w) = (s1, Ok res) →
  rtc conv_step (ConvWorld s1 (cw_held w) (cw_started w)) w2 →
  let command := ConversationForkPlan.command plan in
  (ConversationForkReservation.created res = true →
   ConversationForkSnapshot.child_thread (ConversationForkReservation.snapshot res)
     = ConversationForkPlan.child_thread plan ∧
   ConversationForkSnapshot.messages (ConversationForkReservation.snapshot res)
     = ConversationForkPlan.messages plan ∧
   ConversationForkReservation.context res
     = (_ ← ConversationForkPlan.started_turn plan; Some (ConversationForkPlan.messages plan))) ∧
  ∃ F, same_fork (ConversationForkReservation.snapshot res) F ∧
    ForkMemory.reserve_conversation_fork plan (cw_store w2) = (cw_store w2,
      Ok (ConversationForkReservation.mk F (ConversationForkReservation.context res) false false)) ∧
    ForkMemory.load_conversation_fork_by_command command (cw_store w2) = (cw_store w2, Ok (Some F)) ∧
    ForkMemory.resolve_conversation_fork_command command (cw_store w2)
      = (cw_store w2, Ok (Some (ConversationForkCommandResolution.mk F false))) ∧
    ∀ plan', fork_command_key (ConversationForkPlan.command plan') = fork_command_key command →
      MutationCommand.fingerprint (ConversationForkPlan.command plan') ≠ MutationCommand.fingerprint command →
      ForkMemory.reserve_conversation_fork plan' (cw_store w2) = (cw_store w2, Err Conflict) ∧
      ForkMemory.resolve_conversation_fork_command (ConversationForkPlan.command plan') (cw_store w2)
        = (cw_store w2, Err Conflict).
Proof.
  intros Hr%conv_reachable_inv Hty H Hs command.
  destruct (fork_recorded _ _ _ _ _ (wi_workspace _ Hr) (wi_store _ Hr) (wi_forks _ Hr) (proj1 Hty) H)
    as (rec & Hk & Hfp & Hl & Hctx & Hnew).
  destruct (reserve_scope _ _ _ _ H) as (kind & Hkind & Hscope).
  pose proof (call_world (OFork plan) _ _ _ _ eq_refl eq_refl Hr Hty H) as Hr1.
  destruct (conv_steps_all _ _ Hs Hr1) as (Hr2 & Hle & Hfl). cbn in Hle, Hfl.
  pose proof (lookup_weaken _ _ _ _ Hk (fe_commands _ _ Hfl)) as Hk2.
  destruct (fork_snapshot_Ok _ _ _ _ (wi_workspace _ Hr2) (wi_store _ Hr2) (wi_forks _ Hr2)
    (fi_command _ (wi_forks _ Hr2) _ _ Hk2)) as (F & _ & HF).
  assert (Hctx2 : record_context (cw_store w2) rec = ConversationForkReservation.context res).
  { rewrite Hctx. destruct (fi_command _ (wi_forks _ Hr1) _ _ Hk) as (d & th & kd & _ & _ & _ & _ & _ & _ & Hst).
    unfold record_context. destruct (ConversationForkCommandRecord.started_turn_id rec) as [i|]; [|done].
    destruct Hst as (_ & u & Hu & _). destruct (ci_context _ (wi_store _ Hr1) _ _ Hu) as (ctx & Hx & _).
    cbn in Hx |- *. by rewrite (lookup_weaken _ _ _ _ Hx (le_contexts _ _ Hle)), Hx. }
  split.
  { intros (-> & Hms & Hth & Hc)%Hnew. destruct Hl as [L1 L2 _ _]. cbn in L1, L2.
    rewrite Hth in L1. injection L1 as <-. split_and!; [done| |done].
    by rewrite <- (copied_messages_eq _ _ _ _ (wi_workspace _ Hr1) Hms),
      (copied_messages_eq _ _ _ _ (wi_workspace _ Hr1) L2). }
  exists F. split_and!.
  - exact (loaded_later _ _ _ _ _ _ _ (wi_workspace _ Hr1) (wi_workspace _ Hr2) Hle Hfl Hl HF).
  - rewrite (reserve_again _ _ _ _ Hr2 Hk2 HF) by done. rewrite Hkind, Hscope, Hfp, Hctx2.
    by rewrite bool_decide_eq_true_2.
  - rewrite (load_again _ _ _ _ Hr2 Hk2 HF) by done. by rewrite Hfp, bool_decide_eq_true_2.
  - rewrite (resolve_again _ _ _ _ Hr2 Hk2 HF) by done. by rewrite Hfp, bool_decide_eq_true_2.
  - intros plan' Ek Hne. rewrite (reserve_again _ _ _ _ Hr2 Hk2 HF), (resolve_again _ _ _ _ Hr2 Hk2 HF) by done.
    rewrite Hfp, bool_decide_eq_false_2, andb_false_r by (intros E; by apply Hne). done.
Qed.

(** ** The tables *)

Lemma recorded_loads w k r :
  world_inv w → conversation_fork_commands (cw_store w) !! k = Some r →
  ∃ F, fork_loaded (cw_store w) r F ∧
    ForkMemory.load_conversation_fork_by_command
      (MutationCommand.mk k.1 k.2 (ConversationForkCommandRecord.fingerprint r)) (cw_store w)
    = (cw_store w, Ok (Some F)).
Proof.
  intros Hw Hk. destruct (fork_snapshot_Ok _ _ _ _ (wi_workspace _ Hw) (wi_store _ Hw) (wi_forks _ Hw)
    (fi_command _ (wi_forks _ Hw) _ _ Hk)) as (F & _ & HF). exists F. split; [done|].
  rewrite (load_again _ _ _ _ Hw Hk HF) by by destruct k. by rewrite bool_decide_eq_true_2.
Qed.

(** C6. The tables of forks are consistent in every reachable state. Every recorded command
    can be loaded, and shows the stored child. Every child has one command that created it
    and at most 64 aliases of it, and its delivery is pending at revision zero or
    acknowledged at revision one. Two deliveries of the same request are not pending at
    the same time. A thread has at most 64 children and a family at most 256 threads. *)
Theorem fork_store_consistent w :
  conv_reachable w →
  let s := cw_store w in
  (∀ k r, conversation_fork_commands s !! k = Some r → ∃ F,
     ForkMemory.load_conversation_fork_by_command
       (MutationCommand.mk k.1 k.2 (ConversationForkCommandRecord.fingerprint r)) s = (s, Ok (Some F)) ∧
     threads s !! ConversationForkCommandRecord.child_thread_id r
       = Some (ConversationForkSnapshot.child_thread F)) ∧
  (∀ c d, conversation_fork_deliveries s !! c = Some d →
     (∃ k r, child_commands s true c = [(k, r)]) ∧
     Z.of_nat (length (child_commands s false c)) ≤ 64 ∧
     ForkStore.conversation_fork_delivery s c
     = Ok (ConversationForkDelivery.mk c (ConversationForkDeliveryRecord.state d)
             match ConversationForkDeliveryRecord.state d with
             | ConversationForkDeliveryState.Pending => 0
             | ConversationForkDeliveryState.Acknowledged => 1
             end)) ∧
  (∀ c c' d d', conversation_fork_deliveries s !! c = Some d →
     conversation_fork_deliveries s !! c' = Some d' →
     ConversationForkDeliveryRecord.state d = ConversationForkDeliveryState.Pending →
     ConversationForkDeliveryRecord.state d' = ConversationForkDeliveryState.Pending →
     ConversationForkDeliveryRecord.scope d = ConversationForkDeliveryRecord.scope d' →
     ConversationForkDeliveryRecord.request_fingerprint d
       = ConversationForkDeliveryRecord.request_fingerprint d' → c = c') ∧
  (∀ i, Z.of_nat (length (direct_children s i)) ≤ 64) ∧
  (∀ i, Z.of_nat (length (family s i)) ≤ 256).
Proof.
  intros Hr%conv_reachable_inv s. pose proof (wi_forks _ Hr) as Hf. split_and!; try apply Hf.
  - intros k r Hk. destruct (recorded_loads _ _ _ Hr Hk) as (F & HF & HL). exists F. split; [done|apply HF].
  - intros c d Hd. destruct (canonical_command _ _ _ Hf Hd) as (k & r & E & _).
    split_and!; [eauto|apply Hf|]. subst s. rewrite (fork_delivery_Ok _ _ _ Hf Hd). unfold delivery_view.
    by rewrite (lifecycle_revision d) by apply (fi_delivery _ Hf _ _ Hd).
Qed.

(** ** Deliveries *)



End commands.

(** ** Metadata *)

Section metadata.
Context {UP : UrlParser} {CH : Chrono} {SJ : SerdeJson}.
Import ConversationState.
Implicit Types (s : CS) (h : snapshots) (w : conv_world).
Abbreviation depth th := (ConversationThreadLineage.fork_depth (Thread.lineage th)).

(** *** Where copied answers come from *)

(** How deep in its family the thread of a message is. *)
Definition at_depth s (m : Message.t) (n : Z) : Prop :=
  messages s !! Message.id m = Some m ∧
  ∃ th, threads s !! Message.thread_id m = Some th ∧ depth th = n.

Lemma derived_active s h x :
  ws_inv (workspace s) h → messages s !! Message.id x = Some x → derived x = true →
  Message.state x = MessageState.Active.
Proof.
  intros Hw Hx Hd. destruct (stored_message _ _ _ _ (inv_messages _ _ Hw) Hx) as [_ Hr].
  unfold Message.restore in Hr. split_binds Hr. unfold derived in Hd.
  match goal with E : reject_if (negb (ConversationMessageDerivation.is_original _) && _) _ = Ok _ |- _ =>
    apply reject_if_Ok in E; rewrite Hd in E end. bool_facts. done.
Qed.

(** The walk follows the copies up, one level of the family at a time, to the answer. *)
Lemma walk_up s h a i : ∀ rounds visited x n,
  ws_inv (workspace s) h → fork_inv s →
  answer_of s x i → Message.role x = MessageRole.Assistant → Message.state x = MessageState.Active →
  Message.content x = Message.content a →
  (∀ t, conversation_turns s !! i = Some t → ConversationTurn.assistant_message_id t = Some (Message.id a)) →
  at_depth s x n → 0 ≤ n < Z.of_nat rounds →
  (∀ v, v ∈ visited → ∃ y k, Message.id y = v ∧ at_depth s y k ∧ n < k) →
  provenance_walk rounds s a i visited x = Ok tt.
Proof.
  intros rounds. induction rounds as [|rounds IH]; intros visited x n Hw Hf Han Hr Hst Hco Ha Hx Hn Hv; [lia|].
  cbn [provenance_walk]. rewrite run_check.
  2:{ rewrite Hr, Hst, Hco, !bool_decide_eq_true_2 by done. cbn [negb orb]. apply bool_decide_eq_false.
      intros (y & k & Ey & [Hy (th & Hth & Ek)] & Hk)%Hv. destruct Hx as [Hx (th' & Hth' & Ek')].
      rewrite Ey, Hx in Hy. injection Hy as <-. rewrite Hth' in Hth. injection Hth as <-. lia. }
  destruct (Message.id x == Message.id a) eqn:Eid; [done|]. apply bool_decide_eq_false in Eid.
  destruct Han as (u & b & Hu & _ & Hb & _ & _ & [E|[Hd Hout]]); [rewrite (Ha _ Hu) in Hb; congruence|].
  destruct (fi_inherits _ Hf _ _ (proj1 Hx) Hd Hr) as (j & Hj & _ & kind & src & pos & y & thx & thy
    & Hde & Hk & Hsrc & Hy & Hry & Hsy & Hany & Htx & Hty & Hdep).
  assert (j = i) as -> by congruence.
  destruct Hany as (u' & b' & Hu' & Hs' & Hb' & Hm' & Hc' & Hy').
  destruct Hx as [Hx (th' & Hth' & Ek')]. rewrite Hth' in Htx. injection Htx as <-.
  rewrite run_check by (rewrite Hout, bool_decide_eq_true_2; done). rewrite Hde.
  rewrite run_check; [rewrite (run_some _ _ _ _ Hy)|].
  - assert (Hid : Message.id b' = Message.id a) by (rewrite (Ha _ Hu') in Hb'; congruence).
    apply (IH _ _ (depth thy)); try done.
    + by exists u', b'.
    + destruct (fi_inherits _ Hf _ _ Hx Hd Hr) as (j & Hj2 & (u2 & b2 & Hu2 & _ & Hb2 & Hm2 & Hc2 & _) & _).
      assert (j = i) as -> by congruence. assert (u2 = u') as -> by congruence.
      assert (b2 = b') as -> by (assert (Message.id b2 = Message.id b') by congruence; congruence).
      congruence.
    + split; [done|]. by exists thy.
    + destruct (stored_depth _ _ _ _ Hw Hty) as (_ & _ & ? & _). lia.
    + intros v [->|Hin]%elem_of_cons.
      * exists x, n. split_and!; [done| |lia]. split; [done|]. by exists th'.
      * destruct (Hv _ Hin) as (z & k & Ez & Hz & Hlt). exists z, k. split_and!; try done. lia.
  - rewrite bool_decide_eq_false_2 by done. cbn [orb]. apply andb_false_iff.
    destruct (decide (kind = ConversationMessageDerivationKind.SourceAssistantCopy)) as [->|Hne].
    + right. rewrite Hsrc by done. by rewrite bool_decide_eq_true_2.
    + left. by apply bool_decide_eq_false_2.
Qed.

(** What the store shows for a copied answer: the outcome of the turn it repeats. *)
Definition shows s (x : Message.t) (o : ConversationInheritedAssistantOutcome.t) : Prop :=
  ∃ i u, conversation_inherited_outcomes s !! Message.id x = Some i ∧
    conversation_turns s !! i = Some u ∧ answer_of s x i ∧ o = inherited_outcome (Message.id x) i u.

Lemma copied_unanswered s x :
  conv_inv s → messages s !! Message.id x = Some x → derived x = true →
  answered_turns s (Message.id x) = [].
Proof.
  intros Hc Hx Hd. unfold answered_turns.
  destruct (filter _ _) as [|u l] eqn:E; [done|].
  assert (Hin : u ∈ u :: l) by constructor. rewrite <- E in Hin.
  apply list_elem_of_filter in Hin as [Hu [i Hi]%elem_of_values].
  destruct (ci_turn _ Hc _ _ Hi) as (_ & sn & Hok). pose proof Hok as [Et Hparts Hk _ _].
  destruct (canonical_linked _ Hk) as [_ _ _ _ _ _ La Lan _ _]. rewrite Et, Hu in La.
  destruct (ConversationTurnSnapshot.assistant_message sn) as [a|] eqn:Ea; [|done].
  destruct (snapshot_answer _ _ _ _ Hok Ea) as (Ha & _ & _ & _ & _ & Hid & Hda).
  rewrite Hu in Hid. injection Hid as Hid. rewrite <- Hid, Hx in Ha. congruence.
Qed.

Lemma stored_outcome_Ok s h x :
  ws_inv (workspace s) h → conv_inv s → fork_inv s → messages s !! Message.id x = Some x →
  derived x = true → Message.role x = MessageRole.Assistant →
  ∃ o, stored_outcome s x = Ok o ∧ shows s x o.
Proof.
  intros Hw Hc Hf Hx Hd Hr. destruct (fi_inherits _ Hf _ _ Hx Hd Hr) as (i & Hi & Han & _).
  pose proof Han as (u & a & Hu & Hs & Ha & Hm & Hco & _).
  destruct (ci_turn _ Hc _ _ Hu) as (_ & sn & Hok).
  pose proof (load_Ok _ _ _ _ _ Hw Hc Hu Hok) as Hload.
  assert (Hsa : ConversationTurnSnapshot.assistant_message sn = Some a).
  { pose proof Hok as [Et [_ C2 _ _ _ _] _ _ _]. rewrite Et, Ha in C2.
    unfold resolves in C2. destruct (ConversationTurnSnapshot.assistant_message sn); [congruence|done]. }
  assert (Hsrc : inherited_source_turn s x = Ok i).
  { unfold inherited_source_turn. rewrite (copied_unanswered _ _ Hc Hx Hd), Hi.
    rewrite (run_Ok _ _ _ eq_refl), (run_some _ _ _ _ Hu), (run_Ok _ _ _ Hload), (run_some _ _ _ _ Hsa).
    destruct (inv_message_thread _ _ Hw _ _ Hx) as [th Hth].
    destruct (stored_depth _ _ _ _ Hw Hth) as (_ & _ & Hdep & _).
    rewrite run_check; [done|]. rewrite (to_turn _ _ _ Hok), Hs, Hco, !bool_decide_eq_true_2 by done.
    cbn [negb orb]. unfold validate_inherited_assistant_provenance.
    rewrite (walk_up s h a i _ [] x (depth th)); try done.
    - by eapply derived_active.
    - congruence.
    - split; [done|]. by exists th.
    - change (Z.to_nat _) with 257%nat. lia.
    - by intros v ?%not_elem_of_nil. }
  exists (inherited_outcome (Message.id x) i u). split; [|by exists i, u].
  unfold stored_outcome. rewrite (run_some _ _ _ _ Hi), (run_Ok _ _ _ Hsrc).
  rewrite run_check by by rewrite bool_decide_eq_true_2.
  rewrite (run_some _ _ _ _ Hu), (run_Ok _ _ _ Hload), (to_turn _ _ _ Hok), run_check; [done|].
  unfold completed_with. rewrite (to_turn _ _ _ Hok), Hsa, Hs, Hco. by rewrite !bool_decide_eq_true_2.
Qed.

Lemma collect_outcomes s l :
  (∀ x, x ∈ l → ∃ o, stored_outcome s x = Ok o ∧ shows s x o) →
  ∃ os, ConversationMemory.collect_results (stored_outcome s) l = Ok os ∧ Forall2 (shows s) l os.
Proof.
  induction l as [|x l IH]; intros Hl; [exists []; split; [done|constructor]|].
  destruct (Hl x) as (o & Ho & Hs); [by constructor|].
  destruct IH as (os & Hos & HF); [intros y Hy; apply Hl; by constructor|].
  exists (o :: os). split; [|by constructor]. cbn. by rewrite Ho, Hos.
Qed.

(** *** Families *)

(** A family belongs to one project. *)
Lemma root_project s h i th :
  ws_inv (workspace s) h → conv_inv s → threads s !! i = Some th → ∃ root,
  threads s !! ConversationThreadLineage.root_thread_id (Thread.lineage th) = Some root ∧
  Thread.project_id root = Thread.project_id th.
Proof.
  intros Hw Hc. remember (Z.to_nat (depth th)) as n eqn:En. revert i th En.
  induction n as [n IH] using lt_wf_ind. intros i th En Hth.
  destruct (stored_depth _ _ _ _ Hw Hth) as (_ & _ & Hd & Ho).
  pose proof (ci_thread _ Hc _ _ Hth) as Hl. unfold lineage_ok in Hl.
  destruct (ConversationThreadLineage.origin _) as [|p src msg kind].
  - destruct Ho as [-> _]; [done|]. by exists th.
  - destruct Hl as (parent & u & sn & m & b & Hp & _ & _ & _ & _ & _ & <- & <- & Hdep & _).
    destruct (stored_depth _ _ _ _ Hw Hp) as (_ & _ & Hd' & _).
    eapply (IH (Z.to_nat (depth parent))); [|done|exact Hp]. lia.
Qed.

Lemma family_le_total : Total family_le.
Proof.
  intros x y. unfold family_le. rewrite (Z.eqb_sym (depth y)). destruct (Z.eqb_spec (depth x) (depth y)).
  - apply key_le_total.
  - rewrite !Z.ltb_lt. lia.
Qed.
Lemma family_le_trans : Transitive family_le.
Proof.
  intros x y z. unfold family_le.
  destruct (Z.eqb_spec (depth x) (depth y)), (Z.eqb_spec (depth y) (depth z)),
    (Z.eqb_spec (depth x) (depth z)); rewrite ?Z.ltb_lt; try lia. apply key_le_trans.
Qed.

(** *** Sizes *)

(** The number of bytes, without a bound. *)
Definition sum_of {A} (f : A → Z) (l : list A) : Z := foldr (λ x n, f x + n) 0 l.
Definition lineage_bytes (l : ConversationThreadLineage.t) : Z :=
  sum_of id ([LINEAGE_OVERHEAD; len (as_str (ConversationThreadLineage.root_thread_id l))] ++
    match ConversationThreadLineage.origin l with
    | ConversationThreadOrigin.Fork p src msg _ => [len (as_str p); len (as_str src); len (as_str msg)]
    | ConversationThreadOrigin.Original => []
    end).
Definition thread_bytes (th : Thread.t) : Z :=
  sum_of id [THREAD_OVERHEAD; len (as_str (Thread.id th)); len (as_str (Thread.project_id th));
             len (Thread.title th)] + lineage_bytes (Thread.lineage th).
Definition cited_bytes (c : ConversationCitation.t) : Z :=
  sum_of id [CITATION_OVERHEAD; len (ConversationCitation.url c);
             match ConversationCitation.title c with Some title => len title | None => 0 end].
Definition outcome_bytes (o : ConversationInheritedAssistantOutcome.t) : Z :=
  sum_of id [OUTCOME_OVERHEAD;
    len (as_str (ConversationInheritedAssistantOutcome.child_assistant_message_id o));
    len (as_str (ConversationInheritedAssistantOutcome.source_turn_id o));
    len (ConversationInheritedAssistantOutcome.model_id o)]
  + sum_of cited_bytes (ConversationInheritedAssistantOutcome.citations o).
Definition metadata_bytes (md : ConversationForkMetadata.t) : Z :=
  METADATA_OVERHEAD + lineage_bytes (ConversationForkMetadata.lineage md)
  + sum_of thread_bytes (ConversationForkMetadata.family_threads md)
  + sum_of outcome_bytes (ConversationForkMetadata.inherited_assistant_outcomes md).

Lemma sum_of_app {A} (f : A → Z) l k : sum_of f (l ++ k) = sum_of f l + sum_of f k.
Proof. induction l as [|x l IH]; cbn; [done|]. unfold sum_of in *. rewrite IH. lia. Qed.
#[local] Instance sum_of_perm {A} (f : A → Z) : Proper ((≡ₚ) ==> (=)) (sum_of f).
Proof. intros l k. induction 1; unfold sum_of in *; cbn; lia. Qed.
Lemma sum_of_nonneg {A} (f : A → Z) l : (∀ x, x ∈ l → 0 ≤ f x) → 0 ≤ sum_of f l.
Proof.
  induction l as [|x l IH]; intros Hl; cbn; [done|]. specialize (Hl x (list_elem_of_here _ _)) as Hx.
  enough (0 ≤ sum_of f l) by (unfold sum_of in *; lia). apply IH. intros y Hy. apply Hl. by constructor.
Qed.

(** A computation that adds [n], or fails on overflow. *)
Definition adds (f : Z → option Z) (n : Z) : Prop :=
  0 ≤ n ∧ ∀ total, f total = checked_add usize_max total n ∨ usize_max < total.

Lemma adds_seq f g n k : adds f n → adds g k → adds (λ total, total ← f total; g total) (n + k).
Proof.
  intros [Hn Hf] [Hk Hg]. split; [lia|]. intros total. destruct (Hf total) as [->|]; [|by right].
  destruct (decide (usize_max < total)); [by right|left]. unfold checked_add.
  destruct (Z.leb_spec (total + n) usize_max) as [H1|H1]; cbn.
  - destruct (Hg (total + n)) as [->|]; [|lia]. unfold checked_add. by rewrite Z.add_assoc.
  - destruct (Z.leb_spec (total + (n + k)) usize_max); [lia|done].
Qed.
Lemma adds_nil : adds Some 0.
Proof.
  split; [done|]. intros total. unfold checked_add. rewrite Z.add_0_r.
  destruct (Z.leb_spec total usize_max); [by left|by right].
Qed.
Lemma adds_all l : Forall (λ n, 0 ≤ n) l → adds (add_all l) (sum_of id l).
Proof.
  induction 1 as [|n l Hn _ IH]; [apply adds_nil|]. apply (adds_seq (λ total, checked_add usize_max total n) _ n); [|done].
  split; [done|]. by left.
Qed.
Lemma adds_each {A} (add : A → Z → option Z) f l :
  (∀ x, adds (add x) (f x)) → adds (add_each add l) (sum_of f l).
Proof. intros Ha. induction l as [|x l IH]; [apply adds_nil|]. by apply (adds_seq (add x)). Qed.

Ltac sizes := apply adds_all; repeat constructor; (apply len_nonneg || done).
Lemma adds_lineage l : adds (add_lineage l) (lineage_bytes l).
Proof.
  unfold add_lineage, lineage_bytes. rewrite sum_of_app.
  destruct (ConversationThreadLineage.origin l); (apply (adds_seq (add_all _)); [sizes|]);
    [apply adds_nil|sizes].
Qed.
Lemma adds_thread th : adds (add_thread th) (thread_bytes th).
Proof. apply (adds_seq (add_all _)); [sizes|apply adds_lineage]. Qed.
Lemma adds_citation c : adds (add_citation c) (cited_bytes c).
Proof. unfold add_citation, cited_bytes. destruct (ConversationCitation.title c); sizes. Qed.
Lemma adds_outcome o : adds (add_outcome o) (outcome_bytes o).
Proof. apply (adds_seq (add_all _)); [sizes|apply adds_each, adds_citation]. Qed.

(** The bound is on the number of bytes, however large. *)
Lemma within_bounds_spec md :
  conversation_fork_metadata_is_within_bounds md
  = negb (is_empty (ConversationForkMetadata.family_threads md))
    && (Z.of_nat (length (ConversationForkMetadata.family_threads md)) <=? 256)
    && (Z.of_nat (length (ConversationForkMetadata.inherited_assistant_outcomes md)) <=? 256)
    && (metadata_bytes md <=? 3145728).
Proof.
  unfold conversation_fork_metadata_is_within_bounds. f_equal.
  unfold conversation_fork_metadata_estimated_bytes, metadata_bytes.
  rewrite <- !Z.add_assoc.
  destruct (adds_seq _ _ _ _ (adds_lineage (ConversationForkMetadata.lineage md))
    (adds_seq _ _ _ _ (adds_each _ _ (ConversationForkMetadata.family_threads md) adds_thread)
      (adds_each _ _ (ConversationForkMetadata.inherited_assistant_outcomes md) adds_outcome))) as [_ Hs].
  destruct (Hs METADATA_OVERHEAD) as [->|Hb]; [|done].
  unfold checked_add. change MAX_CONVERSATION_FORK_METADATA_BYTES with 3145728.
  destruct (Z.leb_spec (METADATA_OVERHEAD + (lineage_bytes (ConversationForkMetadata.lineage md)
    + (sum_of thread_bytes (ConversationForkMetadata.family_threads md)
       + sum_of outcome_bytes (ConversationForkMetadata.inherited_assistant_outcomes md)))) usize_max); [done|].
  symmetry. apply Z.leb_gt. unfold usize_max, u64_max in *. lia.
Qed.

(** *** Loading metadata *)

(** The copied answers of a thread. *)
Definition copied_answers s (c : ThreadId) : list Message.t :=
  merge_sort WorkspaceMemory.sequence_le
    (filter (λ m, Message.thread_id m = c ∧ Message.role m = MessageRole.Assistant
                  ∧ ConversationMessageDerivation.is_original (Message.derivation m) = false)
       (InMemory.values (messages s))).
Lemma copied_answers_spec s h c :
  ws_inv (workspace s) h →
  StronglySorted (λ x y, Message.sequence x < Message.sequence y) (copied_answers s c) ∧
  ∀ m, m ∈ copied_answers s c ↔ messages s !! Message.id m = Some m ∧ Message.thread_id m = c ∧
    Message.role m = MessageRole.Assistant ∧ derived m = true.
Proof.
  intros Hw. split.
  - eapply (sorted_before s h c); [done| |].
    + apply NoDup_filter, (NoDup_fmap_1 Message.id), values_keys_NoDup. intros i x Hi.
      by destruct (stored_message _ _ _ _ (inv_messages _ _ Hw) Hi).
    + intros m [[Ht _] [i Hi]%elem_of_values]%list_elem_of_filter. split; [|done].
      destruct (stored_message _ _ _ _ (inv_messages _ _ Hw) Hi) as [-> _]. done.
  - intros m. unfold copied_answers.
    rewrite merge_sort_Permutation, list_elem_of_filter, elem_of_values. unfold derived.
    rewrite negb_true_iff. split.
    + intros [(? & ? & ?) [i Hi]]. split_and!; try done.
      by destruct (stored_message _ _ _ _ (inv_messages _ _ Hw) Hi) as [-> _].
    + intros (? & ? & ? & ?). split; [done|]. eauto.
Qed.

Definition family_sorted s (th : Thread.t) : list Thread.t :=
  merge_sort family_le (family s (ConversationThreadLineage.root_thread_id (Thread.lineage th))).

Lemma family_member s i th : threads s !! i = Some th → th ∈ family_sorted s th.
Proof.
  intros Hth. unfold family_sorted. rewrite merge_sort_Permutation. apply list_elem_of_filter.
  split; [done|]. apply elem_of_values. eauto.
Qed.

Lemma metadata_run s h i th :
  ws_inv (workspace s) h → conv_inv s → fork_inv s → threads s !! i = Some th →
  ∃ os, Forall2 (shows s) (copied_answers s i) os ∧
  let md := ConversationForkMetadata.mk (Thread.lineage th) os (family_sorted s th) in
  conversation_fork_metadata s i
  = if conversation_fork_metadata_is_within_bounds md then Ok md
    else Err (Internal (lit "conversation fork metadata exceeds its bound")).
Proof.
  intros Hw Hc Hf Hth. destruct (stored_depth _ _ _ _ Hw Hth) as (Hid & Hre & _ & _).
  destruct (collect_outcomes s (copied_answers s i)) as (os & Hos & HF).
  { intros x Hx. apply (copied_answers_spec _ _ _ Hw) in Hx as (Hx & _ & Hr & Hd).
    by eapply stored_outcome_Ok. }
  exists os. split; [done|]. intros md. unfold conversation_fork_metadata.
  rewrite (run_some _ _ _ _ Hth), (run_map _ _ _ _ Hre),
    (run_Ok _ _ _ (thread_lineage_Ok _ _ _ _ Hw Hc Hth)).
  fold (family_sorted s th) (copied_answers s i).
  assert (Hfam : ∀ x, x ∈ family_sorted s th → ∃ j, threads s !! j = Some x ∧
    ConversationThreadLineage.root_thread_id (Thread.lineage x)
    = ConversationThreadLineage.root_thread_id (Thread.lineage th)).
  { intros x. unfold family_sorted. rewrite merge_sort_Permutation.
    intros [Hx [j Hj]%elem_of_values]%list_elem_of_filter. eauto. }
  rewrite run_check, (run_Ok _ _ _ Hos), run_check.
  - fold md. by destruct (conversation_fork_metadata_is_within_bounds md).
  - apply existsb_false. intros k Hk. apply list_elem_of_fmap in Hk as ([k' j] & -> & Hk%elem_of_map_to_list).
    destruct (fi_outcome _ Hf _ _ Hk) as (x & Hx & _ & Hr). cbn. rewrite Hx, Hr.
    by rewrite (bool_decide_eq_true_2 (MessageRole.Assistant = _)), andb_false_r.
  - rewrite !orb_false_iff. split_and!.
    + pose proof (family_member _ _ _ Hth) as Hin. apply not_true_iff_false. intros E%is_empty_spec.
      rewrite E in Hin. by apply not_elem_of_nil in Hin.
    + unfold family_sorted. rewrite merge_sort_Permutation. apply Z.ltb_ge, Hf.
    + apply existsb_false. intros x (j & Hj & Er)%Hfam.
      destruct (root_project _ _ _ _ Hw Hc Hth) as (r1 & H1 & E1), (root_project _ _ _ _ Hw Hc Hj) as (r2 & H2 & E2).
      rewrite Er, H1 in H2. injection H2 as <-. rewrite <- E1, <- E2, bool_decide_eq_true_2 by done.
      destruct (stored_depth _ _ _ _ Hw Hj) as (_ & -> & _). by rewrite (thread_lineage_Ok _ _ _ _ Hw Hc Hj).
Qed.

(** *** A new fork *)

Lemma shows_repeats s l os os' : Forall2 (shows s) l os → Forall2 (repeats s) l os' → os = os'.
Proof.
  intros H. revert os'. induction H as [|x o l os (i & u & Hi & Hu & _ & ->) _ IH]; intros os' H'.
  - by apply Forall2_nil_inv_l in H' as ->.
  - apply Forall2_cons_inv_l in H' as (o' & k & (j & v & Hj & Hv & ->) & Hk & ->).
    assert (j = i) as -> by congruence. assert (v = u) as -> by congruence. f_equal. by apply IH.
Qed.
Lemma filter_sorted (P : Message.t → Prop) `{∀ x, Decision (P x)} l :
  StronglySorted (λ x y, Message.sequence x < Message.sequence y) l →
  StronglySorted (λ x y, Message.sequence x < Message.sequence y) (filter P l).
Proof.
  induction 1 as [|x l Hl IH Hx]; [constructor|]. rewrite filter_cons.
  destruct (decide (P x)); [|done]. constructor; [done|]. rewrite Forall_forall in *.
  intros y [_ Hy]%list_elem_of_filter. by apply Hx.
Qed.

Lemma new_answers s h c ms :
  ws_inv (workspace s) h → copies s c ms →
  copied_answers s c = filter (λ x, Message.role x = MessageRole.Assistant) ms.
Proof.
  intros Hw (_ & Hn & Hm). destruct (copied_answers_spec s h c Hw) as [Hs He]. apply sorted_unique; [done| |].
  - by apply filter_sorted, (numbered_sorted 1).
  - intros x. rewrite He, list_elem_of_filter, Hm. naive_solver.
Qed.

Lemma new_family s s' h plan ctx :
  fork_created s s' plan ctx → ws_inv (workspace s) h →
  family_sorted s' (ConversationForkPlan.child_thread plan)
  ≡ₚ family s (ConversationThreadLineage.root_thread_id (Thread.lineage (ConversationForkPlan.child_thread plan)))
     ++ [ConversationForkPlan.child_thread plan].
Proof.
  intros Hcr Hw. unfold family_sorted. rewrite merge_sort_Permutation. unfold family, InMemory.values.
  destruct (fc_fresh _ _ _ _ Hcr) as (Hn & _). rewrite (fc_threads _ _ _ _ Hcr), map_to_list_insert by done.
  rewrite fmap_cons, filter_cons. cbn [snd]. rewrite decide_True by done. apply Permutation_cons_append.
Qed.

Lemma new_metadata s h s' plan ctx :
  ws_inv (workspace s) h → fork_created s s' plan ctx → ∃ md,
  conversation_fork_metadata s' (Thread.id (ConversationForkPlan.child_thread plan)) = Ok md ∧
  ConversationForkMetadata.lineage md = Thread.lineage (ConversationForkPlan.child_thread plan) ∧
  ConversationForkPlan.child_thread plan ∈ ConversationForkMetadata.family_threads md.
Proof.
  intros Hw Hcr. pose proof (others_write_inv _ _ _ (fc_write _ _ _ _ Hcr) Hw) as Hw'.
  destruct (metadata_run s' h _ _ Hw' (fc_inv _ _ _ _ Hcr) (fc_forks _ _ _ _ Hcr) (fc_child _ _ _ _ Hcr))
    as (os & Hos & Hrun).
  destruct (fc_budget _ _ _ _ Hcr) as (os' & Hos' & Hb).
  rewrite (new_answers _ _ _ _ Hw' (fc_copies _ _ _ _ Hcr)) in Hos.
  pose proof (shows_repeats _ _ _ _ Hos Hos') as <-.
  pose proof (new_family _ _ _ _ _ Hcr Hw) as Hfam.
  set (md := ConversationForkMetadata.mk _ _ _) in Hrun. exists md. split_and!; [|done|].
  - rewrite Hrun. assert (E : conversation_fork_metadata_is_within_bounds md = true); [|by rewrite E].
    rewrite <- Hb, !within_bounds_spec. unfold md, metadata_bytes.
    cbn [ConversationForkMetadata.family_threads ConversationForkMetadata.lineage
         ConversationForkMetadata.inherited_assistant_outcomes].
    rewrite (sum_of_perm thread_bytes _ _ Hfam), (Permutation_length Hfam). f_equal. f_equal. f_equal.
    apply Permutation_length in Hfam. rewrite length_app in Hfam. cbn [length] in Hfam.
    destruct (family_sorted s' _), (family s _); cbn in Hfam |- *; done || lia.
  - cbn. rewrite Hfam. apply elem_of_app. right. constructor.
Qed.

(** C20. The metadata of a thread is exact. Loading it answers with its ancestry, with the
    whole family ordered by depth, creation and identifier, and with one outcome for
    each copied answer, in order: the model, citations and usage of the completed turn
    that gave the answer, found through all the copies of it. It is refused only when it
    would show more than 256 outcomes or 3 MiB, and never for a fork that was just
    created. *)
Theorem fork_metadata_exact w :
  conv_reachable w →
  let s := cw_store w in
  (∀ i, threads s !! i = None → ForkMemory.load_conversation_fork_metadata i s = (s, Err NotFound)) ∧
  (∀ i th, threads s !! i = Some th → ∃ answers outcomes family_threads,
     StronglySorted (λ x y, Message.sequence x < Message.sequence y) answers ∧
     (∀ m, m ∈ answers ↔ messages s !! Message.id m = Some m ∧ Message.thread_id m = i ∧
        Message.role m = MessageRole.Assistant ∧ derived m = true) ∧
     Forall2 (shows s) answers outcomes ∧
     family_threads ≡ₚ family s (ConversationThreadLineage.root_thread_id (Thread.lineage th)) ∧
     StronglySorted family_le family_threads ∧
     let md := ConversationForkMetadata.mk (Thread.lineage th) outcomes family_threads in
     ForkMemory.load_conversation_fork_metadata i s
     = (s, if (Z.of_nat (length outcomes) <=? 256) && (metadata_bytes md <=? 3 * 1024 * 1024) then Ok md
           else Err (Internal (lit "conversation fork metadata exceeds its bound")))) ∧
  (∀ plan s1 res, conv_typed (OFork plan) →
     ForkMemory.reserve_conversation_fork plan s = (s1, Ok res) →
     ConversationForkReservation.created res = true → ∃ md,
     ForkMemory.load_conversation_fork_metadata (Thread.id (ConversationForkPlan.child_thread plan)) s1
       = (s1, Ok md) ∧
     ConversationForkMetadata.lineage md = Thread.lineage (ConversationForkPlan.child_thread plan) ∧
     ConversationForkPlan.child_thread plan ∈ ConversationForkMetadata.family_threads md).
Proof.
  intros Hr%conv_reachable_inv. cbv zeta. pose proof (wi_workspace _ Hr) as Hw.
  pose proof (wi_store _ Hr) as Hc. pose proof (wi_forks _ Hr) as Hf.
  unfold ForkMemory.load_conversation_fork_metadata. split_and!.
  - intros i Hi. rewrite self_run. unfold lift, conversation_fork_metadata. by rewrite Hi.
  - intros i th Hth. destruct (metadata_run _ _ _ _ Hw Hc Hf Hth) as (os & Hos & Hrun). cbv zeta in Hrun.
    destruct (copied_answers_spec _ _ i Hw) as [Hs He].
    exists (copied_answers (cw_store w) i), os, (family_sorted (cw_store w) th). split_and!; try done.
    + apply merge_sort_Permutation.
    + apply Sorted_StronglySorted; [apply family_le_trans|]. apply Sorted_merge_sort, family_le_total.
    + rewrite self_run. unfold lift. rewrite Hrun, within_bounds_spec. f_equal.
      cbn [ConversationForkMetadata.family_threads ConversationForkMetadata.inherited_assistant_outcomes].
      rewrite (proj2 (Z.leb_le (Z.of_nat (length (family_sorted _ _))) 256)).
      * pose proof (family_member _ _ _ Hth) as Hin.
        destruct (family_sorted (cw_store w) th); [by apply not_elem_of_nil in Hin|done].
      * unfold family_sorted. rewrite merge_sort_Permutation. apply Hf.
  - intros plan s1 res [Hty _] H Hcr. apply (fork_ok _ _ _ _ _ Hw Hc Hf Hty) in H
      as [[_ H]|[(_ & rec & F & _ & _ & _ & [= ->])|[(k & rec & d & F & _ & _ & _ & [= ->])|(ctx & F & Hnew & _)]]];
      [done..|]. destruct (new_metadata _ _ _ _ _ Hw Hnew) as (md & Hmd & ? & ?).
    exists md. rewrite self_run. unfold lift. by rewrite Hmd.
Qed.
End metadata.

(** ** A fork

    The conversation of [ConversationSafety], branched after its answer. *)

#[local] Existing Instance UtcCalendar.chrono.
#[local] Existing Instance demo_sha.
#[local] Existing Instance demo_json.
#[local] Existing Instance demo_unicode.
#[local] Existing Instance demo_urls.

Definition demo_child : Thread.t :=
  Thread.mk (mk_id (lit "thread-2")) (mk_id (lit "project-1")) (lit "Plan") ThreadState.Open
    (ConversationThreadLineage.mk (mk_id (lit "thread-1"))
       (ConversationThreadOrigin.Fork (mk_id (lit "thread-1")) (mk_id (lit "turn-1"))
          (mk_id (lit "message-2")) ConversationForkKind.Branch) 1) 0 30 30.
Definition demo_copies : list Message.t :=
  [Message.mk (mk_id (lit "message-3")) (mk_id (lit "thread-2")) 1 MessageRole.User (lit "Hello")
     MessageState.Active
     (ConversationMessageDerivation.Fork ConversationMessageDerivationKind.ContextCopy
        (mk_id (lit "message-1")) (mk_id (lit "turn-1")) (Some 1)) 0 30 30;
   Message.mk (mk_id (lit "message-4")) (mk_id (lit "thread-2")) 2 MessageRole.Assistant
     (lit "Hi there") MessageState.Active
     (ConversationMessageDerivation.Fork ConversationMessageDerivationKind.SourceAssistantCopy
        (mk_id (lit "message-2")) (mk_id (lit "turn-1")) None) 0 30 30].
Definition demo_plan : ConversationForkPlan.t :=
  ConversationForkPlan.mk
    (MutationCommand.mk CONVERSATION_BRANCH_COMMAND_SCOPE (lit "fork-1") (repeat 9 32))
    (mk_id (lit "turn-1")) 2 demo_child demo_copies None.
Definition demo_ack : MutationCommand.t := MutationCommand.mk ACK_SCOPE (lit "ack-1") (repeat 5 32).
Definition demo_ack_op : conv_op := OAcknowledge demo_ack (mk_id (lit "thread-2")) 0.
Definition demo_forked : CS := demo_conversation (demo_ops ++ [OFork demo_plan]).

Lemma demo_plan_typed : conv_typed (OFork demo_plan).
Proof.
  split; [split; [typed_op|]|by intros tp [=]].
  intros m Hm. cbn in Hm. repeat (apply elem_of_cons in Hm as [->|Hm]; [typed_op|]).
  by apply not_elem_of_nil in Hm.
Qed.
Lemma demo_forked_reachable : ∃ h l, conv_reachable (ConvWorld demo_forked h l).
Proof.
  apply demo_conversation_reachable, Forall_app. split; [exact demo_typed|].
  apply Forall_singleton, demo_plan_typed.
Qed.

Lemma fork_command_once_witness :
  ∃ F, ForkMemory.reserve_conversation_fork demo_plan
      (demo_conversation (demo_ops ++ [OFork demo_plan; demo_ack_op]))
    = (demo_conversation (demo_ops ++ [OFork demo_plan; demo_ack_op]),
       Ok (ConversationForkReservation.mk F None false false)) ∧
    ConversationForkSnapshot.messages F = demo_copies.
Proof.
  destruct (demo_conversation_reachable demo_ops demo_typed) as (h & l & Hr).
  destruct (ForkMemory.reserve_conversation_fork demo_plan (demo_conversation demo_ops)) as [s1 [res|e]] eqn:E;
    [|apply (f_equal snd) in E; vm_compute in E; discriminate E].
  assert (Ec : ConversationForkReservation.created res = true).
  { apply (f_equal snd) in E. vm_compute in E. injection E as <-. reflexivity. }
  assert (Es : s1 = demo_forked).
  { apply (f_equal fst) in E. vm_compute in E. vm_compute. congruence. }
  destruct (after_ops_steps [demo_ack_op] s1 h l) as [l' Hs]; [by repeat constructor|].
  destruct (fork_command_once _ _ _ _ _ Hr demo_plan_typed E Hs) as (Hnew & F & HF & Hrep & _).
  destruct (Hnew Ec) as (_ & Hms & Hctx). exists F.
  replace (demo_conversation (demo_ops ++ [OFork demo_plan; demo_ack_op])) with (after_ops [demo_ack_op] s1)
    by (rewrite Es; vm_compute; reflexivity).
  split; [rewrite Hctx in Hrep; exact Hrep|]. rewrite (sf_messages _ _ HF), Hms. reflexivity.
Defined.

Lemma fork_store_consistent_witness :
  ∃ F, ForkMemory.load_conversation_fork_by_command (ConversationForkPlan.command demo_plan) demo_forked
    = (demo_forked, Ok (Some F)).
Proof.
  destruct demo_forked_reachable as (h & l & Hr).
  destruct (proj1 (fork_store_consistent _ Hr) (CONVERSATION_BRANCH_COMMAND_SCOPE, lit "fork-1")
    (fork_record demo_plan)) as (F & HF & _).
  { vm_compute. reflexivity. }
  exists F. exact HF.
Defined.


Lemma fork_metadata_exact_witness :
  ∃ md, ForkMemory.load_conversation_fork_metadata (mk_id (lit "thread-2")) demo_forked
      = (demo_forked, Ok md) ∧ demo_child ∈ ConversationForkMetadata.family_threads md.
Proof.
  destruct (demo_conversation_reachable demo_ops demo_typed) as (h & l & Hr).
  destruct (ForkMemory.reserve_conversation_fork demo_plan (demo_conversation demo_ops)) as [s1 [res|e]] eqn:E;
    [|apply (f_equal snd) in E; vm_compute in E; discriminate E].
  assert (Ec : ConversationForkReservation.created res = true).
  { apply (f_equal snd) in E. vm_compute in E. injection E as <-. reflexivity. }
  assert (Es : s1 = demo_forked).
  { apply (f_equal fst) in E. vm_compute in E. vm_compute. congruence. }
  destruct (proj2 (proj2 (fork_metadata_exact _ Hr)) demo_plan s1 res demo_plan_typed E Ec) as (md & Hmd & _ & Hin).
  rewrite Es in Hmd. exists md. split; [exact Hmd|exact Hin].
Defined.
